(* ===== verification/_CoqProject ===== *)
-Q . S2P
Prelude.v
GoNum.v
GoText.v
GoFmt.v
GoBase64.v
Retry.v
HttpClient.v
HttpRequest.v
Pagination.v
Respond.v
OidcTypes.v
Introspection.v
Lifecycle.v
Oidc.v
Sessions.v
SessionLocks.v
OidcSetup.v
Authorization.v
CsrfCors.v
LoginFlow.v
RateLimit.v
Pipeline.v
TokenManager.v
Secure.v
Fcm.v
GoExpand.v
ConfigLoader.v
Progress.v
Healthcheck.v
Database.v
HttpServer.v
SessionSafety.v
Spreadsheet.v
Temporal.v
Telemetry.v
Logger.v
Terminal.v
