(* ===== verification/Prelude.v ===== *)
(** * gobox: a verification development

    gobox is a collection of Go packages for services: authentication with
    server-side sessions, HTTP middleware, an HTTP client with retries, token
    handling for calls between services, pagination, rate limiting,
    configuration with reload, health checks, push notifications. This library
    models the packages that decide something and proves what makes them
    correct. Definitions carry the names of the source.

    ** The parts and the files

    The language and its standard library:
    - this file: Go's error values ([errors.New], [fmt.Errorf] with [%w],
      [errors.Join], [errors.Is]), results, automation, shared lemmas;
    - [GoNum]: wrapping 64-bit integers, durations, instants, binary64;
    - [GoText]: strings as bytes, UTF-8, package strings and strconv;
    - [GoFmt]: padding, quoting, fixed-point numbers, durations as text, paths;
    - [GoBase64], [GoExpand]: raw URL base64 and [os.Expand], as used.

    Leaf packages:
    - [Retry]: retry/retry.go; [HttpClient]: httpclient/client.go (retrying,
      Retry-After, response decoding), which runs on [Retry]; [HttpRequest]: the
      request builder of client.go, with the query encoding of net/url;
    - [Pagination]: the pagination package, down to the calls made on gorm;
    - [Respond]: httpserver/respond, and the interface [GinContext] to the
      handler context of the gin framework that every handler is written on;
    - [Secure]: secure/aesgcm.go; [Fcm]: the fcm package;
    - [TokenManager]: oauth2/token_manager.go, on [HttpClient];
    - [ConfigLoader]: config/viper.go, on [GoExpand];
    - [Progress]: cli/progress.go; [Healthcheck]: healthcheck/check.go;
    - [Database]: Modules [Gorm], [Sql] and [Migrate] for database/gorm/gorm.go,
      database/sql/sql.go and database/migrate/migrator.go;
    - [HttpServer]: httpserver/download_file.go, and Module [Gin] for gin.go;
    - [Spreadsheet]: spreadsheet/excelize.go, in a small monad of its own for
      calls that may fail and leave a log;
    - [Temporal], [Telemetry]: the temporal and telemetry packages;
    - [Logger]: the logger package, and Module [Legacy] for logger/zerolog;
    - [Terminal]: cli/print.go.

    Authentication, each file on the ones before it:
    - [OidcTypes]: oidcauth/types.go, helper.go, cache.go (the class [Cache]
      and its in-memory implementation);
    - [Introspection]: oidcauth/introspection.go; [Lifecycle]: its cleanup
      goroutine and [Close], as a step relation;
    - [Oidc]: oidcauth/oidc.go, over the class [Cache] and [Introspection];
    - [Sessions]: oidcauth/session.go, session_manager.go, flow.go, cleanup.go,
      over the class [SessionStore] and its contract [SessionStoreOk];
      [OidcSetup]: how a flow and a manager are built; [SessionLocks]: the
      same race with the waiting for the row's lock written out; [SessionSafety]:
      histories of manager calls, and a store that loses a commit;
    - [Authorization]: httpserver/middlewares/authorization.go, over the class
      [TokenVerifier], which [Oidc] and [Sessions] implement;
    - [CsrfCors], [LoginFlow], [RateLimit]: csrf.go and cors.go, oidcauth.go and
      rate_limit.go of httpserver/middlewares; the login flow runs on [Sessions];
    - [Pipeline]: those middlewares mounted one behind the other on a route.

    ** How state and operations correspond

    A struct is a record with the source's fields; a method is a function from
    the record to the record and the results, in the source's order of effects.
    Handlers transform the handler context, known by the laws of
    [GinContextOk] and instantiated by [test_context]. Instants, random values
    and the answers of other systems are arguments of the operation that reads
    them, so that nothing is assumed about clocks beyond what a theorem says.
    Where the code is concurrent, an atomic step is what it does under one lock
    or between two, goroutines are values that say where they stand, and a
    theorem about [run] or a reachability relation holds for every interleaving:
    [Sessions.resolve_step] (requests racing to refresh one session, [WithLock]
    taken whole), [SessionLocks.lock_step] (the same, call by call under the lock,
    where a request that has to wait has no step; [lock_steps_atomic] relates them),
    [Introspection.reachable] (shared requests, deliveries, sweeps),
    [ConfigLoader.exec], [Progress.exec], [Healthcheck.step], [Lifecycle.steps].
    Where the code shares a value by pointer and writes through it, the values
    live in a heap ([Temporal]). A table guarded by
    one mutex for the whole of each operation ([RateLimit], [OidcTypes],
    [Respond]'s resolver) is a function of its state.

    ** What the theorems show

    - Sessions: [Resolve] decides by one rule over any store that keeps its
      contract and stores what it answers; a session's ceiling; racing requests
      make at most one successful grant and never present a spent refresh
      token, and every race ends, without a deadlock; after any history of calls each stored session is filed
      under its identity with the ceiling its dates give; the cleanup job removes
      exactly the expired sessions.
    - Tokens: what an accepted token passed, what every rejection says, the
      window in which a cached answer may be stale, the cache's refinement of a
      plain map with expiry; [Close] is safe and returns under any interleaving.
    - Middleware: who gets past authorization and the role checks, alone, over the
      session manager, and behind the other middlewares of a route; independence
      of map order; the double-submit and cross-origin decisions; the login state's round trip and unforgeability
      up to HMAC; what login, refresh and logout do, and that a login
      ends on the frontend; the isolation of rate
      limits and the bound on their table.
    - Clients: the exact schedule of calls and waits of [Do] and [WithRetry];
      when a service token is fetched and reused, and that it is the one
      the issuer granted; the one request that is sent
      for what was asked, its query read back.
    - Files and lines: a CSV text read back by the grammar of RFC 4180, a workbook
      cell by cell, the one-line header of a download, the columns of a log line
      and the tree of an error's details.
    - Set-up: telemetry is all or nothing, with what remains of it after a failure
      and after its shutdown; activity options own
      their policy unless they are handed one, a logger has a valid level or is
      not made, a server that listens was configured to.
    - Pagination: pages tile the result set; the text of a condition holds no value
      and its arguments are the values, of which a [gorm.Expr] is code that gorm
      writes into the statement; what was searched for is read back from its LIKE
      pattern, whatever a database makes of the pattern.
    - Notifications: truncation at character boundaries, the classes of answers.
    - Configuration: no channel is misused in any interleaving, reloads are
      debounced and end with [Stop], the validator guards reloads.
    - Terminal slots are exclusive, and a call of [Stop] comes to its end exactly when
      [Start] came first and no other call closes the channel at the same time; a
      health report is complete.
    - Databases: the schedule of connection attempts, queries that are all or
      nothing, handles closed on failure, seed files run in order up to the first
      obstacle.

    Lemmas that end in [_witness] apply a theorem to concrete values.

    ** Fuel and bounds

    [Retry.Do_loop] gets [maxAttempts] turns, the most the loop can make.
    [GoText.runes_go] and [GoExpand.Expand_go] get a turn per byte and consume
    at least one. [ConfigLoader.reload_go] gets the four steps a [Reload] can
    take, [Database.Gorm.open_loop] a turn per permitted attempt;
    [GoFmt.split_go] and [Logger.find_go] a turn per byte, of which each takes at
    least one. Everything else is structural. Integers wrap at 64 bits wherever the
    code computes with them.

    ** What is not modelled

    Third-party code is a parameter: gin, gorm, go-oidc and oauth2, viper, the
    rate package's bucket, go-spin, excelize, zerolog, fatih/color, x/text,
    go-figure, goterm, the SDKs of OpenTelemetry and Temporal; so are cryptography
    (HMAC, AES-GCM, SHA-256), codecs (JSON, gzip, brotli), the parsing of URLs, the
    layout of times and the Unicode tables. What is documented of them is stated
    as laws where a theorem needs it ([url_laws] of [LoginFlow], [WorkbookOk] of
    [Spreadsheet]), with an instance. A goroutine that only waits for a result
    ([Spreadsheet.Write]) is its result or the end of the context.

    Every package of the repository with code of its own is modelled; the doc.go
    files are comments. What could still be added: the text of an XLSX file,
    which excelize writes; gin's routing; the conditions that gorm turns into
    SQL beyond the calls made on it; faults of a session store other than a lost
    commit. *)
From stdpp Require Export base gmap strings list numbers option tactics.
From Stdlib Require Export ZArith Lia Bool.

(** ** Error values

    A Go error value is a node with an identity (its pointer, or the label of
    the call site for values made by [fmt.Errorf]) and the errors it unwraps
    to: none for [errors.New], the operands of the [%w] verbs for
    [fmt.Errorf], the arguments of [errors.Join]. *)
Inductive error : Type := Error (ident : string) (unwrap : list error).

Definition err_ident (e : error) : string := let 'Error i _ := e in i.

(** [errors.New]: a value that unwraps to nothing. *)
Definition errors_New (ident : string) : error := Error ident [].

(** [errors.Is(e, target)]: [target] is [e] itself or one of the errors [e]
    unwraps to, depth first. *)
Fixpoint errors_Is (e target : error) {struct e} : bool :=
  let 'Error i us := e in
  String.eqb i (err_ident target) || existsb (fun u => errors_Is u target) us.

(** The outcome of a Go function that returns [(T, error)]. *)
Inductive result (A : Type) : Type :=
| Ok (a : A)
| Fail (e : error).
Arguments Ok {A} a.
Arguments Fail {A} e.

#[export] Instance result_ret : MRet result := fun A a => Ok a.
#[export] Instance result_bind : MBind result := fun A B f r =>
  match r with Ok a => f a | Fail e => Fail e end.
#[export] Instance result_fmap : FMap result := fun A B f r =>
  match r with Ok a => Ok (f a) | Fail e => Fail e end.

Definition is_Ok {A} (r : result A) : bool :=
  match r with Ok _ => true | Fail _ => false end.

(** [r] failed with an error [errors.Is] recognises as [target]. *)
Definition fails_with {A} (r : result A) (target : error) : bool :=
  match r with Ok _ => false | Fail e => errors_Is e target end.

(** Replace the error of a failed call, as [if err != nil { return .. }]. *)
Definition map_err {A} (f : error -> error) (r : result A) : result A :=
  match r with Ok a => Ok a | Fail e => Fail (f e) end.

(** ** Automation *)

Create HintDb gobox discriminated.
Create Rewrite HintDb gobox_simpl.

(** Split on the scrutinee of a [match] or [if] of the goal, keeping the
    equation. *)
Ltac split_match :=
  match goal with
  | |- context [match ?x with _ => _ end] =>
      lazymatch x with
      | context [match _ with _ => _ end] => fail
      | _ => let E := fresh "E" in destruct x eqn:E
      end
  end.

(** The same on a hypothesis. *)
Ltac split_match_in H :=
  match type of H with
  | context [match ?x with _ => _ end] =>
      lazymatch x with
      | context [match _ with _ => _ end] => fail
      | _ => let E := fresh "E" in destruct x eqn:E
      end
  end.

(** Turn the boolean facts of the context into propositions. *)
Ltac bool_to_prop :=
  repeat match goal with
  | H : _ && _ = true |- _ => apply andb_true_iff in H; destruct H
  | H : _ || _ = false |- _ => apply orb_false_iff in H; destruct H
  | H : _ || _ = true |- _ => apply orb_true_iff in H
  | H : _ && _ = false |- _ => apply andb_false_iff in H
  | H : negb _ = true |- _ => apply negb_true_iff in H
  | H : negb _ = false |- _ => apply negb_false_iff in H
  | H : (_ =? _)%Z = true |- _ => apply Z.eqb_eq in H
  | H : (_ =? _)%Z = false |- _ => apply Z.eqb_neq in H
  | H : (_ <? _)%Z = true |- _ => apply Z.ltb_lt in H
  | H : (_ <? _)%Z = false |- _ => apply Z.ltb_ge in H
  | H : (_ <=? _)%Z = true |- _ => apply Z.leb_le in H
  | H : (_ <=? _)%Z = false |- _ => apply Z.leb_gt in H
  | H : (_ =? _)%string = true |- _ => apply String.eqb_eq in H
  | H : (_ =? _)%string = false |- _ => apply String.eqb_neq in H
  end.

(** Case analysis of the integer comparisons of the goal, the inner ones
    first, keeping each as an inequality. *)
Ltac case_ltb :=
  repeat (match goal with
          | |- context [(?a <? ?b)%Z] =>
              lazymatch a with context [match _ with _ => _ end] => fail | _ => idtac end;
              lazymatch b with context [match _ with _ => _ end] => fail | _ => idtac end;
              destruct (Z.ltb_spec a b)
          end; simpl).

(** Case analysis of a whole decision tree. *)
Ltac split_all := repeat (split_match; simplify_eq/=); bool_to_prop.

(** ** Shared lemmas *)

Lemma errors_Is_refl (e : error) : errors_Is e e = true.
Proof. destruct e as [i us]. simpl. by rewrite String.eqb_refl. Qed.

(** Wrapping keeps every error of the chain visible. *)
Lemma errors_Is_wrap (i : string) (us : list error) (u target : error) :
  u ∈ us -> errors_Is u target = true -> errors_Is (Error i us) target = true.
Proof.
  intros Hin Hu. simpl. apply orb_true_iff. right.
  apply existsb_exists. exists u. split; [by apply list_elem_of_In | done].
Qed.

Lemma errors_Is_wrap1 (i : string) (u target : error) :
  errors_Is u target = true -> errors_Is (Error i [u]) target = true.
Proof. intros H. eapply errors_Is_wrap; [|exact H]. set_solver. Qed.

Lemma errors_Is_wrap2_l (i : string) (u v target : error) :
  errors_Is u target = true -> errors_Is (Error i [u; v]) target = true.
Proof. intros H. eapply errors_Is_wrap; [|exact H]. set_solver. Qed.

#[export] Hint Resolve errors_Is_refl errors_Is_wrap1 errors_Is_wrap2_l : gobox.

Lemma string_app_nil_r (s : string) : s +:+ "" = s.
Proof. induction s as [|c s IH]; [done|]. change (String c (s +:+ "") = String c s). by rewrite IH. Qed.

Lemma string_app_assoc (s t u : string) : s +:+ (t +:+ u) = (s +:+ t) +:+ u.
Proof. induction s as [|c s IH]; [done|]. change (String c (s +:+ (t +:+ u)) = String c ((s +:+ t) +:+ u)). by rewrite IH. Qed.

Lemma string_app_nil_l (s : string) : "" +:+ s = s.
Proof. done. Qed.

Lemma string_app_cons (c : Ascii.ascii) (s t : string) : String c s +:+ t = String c (s +:+ t).
Proof. done. Qed.

Lemma string_length_app (s t : string) :
  String.length (s +:+ t) = (String.length s + String.length t)%nat.
Proof. induction s as [|c s IH]; [done|]. rewrite string_app_cons. simpl. by rewrite IH. Qed.

Lemma string_app_eq_nil (s t : string) : s +:+ t = "" <-> s = "" /\ t = "".
Proof. destruct s; rewrite ?string_app_cons; naive_solver. Qed.

#[export] Hint Rewrite string_app_nil_r string_length_app string_app_cons : gobox_simpl.

Lemma string_eqb_spec (s t : string) : reflect (s = t) (String.eqb s t).
Proof. destruct (String.eqb s t) eqn:E; bool_to_prop; by constructor. Qed.

Lemma bool_decide_string_eqb (s t : string) : String.eqb s t = bool_decide (s = t).
Proof. destruct (string_eqb_spec s t); [by rewrite bool_decide_true|by rewrite bool_decide_false]. Qed.

(** [existsb] as a decision about membership. *)
Lemma existsb_string_elem (s : string) (l : list string) :
  existsb (String.eqb s) l = true <-> s ∈ l.
Proof.
  rewrite existsb_exists. setoid_rewrite <- list_elem_of_In.
  split; [intros (x & Hx & <-%String.eqb_eq); done | intros H; exists s; by rewrite String.eqb_refl].
Qed.

Lemma surjective_pairing_3 {A B C} (p : A * B * C) : p = (p.1.1, p.1.2, p.2).
Proof. by destruct p as [[a b] c]. Qed.
