(* ===== verification/GoNum.v ===== *)
(** * Machine integers, durations, instants and floats of Go

    [int] and [int64] are 64-bit two's complement integers that wrap;
    [time.Duration] is an int64 count of nanoseconds; [time.Time] is the
    count of nanoseconds since its zero value (January 1, year 1, UTC);
    [float64] is IEEE 754 binary64, of which the code uses conversion from
    integers, division, ceiling, truncation and a sign test. *)
From S2P Require Import Prelude.
Local Open Scope Z_scope.

(** ** int64 *)
Definition min_int64 : Z := - 2 ^ 63.
Definition max_int64 : Z := 2 ^ 63 - 1.
Definition in_int64 (z : Z) : Prop := min_int64 <= z <= max_int64.
Definition in_int64b (z : Z) : bool := (min_int64 <=? z) && (z <=? max_int64).

(** The int64 an arithmetic result wraps to. *)
Definition wrap64 (z : Z) : Z := (z + 2 ^ 63) mod 2 ^ 64 - 2 ^ 63.

Definition add64 (a b : Z) : Z := wrap64 (a + b).
Definition sub64 (a b : Z) : Z := wrap64 (a - b).
Definition mul64 (a b : Z) : Z := wrap64 (a * b).

(** ** time.Duration *)
Definition Nanosecond : Z := 1.
Definition Microsecond : Z := 1000.
Definition Millisecond : Z := 1000000.
Definition Second : Z := 1000000000.
Definition Minute : Z := 60 * Second.
Definition Hour : Z := 60 * Minute.

(** ** time.Time *)
Definition zero_time : Z := 0.
Definition IsZero (t : Z) : bool := t =? zero_time.

(** Seconds from the zero time to the Unix epoch. *)
Definition unixToInternal : Z := 62135596800.

(** [time.Unix(sec, 0)] and [t.Unix()]: the second counter is an int64. *)
Definition time_Unix (sec : Z) : Z := add64 sec unixToInternal * Second.
Definition Unix (t : Z) : Z := sub64 (t / Second) unixToInternal.

Definition Before (t u : Z) : bool := t <? u.
Definition After (t u : Z) : bool := u <? t.

(** [t.Add(d)]. The second counter of a time spans 292 billion years, so the
    sum is exact for every instant the code handles. *)
Definition time_Add (t d : Z) : Z := t + d.

(** [t.Sub(u)] saturates at the extreme durations. *)
Definition time_Sub (t u : Z) : Z := Z.max min_int64 (Z.min max_int64 (t - u)).

(** ** float64 *)

(** A finite float is [m * 2^e]; the sign of zero plays no part here. *)
Inductive float64 : Type :=
| Finite (m e : Z)
| Inf (neg : bool)
| NaN.

(** Round half to even of the rational [n / d] with [0 < d]. *)
Definition round_half_even (n d : Z) : Z :=
  let q := n / d in
  let r := n mod d in
  if 2 * r <? d then q
  else if d <? 2 * r then q + 1
  else if Z.even q then q else q + 1.

(** The exponent of the binary64 grid around the positive rational [n / d]:
    with [k = grid_exp n d] the scaled value [n / (d * 2^k)] lies in
    [2^52, 2^53). *)
Definition grid_exp (n d : Z) : Z :=
  let g := Z.log2 n - Z.log2 d - 52 in
  if n * 2 ^ (Z.max 0 (- g)) <? d * 2 ^ 52 * 2 ^ (Z.max 0 g) then g - 1 else g.

(** The binary64 value nearest to [n / d], for [0 <= n] and [0 < d] in the
    normal range of binary64 (quotients of 64-bit integers are). *)
Definition round_pos (n d : Z) : float64 :=
  if n =? 0 then Finite 0 0
  else
    let k := grid_exp n d in
    Finite (round_half_even (n * 2 ^ (Z.max 0 (- k))) (d * 2 ^ (Z.max 0 k))) k.

Definition fneg (f : float64) : float64 :=
  match f with Finite m e => Finite (- m) e | Inf b => Inf (negb b) | NaN => NaN end.

Definition round_q (n d : Z) : float64 :=
  if n <? 0 then fneg (round_pos (- n) d) else round_pos n d.

(** [float64(z)] for an integer. *)
Definition float_of_int (z : Z) : float64 := round_q z 1.

(** [a / b]. *)
Definition fdiv (a b : float64) : float64 :=
  match a, b with
  | NaN, _ | _, NaN => NaN
  | Inf _, Inf _ => NaN
  | Inf s, Finite m _ => Inf (xorb s (m <? 0))
  | Finite _ _, Inf _ => Finite 0 0
  | Finite m e, Finite m' e' =>
      if m' =? 0 then (if m =? 0 then NaN else Inf (m <? 0))
      else
        let n := m * Z.sgn m' * 2 ^ (Z.max 0 (e - e')) in
        let d := Z.abs m' * 2 ^ (Z.max 0 (e' - e)) in
        round_q n d
  end.

(** [a + b]. *)
Definition fadd (a b : float64) : float64 :=
  match a, b with
  | NaN, _ | _, NaN => NaN
  | Inf s, Inf s' => if Bool.eqb s s' then a else NaN
  | Inf _, Finite _ _ => a
  | Finite _ _, Inf _ => b
  | Finite m e, Finite m' e' =>
      let k := Z.min e e' in
      let n := m * 2 ^ (e - k) + m' * 2 ^ (e' - k) in
      round_q (n * 2 ^ (Z.max 0 k)) (2 ^ (Z.max 0 (- k)))
  end.

(** [math.Ceil]. *)
Definition fceil (f : float64) : float64 :=
  match f with
  | Finite m e => if 0 <=? e then f else Finite (- ((- m) / 2 ^ (- e))) 0
  | _ => f
  end.

(** [int64(f)]: truncation towards zero; outside the range the language
    leaves the value to the implementation, which on amd64 is the smallest
    integer. *)
Definition float_to_int64 (f : float64) : Z :=
  match f with
  | Finite m e =>
      let t := if 0 <=? e then m * 2 ^ e else Z.quot m (2 ^ (- e)) in
      if in_int64b t then t else min_int64
  | _ => min_int64
  end.

(** [f > 0] and [f <= 0]: both are false of NaN. *)
Definition fpos (f : float64) : bool :=
  match f with Finite m _ => 0 <? m | Inf neg => negb neg | NaN => false end.
Definition fnonpos (f : float64) : bool :=
  match f with Finite m _ => m <=? 0 | Inf neg => neg | NaN => false end.

(** [a == b]. *)
Definition feq (a b : float64) : bool :=
  match a, b with
  | Finite m e, Finite m' e' =>
      let k := Z.min e e' in m * 2 ^ (e - k) =? m' * 2 ^ (e' - k)
  | Inf s, Inf s' => Bool.eqb s s'
  | _, _ => false
  end.

(** [d.Seconds()] of a duration. *)
Definition duration_Seconds (d : Z) : float64 :=
  fadd (float_of_int (Z.quot d Second)) (fdiv (float_of_int (Z.rem d Second)) (float_of_int 1000000000)).

(** ** Lemmas *)

Lemma in_int64b_spec (z : Z) : in_int64b z = true <-> in_int64 z.
Proof. unfold in_int64b, in_int64. rewrite andb_true_iff, !Z.leb_le. lia. Qed.

Lemma wrap64_range (z : Z) : in_int64 (wrap64 z).
Proof.
  unfold in_int64, wrap64, min_int64, max_int64.
  pose proof (Z.mod_pos_bound (z + 2 ^ 63) (2 ^ 64) ltac:(lia)). lia.
Qed.

Lemma wrap64_id (z : Z) : in_int64 z -> wrap64 z = z.
Proof.
  unfold in_int64, wrap64, min_int64, max_int64. intros H.
  rewrite Z.mod_small; lia.
Qed.

#[export] Hint Resolve wrap64_range : gobox.

Lemma Before_irrefl (t : Z) : Before t t = false.
Proof. apply Z.ltb_irrefl. Qed.

Lemma time_Sub_small (t u : Z) : in_int64 (t - u) -> time_Sub t u = t - u.
Proof. unfold time_Sub, in_int64, min_int64, max_int64. lia. Qed.

(** Saturation does not change how a difference compares with a duration. *)
Lemma time_Sub_lt (t u d : Z) : 0 <= d < max_int64 -> time_Sub t u < d <-> t - u < d.
Proof. unfold time_Sub, min_int64, max_int64. lia. Qed.

Lemma time_Sub_gt (t u d : Z) : 0 <= d < max_int64 -> d < time_Sub t u <-> d < t - u.
Proof. unfold time_Sub, in_int64, min_int64, max_int64. lia. Qed.

Lemma time_Unix_small (s : Z) :
  0 <= s <= 2 ^ 62 -> time_Unix s = (s + unixToInternal) * Second.
Proof.
  intros H. unfold time_Unix, add64.
  rewrite wrap64_id; [done|]. unfold in_int64, min_int64, max_int64, unixToInternal. lia.
Qed.

(** *** Rounding *)

Lemma round_half_even_upper (n d K : Z) :
  0 < d -> n <= K * d -> round_half_even n d <= K.
Proof.
  intros Hd H. unfold round_half_even.
  pose proof (Z.div_mod n d ltac:(lia)). pose proof (Z.mod_pos_bound n d Hd).
  set (q := n / d) in *. set (r := n mod d) in *. clearbody q r.
  assert (q <= K) by nia.
  assert (r <> 0 -> q < K).
  { intros Hr. destruct (Z.le_gt_cases K q); [|done].
    assert (K * d <= q * d) by (apply Z.mul_le_mono_nonneg_r; lia). lia. }
  destruct (Z.ltb_spec (2 * r) d); [lia|].
  destruct (Z.ltb_spec d (2 * r)); [lia|].
  destruct (Z.even _); lia.
Qed.

Lemma round_half_even_lower (n d K : Z) :
  0 < d -> (2 * K + 1) * d < 2 * n -> K + 1 <= round_half_even n d.
Proof.
  intros Hd H. unfold round_half_even.
  pose proof (Z.div_mod n d ltac:(lia)). pose proof (Z.mod_pos_bound n d Hd).
  set (q := n / d) in *. set (r := n mod d) in *. clearbody q r.
  assert (K <= q).
  { destruct (Z.le_gt_cases K q); [done|].
    assert (d * (q + 1) <= d * K) by (apply Z.mul_le_mono_nonneg_l; lia). lia. }
  assert (K = q -> d < 2 * r) by (intros ->; lia).
  destruct (Z.ltb_spec (2 * r) d); [lia|].
  destruct (Z.ltb_spec d (2 * r)); [lia|].
  destruct (Z.even _); lia.
Qed.

Lemma round_half_even_exact (n : Z) : round_half_even n 1 = n.
Proof.
  unfold round_half_even. rewrite Z.mod_1_r, Z.div_1_r.
  destruct (Z.ltb_spec (2 * 0) 1); [done|lia].
Qed.

Lemma grid_exp_lower (n d : Z) :
  0 < n -> 0 < d -> grid_exp n d <= 0 ->
  d * 2 ^ 52 <= n * 2 ^ (- grid_exp n d).
Proof.
  intros Hn Hd. unfold grid_exp.
  set (g := Z.log2 n - Z.log2 d - 52).
  destruct (Z.ltb_spec (n * 2 ^ Z.max 0 (- g)) (d * 2 ^ 52 * 2 ^ Z.max 0 g)) as [Hlt|Hge]; intros Hk.
  - pose proof (Z.log2_spec n Hn) as [Hln _]. pose proof (Z.log2_spec d Hd) as [_ Hld].
    assert (H0n := Z.log2_nonneg n). assert (H0d := Z.log2_nonneg d).
    rewrite Z.pow_succ_r in Hld by done.
    set (p := 2 ^ Z.log2 n) in *. set (q := 2 ^ Z.log2 d) in *.
    assert (Hpq : p * 2 ^ (- (g - 1)) = q * 2 ^ 53).
    { unfold p, q. rewrite <- !Z.pow_add_r by lia. f_equal. lia. }
    assert (0 < 2 ^ (- (g - 1))) by (apply Z.pow_pos_nonneg; lia).
    change (2 ^ 53) with (2 * 2 ^ 52) in Hpq. nia.
  - rewrite (Z.max_r 0 (- g)), (Z.max_l 0 g) in Hge by lia. lia.
Qed.

(** Integers below 2^53 convert exactly. *)
Lemma float_of_int_exact (z : Z) :
  0 < z < 2 ^ 53 ->
  exists e, 0 <= e <= 52 /\ float_of_int z = Finite (z * 2 ^ e) (- e).
Proof.
  intros Hz. unfold float_of_int, round_q. destruct (Z.ltb_spec z 0); [lia|].
  unfold round_pos. destruct (Z.eqb_spec z 0); [lia|].
  assert (Hlog : 0 <= Z.log2 z <= 52).
  { split; [apply Z.log2_nonneg|]. assert (Z.log2 z < 53); [|lia]. apply Z.log2_lt_pow2; lia. }
  assert (Hk : grid_exp z 1 = Z.log2 z - 52).
  { unfold grid_exp. change (Z.log2 1) with 0. rewrite Z.sub_0_r.
    destruct (Z.ltb_spec (z * 2 ^ Z.max 0 (- (Z.log2 z - 52))) (1 * 2 ^ 52 * 2 ^ Z.max 0 (Z.log2 z - 52)))
      as [Hlt|]; [exfalso|done].
    rewrite (Z.max_r 0 (- _)), (Z.max_l 0) in Hlt by lia.
    pose proof (Z.log2_spec z ltac:(lia)) as [Hl _].
    assert (2 ^ Z.log2 z * 2 ^ (- (Z.log2 z - 52)) = 2 ^ 52) as Heq
      by (rewrite <- Z.pow_add_r by lia; f_equal; lia).
    assert (0 < 2 ^ (- (Z.log2 z - 52))) by (apply Z.pow_pos_nonneg; lia). nia. }
  rewrite Hk. exists (52 - Z.log2 z). split; [lia|].
  rewrite (Z.max_r 0 (- _)), (Z.max_l 0), Z.pow_0_r, Z.mul_1_r, round_half_even_exact by lia.
  f_equal; [do 2 f_equal|]; lia.
Qed.

(** Ceiling of the rounded quotient of two integers scaled by [c]. *)
Lemma round_pos_ceil (a b c : Z) :
  0 < a < 2 ^ 53 -> 0 < b -> 0 <= c ->
  exists M k, round_pos (a * 2 ^ c) (b * 2 ^ c) = Finite M (- k) /\ 0 <= k
    /\ - (- M / 2 ^ k) = - (- a / b).
Proof.
  intros Ha Hb Hc. assert (Hp : 0 < 2 ^ c) by (apply Z.pow_pos_nonneg; lia).
  set (n := a * 2 ^ c). set (d := b * 2 ^ c).
  assert (Hn : 0 < n) by (unfold n; nia). assert (Hd : 0 < d) by (unfold d; nia).
  assert (Hk0 : grid_exp n d <= 0).
  { assert (Hg : Z.log2 n - Z.log2 d - 52 <= 0).
    { unfold n, d. rewrite !Z.log2_mul_pow2 by lia.
      assert (Z.log2 a < 53) by (apply Z.log2_lt_pow2; lia).
      pose proof (Z.log2_nonneg b). lia. }
    unfold grid_exp. destruct (_ <? _); lia. }
  pose proof (grid_exp_lower n d Hn Hd Hk0) as Hgrid.
  unfold round_pos. destruct (Z.eqb_spec n 0); [lia|].
  set (k := - grid_exp n d) in *. replace (grid_exp n d) with (- k) by lia.
  rewrite (Z.max_r 0 k), (Z.max_l 0 (- k)), Z.pow_0_r, Z.mul_1_r by lia.
  exists (round_half_even (n * 2 ^ k) d), k. split; [done|split; [lia|]].
  assert (Hs : 0 < 2 ^ k) by (apply Z.pow_pos_nonneg; lia).
  set (s := 2 ^ k) in *. set (q := - (- a / b)).
  assert (Hq : (q - 1) * b < a <= q * b).
  { pose proof (Z.div_mod (- a) b ltac:(lia)). pose proof (Z.mod_pos_bound (- a) b Hb).
    unfold q. nia. }
  assert (Hup : round_half_even (n * s) d <= q * s).
  { apply round_half_even_upper; [done|]. unfold n, d. nia. }
  assert (Hbs : b < 2 * s).
  { assert (b * 2 ^ 52 <= a * s) by (unfold n, d in Hgrid; nia). nia. }
  assert (Hlo : (q - 1) * s + 1 <= round_half_even (n * s) d).
  { apply round_half_even_lower; [done|]. unfold n, d.
    assert ((2 * ((q - 1) * s) + 1) * b < 2 * (a * s)); nia. }
  set (M := round_half_even (n * s) d) in *.
  pose proof (Z.div_mod (- M) s ltac:(lia)). pose proof (Z.mod_pos_bound (- M) s Hs). nia.
Qed.

(** [int(math.Ceil(float64(a) / float64(b)))] is the exact ceiling of the
    quotient for counts below 2^53, whatever the rounding of the division. *)
Lemma float_ceil_div (a b : Z) :
  0 <= a < 2 ^ 53 -> 0 < b < 2 ^ 53 ->
  float_to_int64 (fceil (fdiv (float_of_int a) (float_of_int b))) = (a + b - 1) / b.
Proof.
  intros Ha Hb. destruct (float_of_int_exact b Hb) as (eb & Heb & ->).
  assert (Hpb : 0 < 2 ^ eb) by (apply Z.pow_pos_nonneg; lia).
  destruct (Z.eq_dec a 0) as [->|Hna].
  { change (float_of_int 0) with (Finite 0 0). unfold fdiv.
    destruct (Z.eqb_spec (b * 2 ^ eb) 0); [nia|]. simpl.
    rewrite Z.div_small by lia. done. }
  destruct (float_of_int_exact a ltac:(lia)) as (ea & Hea & ->).
  assert (Hpa : 0 < 2 ^ ea) by (apply Z.pow_pos_nonneg; lia).
  unfold fdiv. destruct (Z.eqb_spec (b * 2 ^ eb) 0); [nia|].
  rewrite Z.sgn_pos, Z.abs_eq, Z.mul_1_r by nia.
  set (c := Z.max ea eb).
  replace (a * 2 ^ ea * 2 ^ Z.max 0 (- ea - - eb)) with (a * 2 ^ c)
    by (rewrite <- Z.mul_assoc, <- Z.pow_add_r by lia; do 2 f_equal; lia).
  replace (b * 2 ^ eb * 2 ^ Z.max 0 (- eb - - ea)) with (b * 2 ^ c)
    by (rewrite <- Z.mul_assoc, <- Z.pow_add_r by lia; do 2 f_equal; lia).
  assert (0 < 2 ^ c) by (apply Z.pow_pos_nonneg; lia).
  unfold round_q. destruct (Z.ltb_spec (a * 2 ^ c) 0); [nia|].
  destruct (round_pos_ceil a b c) as (M & k & -> & Hk & HM); [lia|lia|lia|].
  assert (Hceil : (a + b - 1) / b = - (- a / b)).
  { symmetry. apply Z.div_unique with (r := (a + b - 1) - b * (- (- a / b))); [|lia].
    pose proof (Z.div_mod (- a) b ltac:(lia)). pose proof (Z.mod_pos_bound (- a) b ltac:(lia)). nia. }
  assert (Hr : 0 <= - (- a / b) <= a).
  { pose proof (Z.div_mod (- a) b ltac:(lia)). pose proof (Z.mod_pos_bound (- a) b ltac:(lia)). nia. }
  assert (Hin : in_int64b (- (- a / b)) = true)
    by (apply in_int64b_spec; unfold in_int64, min_int64, max_int64; lia).
  unfold fceil. rewrite ?Z.opp_involutive. destruct (Z.leb_spec 0 (- k)) as [Hk0|Hk0].
  - assert (k = 0) as -> by lia. rewrite Z.pow_0_r, Z.div_1_r, Z.opp_involutive in HM.
    rewrite HM, Hceil. unfold float_to_int64. change (0 <=? - 0) with true. cbn [Z.opp].
    by rewrite Z.pow_0_r, Z.mul_1_r, Hin.
  - rewrite HM, Hceil. unfold float_to_int64. change (0 <=? 0) with true. cbv iota.
    by rewrite Z.pow_0_r, Z.mul_1_r, Hin.
Qed.
