(* ===== verification/GoText.v ===== *)
(** * Strings of Go

    A Go string is a sequence of bytes, held here as a [string] of [ascii]
    characters.  The functions of the packages [strings], [strconv] and
    [unicode/utf8] that the sources use are defined on it; those that work on
    characters decode UTF-8 first, so bytes that form no valid character
    behave as the replacement rune does. *)
From stdpp Require Export pretty.
From Stdlib Require Export Ascii.
From S2P Require Import Prelude GoNum.
Local Open Scope Z_scope.

(** ** Bytes and slices *)
Definition byte_val (c : ascii) : Z := Z.of_N (N_of_ascii c).

Fixpoint str_take (n : nat) (s : string) : string :=
  match n, s with
  | S n', String c t => String c (str_take n' t)
  | _, _ => ""
  end.
Fixpoint str_drop (n : nat) (s : string) : string :=
  match n, s with
  | S n', String _ t => str_drop n' t
  | _, _ => s
  end.

Fixpoint str_concat (l : list string) : string :=
  match l with [] => "" | s :: l' => s +:+ str_concat l' end.

(** ** strings *)
Fixpoint HasPrefix (s p : string) : bool :=
  match p, s with
  | EmptyString, _ => true
  | String c p', String d s' => Ascii.eqb c d && HasPrefix s' p'
  | _, _ => false
  end.

(** [strings.Cut]: the text before and after the first [sep]. *)
Fixpoint Cut (s sep : string) : option (string * string) :=
  if HasPrefix s sep then Some ("", str_drop (String.length sep) s)
  else match s with
       | "" => None
       | String c t => '(b, a) ← Cut t sep; Some (String c b, a)
       end.

Definition Contains (s sub : string) : bool := bool_decide (is_Some (Cut s sub)).

(** [strings.Split] by a separator of one byte. *)
Fixpoint Split (s : string) (sep : ascii) : list string :=
  match s with
  | "" => [""]
  | String c t =>
      if Ascii.eqb c sep then "" :: Split t sep
      else match Split t sep with
           | h :: r => String c h :: r
           | [] => [String c ""]
           end
  end.

(** [strings.SplitN(s, sep, 2)]. *)
Definition SplitN2 (s sep : string) : list string :=
  match Cut s sep with Some (b, a) => [b; a] | None => [s] end.

Fixpoint Join (l : list string) (sep : string) : string :=
  match l with
  | [] => ""
  | [s] => s
  | s :: l' => s +:+ sep +:+ Join l' sep
  end.

(** ** unicode/utf8 *)
Definition RuneError : Z := 65533.

(** The bytes a multi-byte character needs after its first byte [b0], with
    the range of the second one; [None] when [b0] starts no character. *)
Definition utf8_lead (b0 : Z) : option (nat * Z * Z) :=
  if b0 <? 194 then None
  else if b0 <=? 223 then Some (1%nat, 128, 191)
  else if b0 =? 224 then Some (2%nat, 160, 191)
  else if b0 =? 237 then Some (2%nat, 128, 159)
  else if b0 <=? 239 then Some (2%nat, 128, 191)
  else if b0 =? 240 then Some (3%nat, 144, 191)
  else if b0 <=? 243 then Some (3%nat, 128, 191)
  else if b0 =? 244 then Some (3%nat, 128, 143)
  else None.

Definition cont_in (lo hi : Z) (c : ascii) : bool := (lo <=? byte_val c) && (byte_val c <=? hi).

(** [utf8.DecodeRuneInString]: the character at the start and its width. *)
Definition decode_rune (s : string) : Z * nat :=
  match s with
  | "" => (RuneError, 0%nat)
  | String c0 t =>
      let b0 := byte_val c0 in
      if b0 <? 128 then (b0, 1%nat)
      else match utf8_lead b0, t with
      | Some (1%nat, lo, hi), String c1 _ =>
          if cont_in lo hi c1 then ((b0 - 192) * 64 + (byte_val c1 - 128), 2%nat)
          else (RuneError, 1%nat)
      | Some (2%nat, lo, hi), String c1 (String c2 _) =>
          if cont_in lo hi c1 && cont_in 128 191 c2
          then ((b0 - 224) * 4096 + (byte_val c1 - 128) * 64 + (byte_val c2 - 128), 3%nat)
          else (RuneError, 1%nat)
      | Some (3%nat, lo, hi), String c1 (String c2 (String c3 _)) =>
          if cont_in lo hi c1 && cont_in 128 191 c2 && cont_in 128 191 c3
          then ((b0 - 240) * 262144 + (byte_val c1 - 128) * 4096
                + (byte_val c2 - 128) * 64 + (byte_val c3 - 128), 4%nat)
          else (RuneError, 1%nat)
      | _, _ => (RuneError, 1%nat)
      end
  end.

(** The characters of a string with the bytes each was decoded from; the
    fuel is the number of bytes, and every character takes at least one. *)
Fixpoint runes_go (fuel : nat) (s : string) : list (Z * string) :=
  match fuel with
  | O => []
  | S fuel' =>
      match s with
      | "" => []
      | _ => let '(r, w) := decode_rune s in (r, str_take w s) :: runes_go fuel' (str_drop w s)
      end
  end.
Definition runes (s : string) : list (Z * string) := runes_go (String.length s) s.

#[global] Arguments runes : simpl never.

Definition raw (us : list (Z * string)) : string := str_concat (us.*2).

(** [utf8.RuneStart]: the byte is not a continuation byte. *)
Definition RuneStart (c : ascii) : bool := negb (cont_in 128 191 c).

(** [utf8.ValidString]. *)
Definition valid_unit (u : Z * string) : bool :=
  negb ((u.1 =? RuneError) && (String.length u.2 =? 1)%nat).
Definition valid_utf8 (s : string) : bool := forallb valid_unit (runes s).

(** ** Functions on characters *)

(** [unicode.IsSpace]. *)
Definition IsSpace (r : Z) : bool :=
  existsb (Z.eqb r) [9; 10; 11; 12; 13; 32; 133; 160; 5760; 8232; 8233; 8239; 8287; 12288]
  || (8192 <=? r) && (r <=? 8202).
Definition space_unit (u : Z * string) : bool := IsSpace u.1.

Fixpoint drop_while {A} (p : A -> bool) (l : list A) : list A :=
  match l with
  | [] => []
  | x :: l' => if p x then drop_while p l' else l
  end.
Definition trim_units (us : list (Z * string)) : list (Z * string) :=
  reverse (drop_while space_unit (reverse (drop_while space_unit us))).

(** [strings.TrimSpace]. *)
Definition TrimSpace (s : string) : string := raw (trim_units (runes s)).

(** [strings.Fields]: the maximal runs of characters that are not space. *)
Fixpoint fields_go (cur : option string) (us : list (Z * string)) : list string :=
  match us with
  | [] => option_list cur
  | u :: us' =>
      if space_unit u then option_list cur ++ fields_go None us'
      else fields_go (Some (default "" cur +:+ u.2)) us'
  end.
Definition Fields (s : string) : list string := fields_go None (runes s).

(** [unicode.ToUpper] on the characters whose upper case is ASCII (the ASCII
    letters, dotless i and long s); the others are kept, and none of them has
    an upper case in ASCII. *)
Definition upper_rune (r : Z) : Z :=
  if (97 <=? r) && (r <=? 122) then r - 32
  else if r =? 305 then 73 else if r =? 383 then 83 else r.

(** [strings.ToUpper(s) == t] and [strings.EqualFold(s, t)] for an ASCII [t].
    Simple case folding also identifies the Kelvin sign with k and the long s
    with s. *)
Definition ToUpper_is (s t : string) : bool :=
  bool_decide (upper_rune <$> (runes s).*1 = (runes t).*1).
Definition fold_rune (r : Z) : Z :=
  if (65 <=? r) && (r <=? 90) then r + 32
  else if r =? 8490 then 107 else if r =? 383 then 115 else r.
Definition EqualFold (s t : string) : bool :=
  bool_decide (fold_rune <$> (runes s).*1 = fold_rune <$> (runes t).*1).

(** ** strconv *)
Definition digit_val (c : ascii) : option Z :=
  let b := byte_val c in if (48 <=? b) && (b <=? 57) then Some (b - 48) else None.
Fixpoint digits_val (acc : Z) (s : string) : option Z :=
  match s with
  | "" => Some acc
  | String c t => d ← digit_val c; digits_val (acc * 10 + d) t
  end.

(** [strconv.Atoi]: [None] stands for the syntax and range errors. *)
Definition Atoi (s : string) : option Z :=
  let '(neg, ds) := match s with
                    | String "-" t => (true, t)
                    | String "+" t => (false, t)
                    | _ => (false, s)
                    end in
  match ds with
  | "" => None
  | _ => n ← digits_val 0 ds;
         let z := if neg then - n else n in
         if in_int64b z then Some z else None
  end.

(** [strconv.Itoa] and [strconv.FormatInt] in base ten. *)
Definition Itoa (z : Z) : string := pretty z.

(** ** Lemmas *)

Lemma byte_val_range (c : ascii) : 0 <= byte_val c < 256.
Proof. unfold byte_val. pose proof (N_ascii_bounded c). lia. Qed.

Lemma str_take_drop (n : nat) (s : string) : str_take n s +:+ str_drop n s = s.
Proof.
  revert s. induction n as [|n IH]; intros s; [done|].
  destruct s as [|c t]; [done|]. simpl. by rewrite string_app_cons, IH.
Qed.

Lemma length_str_drop (n : nat) (s : string) :
  String.length (str_drop n s) = (String.length s - n)%nat.
Proof. revert s. induction n as [|n IH]; intros [|c t]; simpl; rewrite ?IH; lia. Qed.

Lemma length_str_take (n : nat) (s : string) :
  String.length (str_take n s) = Nat.min n (String.length s).
Proof. revert s. induction n as [|n IH]; intros [|c t]; simpl; rewrite ?IH; lia. Qed.

Lemma str_drop_app (s t : string) : str_drop (String.length s) (s +:+ t) = t.
Proof. induction s as [|c s IH]; [done|]. by rewrite string_app_cons. Qed.

Lemma str_take_app (s t : string) : str_take (String.length s) (s +:+ t) = s.
Proof. induction s as [|c s IH]; [done|]. rewrite string_app_cons. simpl. by rewrite IH. Qed.

Lemma str_concat_app (l k : list string) :
  str_concat (l ++ k) = str_concat l +:+ str_concat k.
Proof. induction l as [|s l IH]; [done|]. simpl. by rewrite IH, string_app_assoc. Qed.

Lemma HasPrefix_app (p t : string) : HasPrefix (p +:+ t) p = true.
Proof. induction p as [|c p IH]; [by destruct t|]. rewrite string_app_cons. simpl. by rewrite Ascii.eqb_refl. Qed.

Lemma HasPrefix_spec (s p : string) : HasPrefix s p = true <-> exists t, s = p +:+ t.
Proof.
  split; [|intros [t ->]; apply HasPrefix_app].
  revert s. induction p as [|c p IH]; intros s H; [by exists s|].
  destruct s as [|d s]; [done|]. simpl in H. bool_to_prop.
  apply Ascii.eqb_eq in H as ->. destruct (IH s) as [t ->]; [done|]. by exists t.
Qed.

Lemma HasPrefix_drop (s p : string) :
  HasPrefix s p = true -> s = p +:+ str_drop (String.length p) s.
Proof. intros [t ->]%HasPrefix_spec. by rewrite str_drop_app. Qed.

Lemma Cut_Some (s sep b a : string) : Cut s sep = Some (b, a) -> s = b +:+ sep +:+ a.
Proof.
  revert b a. induction s as [|c s IH]; intros b a; cbn [Cut];
    destruct (HasPrefix _ sep) eqn:Hp.
  - intros [= <- <-]. by apply HasPrefix_drop in Hp.
  - done.
  - intros [= <- <-]. by apply HasPrefix_drop in Hp.
  - destruct (Cut s sep) as [[b' a']|] eqn:E; [|done]. simpl. intros [= <- <-].
    by rewrite string_app_cons, <- (IH b' a').
Qed.

Lemma Split_not_nil (s : string) (sep : ascii) : Split s sep <> [].
Proof. destruct s as [|c t]; simpl; [done|]. destruct (Ascii.eqb c sep), (Split t sep); done. Qed.

(** Splitting and joining back is the identity. *)
Lemma Join_Split (s : string) (sep : ascii) : Join (Split s sep) (String sep "") = s.
Proof.
  induction s as [|c t IH]; [done|]. simpl.
  pose proof (Split_not_nil t sep) as Hn.
  destruct (Ascii.eqb_spec c sep) as [->|].
  - destruct (Split t sep) as [|h r] eqn:E; [done|].
    change (String sep "" +:+ Join (h :: r) (String sep "") = String sep t). by rewrite IH.
  - destruct (Split t sep) as [|h [|h' r]] eqn:E; [done| |].
    + simpl in *. by rewrite IH.
    + change (String c (Join (h :: h' :: r) (String sep "")) = String c t). by rewrite IH.
Qed.

(** [p] holds of every byte. *)
Fixpoint str_all (p : ascii -> bool) (s : string) : bool :=
  match s with "" => true | String c t => p c && str_all p t end.

Lemma str_all_app (p : ascii -> bool) (s t : string) :
  str_all p (s +:+ t) = str_all p s && str_all p t.
Proof. induction s as [|c s IH]; [done|]. rewrite string_app_cons. simpl. by rewrite IH, andb_assoc. Qed.

Lemma Split_no_sep (s : string) (sep : ascii) :
  str_all (fun c => negb (Ascii.eqb c sep)) s = true -> Split s sep = [s].
Proof.
  induction s as [|c t IH]; [done|]. simpl. intros H. bool_to_prop.
  rewrite H, IH; done.
Qed.

Lemma Cut_no_sep (b a : string) (sep : ascii) :
  str_all (fun c => negb (Ascii.eqb c sep)) b = true ->
  Cut (b +:+ String sep a) (String sep "") = Some (b, a).
Proof.
  induction b as [|c b IH]; cbn [str_all]; intros Hb.
  - rewrite string_app_nil_l. cbn [Cut HasPrefix]. rewrite Ascii.eqb_refl. by destruct a.
  - bool_to_prop. rewrite string_app_cons. cbn [Cut HasPrefix].
    assert (Ascii.eqb sep c = false) as -> by (apply Ascii.eqb_neq; by intros ->; rewrite Ascii.eqb_refl in H).
    cbn [andb]. by rewrite IH.
Qed.

(** No part holds the separator. *)
Lemma Split_parts (s : string) (sep : ascii) :
  Forall (fun x => str_all (fun c => negb (Ascii.eqb c sep)) x = true) (Split s sep).
Proof.
  induction s as [|c t IH]; [by repeat constructor|]. simpl.
  destruct (Ascii.eqb c sep) eqn:E; [by constructor|].
  destruct (Split t sep) as [|x l]; [constructor; [simpl; by rewrite E|done]|].
  apply Forall_cons_1 in IH as [Hx Hl]. constructor; [|done]. simpl. by rewrite E, Hx.
Qed.

Lemma Split_app_sep (s t : string) (sep : ascii) :
  str_all (fun c => negb (Ascii.eqb c sep)) s = true ->
  Split (s +:+ String sep t) sep = s :: Split t sep.
Proof.
  induction s as [|c s IH]; cbn [str_all]; intros H.
  - change ("" +:+ String sep t) with (String sep t). simpl. by rewrite Ascii.eqb_refl.
  - rewrite string_app_cons. cbn [Split]. bool_to_prop. rewrite H, IH; done.
Qed.

(** *** Decoding *)

Lemma decode_rune_width (c : ascii) (t : string) :
  (1 <= (decode_rune (String c t)).2 <= String.length (String c t))%nat.
Proof.
  unfold decode_rune. repeat split_match; simplify_eq/=; lia.
Qed.

Lemma runes_cons (s : string) :
  s <> "" ->
  runes s = ((decode_rune s).1, str_take (decode_rune s).2 s)
            :: runes (str_drop (decode_rune s).2 s).
Proof.
  enough (Hf : forall n m s', (String.length s' <= n)%nat -> (String.length s' <= m)%nat ->
                         runes_go n s' = runes_go m s').
  { intros Hs. destruct s as [|c t]; [done|]. unfold runes at 1. cbn [String.length runes_go].
    destruct (decode_rune (String c t)) as [r w] eqn:E. simpl. f_equal.
    pose proof (decode_rune_width c t) as Hw. rewrite E in Hw. simpl in Hw.
    apply Hf; rewrite length_str_drop; simpl; lia. }
  induction n as [|n IH]; intros m s' Hn Hm.
  - destruct s' as [|c t]; simpl in *; [|lia]. by destruct m.
  - destruct s' as [|c t]; [by destruct m|]. destruct m as [|m]; simpl in Hm; [lia|].
    cbn [runes_go]. pose proof (decode_rune_width c t) as Hw.
    destruct (decode_rune (String c t)) as [r w]. f_equal. simpl in Hw, Hn.
    apply IH; rewrite length_str_drop; simpl; lia.
Qed.

(** Induction on the characters of a string. *)
Lemma runes_ind (P : string -> Prop) :
  P "" ->
  (forall s, s <> "" -> P (str_drop (decode_rune s).2 s) -> P s) ->
  forall s, P s.
Proof.
  intros H0 Hs s. remember (String.length s) as n eqn:En.
  revert s En. induction n as [n IH] using lt_wf_ind. intros s ->.
  destruct s as [|c t]; [done|]. apply Hs; [done|]. eapply IH; [|done].
  pose proof (decode_rune_width c t). rewrite length_str_drop. lia.
Qed.

(** The characters cover the string. *)
Lemma raw_runes (s : string) : raw (runes s) = s.
Proof.
  induction s as [|s Hs IH] using runes_ind; [done|].
  rewrite runes_cons by done. unfold raw in *.
  rewrite fmap_cons. cbn [str_concat snd]. by rewrite IH, str_take_drop.
Qed.

(** Walk along two strings together, reading at most three more bytes: when
    the shorter one ends first, the width bound rules out a full character. *)
Ltac by_width p q Hw :=
  rewrite ?string_app_nil_l, ?string_app_cons in *;
  first
    [ done
    | progress (repeat match type of Hw with
                       | context [if ?b then _ else _] => destruct b
                       end); simpl in Hw; (done || lia)
    | destruct p as [|? p]; by_width p q Hw
    | destruct q as [|? q]; by_width p q Hw ].

(** Decoding what an initial part of a string holds of its first character. *)
Lemma decode_rune_prefix (p q : string) :
  p <> "" -> ((decode_rune (p +:+ q)).2 <= String.length p)%nat ->
  decode_rune p = decode_rune (p +:+ q).
Proof.
  intros Hp Hw. destruct p as [|c0 p]; [done|]. clear Hp.
  rewrite string_app_cons in *. unfold decode_rune in *.
  destruct (byte_val c0 <? 128); [done|].
  destruct (utf8_lead (byte_val c0)) as [[[n lo] hi]|]; [|by destruct p, q].
  destruct n as [|[|[|[|n]]]]; [by destruct p, q| | | |by destruct p, q].
  - by_width p q Hw.
  - by_width p q Hw.
  - by_width p q Hw.
Qed.
