(* ===== verification/GoFmt.v ===== *)
(** * Printing as package fmt does, and small functions on strings

    What the loggers, the server and the printers use of fmt, strconv, time,
    strings, path and path/filepath. A Go string is its bytes; widths count
    characters. *)
From S2P Require Import Prelude GoNum GoText.
From Stdlib Require Import Ascii.
Local Open Scope string_scope.

(** ** Bytes, trimming, parts *)

Definition LF : ascii := ascii_of_nat 10.
Definition DQ : ascii := ascii_of_nat 34.

Fixpoint Repeat (n : nat) (s : string) : string :=
  match n with O => "" | S n' => s +:+ Repeat n' s end.

(** [strings.ReplaceAll] of a byte by a byte. *)
Fixpoint replace_byte (c d : ascii) (s : string) : string :=
  match s with
  | "" => ""
  | String x s' => String (if Ascii.eqb x c then d else x) (replace_byte c d s')
  end.

(** [path.Base], and [filepath.Base] where the separator is a slash: the last element; [last_element] is what follows the last slash
    of a path that does not end in one. *)
Fixpoint trim_right_slash (s : string) : string :=
  match s with
  | "" => ""
  | String c s' =>
      match trim_right_slash s' with
      | "" => if Ascii.eqb c "/" then "" else String c ""
      | t => String c t
      end
  end.
Fixpoint last_element (s cur : string) : string :=
  match s with
  | "" => cur
  | String c s' => if Ascii.eqb c "/" then last_element s' s' else last_element s' cur
  end.
Definition path_Base (p : string) : string :=
  if String.eqb p "" then "."
  else
    let p := trim_right_slash p in
    let p := last_element p p in
    if String.eqb p "" then "/" else p.

(** [strings.ContainsAny] for ASCII characters. *)
Fixpoint ContainsAny (s chars : string) : bool :=
  match s with
  | "" => false
  | String c s' => negb (str_all (fun d => negb (Ascii.eqb c d)) chars) || ContainsAny s' chars
  end.

Fixpoint str_rev (s acc : string) : string :=
  match s with "" => acc | String c s' => str_rev s' (String c acc) end.
(** [strings.TrimSuffix] *)
Definition TrimSuffix (s suffix : string) : string :=
  if HasPrefix (str_rev s "") (str_rev suffix "")
  then str_take (String.length s - String.length suffix) s else s.
(** [strings.Trim(s, string(c))] for an ASCII character. *)
Fixpoint trim_left (c : ascii) (s : string) : string :=
  match s with
  | "" => ""
  | String d s' => if Ascii.eqb d c then trim_left c s' else s
  end.
Definition Trim (s : string) (c : ascii) : string :=
  str_rev (trim_left c (str_rev (trim_left c s) "")) "".

(** [strings.Split] by a longer separator; each part takes at least a byte of
    [s], so that its length is fuel enough. *)
Fixpoint split_go (fuel : nat) (s sep : string) : list string :=
  match fuel with
  | O => [s]
  | S fuel' => match Cut s sep with
               | Some (b, a) => b :: split_go fuel' a sep
               | None => [s]
               end
  end.
Definition SplitS (s sep : string) : list string := split_go (String.length s) s sep.

(** ** fmt *)

Definition RuneCount (s : string) : nat := length (runes s).
(** The verbs [%-*s], and [%0*s], whose zeros go to the left of a string too. *)
Definition pad_right (width : nat) (s : string) : string := s +:+ Repeat (width - RuneCount s) " ".
Definition pad_zeros (width : nat) (s : string) : string := Repeat (width - RuneCount s) "0" +:+ s.

(** Digits of [n] in base ten or sixteen, [w] of them. *)
Definition hexchar (d : Z) : ascii := ascii_of_nat (Z.to_nat (if (d <? 10)%Z then 48 + d else 87 + d)%Z).
Fixpoint digits (base : Z) (w : nat) (n : Z) : string :=
  match w with
  | O => ""
  | S w' => digits base w' (n / base)%Z +:+ String (hexchar (n mod base)%Z) ""
  end.

(** [%.2f]: to the nearest, a tie to the even digit. *)
Definition Fixed2 (f : float64) : string :=
  match f with
  | NaN => "NaN"
  | Inf neg => if neg then "-Inf" else "+Inf"
  | Finite m e =>
      let n := round_half_even (Z.abs m * 2 ^ Z.max e 0 * 100)%Z (2 ^ Z.max (- e) 0)%Z in
      (if (m <? 0)%Z then "-" else "") +:+ Itoa (n / 100) +:+ "." +:+ digits 10 2 (n mod 100)
  end.

(** [%q]: [strconv.Quote], with the table of printable characters. *)
Definition quote_unit (IsPrint : Z -> bool) (u : Z * string) : string :=
  let r := u.1 in
  if negb (valid_unit u) then
    "\x" +:+ digits 16 2 (match u.2 with String c _ => byte_val c | "" => 0%Z end)
  else if (r =? 34)%Z || (r =? 92)%Z then "\" +:+ u.2
  else if IsPrint r then u.2
  else if (r =? 7)%Z then "\a"
  else if (r =? 8)%Z then "\b"
  else if (r =? 12)%Z then "\f"
  else if (r =? 10)%Z then "\n"
  else if (r =? 13)%Z then "\r"
  else if (r =? 9)%Z then "\t"
  else if (r =? 11)%Z then "\v"
  else if (r <? 32)%Z || (r =? 127)%Z then "\x" +:+ digits 16 2 r
  else if (r <? 65536)%Z then "\u" +:+ digits 16 4 r
  else "\U" +:+ digits 16 8 r.
Definition Quote (IsPrint : Z -> bool) (s : string) : string :=
  String DQ (str_concat (map (quote_unit IsPrint) (runes s)) +:+ String DQ "").

(** ** time.Duration *)

(** The fraction [v mod 10^prec], its trailing zeros removed. *)
Definition frac (v : Z) (prec : nat) : string :=
  let ds := str_rev (trim_left "0" (str_rev (digits 10 prec (v mod 10 ^ Z.of_nat prec)%Z) "")) "" in
  if String.eqb ds "" then "" else "." +:+ ds.
Definition amount (u unit_ : Z) (prec : nat) (name : string) : string :=
  Itoa (u / unit_) +:+ frac u prec +:+ name.
Definition duration_String (d : Z) : string :=
  let u := Z.abs d in
  let v := (u / Second)%Z in
  (if (d <? 0)%Z then "-" else "") +:+
  (if (u =? 0)%Z then "0s"
   else if (u <? 1000)%Z then Itoa u +:+ "ns"
   else if (u <? Millisecond)%Z then amount u 1000 3 "µs"
   else if (u <? Second)%Z then amount u Millisecond 6 "ms"
   else
     (if (v / 3600 =? 0)%Z then "" else Itoa (v / 3600) +:+ "h") +:+
     (if (v / 60 =? 0)%Z then "" else Itoa (v / 60 mod 60) +:+ "m") +:+
     Itoa (v mod 60) +:+ frac u 9 +:+ "s").
(** [d.Round(m)], for a positive [m]. *)
Definition duration_Round (d m : Z) : Z :=
  let r := Z.abs (Z.rem d m) in
  if (d <? 0)%Z then
    if (r + r <? m)%Z then d + r
    else let d1 := wrap64 (d - m + r) in if (d1 <? d)%Z then d1 else min_int64
  else
    if (r + r <? m)%Z then d - r
    else let d1 := wrap64 (d + m - r) in if (d <? d1)%Z then d1 else max_int64.

Example duration_ex :
  map duration_String [0; 1500; 2500000; 1500 * Millisecond; 3661 * Second; -(60 * Second)]%Z
  = ["0s"; "1.5µs"; "2.5ms"; "1.5s"; "1h1m1s"; "-1m0s"].
Proof. vm_compute. reflexivity. Qed.
Example Fixed2_ex : map Fixed2 [Finite 1 (-3); Finite 3 (-3); Finite (-5) 0; Finite 3 1] = ["0.12"; "0.38"; "-5.00"; "6.00"].
Proof. vm_compute. reflexivity. Qed.
Example Quote_ex : Quote (fun r => (32 <=? r)%Z && (r <? 127)%Z) ("a" +:+ String LF (String DQ "é"))
  = String DQ ("a\n\" +:+ String DQ ("\u00e9" +:+ String DQ "")).
Proof. vm_compute. reflexivity. Qed.

(** ** Lemmas *)

Lemma str_rev_rev (s : string) : forall a b, str_rev (str_rev s a) b = str_rev a (s +:+ b).
Proof. induction s as [|c s IH]; intros a b; [done|]. simpl. by rewrite IH. Qed.

Lemma str_rev_app (s t acc : string) : str_rev (s +:+ t) acc = str_rev t (str_rev s acc).
Proof. revert acc. induction s as [|c s IH]; intros acc; [done|]. rewrite string_app_cons. simpl. by rewrite IH. Qed.

Lemma str_rev_involutive (s : string) : str_rev (str_rev s "") "" = s.
Proof. rewrite str_rev_rev. apply string_app_nil_r. Qed.

(** A text that has not the character at its ends is not trimmed. *)
Lemma Trim_id (a c d : ascii) (s : string) : Ascii.eqb a c = false -> Ascii.eqb d c = false ->
  Trim (String a (s +:+ String d "")) c = String a (s +:+ String d "").
Proof.
  intros Ha Hd. unfold Trim. cbn [trim_left]. rewrite Ha.
  change (String a (s +:+ String d "")) with (String a s +:+ String d "").
  rewrite str_rev_app. cbn [str_rev trim_left]. rewrite Hd.
  change (String d (str_rev s (String a ""))) with (str_rev (String d "") (str_rev (String a s) "")).
  by rewrite <- str_rev_app, str_rev_involutive.
Qed.

Lemma Contains_byte (s : string) (d : ascii) :
  Contains s (String d "") = negb (str_all (fun c => negb (Ascii.eqb c d)) s).
Proof.
  unfold Contains. induction s as [|c s IH]; [done|]. cbn [Cut HasPrefix str_all].
  rewrite (Ascii.eqb_sym d c). destruct (Ascii.eqb c d); simpl; [by destruct s|].
  rewrite <- IH. by destruct (Cut s (String d "")) as [[b a]|].
Qed.

Lemma str_all_mono (p q : ascii -> bool) (s : string) :
  (forall c, p c = true -> q c = true) -> str_all p s = true -> str_all q s = true.
Proof.
  intros Hpq. induction s as [|c s IH]; [done|]. simpl. intros [Hc Hs]%andb_true_iff.
  by rewrite Hpq, IH.
Qed.

(** Trimming keeps what all bytes have. *)
Lemma str_all_concat (p : ascii -> bool) (l : list string) :
  str_all p (str_concat l) = true <-> Forall (fun s => str_all p s = true) l.
Proof.
  induction l as [|s l IH]; [by split; [constructor|]|].
  simpl. rewrite str_all_app, andb_true_iff, IH, Forall_cons. done.
Qed.

Lemma drop_while_Forall {A} (q : A -> bool) (P : A -> Prop) (l : list A) :
  Forall P l -> Forall P (drop_while q l).
Proof. induction 1; simpl; [done|]. destruct (q x); [done|by constructor]. Qed.

Lemma TrimSpace_all (p : ascii -> bool) (s : string) :
  str_all p s = true -> str_all p (TrimSpace s) = true.
Proof.
  rewrite <- (raw_runes s) at 1. unfold TrimSpace, raw, trim_units. rewrite !str_all_concat.
  intros H%Forall_fmap. apply Forall_fmap. apply Forall_reverse, drop_while_Forall, Forall_reverse.
  by apply drop_while_Forall.
Qed.

(** *** Columns of ASCII text *)

Definition is_ascii (c : ascii) : bool := (byte_val c <? 128)%Z.

Lemma runes_ascii (s : string) : str_all is_ascii s = true -> length (runes s) = String.length s.
Proof.
  induction s as [|c s IH]; [done|]. intros H. simpl in H. apply andb_true_iff in H as [Hc Hs].
  unfold is_ascii in Hc. rewrite runes_cons by done.
  assert (decode_rune (String c s) = (byte_val c, 1%nat)) as -> by (unfold decode_rune; by rewrite Hc).
  simpl. by rewrite IH.
Qed.

Lemma length_Repeat (n : nat) (c : ascii) : String.length (Repeat n (String c "")) = n.
Proof. induction n as [|n IH]; [done|]. simpl. by rewrite string_length_app, IH. Qed.

Lemma str_take_Repeat (n m : nat) (c : ascii) : (n <= m)%nat ->
  str_take n (Repeat m (String c "")) = Repeat n (String c "").
Proof.
  revert m. induction n as [|n IH]; intros [|m] H; try done; [lia|].
  change (String c (str_take n (Repeat m (String c ""))) = String c (Repeat n (String c ""))).
  by rewrite IH by lia.
Qed.

Lemma str_take_app_le (n : nat) (s t : string) : (n <= String.length s)%nat ->
  str_take n (s +:+ t) = str_take n s.
Proof.
  revert n. induction s as [|c s IH]; intros [|n] H; try done; simpl in H; [lia|].
  change (String c (str_take n (s +:+ t)) = String c (str_take n s)). by rewrite IH by lia.
Qed.

Lemma str_take_app_ge (n : nat) (s t : string) : (String.length s <= n)%nat ->
  str_take n (s +:+ t) = s +:+ str_take (n - String.length s) t.
Proof.
  revert n. induction s as [|c s IH]; intros n H; [by rewrite Nat.sub_0_r|].
  destruct n as [|n]; simpl in H; [lia|].
  change (String c (str_take n (s +:+ t)) = String c (s +:+ str_take (n - String.length s) t)).
  by rewrite IH by lia.
Qed.

Lemma str_take_app_add (u t : string) (k : nat) : str_take (String.length u + k) (u +:+ t) = u +:+ str_take k t.
Proof. rewrite str_take_app_ge by lia. f_equal. f_equal. lia. Qed.

(** Cut or padded: a column of [n]. *)
Definition column (n : nat) (s : string) : string := str_take n (s +:+ Repeat n " ").

Lemma length_column (n : nat) (s : string) : String.length (column n s) = n.
Proof. unfold column. rewrite length_str_take, string_length_app, length_Repeat. lia. Qed.

Lemma cut_or_pad (n : nat) (s : string) : str_all is_ascii s = true ->
  (if Nat.ltb n (String.length s) then str_take n s else pad_right n s) = column n s.
Proof.
  intros Ha. unfold column, pad_right, RuneCount. rewrite runes_ascii by done.
  destruct (Nat.ltb_spec n (String.length s)).
  - by rewrite str_take_app_le by lia.
  - rewrite str_take_app_ge by lia. by rewrite str_take_Repeat by lia.
Qed.
