(* ===== verification/GoBase64.v ===== *)
(** * base64.RawURLEncoding of the Go standard library

    The unpadded URL-safe encoding, and the decoder: it skips line breaks,
    refuses every other foreign character and a lone last digit, and does not
    look at the spare bits of a short last group. *)
From S2P Require Import Prelude GoText.
Local Open Scope Z_scope.

Definition byte_of (z : Z) : ascii := ascii_of_N (Z.to_N z).

(** The 64 digits. *)
Definition b64_char (n : Z) : ascii :=
  byte_of (if n <? 26 then n + 65 else if n <? 52 then n + 71 else if n <? 62 then n - 4
           else if n =? 62 then 45 else 95).

Definition b64_val (c : ascii) : option Z :=
  let b := byte_val c in
  if (65 <=? b) && (b <=? 90) then Some (b - 65)
  else if (97 <=? b) && (b <=? 122) then Some (b - 71)
  else if (48 <=? b) && (b <=? 57) then Some (b + 4)
  else if b =? 45 then Some 62
  else if b =? 95 then Some 63
  else None.

(** [EncodeToString]. *)
Fixpoint EncodeToString (s : string) : string :=
  match s with
  | String a (String b (String c t)) =>
      let v := byte_val a * 65536 + byte_val b * 256 + byte_val c in
      String (b64_char (v / 262144)) (String (b64_char (v / 4096 mod 64))
        (String (b64_char (v / 64 mod 64)) (String (b64_char (v mod 64)) (EncodeToString t))))
  | String a (String b "") =>
      let v := byte_val a * 1024 + byte_val b * 4 in
      String (b64_char (v / 4096)) (String (b64_char (v / 64 mod 64))
        (String (b64_char (v mod 64)) ""))
  | String a "" =>
      let v := byte_val a * 16 in String (b64_char (v / 64)) (String (b64_char (v mod 64)) "")
  | "" => ""
  end.

Definition line_break (c : ascii) : bool := (byte_val c =? 10) || (byte_val c =? 13).

(** The digits of the input, if every other character is a line break. *)
Fixpoint digits (s : string) : option (list Z) :=
  match s with
  | "" => Some []
  | String c t =>
      if line_break c then digits t
      else match b64_val c, digits t with Some v, Some vs => Some (v :: vs) | _, _ => None end
  end.

Fixpoint join_digits (vs : list Z) : option string :=
  match vs with
  | [] => Some ""
  | [_] => None
  | [v1; v2] => Some (String (byte_of (v1 * 4 + v2 / 16)) "")
  | [v1; v2; v3] =>
      Some (String (byte_of (v1 * 4 + v2 / 16)) (String (byte_of (v2 mod 16 * 16 + v3 / 4)) ""))
  | v1 :: v2 :: v3 :: v4 :: vs' =>
      t ← join_digits vs';
      Some (String (byte_of (v1 * 4 + v2 / 16)) (String (byte_of (v2 mod 16 * 16 + v3 / 4))
              (String (byte_of (v3 mod 4 * 64 + v4)) t)))
  end.

(** [DecodeString]. *)
Definition DecodeString (s : string) : option string := vs ← digits s; join_digits vs.

(** ** Lemmas *)

(** Linear arithmetic with division by constants. *)
Ltac div_mod_lia := Z.to_euclidean_division_equations; lia.

Lemma byte_of_val (c : ascii) : byte_of (byte_val c) = c.
Proof. unfold byte_of, byte_val. by rewrite N2Z.id, ascii_N_embedding. Qed.

Lemma byte_of_eq (z : Z) (c : ascii) : z = byte_val c -> byte_of z = c.
Proof. intros ->. apply byte_of_val. Qed.

Definition b64_digits : list Z := Z.of_nat <$> seq 0 64.

Lemma b64_digits_spec (n : Z) : 0 <= n < 64 -> n ∈ b64_digits.
Proof.
  intros Hn. apply list_elem_of_fmap. exists (Z.to_nat n). split; [lia|].
  apply elem_of_seq. lia.
Qed.

Lemma b64_char_ok (n : Z) :
  0 <= n < 64 ->
  line_break (b64_char n) = false /\ b64_val (b64_char n) = Some n /\ b64_char n <> "."%char.
Proof.
  intros Hn%b64_digits_spec. revert n Hn. apply Forall_forall.
  unfold b64_digits. simpl. repeat (constructor; [by vm_compute|]). constructor.
Qed.

(** A property of every string, three bytes at a time. *)
Lemma string_ind3 (P : string -> Prop) :
  P "" -> (forall a, P (String a "")) -> (forall a b, P (String a (String b ""))) ->
  (forall a b c t, P t -> P (String a (String b (String c t)))) -> forall s, P s.
Proof.
  intros H0 H1 H2 H3. fix IH 1.
  intros [|a [|b [|c t]]]; [done|done|done|]. apply H3, IH.
Qed.

Lemma digits_char (n : Z) (t : string) :
  0 <= n < 64 -> digits (String (b64_char n) t) = (vs ← digits t; Some (n :: vs)).
Proof.
  intros Hn. destruct (b64_char_ok n Hn) as (Hl & Hv & _). simpl. rewrite Hl, Hv.
  by destruct (digits t).
Qed.

(** What is decoded is what was encoded. *)
Lemma DecodeString_EncodeToString (s : string) : DecodeString (EncodeToString s) = Some s.
Proof.
  unfold DecodeString. induction s as [|a|a b|a b c t IH] using string_ind3; [done|..];
    cbn [EncodeToString]; cbv zeta;
    pose proof (byte_val_range a) as Ha;
    try (pose proof (byte_val_range b) as Hb); try (pose proof (byte_val_range c) as Hc);
    rewrite !digits_char by div_mod_lia.
  - simpl. do 2 f_equal. apply byte_of_eq. div_mod_lia.
  - simpl. do 2 f_equal; [|f_equal]; apply byte_of_eq; div_mod_lia.
  - destruct (digits (EncodeToString t)) as [vs|]; [|done]. simpl in IH |- *. rewrite IH. simpl.
    do 2 f_equal; [|f_equal; [|f_equal]]; apply byte_of_eq; div_mod_lia.
Qed.

(** No digit is a dot, and only nothing encodes to nothing. *)
Lemma EncodeToString_no_dot (s : string) :
  str_all (fun c => negb (Ascii.eqb c ".")) (EncodeToString s) = true.
Proof.
  assert (Hd : forall n, 0 <= n < 64 -> negb (Ascii.eqb (b64_char n) ".") = true).
  { intros n Hn. destruct (b64_char_ok n Hn) as (_ & _ & Hne).
    by destruct (Ascii.eqb_spec (b64_char n) "."). }
  induction s as [|a|a b|a b c t IH] using string_ind3; [done|..];
    cbn [EncodeToString str_all]; cbv zeta;
    pose proof (byte_val_range a) as Ha;
    try (pose proof (byte_val_range b) as Hb); try (pose proof (byte_val_range c) as Hc);
    rewrite !Hd by div_mod_lia; done.
Qed.

Lemma EncodeToString_nil (s : string) : EncodeToString s = "" -> s = "".
Proof. by destruct s as [|a [|b [|c t]]]. Qed.
