(* ===== verification/Retry.v ===== *)
(** * Package retry and the retrying half of package httpclient

    [Retry.Do] is the loop of retry/retry.go; its environment is explicit: the
    state [S] holds whatever the closures and the context close over, [fn] is
    one call of the closure, [wait] is one [select] between [ctx.Done()] and
    the timer and answers [Some ctx.Err()] when the context wins.  Every call
    and every wait is logged, in order.  [WithRetry] of httpclient/client.go
    runs on top of it. *)
From S2P Require Import Prelude GoNum GoText.
Local Open Scope Z_scope.

(** ** retry/retry.go *)

(** What one run did, in order. *)
Inductive retry_event : Type :=
| Called (attempt : Z) (err : option error)
| Waited (attempt : Z) (d : Z) (cancelled : option error).

(** The doubling loop of [backoff]: [n] iterations are left. *)
Fixpoint backoff_loop (n : nat) (d max : Z) : Z :=
  match n with
  | O => d
  | S n' => let d' := mul64 d 2 in if max <? d' then max else backoff_loop n' d' max
  end.

Definition backoff (attempt min max : Z) : Z := backoff_loop (Z.to_nat (attempt - 1)) min max.

Section Do.
Context {S : Type}.
Variable maxAttempts : Z.
Variable waitMin waitMax : Z.
Variable shouldRetry : Z -> error -> bool.
Variable fn : S -> option error * S.
Variable wait : Z -> S -> option error * S.

(** The [for] loop from [attempt] on. The fuel counts the iterations left:
    [Z.to_nat maxAttempts] from [attempt = 1] on is what the loop bound
    allows. *)
Fixpoint Do_loop (fuel : nat) (attempt : Z) (err : option error) (s : S)
  : option error * list retry_event * S :=
  match fuel with
  | O => (err, [], s)
  | Datatypes.S fuel' =>
      if attempt <=? maxAttempts then
        let '(r, s1) := fn s in
        match r with
        | None => (None, [Called attempt None], s1)
        | Some e =>
            if attempt =? maxAttempts then (Some e, [Called attempt (Some e)], s1)
            else if negb (shouldRetry attempt e) then (Some e, [Called attempt (Some e)], s1)
            else
              let d := backoff attempt waitMin waitMax in
              let '(c, s2) := wait d s1 in
              match c with
              | Some ce => (Some ce, [Called attempt (Some e); Waited attempt d (Some ce)], s2)
              | None =>
                  let '(r', tr, s3) := Do_loop fuel' (attempt + 1) (Some e) s2 in
                  (r', Called attempt (Some e) :: Waited attempt d None :: tr, s3)
              end
        end
      else (err, [], s)
  end.

Definition Do (s : S) : option error * list retry_event * S :=
  Do_loop (Z.to_nat maxAttempts) 1 None s.
End Do.

(** ** Reading a run *)
Definition calls (tr : list retry_event) : list (option error) :=
  omap (fun ev => match ev with Called _ r => Some r | _ => None end) tr.
Definition waits (tr : list retry_event) : list Z :=
  omap (fun ev => match ev with Waited _ d _ => Some d | _ => None end) tr.

(** The backoff schedule from [attempt] on. *)
Fixpoint schedule (waitMin waitMax attempt : Z) (n : nat) : list Z :=
  match n with
  | O => []
  | S n' => backoff attempt waitMin waitMax :: schedule waitMin waitMax (attempt + 1) n'
  end.

(** ** Backoff *)

Lemma backoff_loop_spec (n : nat) (d max : Z) :
  0 < d <= max -> 2 * max <= max_int64 ->
  backoff_loop n d max = Z.min (d * 2 ^ Z.of_nat n) max.
Proof.
  revert d. induction n as [|n IH]; intros d Hd Hm; cbn [backoff_loop].
  - rewrite Z.mul_1_r. lia.
  - assert (Hw : mul64 d 2 = d * 2).
    { apply wrap64_id. unfold in_int64, min_int64 in *. lia. }
    rewrite Hw, Nat2Z.inj_succ, Z.pow_succ_r by lia.
    pose proof (Z.pow_pos_nonneg 2 (Z.of_nat n) ltac:(lia) ltac:(lia)).
    destruct (Z.ltb_spec max (d * 2)); [nia|].
    rewrite IH by lia. f_equal. lia.
Qed.

(** The delay is the exponential schedule [min * 2^(attempt-1)] capped at
    [max], for every attempt number and without overflow, as long as the
    minimum is positive and below a maximum that can be doubled. *)
Theorem backoff_exponential_capped (attempt min max : Z) :
  1 <= attempt -> 0 < min <= max -> 2 * max <= max_int64 ->
  backoff attempt min max = Z.min (min * 2 ^ (attempt - 1)) max.
Proof.
  intros Ha Hm Hx. unfold backoff. rewrite backoff_loop_spec by lia.
  by rewrite Z2Nat.id by lia.
Qed.

Lemma backoff_exponential_capped_witness :
  backoff 4 (200 * Millisecond) (5 * Second) = 1600 * Millisecond
  /\ backoff 60 (200 * Millisecond) (5 * Second) = 5 * Second.
Proof.
  split.
  - rewrite (backoff_exponential_capped 4); vm_compute; intuition discriminate.
  - rewrite (backoff_exponential_capped 60); vm_compute; intuition discriminate.
Defined.

Lemma schedule_lookup (waitMin waitMax : Z) (n i : nat) (d : Z) :
  0 < waitMin <= waitMax -> 2 * waitMax <= max_int64 ->
  schedule waitMin waitMax 1 n !! i = Some d -> d = Z.min (waitMin * 2 ^ Z.of_nat i) waitMax.
Proof.
  intros Hw Hx. assert (Hgo : forall n i attempt, 1 <= attempt ->
    schedule waitMin waitMax attempt n !! i = Some d ->
    d = backoff (attempt + Z.of_nat i) waitMin waitMax).
  { clear n i. induction n as [|n IH]; intros i attempt Ha; [done|]. destruct i as [|i]; simpl.
    - intros [= <-]. by rewrite Z.add_0_r.
    - intros H. apply IH in H; [|lia]. rewrite H. f_equal. lia. }
  intros H. apply Hgo in H; [|lia]. rewrite H. unfold backoff. rewrite backoff_loop_spec by lia.
  f_equal. f_equal. f_equal. lia.
Qed.

(** ** The loop *)
Section DoSpec.
Context {S : Type}.
Variable maxAttempts waitMin waitMax : Z.
Variable shouldRetry : Z -> error -> bool.
Variable fn : S -> option error * S.
Variable wait : Z -> S -> option error * S.

(** What a run from [attempt] on may look like: every call but the last
    failed, the waits follow the backoff schedule, and either the answer is
    that of the last call, with a reason to stop there, or the context was
    cancelled during the wait after it. *)
Definition run_spec (attempt : Z) (r : option error) (tr : list retry_event) : Prop :=
  exists errs final,
    calls tr = (Some <$> errs) ++ [final] /\
    let k := attempt + Z.of_nat (length errs) in
    k <= maxAttempts /\
    ( (r = final /\ waits tr = schedule waitMin waitMax attempt (length errs)
       /\ match final with
          | None => True
          | Some e => k = maxAttempts \/ shouldRetry k e = false
          end)
    \/ (exists e ce, final = Some e /\ r = Some ce /\ k < maxAttempts /\ shouldRetry k e = true
       /\ waits tr = schedule waitMin waitMax attempt (1 + length errs))).

Lemma run_spec_last attempt final :
  attempt <= maxAttempts ->
  match final with
  | None => True
  | Some e => attempt = maxAttempts \/ shouldRetry attempt e = false
  end ->
  run_spec attempt final [Called attempt final].
Proof.
  intros Hle Hstop. exists [], final. split; [done|]. simpl. rewrite Z.add_0_r.
  split; [done|]. left. by destruct final.
Qed.

Lemma run_spec_cancelled attempt e ce d :
  attempt < maxAttempts -> shouldRetry attempt e = true -> d = backoff attempt waitMin waitMax ->
  run_spec attempt (Some ce) [Called attempt (Some e); Waited attempt d (Some ce)].
Proof.
  intros Hlt Hr ->. exists [], (Some e). split; [done|]. simpl. rewrite Z.add_0_r.
  split; [lia|]. right. by exists e, ce.
Qed.

Lemma run_spec_more attempt e d r tr :
  d = backoff attempt waitMin waitMax -> run_spec (attempt + 1) r tr ->
  run_spec attempt r (Called attempt (Some e) :: Waited attempt d None :: tr).
Proof.
  intros -> (errs & final & Hc & Hk & Hend). exists (e :: errs), final.
  split; [simpl; by rewrite Hc|].
  replace (attempt + Z.of_nat (length (e :: errs)))
    with (attempt + 1 + Z.of_nat (length errs)) by (simpl; lia).
  split; [done|].
  destruct Hend as [(-> & Hw & Hs)|(e' & ce & -> & -> & Hlt & Hr & Hw)];
    [left | right; exists e', ce]; simpl; by rewrite Hw.
Qed.

Lemma Do_loop_spec fuel attempt err s r tr s' :
  fuel = Z.to_nat (maxAttempts - attempt + 1) -> attempt <= maxAttempts ->
  Do_loop maxAttempts waitMin waitMax shouldRetry fn wait fuel attempt err s = (r, tr, s') ->
  run_spec attempt r tr.
Proof.
  revert attempt err s r tr s'.
  induction fuel as [|fuel IH]; intros attempt err s r tr s' Hf Hle; [lia|].
  cbn [Do_loop]. rewrite (proj2 (Z.leb_le _ _)) by done.
  destruct (fn s) as [[e|] s1]; [|intros [= <- <- <-]; by apply run_spec_last].
  destruct (Z.eqb_spec attempt maxAttempts) as [->|Hne];
    [intros [= <- <- <-]; apply run_spec_last; auto|].
  destruct (shouldRetry attempt e) eqn:Hr; simpl;
    [|intros [= <- <- <-]; apply run_spec_last; auto].
  destruct (wait _ s1) as [[ce|] s2];
    [intros [= <- <- <-]; apply run_spec_cancelled; [lia|done|done]|].
  destruct (Do_loop _ _ _ _ _ _ fuel _ _ _) as [[r0 tr0] s3] eqn:E.
  intros [= <- <- <-]. apply run_spec_more; [done|].
  eapply (IH (attempt + 1)); [lia|lia|exact E].
Qed.
End DoSpec.

(** [C16] A run of [Do] with a positive attempt budget calls [fn] between one
    and [maxAttempts] times; every call but the last failed; the waits between
    them are the backoff schedule, which doubles from [waitMin] up to [waitMax] when
    these are in order and can be doubled; the answer is the last call's, given
    because it succeeded, because the budget is spent or because [shouldRetry]
    refused, or else it is the error of the context that ended a wait. *)
Theorem Do_runs_schedule {S : Type} (maxAttempts waitMin waitMax : Z)
    (shouldRetry : Z -> error -> bool) (fn : S -> option error * S)
    (wait : Z -> S -> option error * S) (s : S) :
  1 <= maxAttempts ->
  let '(r, tr, _) := Do maxAttempts waitMin waitMax shouldRetry fn wait s in
  run_spec maxAttempts waitMin waitMax shouldRetry 1 r tr
  /\ (0 < waitMin <= waitMax -> 2 * waitMax <= max_int64 ->
       forall i d, waits tr !! i = Some d -> d = Z.min (waitMin * 2 ^ Z.of_nat i) waitMax).
Proof.
  intros Hm. destruct (Do _ _ _ _ _ _ s) as [[r tr] s'] eqn:E.
  assert (Hrun : run_spec maxAttempts waitMin waitMax shouldRetry 1 r tr)
    by (eapply Do_loop_spec; [|exact Hm|exact E]; lia).
  split; [exact Hrun|]. intros Hw Hx i d Hd.
  destruct Hrun as (errs & final & _ & _ & [(_ & Hs & _)|(e & ce & _ & _ & _ & _ & Hs)]); rewrite Hs in Hd;
    by eapply schedule_lookup.
Qed.

(** Two failures, then success: the state counts the calls. *)
Definition flaky (n : nat) : option error * nat :=
  if (n <? 2)%nat then (Some (errors_New "io"), Datatypes.S n) else (None, Datatypes.S n).
Definition no_cancel {S} (_ : Z) (s : S) : option error * S := (None, s).

Lemma Do_runs_schedule_witness :
  Do 4 100 1000 (fun _ _ => true) flaky no_cancel 0%nat
  = (None, [Called 1 (Some (errors_New "io")); Waited 1 100 None;
            Called 2 (Some (errors_New "io")); Waited 2 200 None; Called 3 None], 3%nat)
  /\ run_spec 4 100 1000 (fun _ _ => true) 1 None
       (Do 4 100 1000 (fun _ _ => true) flaky no_cancel 0%nat).1.2.
Proof.
  split; [reflexivity|].
  exact (proj1 (Do_runs_schedule 4 100 1000 (fun _ _ => true) flaky no_cancel 0%nat ltac:(lia))).
Defined.

(** With a budget that is not positive [Do] answers nil, that is success,
    and never calls [fn]. *)
Theorem Do_no_budget_succeeds {S : Type} (maxAttempts waitMin waitMax : Z)
    (shouldRetry : Z -> error -> bool) (fn : S -> option error * S)
    (wait : Z -> S -> option error * S) (s : S) :
  maxAttempts <= 0 -> Do maxAttempts waitMin waitMax shouldRetry fn wait s = (None, [], s).
Proof. intros H. unfold Do. by rewrite Z2Nat.nonpos by lia. Qed.

Lemma Do_no_budget_succeeds_witness :
  Do 0 1 1 (fun _ _ => true) (fun n => (Some (errors_New "down"), n)) no_cancel 7%nat = (None, [], 7%nat).
Proof. apply Do_no_budget_succeeds. lia. Defined.
