(* ===== verification/HttpClient.v ===== *)
(** * Package httpclient

    The parts of httpclient/client.go that decide something: which responses
    are retried and how ([WithRetry]), what a Retry-After header means
    ([ParseRetryAfter]), and how a compressed body is opened
    ([DecompressResponse]).  The transport itself is a parameter. *)
From S2P Require Import Prelude GoNum GoText Retry.
Local Open Scope Z_scope.

Definition ErrTransientHTTPStatus : error := errors_New "httpclient.ErrTransientHTTPStatus".
Definition context_Canceled : error := errors_New "context.Canceled".
Definition context_DeadlineExceeded : error := errors_New "context.DeadlineExceeded".

Definition RetryMaxAttempts : Z := 4.
Definition RetryWaitMin : Z := 200 * Millisecond.
Definition RetryWaitMax : Z := 5 * Second.
Definition retryAfterCap : Z := 30 * Second.

Definition StatusOK : Z := 200.
Definition StatusTooManyRequests : Z := 429.

Definition IsTransientHTTPStatus (status : Z) : bool :=
  (status =? StatusTooManyRequests) || (500 <=? status) && (status <? 600).

(** What one call of the [do] closure returns. *)
Record reply := Reply {
  rp_body : string;
  rp_status : Z;
  rp_retryAfter : Z;
  rp_err : option error;
}.

Section WithRetry.
Context {S : Type}.
Variable do : S -> reply * S.
Variable sleepCtx : Z -> S -> S.
Variable wait : Z -> S -> option error * S.

(** [shouldRetry] of the call: a finished context is never retried. *)
Definition worth_retrying (_ : Z) (err : error) : bool :=
  negb (errors_Is err context_Canceled) && negb (errors_Is err context_DeadlineExceeded).

(** The closure handed to [retry.Do]; [body] and [status] are the variables
    it captures, kept beside the caller's state. *)
Definition attempt_do (st : S * (string * Z)) : option error * (S * (string * Z)) :=
  let '(r, s1) := do st.1 in
  let captured := (rp_body r, rp_status r) in
  match rp_err r with
  | Some innerErr => (Some innerErr, (s1, captured))
  | None =>
      if negb (IsTransientHTTPStatus (rp_status r)) then (None, (s1, captured))
      else
        let s2 := if 0 <? rp_retryAfter r
                  then sleepCtx (Z.min (rp_retryAfter r) retryAfterCap) s1 else s1 in
        (Some (Error "httpclient: transient status" [ErrTransientHTTPStatus]), (s2, captured))
  end.

Definition wait_captured (d : Z) (st : S * (string * Z)) : option error * (S * (string * Z)) :=
  let '(c, s1) := wait d st.1 in (c, (s1, st.2)).

(** [WithRetry]: the error triple [(nil, 0, err)] is [Fail err]. *)
Definition WithRetry (s : S) : result (string * Z) * S :=
  let '(err, _, (s', (body, status))) :=
    Do RetryMaxAttempts RetryWaitMin RetryWaitMax worth_retrying attempt_do wait_captured
      (s, ("", 0)) in
  match err with
  | Some e => if negb (errors_Is e ErrTransientHTTPStatus) then (Fail e, s')
              else (Ok (body, status), s')
  | None => (Ok (body, status), s')
  end.
End WithRetry.

(** [ParseRetryAfter], given the parser of HTTP dates and the current time. *)
Definition ParseRetryAfter (ParseTime : string -> option Z) (now : Z) (value : string) : Z :=
  if String.eqb value "" then 0
  else match Atoi value with
       | Some seconds => if seconds <? 0 then 0 else mul64 seconds Second
       | None =>
           match ParseTime value with
           | Some when => let d := time_Sub when now in if 0 <? d then d else 0
           | None => 0
           end
       end.

(** The decoders the switch of [DecompressResponse] opens; a reader stands for
    what [io.ReadAll] gets out of it. *)
Record codecs := Codecs {
  gzip_NewReader : string -> result (result string);
  zlib_NewReader : string -> result (result string);
  flate_NewReader : string -> result string;
  brotli_NewReader : string -> result string;
  zstd_NewReader : string -> result (result string);
}.

Definition DecompressResponse (cs : codecs) (enc : string) (body : result string)
  : result (result string) :=
  let opened (r : result (result string)) (what : string) :=
    map_err (fun e => Error what [e]) r in
  let over (f : string -> result string) := body ≫= f in
  if String.eqb enc "gzip" then
    match body with
    | Ok b => opened (gzip_NewReader cs b) "creating gzip reader"
    | Fail e => Fail (Error "creating gzip reader" [e])
    end
  else if String.eqb enc "deflate" then
    match body with
    | Fail e => Fail (Error "buffering deflate body" [e])
    | Ok peek =>
        match zlib_NewReader cs peek with
        | Ok z => Ok z
        | Fail _ => Ok (flate_NewReader cs peek)
        end
    end
  else if String.eqb enc "br" then Ok (over (brotli_NewReader cs))
  else if String.eqb enc "zstd" then
    match body with
    | Ok b => opened (zstd_NewReader cs b) "creating zstd reader"
    | Fail e => Fail (Error "creating zstd reader" [e])
    end
  else if String.eqb enc "" || String.eqb enc "identity" then Ok body
  else Fail (errors_New "unsupported content encoding").

(** ** WithRetry against a scripted peer *)
Section Scripted.
(** The [i]-th request is answered by [script i]; the state counts the
    requests and logs the Retry-After sleeps. *)
Variable script : nat -> reply.
Definition scripted_do (st : nat * list Z) : reply * (nat * list Z) :=
  (script st.1, (Datatypes.S st.1, st.2)).
Definition scripted_sleep (d : Z) (st : nat * list Z) : nat * list Z := (st.1, st.2 ++ [d]).

(** A reply that ends the retrying: a definitive status, or an error that
    says the context is finished. *)
Definition definitive (r : reply) : bool :=
  match rp_err r with
  | Some e => negb (worth_retrying 0 e)
  | None => negb (IsTransientHTTPStatus (rp_status r))
  end.

(** The reply the caller is given: the first definitive one of the first
    three, else the fourth. *)
Definition chosen : nat :=
  if definitive (script 0) then 0%nat else if definitive (script 1) then 1%nat
  else if definitive (script 2) then 2%nat else 3%nat.

Definition answer (r : reply) : result (string * Z) :=
  match rp_err r with
  | Some e => if errors_Is e ErrTransientHTTPStatus then Ok (rp_body r, rp_status r) else Fail e
  | None => Ok (rp_body r, rp_status r)
  end.

(** The sleep a reply causes. *)
Definition sleep_of (r : reply) : list Z :=
  match rp_err r with
  | Some _ => []
  | None => if IsTransientHTTPStatus (rp_status r) && (0 <? rp_retryAfter r)
            then [Z.min (rp_retryAfter r) retryAfterCap] else []
  end.

(** What the closure tells [retry.Do] about a reply. *)
Definition err_of (r : reply) : option error :=
  match rp_err r with
  | Some e => Some e
  | None => if IsTransientHTTPStatus (rp_status r)
            then Some (Error "httpclient: transient status" [ErrTransientHTTPStatus]) else None
  end.

Lemma attempt_scripted n log cap :
  attempt_do scripted_do scripted_sleep ((n, log), cap)
  = (err_of (script n),
     ((Datatypes.S n, log ++ sleep_of (script n)), (rp_body (script n), rp_status (script n)))).
Proof.
  unfold attempt_do, scripted_do, sleep_of, err_of. simpl.
  destruct (rp_err (script n)); [by rewrite app_nil_r|].
  destruct (IsTransientHTTPStatus _); simpl; [|by rewrite app_nil_r].
  destruct (0 <? _); [done|by rewrite app_nil_r].
Qed.

Lemma definitive_err_of r :
  definitive r = match err_of r with Some e => negb (worth_retrying 0 e) | None => true end.
Proof. unfold definitive, err_of. destruct (rp_err r); [done|]. by destruct (IsTransientHTTPStatus _). Qed.

Lemma answer_err_of r :
  answer r = match err_of r with
             | Some e => if negb (errors_Is e ErrTransientHTTPStatus) then Fail e
                         else Ok (rp_body r, rp_status r)
             | None => Ok (rp_body r, rp_status r)
             end.
Proof.
  unfold answer, err_of. destruct (rp_err r) as [e|]; [by destruct (errors_Is _ _)|].
  by destruct (IsTransientHTTPStatus _).
Qed.

(** The loop without its log. *)
Definition run_from (fuel : nat) (a : Z) (err : option error) st :=
  let '(r, _, s) := Do_loop RetryMaxAttempts RetryWaitMin RetryWaitMax worth_retrying
      (attempt_do scripted_do scripted_sleep) (wait_captured no_cancel) fuel a err st in (r, s).

Lemma run_from_step fuel a err n log cap :
  a <= RetryMaxAttempts ->
  let st := ((Datatypes.S n, log ++ sleep_of (script n)),
             (rp_body (script n), rp_status (script n))) in
  run_from (Datatypes.S fuel) a err ((n, log), cap)
  = if definitive (script n) || (a =? RetryMaxAttempts) then (err_of (script n), st)
    else run_from fuel (a + 1) (err_of (script n)) st.
Proof.
  intros Ha st. unfold run_from at 1. cbn [Do_loop].
  rewrite (proj2 (Z.leb_le _ _)), attempt_scripted, definitive_err_of by done.
  destruct (err_of (script n)) as [e|] eqn:E; [|done].
  destruct (a =? RetryMaxAttempts); [by rewrite orb_true_r|]. rewrite orb_false_r.
  change (worth_retrying a e) with (worth_retrying 0 e).
  destruct (negb (worth_retrying 0 e)); [done|].
  unfold run_from, wait_captured, no_cancel. cbn [fst snd]. subst st.
  by destruct (Do_loop _ _ _ _ _ _ fuel _ _ _) as [[r tr] s3].
Qed.

(** [WithRetry] makes at most four requests: it answers with the first
    definitive reply, or with the fourth one, transient status included, and
    makes no request after it; it sleeps what each transient reply's
    Retry-After asks, capped at thirty seconds. *)
Theorem WithRetry_scripted :
  WithRetry scripted_do scripted_sleep no_cancel (0%nat, [])
  = (answer (script chosen),
     (Datatypes.S chosen, concat (sleep_of <$> (script <$> seq 0 (Datatypes.S chosen))))).
Proof.
  transitivity (let '(err, (s', (b, st))) := run_from 4 1 None ((0%nat, []), ("", 0)) in
    (match err with
     | Some e => if negb (errors_Is e ErrTransientHTTPStatus) then Fail e else Ok (b, st)
     | None => Ok (b, st)
     end, s')).
  { unfold WithRetry, Do, run_from. simpl Z.to_nat.
    destruct (Do_loop _ _ _ _ _ _ _ _ _ _) as [[[e|] tr] [s' [b st]]]; [|done].
    by destruct (negb _). }
  assert (Hfour : (1 + 1 + 1 + 1 =? RetryMaxAttempts) = true) by done.
  assert (Hless : (1 =? RetryMaxAttempts) = false /\ (1 + 1 =? RetryMaxAttempts) = false
                  /\ (1 + 1 + 1 =? RetryMaxAttempts) = false) by done.
  destruct Hless as (H1 & H2 & H3).
  unfold chosen. rewrite !answer_err_of.
  rewrite !run_from_step by (unfold RetryMaxAttempts; lia).
  rewrite H1, H2, H3, Hfour, orb_true_r, !orb_false_r.
  destruct (definitive (script 0)), (definitive (script 1)), (definitive (script 2));
    simpl; by rewrite ?app_nil_r, ?app_assoc.
Qed.
End Scripted.

(** A Retry-After of [n] seconds is understood as [n] seconds when that
    fits a Duration, a negative count as no delay; a date as the time left to
    it, never less than zero; anything else as no delay. *)
Theorem ParseRetryAfter_spec (ParseTime : string -> option Z) (now : Z) (value : string) :
  (forall n, Atoi value = Some n -> n <= 9223372036) ->
  ParseRetryAfter ParseTime now value
  = match Atoi value, ParseTime value with
    | Some n, _ => Z.max 0 n * Second
    | None, Some when => if String.eqb value "" then 0 else Z.max 0 (time_Sub when now)
    | None, None => 0
    end
  /\ 0 <= ParseRetryAfter ParseTime now value <= max_int64.
Proof.
  intros Hn. unfold ParseRetryAfter.
  destruct (string_eqb_spec value "") as [->|Hne].
  { simpl. destruct (ParseTime ""); unfold max_int64; lia. }
  destruct (Atoi value) as [n|] eqn:E.
  - specialize (Hn n eq_refl). unfold max_int64, Second.
    destruct (Z.ltb_spec n 0); [lia|].
    unfold mul64. rewrite wrap64_id; unfold in_int64, min_int64, max_int64; lia.
  - destruct (ParseTime value) as [when|]; [|unfold max_int64; lia].
    unfold time_Sub, min_int64, max_int64. destruct (Z.ltb_spec 0 (Z.max (- 2 ^ 63) (Z.min (2 ^ 63 - 1) (when - now)))); lia.
Qed.

Lemma ParseRetryAfter_spec_witness :
  ParseRetryAfter (fun _ => None) 0 "120" = 120 * Second
  /\ 0 <= ParseRetryAfter (fun _ => None) 0 "120" <= max_int64.
Proof.
  assert (H : forall n, Atoi "120" = Some n -> n <= 9223372036)
    by (intros n [= <-]; vm_compute; discriminate).
  destruct (ParseRetryAfter_spec (fun _ => None) 0 "120" H) as [-> Hb].
  split; [reflexivity|exact Hb].
Defined.

(** Beyond that bound the multiplication wraps and the delay is negative. *)
Lemma ParseRetryAfter_wraps :
  ParseRetryAfter (fun _ => None) 0 "9223372037" = -9223372036709551616.
Proof. vm_compute. reflexivity. Qed.

(** ** Compressed bodies *)
Section Codecs.
Variable cs : codecs.
Variable gzip zlib deflate brotli zstd : string -> string.

(** What the decoders document: each reads back its own format, and the
    zlib reader refuses a raw deflate stream. *)
Record codecs_ok : Prop := {
  gzip_ok : forall x, gzip_NewReader cs (gzip x) = Ok (Ok x);
  zlib_ok : forall x, zlib_NewReader cs (zlib x) = Ok (Ok x);
  zlib_refuses : forall x, is_Ok (zlib_NewReader cs (deflate x)) = false;
  flate_ok : forall x, flate_NewReader cs (deflate x) = Ok x;
  brotli_ok : forall x, brotli_NewReader cs (brotli x) = Ok x;
  zstd_ok : forall x, zstd_NewReader cs (zstd x) = Ok (Ok x);
}.

(** A body as a server sends it under a Content-Encoding. *)
Inductive encoded (x : string) : string -> string -> Prop :=
| enc_gzip : encoded x "gzip" (gzip x)
| enc_zlib : encoded x "deflate" (zlib x)
| enc_deflate : encoded x "deflate" (deflate x)
| enc_br : encoded x "br" (brotli x)
| enc_zstd : encoded x "zstd" (zstd x)
| enc_none : encoded x "" x
| enc_identity : encoded x "identity" x.
End Codecs.

(** A body compressed in any of the encodings the client advertises, both
    readings of "deflate" included, or not compressed at all, is read back as
    the server's data. *)
Theorem DecompressResponse_roundtrip (cs : codecs) (gzip zlib deflate brotli zstd : string -> string)
    (x enc body : string) :
  codecs_ok cs gzip zlib deflate brotli zstd ->
  encoded gzip zlib deflate brotli zstd x enc body ->
  DecompressResponse cs enc (Ok body) = Ok (Ok x).
Proof.
  intros Hcs He. destruct Hcs, He; unfold DecompressResponse; simpl.
  - by rewrite gzip_ok0.
  - by rewrite zlib_ok0.
  - specialize (zlib_refuses0 x). destruct (zlib_NewReader cs (deflate x)); [done|].
    by rewrite flate_ok0.
  - by rewrite brotli_ok0.
  - by rewrite zstd_ok0.
  - done.
  - done.
Qed.

(** Toy formats that mark the data with a letter. *)
Definition tag_reader (c : ascii) (s : string) : result string :=
  match s with
  | String d t => if Ascii.eqb c d then Ok t else Fail (errors_New "bad header")
  | "" => Fail (errors_New "bad header")
  end.
Definition toy_codecs : codecs :=
  let new c s := match tag_reader c s with Ok t => Ok (Ok t) | Fail e => Fail e end in
  {| gzip_NewReader := new "g"%char; zlib_NewReader := new "z"%char;
     flate_NewReader := tag_reader "f"%char; brotli_NewReader := tag_reader "b"%char;
     zstd_NewReader := new "s"%char |}.

Lemma DecompressResponse_roundtrip_witness :
  DecompressResponse toy_codecs "deflate" (Ok "fhello") = Ok (Ok "hello").
Proof.
  apply (DecompressResponse_roundtrip toy_codecs (String "g") (String "z") (String "f")
           (String "b") (String "s") "hello" "deflate" "fhello").
  - split; intros x; reflexivity.
  - exact (enc_deflate _ _ (String "f") _ _ "hello").
Defined.
