(* ===== verification/HttpRequest.v ===== *)
(** * httpclient/client.go: building and sending a request

    The parameter maps and the header presets, and [NewRequestWithContext]: the
    query of the URL, the headers, the body, and what is answered. The query
    encoding of net/url is written out and read back; the rest of net/url, the
    validation of net/http and the transport are arguments. *)
From stdpp Require Import fin_maps sorting.
From Stdlib Require Import Ascii.
From S2P Require Import Prelude GoNum GoText GoFmt HttpClient.
Local Open Scope string_scope.

(** ** Maps and presets *)

Notation MapParams := (gmap string string).
Definition Set_ (m : MapParams) (k v : string) : MapParams := <[k := v]> m.
Definition Del (m : MapParams) (k : string) : MapParams := delete k m.

Definition HeaderContentType := "Content-Type".
Definition HeaderAccept := "Accept".
Definition HeaderAuthorization := "Authorization".
Definition HeaderUserAgent := "User-Agent".
Definition HeaderAcceptEncoding := "Accept-Encoding".
Definition HeaderContentEncoding := "Content-Encoding".
Definition HeaderCacheControl := "Cache-Control".
Definition HeaderXRequestID := "X-Request-Id".
Definition MIMEApplicationJSON := "application/json".
Definition MIMEApplicationXML := "application/xml".
Definition MIMEApplicationFormURLEncoded := "application/x-www-form-urlencoded".
Definition MIMEMultipartFormData := "multipart/form-data".
Definition MIMETextPlain := "text/plain; charset=utf-8".
Definition MIMEOctetStream := "application/octet-stream".
Definition CacheControlNoCache := "no-cache".
Definition CacheControlNoStore := "no-store".
Definition CacheControlMaxAge0 := "max-age=0".
Definition AcceptEncodingAll := "gzip, deflate, br, zstd".

Definition DefaultJSONHeaders : MapParams :=
  <[HeaderContentType := MIMEApplicationJSON]> {[ HeaderAccept := MIMEApplicationJSON ]}.
Definition DefaultFormHeaders : MapParams := {[ HeaderContentType := MIMEApplicationFormURLEncoded ]}.
Definition DefaultCompressedHeaders : MapParams := {[ HeaderAcceptEncoding := AcceptEncodingAll ]}.

(** ** The query encoding of net/url *)

Definition in_range (lo hi : Z) (c : ascii) : bool := (lo <=? byte_val c)%Z && (byte_val c <=? hi)%Z.
(** Letters, digits and the four marks that are not escaped. *)
Definition unreserved (c : ascii) : bool :=
  in_range 97 122 c || in_range 65 90 c || in_range 48 57 c
  || Ascii.eqb c "-" || Ascii.eqb c "_" || Ascii.eqb c "." || Ascii.eqb c "~".
Definition upper_hex (d : Z) : ascii := ascii_of_nat (Z.to_nat (if (d <? 10)%Z then 48 + d else 55 + d)%Z).
Definition byte_of (z : Z) : ascii := ascii_of_N (Z.to_N z).

Fixpoint QueryEscape (s : string) : string :=
  match s with
  | "" => ""
  | String c s' =>
      if Ascii.eqb c " " then String "+" (QueryEscape s')
      else if unreserved c then String c (QueryEscape s')
      else String "%" (String (upper_hex (byte_val c / 16)) (String (upper_hex (byte_val c mod 16)) (QueryEscape s')))
  end.

Definition unhex (c : ascii) : option Z :=
  if in_range 48 57 c then Some (byte_val c - 48)%Z
  else if in_range 97 102 c then Some (byte_val c - 87)%Z
  else if in_range 65 70 c then Some (byte_val c - 55)%Z
  else None.
(** [None] is the error of an escape that is none. *)
Fixpoint QueryUnescape (s : string) : option string :=
  match s with
  | "" => Some ""
  | String c s' =>
      if Ascii.eqb c "%" then
        match s' with
        | String a (String b s'') =>
            h ← unhex a; l ← unhex b; t ← QueryUnescape s''; Some (String (byte_of (h * 16 + l)) t)
        | _ => None
        end
      else t ← QueryUnescape s'; Some (String (if Ascii.eqb c "+" then " " else c)%char t)
  end.

Notation Values := (gmap string (list string)).
Definition Get (q : Values) (k : string) : list string := default [] (q !! k).

(** [url.ParseQuery], as [u.Query()] uses it: a part that cannot be read, or
    that has a semicolon, is left out. *)
Definition add_part (q : Values) (part : string) : Values :=
  if String.eqb part "" || Contains part ";" then q
  else
    let '(k, v) := match Cut part "=" with Some (k, v) => (k, v) | None => (part, "") end in
    match QueryUnescape k, QueryUnescape v with
    | Some k, Some v => <[k := (Get q k ++ [v])%list]> q
    | _, _ => q
    end.
Definition ParseQuery (s : string) : Values := foldl add_part ∅ (Split s "&").

(** [Values.Encode]: the keys sorted; a key with no values writes nothing. *)
Definition string_le (a b : string) : Prop := String.leb a b = true.
#[export] Instance string_le_dec (a b : string) : Decision (string_le a b).
Proof. unfold string_le. apply _. Defined.
Definition sorted_keys (q : Values) : list string := merge_sort string_le (map_to_list q).*1.
Definition key_parts (q : Values) (k : string) : list string :=
  map (fun v => QueryEscape k +:+ "=" +:+ QueryEscape v) (Get q k).
Definition Encode (q : Values) : string := Join (concat (map (key_parts q) (sorted_keys q))) "&".

Example Encode_ex :
  Encode (ParseQuery "q=a+b&lang=pt%2Dbr&bad=%zz&q=2&x;y=1&=") = "=&lang=pt-br&q=a+b&q=2".
Proof. vm_compute. reflexivity. Qed.

(** ** The request *)

(** [CanonicalHeaderKey]: capitals at the start of words, when every byte may
    stand in a header name. *)
Definition header_byte (c : ascii) : bool :=
  in_range 97 122 c || in_range 65 90 c || in_range 48 57 c
  || existsb (Ascii.eqb c) ["!"; "#"; "$"; "%"; "&"; "'"; "*"; "+"; "-"; "."; "^"; "_"; "`"; "|"; "~"]%char.
Definition shift_byte (d : Z) (c : ascii) : ascii := byte_of (byte_val c + d).
Fixpoint canonical_go (upper : bool) (s : string) : string :=
  match s with
  | "" => ""
  | String c s' =>
      String (if upper then if in_range 97 122 c then shift_byte (-32) c else c
              else if in_range 65 90 c then shift_byte 32 c else c)
        (canonical_go (Ascii.eqb c "-") s')
  end.
Definition CanonicalHeaderKey (s : string) : string :=
  if str_all header_byte s then canonical_go true s else s.

Section Client.
(** A parsed URL, its query, its text; a client. *)
Context {URL client : Type} (Parse : string -> result URL) (RawQuery : URL -> string)
  (setRawQuery : URL -> string -> URL) (URL_String : URL -> string).

Record request := mkRequest {
  rq_method : string; rq_url : string; rq_header : Values; rq_body : option string;
}.
Record response := mkResponse { StatusCode : Z; Body : result string }.

Context (validate : string -> string -> option error) (Do : client -> request -> result response)
  (defaultClient : client).

(** [q.Set] and [req.Header.Set] over the entries of a map, in the order the
    loop meets them. *)
Definition set_query (q : Values) (params : list (string * string)) : Values :=
  foldl (fun q kv => <[kv.1 := [kv.2]]> q) q params.
Definition set_headers (h : Values) (headers : list (string * string)) : Values :=
  foldl (fun h kv => <[CanonicalHeaderKey kv.1 := [kv.2]]> h) h headers.

(** The URL the request goes to. *)
Definition with_query (u : URL) (queryParams : list (string * string)) : URL :=
  match queryParams with
  | [] => u
  | _ => setRawQuery u (Encode (set_query (ParseQuery (RawQuery u)) queryParams))
  end.

(** [NewRequestWithContext]: the body, the status and the error it returns. *)
Definition NewRequestWithContext (method urlStr : string) (queryParams headers : list (string * string))
    (payload : string) (clients : list (option client)) : string * Z * option error :=
  match Parse urlStr with
  | Fail err => ("", 0%Z, Some (Error "invalid URL" [err]))
  | Ok u =>
      let c := match clients with Some c :: _ => c | _ => defaultClient end in
      let u := with_query u queryParams in
      let reqPayload := if String.eqb payload "" then None else Some payload in
      match validate method (URL_String u) with
      | Some err => ("", 0%Z, Some (Error "creating request" [err]))
      | None =>
          match Do c (mkRequest method (URL_String u) (set_headers ∅ headers) reqPayload) with
          | Fail err => ("", 0%Z, Some (Error "executing request" [err]))
          | Ok resp =>
              match Body resp with
              | Fail err => ("", StatusCode resp, Some (Error "reading response body" [err]))
              | Ok respBody => (respBody, StatusCode resp, None)
              end
          end
      end
  end.
End Client.

(** [sleepCtx] entered at [now]: the moment it returns, when the context ends at
    [ended], if it does. *)
Definition sleepCtx (ended : option Z) (now d : Z) : Z :=
  let fires := (now + Z.max 0 d)%Z in
  match ended with Some t => Z.min fires (Z.max now t) | None => fires end.

(** ** The encoding and its reading *)

Section RoundTrip.
Local Open Scope list_scope.

Definition plain_char (c : ascii) : bool :=
  negb (Ascii.eqb c "&") && negb (Ascii.eqb c "=") && negb (Ascii.eqb c ";").

(** Facts about one byte, by looking at all of them. *)
Definition byte_ok (c : ascii) : bool :=
  if Ascii.eqb c " " then true
  else if unreserved c then plain_char c && negb (Ascii.eqb c "%") && negb (Ascii.eqb c "+")
  else
    plain_char (upper_hex (byte_val c / 16)) && plain_char (upper_hex (byte_val c mod 16)) &&
    bool_decide (unhex (upper_hex (byte_val c / 16)) = Some (byte_val c / 16)%Z) &&
    bool_decide (unhex (upper_hex (byte_val c mod 16)) = Some (byte_val c mod 16)%Z) &&
    Ascii.eqb (byte_of (byte_val c / 16 * 16 + byte_val c mod 16)) c.

Lemma byte_ok_all (c : ascii) : byte_ok c = true.
Proof. destruct c as [[] [] [] [] [] [] [] []]; vm_compute; reflexivity. Qed.

Lemma QueryUnescape_Escape (s : string) : QueryUnescape (QueryEscape s) = Some s.
Proof.
  induction s as [|c s IH]; [done|]. pose proof (byte_ok_all c) as Hc. unfold byte_ok in Hc.
  cbn [QueryEscape]. destruct (Ascii.eqb_spec c " ") as [->|_].
  - cbn. by rewrite IH.
  - destruct (unreserved c).
    + bool_to_prop. cbn [QueryUnescape].
      repeat match goal with H : Ascii.eqb c _ = false |- _ => rewrite H; clear H end. by rewrite IH.
    + bool_to_prop. repeat match goal with H : bool_decide _ = true |- _ => apply bool_decide_eq_true in H end.
      cbn [QueryUnescape]. change (Ascii.eqb "%" "%") with true. cbn iota.
      repeat match goal with H : unhex _ = Some _ |- _ => rewrite H; clear H end.
      rewrite IH. cbn. match goal with H : Ascii.eqb _ c = true |- _ => apply Ascii.eqb_eq in H as -> end. done.
Qed.

Lemma QueryEscape_plain (s : string) : str_all plain_char (QueryEscape s) = true.
Proof.
  induction s as [|c s IH]; [done|]. pose proof (byte_ok_all c) as Hc. unfold byte_ok in Hc.
  cbn [QueryEscape]. destruct (Ascii.eqb c " "); [by cbn; rewrite IH|].
  destruct (unreserved c); bool_to_prop; cbn [str_all]; rewrite IH;
    repeat match goal with H : plain_char _ = true |- _ => rewrite H; clear H end; done.
Qed.

(** A part without the separator's byte keeps it so. *)
Lemma escaped_without (d : ascii) (s : string) : plain_char d = false ->
  str_all (fun c => negb (Ascii.eqb c d)) (QueryEscape s) = true.
Proof.
  intros Hd. eapply str_all_mono; [|apply QueryEscape_plain]. intros c Hc.
  destruct (Ascii.eqb_spec c d) as [->|]; [congruence|done].
Qed.

(** Reading the part of one value adds it. *)
Lemma add_part_ok (q : Values) (k v : string) :
  add_part q (QueryEscape k +:+ "=" +:+ QueryEscape v) = <[k := Get q k ++ [v]]> q.
Proof.
  unfold add_part.
  assert (String.eqb (QueryEscape k +:+ "=" +:+ QueryEscape v) "" = false) as ->.
  { apply String.eqb_neq. intros [_ [? _]%string_app_eq_nil]%string_app_eq_nil. done. }
  rewrite Contains_byte, !str_all_app, !escaped_without by done.
  change (str_all _ "=") with true. cbn [negb andb orb].
  change ("=" +:+ QueryEscape v) with (String "=" (QueryEscape v)).
  rewrite Cut_no_sep by (by apply escaped_without). by rewrite !QueryUnescape_Escape.
Qed.

Lemma Split_Join (p : string) (ps : list string) (d : ascii) :
  Forall (fun x => str_all (fun c => negb (Ascii.eqb c d)) x = true) (p :: ps) ->
  Split (Join (p :: ps) (String d "")) d = p :: ps.
Proof.
  revert p. induction ps as [|p' ps IH]; intros p Hp; apply Forall_cons in Hp as [Hh Ht].
  - by apply Split_no_sep.
  - change (Join (p :: p' :: ps) (String d "")) with (p +:+ String d (Join (p' :: ps) (String d ""))).
    rewrite Split_app_sep by done. f_equal. by apply IH.
Qed.

(** Reading the parts of one key adds its values. *)
Lemma read_values (k : string) (vs : list string) : forall acc : Values,
  foldl add_part acc (map (fun v => QueryEscape k +:+ "=" +:+ QueryEscape v) vs)
  = match vs with [] => acc | _ => <[k := Get acc k ++ vs]> acc end.
Proof.
  induction vs as [|v vs IH]; intros acc; [done|]. cbn [map foldl]. rewrite add_part_ok, IH.
  unfold Get. rewrite lookup_insert_eq. simpl. destruct vs as [|v' vs]; [done|].
  by rewrite insert_insert_eq, <- app_assoc.
Qed.

Lemma read_keys (q : Values) (ks : list string) : NoDup ks -> forall (acc : Values) (k : string),
  foldl add_part acc (concat (map (key_parts q) ks)) !! k
  = if bool_decide (k ∈ ks) then match Get q k with [] => acc !! k | vs => Some (Get acc k ++ vs) end
    else acc !! k.
Proof.
  induction 1 as [|k0 ks Hk0 Hnd IH]; intros acc k; [done|].
  cbn [map concat]. rewrite foldl_app, IH. unfold key_parts. rewrite read_values.
  destruct (decide (k = k0)) as [->|Hne].
  - rewrite (bool_decide_false (k0 ∈ ks)) by done. rewrite bool_decide_true by set_solver.
    destruct (Get q k0); [done|]. by rewrite lookup_insert_eq.
  - set (acc' := match Get q k0 with [] => acc | _ => _ end).
    assert (Hsame : acc' !! k = acc !! k).
    { unfold acc'. destruct (Get q k0); [done|]. by rewrite lookup_insert_ne. }
    assert (Hget : Get acc' k = Get acc k) by (unfold Get; by rewrite Hsame).
    rewrite Hsame, Hget. by rewrite (bool_decide_ext (k ∈ k0 :: ks) (k ∈ ks)) by set_solver.
Qed.

Lemma sorted_keys_perm (q : Values) : sorted_keys q ≡ₚ (map_to_list q).*1.
Proof. apply merge_sort_Permutation. Qed.

Lemma Encode_parts (q : Values) : Split (Encode q) "&" = 
  match concat (map (key_parts q) (sorted_keys q)) with [] => [""] | ps => ps end.
Proof.
  unfold Encode. assert (H : Forall (fun x => str_all (fun c => negb (Ascii.eqb c "&")) x = true)
    (concat (map (key_parts q) (sorted_keys q)))).
  { apply Forall_concat, Forall_forall. intros ps (k & -> & _)%list_elem_of_fmap.
    apply Forall_forall. intros p (v & -> & _)%list_elem_of_fmap.
    by rewrite !str_all_app, !escaped_without by done. }
  destruct (concat _); [done|]. by apply Split_Join.
Qed.

(** What is encoded is read back, if no key is without a value. *)
Lemma ParseQuery_Encode (q : Values) : (forall k, q !! k <> Some []) -> ParseQuery (Encode q) = q.
Proof.
  intros Hq. unfold ParseQuery. rewrite Encode_parts.
  assert (Hnd : NoDup (sorted_keys q)) by (rewrite sorted_keys_perm; apply NoDup_fst_map_to_list).
  assert (Heq : foldl add_part ∅ (concat (map (key_parts q) (sorted_keys q))) = q).
  { apply map_eq. intros k. rewrite read_keys by done. unfold Get at 1 2. rewrite lookup_empty. simpl.
    destruct (q !! k) as [[|v vs]|] eqn:E; simpl.
    - by destruct (Hq k).
    - rewrite bool_decide_true; [done|]. rewrite sorted_keys_perm.
      apply list_elem_of_fmap. exists (k, v :: vs). split; [done|]. by apply elem_of_map_to_list.
    - by case_bool_decide. }
  destruct (concat (map (key_parts q) (sorted_keys q))); [|exact Heq]. exact Heq.
Qed.
End RoundTrip.

(** ** The request that is sent *)

Lemma add_part_nonempty (q : Values) (part : string) :
  (forall k, q !! k <> Some []) -> forall k, add_part q part !! k <> Some [].
Proof.
  intros Hq k. unfold add_part. repeat case_match; try apply Hq.
  all: rewrite lookup_insert; case_decide; [|apply Hq].
  all: intros [= H']; by apply app_eq_nil in H' as [_ ?].
Qed.

Lemma ParseQuery_nonempty (s : string) (k : string) : ParseQuery s !! k <> Some [].
Proof.
  unfold ParseQuery. assert (H : forall ps (q : Values), (forall k, q !! k <> Some []) ->
    forall k, foldl add_part q ps !! k <> Some []).
  { induction ps as [|p ps IH]; intros q Hq; [done|]. apply IH. by apply add_part_nonempty. }
  by apply H.
Qed.

(** [Set] over entries: the last entry of a key wins, other keys keep. *)
Lemma set_all_lookup (f : string -> string) (kvs : list (string * string)) : forall (q : Values) (k : string),
  (forall kv, kv ∈ kvs -> f kv.1 <> k) ->
  foldl (fun q kv => <[f kv.1 := [kv.2]]> q) q kvs !! k = q !! k.
Proof.
  induction kvs as [|kv kvs IH]; intros q k H; [done|]. simpl.
  rewrite IH by set_solver. apply lookup_insert_ne. set_solver.
Qed.

Lemma set_all_in (f : string -> string) (kvs : list (string * string)) (k v : string) : forall q : Values,
  NoDup (map (fun kv => f kv.1) kvs) -> (k, v) ∈ kvs ->
  foldl (fun q kv => <[f kv.1 := [kv.2]]> q) q kvs !! f k = Some [v].
Proof.
  induction kvs as [|kv kvs IH]; intros q Hnd Hin; [by apply elem_of_nil in Hin|].
  cbn [map] in Hnd. apply NoDup_cons in Hnd as [Hni Hnd]. simpl.
  apply elem_of_cons in Hin as [<-|Hin]; [|by apply IH].
  rewrite set_all_lookup; [by rewrite lookup_insert_eq|]. intros kv Hkv Heq. apply Hni. simpl.
  rewrite <- Heq. apply list_elem_of_fmap. by exists kv.
Qed.

Section Requests.
Context {URL client : Type} (Parse : string -> result URL) (RawQuery : URL -> string)
  (setRawQuery : URL -> string -> URL) (URL_String : URL -> string)
  (validate : string -> string -> option error) (Do : client -> request -> result response)
  (defaultClient : client).

(** What the call answers for what the transport answered. *)
Definition answer (r : result response) : string * Z * option error :=
  match r with
  | Fail err => ("", 0%Z, Some (Error "executing request" [err]))
  | Ok resp => match Body resp with
               | Fail err => ("", StatusCode resp, Some (Error "reading response body" [err]))
               | Ok body => (body, StatusCode resp, None)
               end
  end.

(** The query of the request sent.  With parameters of distinct names, the query
    written to the URL, read back, has for each parameter that value alone, and
    for every other name what the URL had. *)
Lemma with_query_reads (u : URL) (params : list (string * string)) :
  params <> [] -> NoDup params.*1 ->
  exists query, with_query RawQuery setRawQuery u params = setRawQuery u query /\
    (forall k v, (k, v) ∈ params -> ParseQuery query !! k = Some [v]) /\
    (forall k, k ∉ params.*1 -> ParseQuery query !! k = ParseQuery (RawQuery u) !! k).
Proof.
  intros Hne Hnd. set (q := set_query (ParseQuery (RawQuery u)) params).
  exists (Encode q). split; [by destruct params|].
  assert (Hin : forall k v, (k, v) ∈ params -> q !! k = Some [v]).
  { intros k v. by apply (set_all_in id). }
  assert (Hout : forall k, k ∉ params.*1 -> q !! k = ParseQuery (RawQuery u) !! k).
  { intros k Hk. apply (set_all_lookup id). intros kv Hkv <-. apply Hk. apply list_elem_of_fmap. by exists kv. }
  rewrite ParseQuery_Encode; [done|]. intros k. destruct (decide (k ∈ params.*1)) as [Hk|Hk].
  - apply list_elem_of_fmap in Hk as ([k' v] & -> & Hkv). simpl. by rewrite (Hin _ _ Hkv).
  - rewrite Hout by done. apply ParseQuery_nonempty.
Qed.

(** [C19] What is asked is what is sent.  For a URL that parses and a request net/http
    accepts, [NewRequestWithContext] sends one request, to the client given or
    the default one: the method; the URL itself, or with parameters the URL whose
    query, read back, has exactly each parameter's value and the URL's own values
    for the other names; every header of the caller under its canonical name; the
    payload, unless it is empty. Its answer is the transport's. *)
Theorem NewRequestWithContext_sends (method urlStr payload : string) (u : URL)
    (params headers : list (string * string)) (clients : list (option client)) :
  Parse urlStr = Ok u ->
  NoDup params.*1 -> NoDup (map (fun kv => CanonicalHeaderKey kv.1) headers) ->
  (forall v, validate method v = None) ->
  exists u' h,
    NewRequestWithContext Parse RawQuery setRawQuery URL_String validate Do defaultClient
      method urlStr params headers payload clients
    = answer (Do (default defaultClient (mjoin (head clients)))
        (mkRequest method (URL_String u') h (if String.eqb payload "" then None else Some payload))) /\
    (forall k v, (k, v) ∈ headers -> h !! CanonicalHeaderKey k = Some [v]) /\
    (params = [] -> u' = u) /\
    (params <> [] -> exists query, u' = setRawQuery u query /\
      (forall k v, (k, v) ∈ params -> ParseQuery query !! k = Some [v]) /\
      (forall k, k ∉ params.*1 -> ParseQuery query !! k = ParseQuery (RawQuery u) !! k)).
Proof.
  intros Hu Hp Hh Hv. exists (with_query RawQuery setRawQuery u params), (set_headers ∅ headers).
  split_and!.
  - unfold NewRequestWithContext. rewrite Hu, Hv. unfold answer.
    by destruct clients as [|[c|] cs].
  - intros k v Hin. by apply set_all_in.
  - by intros ->.
  - intros Hne. by apply with_query_reads.
Qed.
End Requests.

(** An echo service over raw URLs: its answer is the URL it was asked for. *)
Definition echo : unit -> request -> result response := fun _ r => Ok (mkResponse 200 (Ok (rq_url r))).
Definition cut_query (u : string) : string := match Cut u "?" with Some (_, q) => q | None => "" end.
Definition put_query (u q : string) : string := (match Cut u "?" with Some (b, _) => b | None => u end) +:+ "?" +:+ q.

Example request_ex :
  NewRequestWithContext (fun s => Ok s) cut_query put_query id (fun _ _ => None) echo tt
    "GET" "http://x/s?page=1&lang=pt" [("page", "2"); ("q", "a b&c")] [] "" []
  = ("http://x/s?lang=pt&page=2&q=a+b%26c", 200%Z, None).
Proof. vm_compute. reflexivity. Qed.

Lemma NewRequestWithContext_sends_witness :
  exists u' h,
    NewRequestWithContext (fun s => Ok s) cut_query put_query id (fun _ _ => None) echo tt
      "POST" "http://x/s?page=1" [("page", "2")] [("content-type", "text/plain")] "hi" [None]
    = answer (echo tt (mkRequest "POST" u' h (Some "hi"))) /\
    h !! "Content-Type" = Some ["text/plain"] /\
    exists query, u' = "http://x/s?" +:+ query /\ ParseQuery query !! "page" = Some ["2"].
Proof.
  destruct (NewRequestWithContext_sends (fun s => Ok s) cut_query put_query id (fun _ _ => None) echo tt
    "POST" "http://x/s?page=1" "hi" "http://x/s?page=1" [("page", "2")] [("content-type", "text/plain")] [None])
    as (u' & h & HN & Hh & _ & Hq).
  - done.
  - apply NoDup_singleton.
  - apply NoDup_singleton.
  - done.
  - exists u', h. split; [exact HN|]. split.
    + apply (Hh "content-type" "text/plain"). left.
    + destruct Hq as (query & -> & Hq & _); [done|]. exists query. split; [by vm_compute|].
      apply Hq. left.
Defined.
