(* ===== verification/Pagination.v ===== *)
(** * Package pagination: pages, filters and sorts

    [Page] and [Result] of pagination/paginator.go with their arithmetic on
    64-bit integers and floats, the filter and sort builders of filter.go, the
    SQL text and arguments gorm_scope.go hands to gorm, and the LIKE escaping
    of helper.go.  The gorm connection is seen through the calls made on it; a value is
    data or, as [gorm.Expr] is, code. *)
From S2P Require Import Prelude GoNum GoText.
Local Open Scope Z_scope.

(** ** pagination/paginator.go *)
Definition DefPage : Z := 1.
Definition DefPerPage : Z := 20.
Definition MaxPerPage : Z := 100.

Record Page := mkPage { Number : Z; PerPage : Z }.

Definition Normalize (p : Page) : Page :=
  let number := if Number p <=? 0 then DefPage else Number p in
  let perPage := if PerPage p <=? 0 then DefPerPage else PerPage p in
  let perPage := if MaxPerPage <? perPage then MaxPerPage else perPage in
  mkPage number perPage.

Definition Offset (p : Page) : Z := mul64 (sub64 (Number p) 1) (PerPage p).

Record Result (T : Type) := mkResult {
  Data : list T;
  Total : Z;
  res_Page : Z;
  res_PerPage : Z;
  TotalPages : Z;
  HasNext : bool;
  HasPrev : bool;
}.
Arguments mkResult {T}.
Arguments Data {T}. Arguments Total {T}. Arguments res_Page {T}. Arguments res_PerPage {T}.
Arguments TotalPages {T}. Arguments HasNext {T}. Arguments HasPrev {T}.

Definition NewResult {T} (data : list T) (total : Z) (p : Page) : Result T :=
  let totalPages := float_to_int64 (fceil (fdiv (float_of_int total) (float_of_int (PerPage p)))) in
  {| Data := data; Total := total; res_Page := Number p; res_PerPage := PerPage p;
     TotalPages := totalPages; HasNext := Number p <? totalPages; HasPrev := 1 <? Number p |}.

Definition Presenter {T E} (r : Result T) (pFn : list T -> list E) : Result E :=
  {| Data := pFn (Data r); Total := Total r; res_Page := res_Page r; res_PerPage := res_PerPage r;
     TotalPages := TotalPages r; HasNext := HasNext r; HasPrev := HasPrev r |}.

(** ** pagination/filter.go *)

(** The values a filter may carry, with what [fmt.Sprintf("%v")] prints for
    them: a string as it is, a pointer as [addr], anything else as [text].
    [AOther] is a number, a boolean, a time or the like; [AList] a slice; [ACode] a
    value that gorm takes for a piece of SQL, such as [gorm.Expr(sql)], and writes
    into the statement instead of binding it. *)
Inductive any : Type :=
| ANil
| AString (s : string)
| APointer (addr : string) (target : option any)
| AOther (dynamic_type text : string)
| AList (elems : list any) (text : string)
| ACode (sql text : string).

Definition sprintv (v : any) : string :=
  match v with
  | ANil => "<nil>"
  | AString s => s
  | APointer _ None => "<nil>"
  | APointer addr (Some _) => addr
  | AOther _ text | AList _ text | ACode _ text => text
  end.

(** Data: no piece of SQL in the value, behind a pointer or in a slice. *)
Fixpoint is_data (v : any) : bool :=
  match v with
  | ACode _ _ => false
  | APointer _ (Some t) => is_data t
  | AList elems _ => forallb is_data elems
  | _ => true
  end.

(** [derefVal]: one level of pointer is removed, a nil pointer becomes nil. *)
Definition derefVal (v : any) : any :=
  match v with
  | APointer _ None => ANil
  | APointer _ (Some t) => t
  | _ => v
  end.

Definition Eq : string := "=".
Definition Neq : string := "<>".
Definition Gt : string := ">".
Definition Gte : string := ">=".
Definition Lt : string := "<".
Definition Lte : string := "<=".
Definition Like : string := "LIKE".
Definition ILike : string := "ILIKE".
Definition In : string := "IN".
Definition NotIn : string := "NOT IN".
Definition IsNull : string := "IS NULL".
Definition IsNotNull : string := "IS NOT NULL".
Definition Asc : string := "ASC".
Definition Desc : string := "DESC".
Definition And : string := "AND".
Definition Or : string := "OR".

Inductive Filter : Type :=
| mkFilter (Field Op : string) (Value : any) (Group : option FilterGroup)
with FilterGroup : Type :=
| mkFilterGroup (gOp : string) (Filters : list Filter).

Record Sort := mkSort { sort_Field : string; Direction : string }.
Record Query := mkQuery { q_Page : Page; q_Filters : list Filter; q_Sorts : list Sort }.

Definition newGroup (op : string) (filters : list Filter) : Filter :=
  mkFilter "" "" ANil (Some (mkFilterGroup op filters)).
Definition OrGroup (filters : list Filter) : Filter := newGroup Or filters.
Definition AndGroup (filters : list Filter) : Filter := newGroup And filters.

Definition NewQuery (page : Page) (filters : list Filter) (sorts : list Sort) : Query :=
  mkQuery (Normalize page) filters sorts.

(** A [*FilterBuilder] is its list of filters; the methods return the pointer
    they were given, so each is a function on that list. *)
Definition NewFilterBuilder : list Filter := [].
Definition Where (b : list Filter) (field op : string) (value : any) : list Filter :=
  b ++ [mkFilter field op (derefVal value) None].
Definition WhereIf (b : list Filter) (cond : bool) (field op : string) (value : any) : list Filter :=
  if cond then Where b field op value else b.
Definition WhereGroup (b : list Filter) (op : string) (build : option (list Filter -> list Filter))
  : list Filter :=
  match build with
  | None => b
  | Some build =>
      let inner := build NewFilterBuilder in
      match inner with [] => b | _ => b ++ [newGroup op inner] end
  end.
Definition WhereGroupIf (b : list Filter) (cond : bool) (op : string)
    (build : option (list Filter -> list Filter)) : list Filter :=
  if cond then WhereGroup b op build else b.
Definition WhereGroupOr (b : list Filter) (build : option (list Filter -> list Filter)) :=
  WhereGroup b Or build.
Definition WhereGroupOrIf (b : list Filter) (cond : bool)
    (build : option (list Filter -> list Filter)) :=
  WhereGroupIf b cond Or build.

Definition OrderBy (b : list Sort) (field dir : string) : list Sort := b ++ [mkSort field dir].

(** One part of [ParseSort]: [None] is the panic of indexing an empty
    [tokens], a blank part contributes nothing. *)
Definition parse_sort_part (part : string) : option (list Sort) :=
  let part := TrimSpace part in
  if String.eqb part "" then Some []
  else
    let tokens := Fields part in
    let dir := match tokens with
               | [_; second] => if EqualFold second "desc" then Desc else Asc
               | _ => Asc
               end in
    match tokens with
    | field :: _ => Some [mkSort field dir]
    | [] => None
    end.

Fixpoint parse_sort_parts (parts : list string) : option (list Sort) :=
  match parts with
  | [] => Some []
  | p :: ps => s ← parse_sort_part p; rest ← parse_sort_parts ps; Some (s ++ rest)
  end.

Definition ParseSort (raw : string) : option (list Sort) :=
  parse_sort_parts (Split raw ","%char).

(** ** pagination/helper.go *)
Definition LikeEscapeChar : string := "!".
Definition LikeEscapeClause : string := "ESCAPE '" +:+ LikeEscapeChar +:+ "'".

(** [strings.NewReplacer] with replacements of one byte works byte by byte. *)
Fixpoint likeEscaper (s : string) : string :=
  match s with
  | "" => ""
  | String c t =>
      (if Ascii.eqb c "!" then LikeEscapeChar +:+ LikeEscapeChar
       else if Ascii.eqb c "%" then LikeEscapeChar +:+ "%"
       else if Ascii.eqb c "_" then LikeEscapeChar +:+ "_"
       else String c "") +:+ likeEscaper t
  end.

Definition EscapeLike (v : any) : string := likeEscaper (sprintv v).

(** ** pagination/gorm_scope.go *)
Fixpoint filterExpr (f : Filter) : string * list any :=
  let 'mkFilter field op value group := f in
  match group with
  | Some g => groupExpr g
  | None =>
      if String.eqb op IsNull then (field +:+ " IS NULL", [])
      else if String.eqb op IsNotNull then (field +:+ " IS NOT NULL", [])
      else if String.eqb op In || String.eqb op NotIn then
        (field +:+ " " +:+ op +:+ " (?)", [value])
      else if String.eqb op Like || String.eqb op ILike then
        (field +:+ " " +:+ op +:+ " ? " +:+ LikeEscapeClause,
         [AString ("%" +:+ EscapeLike (derefVal value) +:+ "%")])
      else (field +:+ " " +:+ op +:+ " ?", [value])
  end
with groupExpr (g : FilterGroup) : string * list any :=
  let 'mkFilterGroup gop filters := g in
  let '(exprs, args) :=
    (fix collect (fs : list Filter) : list string * list any :=
       match fs with
       | [] => ([], [])
       | f :: fs' =>
           let '(expr, exprArgs) := filterExpr f in
           let '(exprs, args) := collect fs' in
           if String.eqb expr "" then (exprs, args) else (expr :: exprs, exprArgs ++ args)
       end) filters in
  match exprs with
  | [] => ("", [])
  | _ =>
      let op := if String.eqb gop Or then gop else And in
      ("(" +:+ Join exprs (" " +:+ op +:+ " ") +:+ ")", args)
  end.

(** The calls made on the gorm connection, oldest first. *)
Inductive gorm_call : Type :=
| CallWhere (expr : string) (args : list any)
| CallCount
| CallOrder (clause : string)
| CallLimit (n : Z)
| CallOffset (n : Z).

Fixpoint applyFilters (db : list gorm_call) (filters : list Filter) : list gorm_call :=
  match filters with
  | [] => db
  | f :: fs =>
      let '(expr, args) := filterExpr f in
      if String.eqb expr "" then applyFilters db fs
      else applyFilters (db ++ [CallWhere expr args]) fs
  end.

Definition sort_dir (s : Sort) : string :=
  if ToUpper_is (Direction s) "ASC" then "ASC"
  else if ToUpper_is (Direction s) "DESC" then "DESC" else "ASC".

Fixpoint applySorts (db : list gorm_call) (sorts : list Sort) : list gorm_call :=
  match sorts with
  | [] => db
  | s :: ss => applySorts (db ++ [CallOrder (sort_Field s +:+ " " +:+ sort_dir s)]) ss
  end.

(** [Scope]: the count runs on a session of its own, so it sees the clauses of
    the calls before it and adds none to the chain. *)
Definition Scope (q : Query) (db : list gorm_call) : list gorm_call :=
  let db := applyFilters db (q_Filters q) in
  let db := db ++ [CallCount] in
  let db := applySorts db (q_Sorts q) in
  db ++ [CallLimit (PerPage (q_Page q)); CallOffset (Offset (q_Page q))].

Definition FilterScope (filters : list Filter) (db : list gorm_call) : list gorm_call :=
  applyFilters db filters.

(** ** Pages *)

Lemma Normalize_range (p : Page) :
  1 <= Number (Normalize p) /\ 1 <= PerPage (Normalize p) <= MaxPerPage.
Proof.
  unfold Normalize, DefPage, DefPerPage, MaxPerPage; simpl.
  destruct (Z.leb_spec (Number p) 0), (Z.leb_spec (PerPage p) 0); simpl;
    repeat match goal with |- context [?a <? ?b] => destruct (Z.ltb_spec a b) end; lia.
Qed.

Lemma Normalize_idempotent (p : Page) : Normalize (Normalize p) = Normalize p.
Proof.
  pose proof (Normalize_range p) as [Hn Hp]. unfold Normalize at 1.
  destruct (Z.leb_spec (Number (Normalize p)) 0); [lia|].
  destruct (Z.leb_spec (PerPage (Normalize p)) 0); [lia|].
  destruct (Z.ltb_spec MaxPerPage (PerPage (Normalize p))); [lia|]. by destruct (Normalize p).
Qed.

(** The last page number whose offset fits 64 bits at any page size. *)
Definition max_page : Z := 92233720368547758.

Lemma Offset_normalized (p : Page) :
  Number p <= max_page ->
  Offset (Normalize p) = (Number (Normalize p) - 1) * PerPage (Normalize p).
Proof.
  intros Hm. pose proof (Normalize_range p) as [Hn Hp].
  assert (Hb : Number (Normalize p) <= max_page).
  { unfold Normalize, DefPage, max_page in *; simpl. destruct (Z.leb_spec (Number p) 0); lia. }
  unfold Offset, mul64, sub64, MaxPerPage, max_page in *.
  rewrite (wrap64_id (_ - 1)) by (unfold in_int64, min_int64, max_int64; lia).
  apply wrap64_id. unfold in_int64, min_int64, max_int64. nia.
Qed.

(** [C15] Whatever page a caller asks for, the window its normalized form reads
    starts at a non-negative offset, holds between 1 and 100 rows, and the
    windows of the pages tile the rows: row [row] is read by page number
    [row / PerPage + 1] and by no other. *)
Theorem pages_tile (p : Page) (row : Z) :
  Number p <= max_page -> 0 <= row ->
  let q := Normalize p in
  0 <= Offset q /\ 1 <= PerPage q <= 100
  /\ (Offset q <= row < Offset q + PerPage q <-> Number q = row / PerPage q + 1).
Proof.
  intros Hm Hrow; cbv zeta. pose proof (Normalize_range p) as [Hn Hp].
  pose proof (Offset_normalized p Hm) as Ho.
  remember (Normalize p) as q eqn:Eq. clear Eq. rewrite Ho. unfold MaxPerPage in Hp.
  split; [nia|]. split; [lia|].
  pose proof (Z.div_mod row (PerPage q) ltac:(lia)).
  pose proof (Z.mod_pos_bound row (PerPage q) ltac:(lia)). split; [|nia].
  intros Hw. assert (row / PerPage q = Number q - 1); [|lia].
  symmetry. apply Z.div_unique with (row - (Number q - 1) * PerPage q); [left|]; lia.
Qed.

Lemma pages_tile_witness :
  let q := Normalize (mkPage 3 0) in
  Offset q = 40 /\ PerPage q = 20 /\ (40 <= 47 < 60 <-> Number q = 47 / 20 + 1).
Proof.
  destruct (pages_tile (mkPage 3 0) 47) as (_ & _ & H); [vm_compute; discriminate|lia|].
  split; [reflexivity|split; [reflexivity|exact H]].
Defined.

(** Beyond the bound the offset of a large page number wraps and is negative. *)
Lemma Offset_wraps : Offset (Normalize (mkPage (max_page + 3) 100)) = -9223372036854775616.
Proof. vm_compute. reflexivity. Qed.

(** The metadata of a result is exact for totals below 2^53 although it is
    computed in floating point: the number of pages is the ceiling of
    total / per-page, there is a next page exactly when rows remain after this
    page's window, and a previous one exactly when rows precede it. *)
Theorem NewResult_exact {T} (data : list T) (total : Z) (p : Page) :
  Number p <= max_page -> 0 <= total < 2 ^ 53 ->
  let q := Normalize p in
  let r := NewResult data total q in
  TotalPages r = (total + PerPage q - 1) / PerPage q
  /\ (HasNext r = true <-> Offset q + PerPage q < total)
  /\ (HasPrev r = true <-> 0 < Offset q).
Proof.
  intros Hm Ht; cbv zeta. pose proof (Normalize_range p) as [Hn Hp]. unfold MaxPerPage in Hp.
  pose proof (Offset_normalized p Hm) as Ho.
  remember (Normalize p) as q eqn:Eq. clear Eq. set (r := NewResult data total q).
  assert (Htp : TotalPages r = (total + PerPage q - 1) / PerPage q).
  { apply float_ceil_div; [done|]. lia. }
  split; [done|]. rewrite Ho. split.
  - change (HasNext r) with (Number q <? TotalPages r). rewrite Htp, Z.ltb_lt.
    pose proof (Z.div_mod (total + PerPage q - 1) (PerPage q) ltac:(lia)).
    pose proof (Z.mod_pos_bound (total + PerPage q - 1) (PerPage q) ltac:(lia)). nia.
  - change (HasPrev r) with (1 <? Number q). rewrite Z.ltb_lt. nia.
Qed.

Lemma NewResult_exact_witness :
  let r := NewResult [tt] 41 (Normalize (mkPage 2 20)) in
  TotalPages r = 3 /\ (HasNext r = true <-> 40 < 41) /\ (HasPrev r = true <-> 0 < 20).
Proof.
  exact (NewResult_exact [tt] 41 (mkPage 2 20) ltac:(vm_compute; discriminate) ltac:(lia)).
Defined.

(** ** Filters *)

(** Induction over a filter and the conditions of its groups. *)
Lemma Filter_ind' (P : Filter -> Prop) :
  (forall field op value, P (mkFilter field op value None)) ->
  (forall field op value gop fs, Forall P fs ->
     P (mkFilter field op value (Some (mkFilterGroup gop fs)))) ->
  forall f, P f.
Proof.
  intros Hleaf Hgroup. fix IH 1.
  intros [field op value [[gop fs]|]]; [|apply Hleaf].
  apply Hgroup. induction fs as [|f fs IHfs]; constructor; [apply IH|done].
Qed.

(** The conditions of a group, as [groupExpr] gathers them. *)
Fixpoint collect (fs : list Filter) : list string * list any :=
  match fs with
  | [] => ([], [])
  | f :: fs' =>
      let '(expr, exprArgs) := filterExpr f in
      let '(exprs, args) := collect fs' in
      if String.eqb expr "" then (exprs, args) else (expr :: exprs, exprArgs ++ args)
  end.

Lemma groupExpr_collect (gop : string) (fs : list Filter) :
  groupExpr (mkFilterGroup gop fs)
  = match (collect fs).1 with
    | [] => ("", [])
    | exprs => ("(" +:+ Join exprs (" " +:+ (if String.eqb gop Or then gop else And) +:+ " ") +:+ ")",
                (collect fs).2)
    end.
Proof.
  transitivity (let '(exprs, args) := collect fs in
    match exprs with
    | [] => ("", [])
    | _ => ("(" +:+ Join exprs (" " +:+ (if String.eqb gop Or then gop else And) +:+ " ") +:+ ")", args)
    end); [reflexivity|].
  by destruct (collect fs) as [[|] ?].
Qed.

(** A filter with its values forgotten: its names, operators and structure. *)
Fixpoint shape (f : Filter) : Filter :=
  let 'mkFilter field op _ group := f in
  mkFilter field op ANil
    (match group with
     | Some (mkFilterGroup gop fs) => Some (mkFilterGroup gop (map shape fs))
     | None => None
     end).

Fixpoint count_char (c : ascii) (s : string) : nat :=
  match s with
  | "" => 0
  | String d t => (if Ascii.eqb c d then 1 else 0) + count_char c t
  end.

(** No field name or operator contains a question mark. *)
Fixpoint plain_names (f : Filter) : bool :=
  let 'mkFilter field op _ group := f in
  match group with
  | Some (mkFilterGroup _ fs) => forallb plain_names fs
  | None => (count_char "?" field =? 0)%nat && (count_char "?" op =? 0)%nat
  end.

Lemma count_char_app (c : ascii) (s t : string) :
  count_char c (s +:+ t) = (count_char c s + count_char c t)%nat.
Proof. induction s as [|d s IH]; [done|]. rewrite string_app_cons. simpl. lia. Qed.

(** The text of a condition is that of its shape. *)
Lemma filterExpr_shape (f : Filter) : (filterExpr (shape f)).1 = (filterExpr f).1.
Proof.
  induction f as [field op value|field op value gop fs IH] using Filter_ind'.
  - simpl. by repeat case_match.
  - cbn [shape filterExpr]. rewrite !groupExpr_collect.
    assert (Hc : (collect (map shape fs)).1 = (collect fs).1).
    { induction IH as [|f fs Hf _ IHfs]; [done|]. cbn [map collect].
      destruct (filterExpr (shape f)) as [e1 a1], (filterExpr f) as [e2 a2].
      simpl in Hf. subst e2.
      destruct (collect (map shape fs)) as [es1 as1], (collect fs) as [es2 as2].
      simpl in IHfs. subst es2. by destruct (e1 =? "")%string. }
    rewrite Hc. by destruct (collect fs).1.
Qed.

(** The question marks of a joined list. *)
Lemma count_char_Join (l : list string) (sep : string) :
  count_char "?" sep = 0%nat ->
  count_char "?" (Join l sep) = sum_list (count_char "?" <$> l).
Proof.
  intros Hsep. induction l as [|s [|t l] IH]; [done|simpl; lia|].
  change (Join (s :: t :: l) sep) with (s +:+ sep +:+ Join (t :: l) sep).
  rewrite !count_char_app, IH, Hsep. done.
Qed.

Lemma filterExpr_placeholders (f : Filter) :
  plain_names f = true ->
  count_char "?" (filterExpr f).1 = length (filterExpr f).2.
Proof.
  induction f as [field op value|field op value gop fs IH] using Filter_ind'; intros Hp.
  - simpl in Hp. bool_to_prop. apply Nat.eqb_eq in H, H0. simpl.
    repeat case_match; simpl; rewrite ?count_char_app, ?H, ?H0; reflexivity.
  - cbn [filterExpr]. rewrite groupExpr_collect.
    assert (Hc : sum_list (count_char "?" <$> (collect fs).1) = length (collect fs).2).
    { cbn [plain_names] in Hp. induction IH as [|f fs Hf _ IHfs]; [done|].
      apply andb_true_iff in Hp as [Hp1 Hp2]. specialize (Hf Hp1). specialize (IHfs Hp2).
      cbn [collect]. destruct (filterExpr f) as [e a]. destruct (collect fs) as [es args].
      simpl in *. destruct (string_eqb_spec e "") as [->|]; [done|].
      cbn [fst snd]. rewrite fmap_cons, length_app, <- IHfs, <- Hf. done. }
    destruct (collect fs) as [[|e es] args]; [done|]. cbn [fst snd] in *.
    rewrite !count_char_app, count_char_Join, Hc; [cbn; lia|].
    destruct (string_eqb_spec gop Or) as [->|]; reflexivity.
Qed.

(** The arguments of a filter: the value of every condition that takes one, from
    left to right, the text of a LIKE pattern in place of a searched value. *)
Fixpoint bound_values (f : Filter) : list any :=
  let 'mkFilter _ op value group := f in
  match group with
  | Some (mkFilterGroup _ fs) => flat_map bound_values fs
  | None =>
      if decide (op = IsNull \/ op = IsNotNull) then []
      else if decide (op = Like \/ op = ILike)
      then [AString ("%" +:+ EscapeLike (derefVal value) +:+ "%")]
      else [value]
  end.

(** Every value of a filter is data. *)
Fixpoint all_data (f : Filter) : bool :=
  let 'mkFilter _ _ value group := f in
  match group with
  | Some (mkFilterGroup _ fs) => forallb all_data fs
  | None => is_data value
  end.

Lemma string_app_not_nil (s t : string) : t <> "" -> s +:+ t <> "".
Proof. intros Ht H. apply string_app_eq_nil in H as [_ ->]. done. Qed.

Lemma filterExpr_leaf (field op : string) (value : any) :
  (filterExpr (mkFilter field op value None)).1 <> ""
  /\ (filterExpr (mkFilter field op value None)).2 = bound_values (mkFilter field op value None).
Proof.
  cbn [filterExpr bound_values].
  destruct (string_eqb_spec op IsNull) as [->|H1].
  { split; [by apply string_app_not_nil|done]. }
  destruct (string_eqb_spec op IsNotNull) as [->|H2].
  { split; [by apply string_app_not_nil|done]. }
  rewrite (decide_False (P := _ \/ _)) by (by intros [|]).
  destruct (string_eqb_spec op In) as [->|H3]; [split; [by repeat apply string_app_not_nil|done]|].
  destruct (string_eqb_spec op NotIn) as [->|H4]; [split; [by repeat apply string_app_not_nil|done]|].
  destruct (string_eqb_spec op Like) as [->|H5]; [split; [by repeat apply string_app_not_nil|done]|].
  destruct (string_eqb_spec op ILike) as [->|H6]; [split; [by repeat apply string_app_not_nil|done]|].
  cbn [orb]. rewrite decide_False by (by intros [|]). split; [by repeat apply string_app_not_nil|done].
Qed.

(** A condition without text has no arguments, and the arguments are the values. *)
Lemma filterExpr_values (f : Filter) :
  (filterExpr f).2 = bound_values f /\ ((filterExpr f).1 = "" -> bound_values f = []).
Proof.
  induction f as [field op value|field op value gop fs IH] using Filter_ind'.
  { destruct (filterExpr_leaf field op value) as [Hne Hv]. by split. }
  cbn [filterExpr bound_values]. rewrite groupExpr_collect.
  assert (Hc : (collect fs).2 = flat_map bound_values fs
               /\ ((collect fs).1 = [] -> flat_map bound_values fs = [])).
  { induction IH as [|f fs [Hv He] _ [IHv IHe]]; [done|]. cbn [collect flat_map].
    destruct (filterExpr f) as [e a]. destruct (collect fs) as [es args]. cbn [fst snd] in *. subst a args.
    destruct (string_eqb_spec e "") as [->|]; cbn [fst snd]; [rewrite He by done|]; by split. }
  destruct Hc as [Hv He]. destruct (collect fs) as [[|e es] args]; cbn [fst snd] in *.
  - rewrite He by done. by split.
  - split; [done|]. intros H. by apply string_app_eq_nil in H as [? _].
Qed.

Lemma bound_values_data (f : Filter) : all_data f = true -> forallb is_data (bound_values f) = true.
Proof.
  induction f as [field op value|field op value gop fs IH] using Filter_ind'; cbn [all_data bound_values].
  - intros H. repeat case_decide; simpl; by rewrite ?H.
  - induction IH as [|f fs Hf _ IHfs]; [done|]. cbn [forallb flat_map]. intros [H1 H2]%andb_true_iff.
    by rewrite forallb_app, Hf, IHfs.
Qed.

(** [C14] The text [filterExpr] builds holds no value, and the values are handed
    to gorm as arguments.  Two filters that differ only in their values, however
    nested, render to the same text; the arguments are the values of the
    conditions from left to right, each as it is or, searched with LIKE, as its
    escaped pattern; there is exactly one placeholder for each as long as no field
    name or operator contains a question mark; and if every value is data, every
    argument is.  Only then is nothing but text and bound values sent: a
    [gorm.Expr] is handed through as well, and gorm writes its SQL into the
    statement ([expression_handed_through]); field names and operators are code
    of the caller and stand in the text as they are. *)
Theorem filterExpr_parameterised (f g : Filter) :
  shape f = shape g ->
  (filterExpr f).1 = (filterExpr g).1
  /\ (filterExpr f).2 = bound_values f
  /\ (plain_names f = true -> count_char "?" (filterExpr f).1 = length (bound_values f))
  /\ (all_data f = true -> forallb is_data (filterExpr f).2 = true).
Proof.
  intros Hs. destruct (filterExpr_values f) as [Hv _]. rewrite Hv. split_and!; [|done| |].
  - by rewrite <- filterExpr_shape, Hs, filterExpr_shape.
  - rewrite <- Hv. apply filterExpr_placeholders.
  - apply bound_values_data.
Qed.

Lemma filterExpr_parameterised_witness :
  let f v := OrGroup [mkFilter "name" ILike v None; mkFilter "id" In (AList [AOther "int" "7"] "[7]") None] in
  let evil := f (AString "'; DROP TABLE users; --") in
  (filterExpr evil).1 = "(name ILIKE ? ESCAPE '!' OR id IN (?))"
  /\ (filterExpr evil).2 = [AString "%'; DROP TABLE users; --%"; AList [AOther "int" "7"] "[7]"]
  /\ count_char "?" (filterExpr evil).1 = 2%nat
  /\ forallb is_data (filterExpr evil).2 = true.
Proof.
  intros f evil.
  destruct (filterExpr_parameterised evil (f ANil) eq_refl) as (Ht & Hv & Hq & Hd).
  split_and!; [rewrite Ht; reflexivity|rewrite Hv; reflexivity|exact (Hq eq_refl)|exact (Hd eq_refl)].
Defined.

(** The trust boundary: the expression is the argument, except in a search, where
    it is what it prints as. *)
Lemma expression_handed_through (field sql text : string) :
  (filterExpr (mkFilter field Eq (ACode sql text) None)).2 = [ACode sql text]
  /\ (filterExpr (mkFilter field Like (ACode sql text) None)).2 = [AString ("%" +:+ likeEscaper text +:+ "%")].
Proof. done. Qed.

(** ** LIKE patterns *)

(** Taking the escapes away again: the escape character stands for the character
    after it, which must be itself or a wildcard; a wildcard on its own is none
    of the text's characters, and there is no answer. *)
Fixpoint unescape (p : string) : option string :=
  match p with
  | "" => Some ""
  | String c p' =>
      if Ascii.eqb c "!" then
        match p' with
        | String d p'' =>
            if Ascii.eqb d "!" || Ascii.eqb d "%" || Ascii.eqb d "_"
            then String d <$> unescape p'' else None
        | "" => None
        end
      else if Ascii.eqb c "%" || Ascii.eqb c "_" then None
      else String c <$> unescape p'
  end.

Lemma unescape_likeEscaper (s : string) : unescape (likeEscaper s) = Some s.
Proof.
  induction s as [|c s IH]; [done|]. cbn [likeEscaper].
  destruct (Ascii.eqb_spec c "!") as [->|Hb].
  { change (String "!" <$> unescape (likeEscaper s) = Some (String "!" s)). by rewrite IH. }
  destruct (Ascii.eqb_spec c "%") as [->|Hp].
  { change (String "%" <$> unescape (likeEscaper s) = Some (String "%" s)). by rewrite IH. }
  destruct (Ascii.eqb_spec c "_") as [->|Hu].
  { change (String "_" <$> unescape (likeEscaper s) = Some (String "_" s)). by rewrite IH. }
  rewrite string_app_cons, string_app_nil_l. cbn [unescape].
  apply Ascii.eqb_neq in Hb, Hp, Hu. by rewrite Hb, Hp, Hu, IH.
Qed.

(** [C26] The pattern of a search says what was searched for and nothing else.
    A Like or ILike condition has one placeholder, followed by the clause that
    declares the escape character the pattern is written with; its argument is a
    percent sign on either side of an escaped text in which no wildcard stands on
    its own and from which, the escapes taken away, the value is read back as it
    prints (behind its pointer, if it is one).  So different texts have different
    patterns.  What a database makes of a pattern is not claimed: SQL Server gives
    brackets a meaning of their own, SQLite stops at a NUL. *)
Theorem like_filter_roundtrip (field op : string) (value : any) :
  op = Like \/ op = ILike ->
  exists escaped,
    filterExpr (mkFilter field op value None)
    = (field +:+ " " +:+ op +:+ " ? ESCAPE '" +:+ LikeEscapeChar +:+ "'", [AString ("%" +:+ escaped +:+ "%")])
    /\ unescape escaped = Some (sprintv (derefVal value))
    /\ forall value', EscapeLike (derefVal value') = escaped -> sprintv (derefVal value') = sprintv (derefVal value).
Proof.
  intros Hop. exists (EscapeLike (derefVal value)). unfold EscapeLike. split_and!.
  - by destruct Hop as [-> | ->].
  - apply unescape_likeEscaper.
  - intros value' H. apply (f_equal unescape) in H. rewrite !unescape_likeEscaper in H. by injection H.
Qed.

Lemma like_filter_roundtrip_witness :
  EscapeLike (AString "100%_!") = "100!%!_!!"
  /\ exists escaped,
    filterExpr (mkFilter "name" ILike (AString "100%_!") None) = ("name ILIKE ? ESCAPE '!'", [AString ("%" +:+ escaped +:+ "%")])
    /\ unescape escaped = Some "100%_!".
Proof.
  split; [reflexivity|].
  destruct (like_filter_roundtrip "name" ILike (AString "100%_!") (or_intror eq_refl)) as (e & Hf & Hu & _).
  exists e. split; [exact Hf|exact Hu].
Defined.

(** ** Builders and scopes *)

(** The filters a builder can hold: any chain of its methods, the functions
    given to [WhereGroup] being such chains as well. *)
Inductive built : list Filter -> Prop :=
| built_new : built NewFilterBuilder
| built_where b field op value : built b -> built (Where b field op value)
| built_whereif b cond field op value : built b -> built (WhereIf b cond field op value)
| built_group b cond op build :
    built b -> (forall f, build = Some f -> built (f NewFilterBuilder)) ->
    built (WhereGroupIf b cond op build).

(** No group is empty, at any depth. *)
Fixpoint no_empty_group (f : Filter) : bool :=
  let 'mkFilter _ _ _ group := f in
  match group with
  | Some (mkFilterGroup _ fs) => negb (length fs =? 0)%nat && forallb no_empty_group fs
  | None => true
  end.

Lemma built_no_empty_group (b : list Filter) : built b -> forallb no_empty_group b = true.
Proof.
  induction 1 as [|b field op value _ IH|b cond field op value _ IH|b cond op build _ IH _ IHg];
    [done| | |].
  - unfold Where. by rewrite forallb_app, IH.
  - unfold WhereIf, Where. destruct cond; [by rewrite forallb_app, IH|done].
  - unfold WhereGroupIf, WhereGroup. destruct cond, build as [f|]; try done.
    specialize (IHg f eq_refl). destruct (f NewFilterBuilder) as [|x inner] eqn:E; [done|].
    rewrite forallb_app, IH. simpl in *. by rewrite IHg.
Qed.

Lemma filterExpr_not_blank (f : Filter) : no_empty_group f = true -> (filterExpr f).1 <> "".
Proof.
  induction f as [field op value|field op value gop fs IH] using Filter_ind'; intros Hne.
  - simpl. repeat case_match; simpl; repeat apply string_app_not_nil; done.
  - cbn [filterExpr]. rewrite groupExpr_collect. simpl in Hne. apply andb_true_iff in Hne as [Hl Hall].
    destruct fs as [|f fs]; [done|]. inversion IH as [|? ? Hf _]; subst.
    simpl in Hall. apply andb_true_iff in Hall as [Hf0 _]. specialize (Hf Hf0).
    cbn [collect]. destruct (filterExpr f) as [e a]. destruct (collect fs) as [es args].
    simpl in Hf. apply String.eqb_neq in Hf. rewrite Hf. done.
Qed.

Definition where_call (f : Filter) : gorm_call := CallWhere (filterExpr f).1 (filterExpr f).2.
Definition order_call (s : Sort) : gorm_call := CallOrder (sort_Field s +:+ " " +:+ sort_dir s).

Lemma applyFilters_map (fs : list Filter) (db : list gorm_call) :
  forallb no_empty_group fs = true -> applyFilters db fs = db ++ (where_call <$> fs).
Proof.
  revert db. induction fs as [|f fs IH]; intros db H; [by rewrite app_nil_r|].
  simpl in H. apply andb_true_iff in H as [Hf Hfs].
  pose proof (filterExpr_not_blank f Hf) as Hb. apply String.eqb_neq in Hb.
  cbn [applyFilters]. rewrite (surjective_pairing (filterExpr f)), Hb, IH by done.
  by rewrite <- app_assoc.
Qed.

Lemma applySorts_map (ss : list Sort) (db : list gorm_call) :
  applySorts db ss = db ++ (order_call <$> ss).
Proof.
  revert db. induction ss as [|s ss IH]; intros db; [by rewrite app_nil_r|].
  cbn [applySorts]. by rewrite IH, <- app_assoc.
Qed.

(** The query of a scope over builder-made filters: one WHERE per filter in
    the order they were added, none of them blank, then the count, which thus
    sees the filters and neither the order nor the window, then one ORDER BY
    per sort whose direction is ASC or DESC whatever the caller wrote, and
    last a limit between 1 and 100 with the offset of the normalized page. *)
Theorem Scope_calls (page : Page) (filters : list Filter) (sorts : list Sort) :
  built filters ->
  let q := NewQuery page filters sorts in
  Scope q [] = (where_call <$> filters) ++ [CallCount] ++ (order_call <$> sorts)
               ++ [CallLimit (PerPage (Normalize page)); CallOffset (Offset (Normalize page))]
  /\ Forall (fun f => (filterExpr f).1 <> "") filters
  /\ Forall (fun s => sort_dir s = Asc \/ sort_dir s = Desc) sorts
  /\ 1 <= PerPage (Normalize page) <= 100.
Proof.
  intros Hb q. pose proof (built_no_empty_group _ Hb) as Hne. repeat split.
  - unfold Scope, q, NewQuery. simpl. rewrite applyFilters_map, applySorts_map by done.
    by rewrite <- !app_assoc.
  - apply Forall_forall. intros f Hf. apply filterExpr_not_blank.
    rewrite forallb_forall in Hne. apply Hne. by apply list_elem_of_In.
  - apply Forall_forall. intros s _. unfold sort_dir. repeat case_match; auto.
  - apply Normalize_range.
  - apply Normalize_range.
Qed.

Lemma Scope_calls_witness :
  let fs := WhereGroupIf (Where NewFilterBuilder "status" Eq (AString "active")) true Or
              (Some (fun g => Where (Where g "name" ILike (AString "x")) "doc" ILike (AString "x"))) in
  let q := NewQuery (mkPage 2 0) fs [mkSort "created_at" "desc"] in
  Scope q [] = [CallWhere "status = ?" [AString "active"];
                CallWhere "(name ILIKE ? ESCAPE '!' OR doc ILIKE ? ESCAPE '!')"
                  [AString "%x%"; AString "%x%"];
                CallCount; CallOrder "created_at DESC"; CallLimit 20; CallOffset 20].
Proof.
  intros fs q.
  assert (Hb : built fs).
  { apply built_group.
    - apply built_where, built_new.
    - intros f [= <-]. apply built_where, built_where, built_new. }
  destruct (Scope_calls (mkPage 2 0) fs [mkSort "created_at" "desc"] Hb) as [H _].
  exact H.
Defined.

(** ** Sort strings *)

Lemma drop_while_cons_false {A} (p : A -> bool) (x : A) (l : list A) :
  p x = false -> drop_while p (x :: l) = x :: l.
Proof. intros H. simpl. by rewrite H. Qed.

Lemma drop_while_suffix {A} (p : A -> bool) (l : list A) :
  exists pre, l = pre ++ drop_while p l
    /\ match drop_while p l with x :: _ => p x = false | [] => True end.
Proof.
  induction l as [|x l (pre & Hl & Hh)]; [by exists []|].
  simpl. destruct (p x) eqn:E; [|by exists []].
  exists (x :: pre). split; [simpl; by f_equal|done].
Qed.

(** Trimming keeps a block of the characters that starts with none of space. *)
Lemma trim_units_block (us : list (Z * string)) :
  exists pre post, us = pre ++ trim_units us ++ post
    /\ match trim_units us with u :: _ => space_unit u = false | [] => True end.
Proof.
  destruct (drop_while_suffix space_unit us) as (pre & Hus & Hh).
  unfold trim_units. set (l := drop_while space_unit us) in *.
  destruct (drop_while_suffix space_unit (reverse l)) as (post & Hl & _).
  set (k := drop_while space_unit (reverse l)) in *.
  apply (f_equal reverse) in Hl. rewrite reverse_involutive, reverse_app in Hl.
  exists pre, (reverse post). split; [by rewrite <- Hl|].
  destruct (reverse k) as [|u k']; [done|]. rewrite Hl in Hh. done.
Qed.

Lemma runes_suffix (s : string) (pre rest : list (Z * string)) :
  runes s = pre ++ rest -> runes (raw rest) = rest.
Proof.
  revert s. induction pre as [|u pre IH]; intros s H.
  - simpl in H. by rewrite <- H, raw_runes.
  - destruct s as [|c t]; [done|]. rewrite runes_cons in H by done.
    injection H as _ H. by eapply IH.
Qed.

Lemma fields_go_Some (us : list (Z * string)) (w : string) : fields_go (Some w) us <> [].
Proof.
  revert w. induction us as [|u us IH]; intros w; simpl; [done|].
  destruct (space_unit u); [done|]. apply IH.
Qed.

(** What is left of a text after trimming, if anything, has a word in it. *)
Lemma Fields_TrimSpace (s : string) : TrimSpace s <> "" -> Fields (TrimSpace s) <> [].
Proof.
  unfold TrimSpace, Fields. intros Hne.
  destruct (trim_units_block (runes s)) as (pre & post & Hus & Hh).
  apply runes_suffix in Hus.
  destruct (trim_units (runes s)) as [|u us']; [done|].
  set (whole := raw ((u :: us') ++ post)) in *.
  assert (Hw : whole = raw (u :: us') +:+ raw post).
  { unfold whole, raw. by rewrite fmap_app, str_concat_app. }
  assert (Hd : decode_rune (raw (u :: us')) = decode_rune whole /\ (decode_rune whole).1 = u.1).
  { rewrite runes_cons in Hus by (intros He; rewrite He in Hw; symmetry in Hw; by apply string_app_eq_nil in Hw as [? _]).
    injection Hus as Hu _. split; [|by rewrite <- Hu].
    rewrite Hw. apply decode_rune_prefix; [done|]. rewrite <- Hw.
    assert (Hlen : (decode_rune whole).2 = String.length u.2).
    { rewrite <- Hu. simpl. rewrite length_str_take.
      destruct whole as [|c t]; [done|]. pose proof (decode_rune_width c t). lia. }
    rewrite Hlen. unfold raw. rewrite fmap_cons. cbn [str_concat]. rewrite string_length_app. lia. }
  destruct Hd as [Hd Hu]. rewrite runes_cons by done. rewrite Hd, Hu.
  cbn [fields_go]. unfold space_unit at 1. cbn [fst]. unfold space_unit in Hh. rewrite Hh.
  apply fields_go_Some.
Qed.

Lemma parse_sort_part_total (part : string) : exists ss, parse_sort_part part = Some ss
  /\ (length ss <= 1)%nat /\ Forall (fun s => Direction s = Asc \/ Direction s = Desc) ss.
Proof.
  unfold parse_sort_part.
  destruct (string_eqb_spec (TrimSpace part) "") as [|Hne];
    [exists []; split; [done|]; split; [simpl; lia|by constructor]|].
  pose proof (Fields_TrimSpace part Hne) as Hf.
  destruct (Fields (TrimSpace part)) as [|field tokens]; [done|].
  eexists. split; [done|]. split; [simpl; lia|]. constructor; [|by constructor]. simpl.
  destruct tokens as [|t [|]]; simpl; auto. destruct (EqualFold t "desc"); auto.
Qed.

(** [ParseSort] never panics on the first token of a part, whatever text it
    is given (bytes that are no UTF-8 and Unicode spaces included): it returns
    at most one sort per comma-separated part, each ascending or descending. *)
Theorem ParseSort_total (raw : string) :
  exists ss, ParseSort raw = Some ss
    /\ (length ss <= length (Split raw ","%char))%nat
    /\ Forall (fun s => Direction s = Asc \/ Direction s = Desc) ss.
Proof.
  unfold ParseSort. induction (Split raw ",") as [|p ps IH];
    [exists []; split; [done|]; split; [simpl; lia|by constructor]|].
  destruct IH as (rest & Hr & Hl & Hd). destruct (parse_sort_part_total p) as (ss & Hs & Hl' & Hd').
  exists (ss ++ rest). cbn [parse_sort_parts]. rewrite Hs. simpl. rewrite Hr. simpl.
  split; [done|]. rewrite length_app. split; [lia|]. by apply Forall_app.
Qed.

(** *** Round trip *)

(** The characters of plain column names: ASCII, no space, no comma. *)
Definition name_char (c : ascii) : bool :=
  (33 <=? byte_val c) && (byte_val c <=? 126) && negb (Ascii.eqb c ",").
Definition name_ok (s : string) : bool := negb (String.eqb s "") && str_all name_char s.

(** How a sort is written in a sort string. *)
Definition render_sort (s : Sort) : string :=
  sort_Field s +:+ (if String.eqb (Direction s) Desc then " desc" else " asc").
Definition render_sorts (ss : list Sort) : string := Join (render_sort <$> ss) ",".

Definition sort_ok (s : Sort) : bool :=
  name_ok (sort_Field s) && (String.eqb (Direction s) Asc || String.eqb (Direction s) Desc).

Fixpoint ascii_runes (s : string) : list (Z * string) :=
  match s with "" => [] | String c t => (byte_val c, String c "") :: ascii_runes t end.

Lemma runes_ascii_app (s t : string) :
  str_all name_char s = true -> runes (s +:+ t) = ascii_runes s ++ runes t.
Proof.
  induction s as [|c s IH]; intros H; [done|]. simpl in H. apply andb_true_iff in H as [Hc Hs].
  rewrite string_app_cons, runes_cons by done.
  unfold name_char in Hc. bool_to_prop.
  assert (Hd : decode_rune (String c (s +:+ t)) = (byte_val c, 1%nat)).
  { unfold decode_rune. destruct (Z.ltb_spec (byte_val c) 128); [done|lia]. }
  rewrite Hd. cbn [fst snd str_take str_drop]. rewrite IH by done. by destruct s.
Qed.

Lemma name_char_not_space (c : ascii) : name_char c = true -> IsSpace (byte_val c) = false.
Proof.
  unfold name_char, IsSpace. intros H. bool_to_prop. simpl.
  repeat match goal with |- context [?a =? ?b] => destruct (Z.eqb_spec a b); [lia|] end.
  simpl. destruct (Z.leb_spec 8192 (byte_val c)); [lia|done].
Qed.

Lemma fields_go_name (s : string) (cur : option string) (us : list (Z * string)) :
  str_all name_char s = true -> s <> "" ->
  fields_go cur (ascii_runes s ++ us) = fields_go (Some (default "" cur +:+ s)) us.
Proof.
  revert cur. induction s as [|c s IH]; intros cur H Hne; [done|].
  simpl in H. apply andb_true_iff in H as [Hc Hs].
  cbn [ascii_runes app fields_go]. unfold space_unit. cbn [fst snd].
  rewrite name_char_not_space by done.
  destruct s as [|d s']; [done|]. rewrite IH by done.
  change (fields_go (Some ((default "" cur +:+ String c "") +:+ String d s')) us
          = fields_go (Some (default "" cur +:+ String c (String d s'))) us).
  by rewrite <- string_app_assoc.
Qed.

Lemma trim_units_id (u v : Z * string) (us : list (Z * string)) :
  space_unit u = false -> space_unit v = false ->
  trim_units (u :: us ++ [v]) = u :: us ++ [v].
Proof.
  intros Hu Hv. unfold trim_units. rewrite drop_while_cons_false by done.
  rewrite reverse_cons, reverse_app. simpl. rewrite Hv.
  rewrite <- (reverse_involutive us) at 2.
  change (v :: reverse us ++ [u]) with ([v] ++ reverse us ++ [u]).
  rewrite !reverse_app. simpl. by rewrite reverse_involutive.
Qed.

Lemma parse_render_sort (s : Sort) :
  sort_ok s = true -> parse_sort_part (render_sort s) = Some [s].
Proof.
  destruct s as [field dir]. unfold sort_ok, render_sort, name_ok. simpl. intros H.
  apply andb_true_iff in H as [Hn Hd]. apply andb_true_iff in Hn as [Hne Hall].
  bool_to_prop.
  assert (Hgo : forall w v, (w = "desc" /\ v = Desc) \/ (w = "asc" /\ v = Asc) ->
    parse_sort_part (field +:+ String " " w) = Some [mkSort field v]).
  { intros w v Hw.
    assert (Hr : runes (field +:+ String " " w) = ascii_runes field ++ runes (String " " w))
      by by apply runes_ascii_app.
    assert (Hlast : exists us v, runes (String " " w) = us ++ [v] /\ space_unit v = false).
    { destruct Hw as [[-> _]|[-> _]].
      - by exists [(32, " "); (100, "d"); (101, "e"); (115, "s")], (99, "c").
      - by exists [(32, " "); (97, "a"); (115, "s")], (99, "c"). }
    assert (Ht : TrimSpace (field +:+ String " " w) = field +:+ String " " w).
    { unfold TrimSpace. rewrite <- (raw_runes (field +:+ String " " w)) at 2. f_equal.
      destruct Hlast as (us & x & Hus & Hx). rewrite Hr, Hus.
      destruct field as [|c f]; [done|]. cbn [ascii_runes app].
      simpl in Hall. apply andb_true_iff in Hall as [Hc _].
      rewrite app_assoc. apply trim_units_id; [by apply name_char_not_space|done]. }
    unfold parse_sort_part. rewrite Ht.
    destruct (string_eqb_spec (field +:+ String " " w) "") as [He|_];
      [by apply string_app_eq_nil in He as [_ ?]|].
    assert (Hf : Fields (field +:+ String " " w) = [field; w]).
    { unfold Fields. rewrite Hr, fields_go_name by done.
      by destruct Hw as [[-> _]|[-> _]]. }
    rewrite Hf. by destruct Hw as [[-> ->]|[-> ->]]. }
  destruct Hd as [->%String.eqb_eq| ->%String.eqb_eq]; simpl; apply Hgo; auto.
Qed.

Lemma str_all_no_comma (s : string) :
  str_all name_char s = true -> str_all (fun c => negb (Ascii.eqb c ",")) s = true.
Proof.
  induction s as [|c s IH]; [done|]. simpl. intros H. apply andb_true_iff in H as [Hc Hs].
  rewrite IH by done. unfold name_char in Hc. by apply andb_true_iff in Hc as [_ ->].
Qed.

Lemma render_sort_no_comma (s : Sort) :
  sort_ok s = true -> str_all (fun c => negb (Ascii.eqb c ",")) (render_sort s) = true.
Proof.
  unfold sort_ok, render_sort, name_ok. intros H.
  apply andb_true_iff in H as [[_ Hall]%andb_true_iff _].
  rewrite str_all_app, str_all_no_comma by done. by destruct (Direction s =? Desc)%string.
Qed.

(** Parsing what a list of sorts over plain column names is written as
    gives the list back: order, fields and directions. *)
Theorem ParseSort_render (ss : list Sort) :
  forallb sort_ok ss = true -> ParseSort (render_sorts ss) = Some ss.
Proof.
  unfold ParseSort, render_sorts. intros H.
  destruct ss as [|s ss]; [reflexivity|]. revert s H.
  induction ss as [|s' ss IH]; intros s H; cbn [forallb] in H; apply andb_true_iff in H as [Hs Hss].
  - cbn [fmap list_fmap Join]. rewrite Split_no_sep by by apply render_sort_no_comma.
    cbn [parse_sort_parts]. by rewrite parse_render_sort.
  - change (Join (render_sort <$> s :: s' :: ss) ",")
      with (render_sort s +:+ String "," (Join (render_sort <$> s' :: ss) ",")).
    rewrite Split_app_sep by by apply render_sort_no_comma.
    cbn [parse_sort_parts]. rewrite parse_render_sort, (IH s' Hss) by done. done.
Qed.

Lemma ParseSort_render_witness :
  render_sorts [mkSort "name" Asc; mkSort "created_at" Desc] = "name asc,created_at desc"
  /\ ParseSort "name asc,created_at desc" = Some [mkSort "name" Asc; mkSort "created_at" Desc].
Proof.
  split; [reflexivity|]. exact (ParseSort_render [mkSort "name" Asc; mkSort "created_at" Desc] eq_refl).
Defined.
