(* ===== verification/Respond.v ===== *)
(** * Package httpserver/respond, and the handler context it writes to

    The response envelope and its helpers (httpserver/respond/respond.go), the
    mapping of sentinel errors to API errors (error_resolver.go), and
    [GinContext]: what the handlers of this repository rely on in the context
    type of the gin framework. *)
From S2P Require Import Prelude GoNum GoText.
Local Open Scope Z_scope.

(** ** respond.go *)

(** The payloads the handlers hand to the JSON encoder. *)
Inductive payload : Type :=
| PNil
| PString (s : string)
| PStrings (l : list string)
| PObject (fields : list (string * payload)).

Definition payload_is_nil (p : payload) : bool := match p with PNil => true | _ => false end.

Record APIError := mkAPIError { Code : string; Message : string; Details : payload }.

Record Response := mkResponse {
  Success : bool;
  resp_Message : string;
  resp_Data : payload;
  resp_Errors : list APIError;
}.

Definition msgOK := "The request was processed successfully".
Definition msgAccepted := "The request was accepted for processing".
Definition msgCreated := "The resource was created successfully".
Definition msgBadRequest := "Invalid request body".
Definition msgUnauthorized := "Unauthorized access".
Definition msgForbidden := "Access denied, you do not have permission to access this resource".
Definition msgNotFound := "Resource not found".
Definition msgConflict := "Conflict with the current state of the resource".
Definition msgUnprocessable := "Unprocessable entity".
Definition msgTooManyRequest := "Too many requests".
Definition msgInternalError := "An internal server error occurred".
Definition msgServiceUnavailable := "The service is currently unavailable".

(** ** The handler context *)

(** The attributes of a cookie; [SameSite] 0 is the unset value, 2 is Lax. *)
Record Cookie := mkCookie {
  ck_Name : string;
  ck_Value : string;
  ck_Path : string;
  ck_Domain : string;
  ck_MaxAge : Z;
  ck_Secure : bool;
  ck_HttpOnly : bool;
  ck_SameSite : Z;
}.

(** The calls a handler makes on its context that leave a trace outside. *)
Inductive gin_call : Type :=
| Next
| JSON (status : Z) (body : Response)
| AbortWithStatusJSON (status : Z) (body : Response)
| AbortWithStatus (status : Z)
| SetStatus (status : Z)
| Redirect (status : Z) (location : string)
| SetHeader (name value : string)
| SetCookie (c : Cookie).

(** [C] is the context type, [V] the type of the values stored under its keys. *)
Class GinContext (C V : Type) := {
  gin_Method : C -> string;
  gin_GetHeader : C -> string -> string;
  gin_Cookie : C -> string -> option string;
  gin_Query : C -> string -> string;
  gin_Get : C -> string -> option V;
  gin_Set : C -> string -> V -> C;
  gin_do : C -> gin_call -> C;
  gin_calls : C -> list gin_call;
}.

(** The documented behaviour: the request does not change, a key reads back
    what was last set under it, calls take effect in order. *)
Class GinContextOk (C V : Type) `{GinContext C V} := {
  gin_Get_Set : forall c k v, gin_Get (gin_Set c k v) k = Some v;
  gin_Get_Set_ne : forall c k k' v, k <> k' -> gin_Get (gin_Set c k v) k' = gin_Get c k';
  gin_Get_do : forall c call k, gin_Get (gin_do c call) k = gin_Get c k;
  gin_calls_do : forall c call, gin_calls (gin_do c call) = gin_calls c ++ [call];
  gin_calls_Set : forall c k v, gin_calls (gin_Set c k v) = gin_calls c;
  gin_Method_do : forall c call, gin_Method (gin_do c call) = gin_Method c;
  gin_GetHeader_do : forall c call, gin_GetHeader (gin_do c call) = gin_GetHeader c;
  gin_Cookie_do : forall c call, gin_Cookie (gin_do c call) = gin_Cookie c;
  gin_Query_do : forall c call, gin_Query (gin_do c call) = gin_Query c;
}.

(** An [Abort] keeps the handlers still pending from running; a handler that
    returns without one lets them run, whether or not it called [Next] itself. *)
Definition is_abort (call : gin_call) : bool :=
  match call with AbortWithStatusJSON _ _ | AbortWithStatus _ => true | _ => false end.

Definition aborted {C V} `{GinContext C V} (ctx : C) : bool := existsb is_abort (gin_calls ctx).

(** A chain of handlers; [T] is what they share outside the request. *)
Fixpoint run_chain {C V T} `{GinContext C V} (hs : list (C -> T -> C * T)) (ctx : C) (t : T) : C * T :=
  match hs with
  | [] => (ctx, t)
  | h :: hs' => let '(ctx, t) := h ctx t in
                if aborted ctx then (ctx, t) else run_chain hs' ctx t
  end.

(** A context held in a record, for evaluation. *)
Record test_context (V : Type) := TestContext {
  tc_method : string;
  tc_headers : gmap string string;
  tc_cookies : gmap string string;
  tc_query : gmap string string;
  tc_keys : gmap string V;
  tc_calls : list gin_call;
}.
Arguments TestContext {V}. Arguments tc_method {V}. Arguments tc_headers {V}.
Arguments tc_cookies {V}. Arguments tc_query {V}. Arguments tc_keys {V}. Arguments tc_calls {V}.

#[export] Instance test_context_gin V : GinContext (test_context V) V := {|
  gin_Method := tc_method;
  gin_GetHeader c k := default "" (tc_headers c !! k);
  gin_Cookie c k := tc_cookies c !! k;
  gin_Query c k := default "" (tc_query c !! k);
  gin_Get c k := tc_keys c !! k;
  gin_Set c k v := TestContext (tc_method c) (tc_headers c) (tc_cookies c) (tc_query c)
                     (<[k := v]> (tc_keys c)) (tc_calls c);
  gin_do c call := TestContext (tc_method c) (tc_headers c) (tc_cookies c) (tc_query c)
                     (tc_keys c) (tc_calls c ++ [call]);
  gin_calls := tc_calls;
|}.

#[export] Instance test_context_ok V : GinContextOk (test_context V) V.
Proof.
  split; try done.
  - intros c k v. apply lookup_insert_eq.
  - intros c k k' v Hne. by apply lookup_insert_ne.
Qed.

Create Rewrite HintDb gin.
#[export] Hint Rewrite @gin_Get_Set @gin_Get_do @gin_calls_do @gin_calls_Set @gin_Cookie_do
  @gin_Query_do
  @gin_Method_do @gin_GetHeader_do using (typeclasses eauto) : gin.

Lemma aborted_do {C V} `{GinContextOk C V} (ctx : C) (call : gin_call) :
  aborted (gin_do ctx call) = aborted ctx || is_abort call.
Proof. unfold aborted. rewrite gin_calls_do, existsb_app. simpl. by rewrite orb_false_r. Qed.

Lemma aborted_Set {C V} `{GinContextOk C V} (ctx : C) (k : string) (v : V) :
  aborted (gin_Set ctx k v) = aborted ctx.
Proof. unfold aborted. by rewrite gin_calls_Set. Qed.

#[export] Hint Rewrite @aborted_do @aborted_Set using (typeclasses eauto) : gin.

(** ** The helpers of respond.go *)

Definition pickMessage (def : string) (msg : list string) : string :=
  match msg with
  | m :: _ => if String.eqb m "" then def else m
  | [] => def
  end.

Definition successResponse (data : payload) (message : string) : Response :=
  {| Success := true; resp_Message := message; resp_Data := data; resp_Errors := [] |}.
Definition errorResponse (errs : list APIError) (message : string) : Response :=
  {| Success := false; resp_Message := message; resp_Data := PNil; resp_Errors := errs |}.

Definition NewError (code message : string) (details : list payload) : APIError :=
  {| Code := code; Message := message;
     Details := match details with d :: _ => d | [] => PNil end |}.

Section Helpers.
Context {C V : Type} `{GinContext C V}.

Definition OK (ctx : C) (data : payload) (message : list string) : C :=
  gin_do ctx (JSON 200 (successResponse data (pickMessage msgOK message))).
Definition Accepted (ctx : C) (data : payload) (message : list string) : C :=
  gin_do ctx (JSON 202 (successResponse data (pickMessage msgAccepted message))).
Definition Created (ctx : C) (data : payload) (message : list string) : C :=
  gin_do ctx (JSON 201 (successResponse data (pickMessage msgCreated message))).
Definition NoContent (ctx : C) : C := gin_do ctx (SetStatus 204).
Definition BadRequest (ctx : C) (errs : list APIError) : C :=
  gin_do ctx (AbortWithStatusJSON 400 (errorResponse errs msgBadRequest)).
Definition Unauthorized (ctx : C) (errs : list APIError) : C :=
  gin_do ctx (AbortWithStatusJSON 401 (errorResponse errs msgUnauthorized)).
Definition Forbidden (ctx : C) (errs : list APIError) : C :=
  gin_do ctx (AbortWithStatusJSON 403 (errorResponse errs msgForbidden)).
Definition NotFound (ctx : C) (errs : list APIError) : C :=
  gin_do ctx (AbortWithStatusJSON 404 (errorResponse errs msgNotFound)).
Definition Conflict (ctx : C) (errs : list APIError) : C :=
  gin_do ctx (AbortWithStatusJSON 409 (errorResponse errs msgConflict)).
Definition UnprocessableEntity (ctx : C) (errs : list APIError) : C :=
  gin_do ctx (AbortWithStatusJSON 422 (errorResponse errs msgUnprocessable)).
Definition TooManyRequests (ctx : C) (errs : list APIError) : C :=
  gin_do ctx (AbortWithStatusJSON 429 (errorResponse errs msgTooManyRequest)).
Definition InternalServerError (ctx : C) (errs : list APIError) : C :=
  gin_do ctx (AbortWithStatusJSON 500 (errorResponse errs msgInternalError)).
Definition ServiceUnavailable (ctx : C) (errs : list APIError) : C :=
  gin_do ctx (AbortWithStatusJSON 503 (errorResponse errs msgServiceUnavailable)).

Definition statusMessage (status : Z) : string :=
  if status =? 400 then msgBadRequest else if status =? 401 then msgUnauthorized
  else if status =? 403 then msgForbidden else if status =? 404 then msgNotFound
  else if status =? 409 then msgConflict else if status =? 422 then msgUnprocessable
  else if status =? 429 then msgTooManyRequest else if status =? 503 then msgServiceUnavailable
  else msgInternalError.

(** [respond.Error]. *)
Definition respond_Error (ctx : C) (status : Z) (errs : list APIError) : C :=
  gin_do ctx (AbortWithStatusJSON status (errorResponse errs (statusMessage status))).
End Helpers.

(** ** error_resolver.go *)

Record Err := mkErr {
  err_Err : option error;
  err_Status : Z;
  err_Code : string;
  err_Message : string;
  err_Details : payload;
}.

Definition IsErr (e : Err) (err : error) : bool :=
  match err_Err e with Some s => errors_Is err s | None => false end.

(** [Err.validate]: [None] is the nil error. *)
Definition validate (e : Err) : option error :=
  match err_Err e with
  | None => Some (errors_New "error cannot be nil")
  | Some _ =>
      if String.eqb (err_Code e) "" then Some (errors_New "code cannot be empty")
      else if String.eqb (err_Message e) "" then Some (errors_New "message cannot be empty")
      else if negb (err_Status e =? 0) && ((err_Status e <? 100) || (599 <? err_Status e))
      then Some (errors_New "invalid http status")
      else None
  end.

Definition apiError (e : Err) : APIError :=
  {| Code := err_Code e; Message := err_Message e; Details := err_Details e |}.

(** [if e.Status == 0 { e.Status = 500 }]. *)
Definition default_status (e : Err) : Err :=
  if err_Status e =? 0
  then mkErr (err_Err e) 500 (err_Code e) (err_Message e) (err_Details e) else e.

Record ErrorResolver := mkResolver { entries : list Err; fallback : Err }.

Definition NewErrorResolver : ErrorResolver :=
  {| entries := [];
     fallback := mkErr (Some (errors_New "respond: unregistered error")) 500
                   "INTERNAL_SERVER_ERROR" msgInternalError PNil |}.

Definition SetFallback (r : ErrorResolver) (e : Err) : option error * ErrorResolver :=
  match validate e with
  | Some err => (Some (Error "respond err register: fallback" [err]), r)
  | None => (None, mkResolver (entries r) (default_status e))
  end.

Definition aliasLocked (r : ErrorResolver) (err : error) : option Err :=
  List.find (fun e => match err_Err e with
                      | Some s => errors_Is err s && errors_Is s err
                      | None => false
                      end) (entries r).

(** The loop of [AddEntries]: entries before a failing one stay registered. *)
Fixpoint AddEntries (r : ErrorResolver) (es : list Err) : option error * ErrorResolver :=
  match es with
  | [] => (None, r)
  | e :: es' =>
      match validate e with
      | Some err => (Some (Error "add error respond" [err]), r)
      | None =>
          match err_Err e with
          | None => (Some (errors_New "unreachable: validate rejects a nil error"), r)
          | Some s =>
              match aliasLocked r s with
              | Some dup => (Some (errors_New "add error respond: sentinel already mapped"), r)
              | None => AddEntries (mkResolver (entries r ++ [default_status e]) (fallback r)) es'
              end
          end
      end
  end.

(** [MustAddEntries]: the panic's value, if there is one, and the resolver it
    leaves, which keeps the entries before the failing one. *)
Definition MustAddEntries (r : ErrorResolver) (es : list Err) : option error * ErrorResolver :=
  match AddEntries r es with
  | (Some err, r') => (Some err, r')
  | (None, r') => (None, r')
  end.

Definition Lookup (r : ErrorResolver) (err : option error) : option Err :=
  match err with
  | None => None
  | Some err => List.find (fun e => IsErr e err) (entries r)
  end.

Definition Resolve (r : ErrorResolver) (err : option error) : APIError * Z * bool :=
  match Lookup r err with
  | Some e => (apiError e, err_Status e, true)
  | None => (apiError (fallback r), err_Status (fallback r), false)
  end.

Definition ResolveWithDetails (r : ErrorResolver) (err : option error) (details : payload)
  : APIError * Z * bool :=
  let '(apiErr, status, ok) := Resolve r err in
  let apiErr := if payload_is_nil details then apiErr
                else mkAPIError (Code apiErr) (Message apiErr) details in
  (apiErr, status, ok).

Definition Len (r : ErrorResolver) : nat := length (entries r).

(** ** Theorems *)

(** [Error] announces each status with the message of its own helper: it
    makes the very call the helper of that status would have made. *)
Theorem respond_Error_agrees {C V} `{GinContext C V} (ctx : C) (errs : list APIError) :
  Forall (fun '(status, helper) => respond_Error ctx status errs = helper ctx errs)
    [(400, BadRequest); (401, Unauthorized); (403, Forbidden); (404, NotFound); (409, Conflict);
     (422, UnprocessableEntity); (429, TooManyRequests); (500, InternalServerError);
     (503, ServiceUnavailable)].
Proof. repeat constructor. Qed.

(** An entry that can be rendered. *)
Definition renderable (e : Err) : Prop :=
  is_Some (err_Err e) /\ err_Code e <> "" /\ err_Message e <> "" /\ 100 <= err_Status e <= 599.

(** Two entries for one error. *)
Definition aliases (e e' : Err) : Prop :=
  exists s s', err_Err e = Some s /\ err_Err e' = Some s'
    /\ errors_Is s s' = true /\ errors_Is s' s = true.

(** The invariant of a resolver: what it holds renders, and no entry maps the
    same error as an earlier one. *)
Definition resolver_ok (r : ErrorResolver) : Prop :=
  Forall renderable (entries r) /\ renderable (fallback r)
  /\ forall i j e e', entries r !! i = Some e -> entries r !! j = Some e' -> (i < j)%nat ->
       ~ aliases e' e.

Lemma validate_renderable (e : Err) : validate e = None -> renderable (default_status e).
Proof.
  unfold validate, default_status, renderable.
  destruct (err_Err e) as [s|] eqn:E; [|done].
  destruct (string_eqb_spec (err_Code e) ""); [done|].
  destruct (string_eqb_spec (err_Message e) ""); [done|].
  destruct (Z.eqb_spec (err_Status e) 0); simpl; rewrite ?E.
  { intros _. by repeat split; try lia. }
  destruct (Z.ltb_spec (err_Status e) 100), (Z.ltb_spec 599 (err_Status e)); simpl; done.
Qed.

Lemma aliasLocked_None (r : ErrorResolver) (s : error) (e' : Err) :
  aliasLocked r s = None -> e' ∈ entries r ->
  match err_Err e' with Some s' => errors_Is s s' && errors_Is s' s = false | None => True end.
Proof.
  intros Hn Hin. apply list_elem_of_In in Hin.
  pose proof (find_none _ _ Hn e' Hin) as H. simpl in H. by destruct (err_Err e').
Qed.

Lemma AddEntries_ok (es : list Err) (r : ErrorResolver) :
  resolver_ok r -> resolver_ok (AddEntries r es).2.
Proof.
  revert r. induction es as [|e es IH]; intros r Hr; [done|]. cbn [AddEntries].
  destruct (validate e) eqn:Hv; [exact Hr|].
  destruct (err_Err e) as [s|] eqn:He; [|exact Hr].
  destruct (aliasLocked r s) eqn:Ha; [exact Hr|]. apply IH.
  destruct Hr as (Hall & Hf & Hal). split; [|split; [exact Hf|]]; simpl.
  - apply Forall_app. split; [done|]. constructor; [by apply validate_renderable|by constructor].
  - intros i j e1 e2 Hi Hj Hlt.
    apply lookup_app_Some in Hj as [Hj|[Hge Hj]].
    + rewrite lookup_app_l in Hi by (apply lookup_lt_Some in Hj; lia). by eapply Hal.
    + apply list_lookup_singleton_Some in Hj as [Hj0 <-].
      rewrite lookup_app_l in Hi by lia.
      apply list_elem_of_lookup_2 in Hi. pose proof (aliasLocked_None _ _ _ Ha Hi) as Hno.
      intros (s1 & s2 & H1 & H2 & H3 & H4).
      assert (err_Err (default_status e) = Some s) as Hs by (unfold default_status; destruct (_ =? _); exact He).
      rewrite Hs in H1. injection H1 as <-. rewrite H2, H3, H4 in Hno. discriminate.
Qed.

(** The resolvers a program can build. *)
Inductive resolver_built : ErrorResolver -> Prop :=
| built_NewErrorResolver : resolver_built NewErrorResolver
| built_SetFallback r e : resolver_built r -> resolver_built (SetFallback r e).2
| built_AddEntries r es : resolver_built r -> resolver_built (AddEntries r es).2.

Lemma resolver_built_ok (r : ErrorResolver) : resolver_built r -> resolver_ok r.
Proof.
  induction 1 as [|r e _ (Ha & Hf & Hal)|r es _ IH].
  - split; [by constructor|split; [|done]]. split; [by eexists|]. by repeat split.
  - unfold SetFallback. destruct (validate e) eqn:E; [exact (conj Ha (conj Hf Hal))|].
    split; [exact Ha|split; [by apply validate_renderable|exact Hal]].
  - by apply AddEntries_ok.
Qed.

(** [C24] Whatever entries, fallbacks and misconfigurations a resolver was built
    from, resolving any error, nil included, gives a response that can be
    rendered: a code, a message and a status between 100 and 599; and no error
    is mapped twice. *)
Theorem Resolve_renderable (r : ErrorResolver) (err : option error) (details : payload) :
  resolver_built r ->
  (let '(e, status, _) := ResolveWithDetails r err details in
   Code e <> "" /\ Message e <> "" /\ 100 <= status <= 599)
  /\ (forall i j e e', entries r !! i = Some e -> entries r !! j = Some e' -> (i < j)%nat ->
        ~ aliases e' e).
Proof.
  intros Hb. apply resolver_built_ok in Hb as (Ha & Hf & Hal). split; [|exact Hal].
  unfold ResolveWithDetails, Resolve.
  assert (He : forall e, Lookup r err = Some e -> renderable e).
  { intros e He. unfold Lookup in He. destruct err as [err|]; [|done].
    apply find_some in He as [Hin _]. rewrite Forall_forall in Ha. apply Ha.
    by apply list_elem_of_In. }
  destruct (Lookup r err) as [e|].
  - destruct (He e eq_refl) as (_ & Hc & Hm & Hs). by destruct (payload_is_nil details).
  - destruct Hf as (_ & Hc & Hm & Hs). by destruct (payload_is_nil details).
Qed.

Definition ErrBase : error := errors_New "app.ErrBase".
Definition ErrSpecific : error := Error "app.ErrSpecific" [ErrBase].
Definition entry (e : error) (status : Z) (code : string) : Err := mkErr (Some e) status code "text" PNil.
Definition two_entries : ErrorResolver :=
  (AddEntries NewErrorResolver [entry ErrSpecific 422 "SPECIFIC"; entry ErrBase 0 "BASE";
                                entry ErrBase 404 "AGAIN"]).2.

Lemma Resolve_renderable_witness :
  Len two_entries = 2%nat
  /\ Resolve two_entries (Some (Error "wrapped" [ErrSpecific]))
     = (mkAPIError "SPECIFIC" "text" PNil, 422, true)
  /\ 100 <= (ResolveWithDetails two_entries None PNil).1.2 <= 599.
Proof.
  split; [reflexivity|split; [reflexivity|]].
  destruct (Resolve_renderable two_entries None PNil) as [H _].
  { apply built_AddEntries, built_NewErrorResolver. }
  exact (proj2 (proj2 H)).
Defined.

(** Registration is a prefix: [AddEntries] registers, in order and with the
    status defaulted, the entries before the first one that is invalid or maps
    an error already mapped; it reports an error exactly when there is such an
    entry, and what it registered before it stays registered. *)
Theorem AddEntries_prefix (r : ErrorResolver) (es : list Err) :
  let '(err, r') := AddEntries r es in
  exists k, entries r' = entries r ++ (default_status <$> take k es)
    /\ fallback r' = fallback r
    /\ (err = None <-> k = length es) /\ (k <= length es)%nat.
Proof.
  revert r. induction es as [|e es IH]; intros r; cbn [AddEntries].
  { exists 0%nat. rewrite app_nil_r. repeat split; simpl; try done; lia. }
  assert (Hstop : exists k, entries r = entries r ++ (default_status <$> take k (e :: es))
    /\ k <> length (e :: es) /\ (k <= length (e :: es))%nat).
  { exists 0%nat. rewrite app_nil_r. simpl. split; [done|lia]. }
  destruct Hstop as (k & Hk & Hne & Hle).
  destruct (validate e); [by exists k|].
  destruct (err_Err e) as [s|]; [|by exists k].
  destruct (aliasLocked r s); [by exists k|].
  specialize (IH (mkResolver (entries r ++ [default_status e]) (fallback r))).
  destruct (AddEntries _ es) as [err r']. destruct IH as (k' & He & Hf & Herr & Hk').
  exists (S k'). simpl in *. rewrite He, <- app_assoc. split; [done|]. split; [done|].
  split; [|lia]. rewrite Herr. lia.
Qed.

(** Match priority is registration order: an error resolves to the first
    entry whose sentinel it wraps, and to the fallback, reported as unknown,
    exactly when there is none. *)
Theorem Resolve_first_match (r : ErrorResolver) (err : error) :
  (exists before e after,
      entries r = before ++ e :: after /\ IsErr e err = true
      /\ Forall (fun e' => IsErr e' err = false) before
      /\ Resolve r (Some err) = (apiError e, err_Status e, true))
  \/ (Forall (fun e' => IsErr e' err = false) (entries r)
      /\ Resolve r (Some err) = (apiError (fallback r), err_Status (fallback r), false)).
Proof.
  unfold Resolve, Lookup. induction (entries r) as [|e es IH]; [by right|]. simpl.
  destruct (IsErr e err) eqn:E.
  - left. by exists [], e, es.
  - destruct IH as [(before & e' & after & -> & He & Hb & Hr)|[Hall Hr]].
    + left. exists (e :: before), e', after. repeat split; try done. by constructor.
    + right. split; [by constructor|done].
Qed.
