(* ===== verification/OidcTypes.v ===== *)
(** * oidcauth: claims, configuration and the in-memory claims cache

    The token claims and their audience (types.go), the configuration and its
    checks (types.go, helper.go), the [Cache] interface and its in-memory
    implementation (cache.go).  Instants are passed to every operation. *)
From S2P Require Import Prelude GoNum GoText.
From stdpp Require Import sorting.
Local Open Scope Z_scope.

(** ** types.go *)

(** A JSON value, as encoding/json hands it to the decoders. *)
Inductive json : Type :=
| JNull
| JBool (b : bool)
| JNumber (f : float64)
| JString (s : string)
| JArray (l : list json)
| JObject (fields : list (string * json)).

Definition Audience : Type := list string.

(** A JSON value decoded into a Go string: null leaves the zero value. *)
Definition unmarshal_string (j : json) : option string :=
  match j with JString s => Some s | JNull => Some "" | _ => None end.
(** A JSON value decoded into a []string. *)
Definition unmarshal_strings (j : json) : option (list string) :=
  match j with
  | JNull => Some []
  | JArray l => mapM unmarshal_string l
  | _ => None
  end.

(** [Audience.UnmarshalJSON]. *)
Definition Audience_UnmarshalJSON (data : json) : result Audience :=
  match unmarshal_strings data with
  | Some l => Ok l
  | None =>
      match unmarshal_string data with
      | Some single => Ok [single]
      | None => Fail (Error "oidcauth: aud claim is neither a string nor an array of strings"
                        [errors_New "json: cannot unmarshal"])
      end
  end.

Record Claims := mkClaims {
  Aud : Audience;
  AllowedOrigins : list string;
  Jti : string;
  Iss : string;
  Sub : string;
  Typ : string;
  Azp : string;
  Sid : string;
  Acr : string;
  Scope : string;
  Name : string;
  PreferredUsername : string;
  GivenName : string;
  FamilyName : string;
  Email : string;
  Exp : float64;
  Iat : float64;
  AuthTime : Z;
  RealmAccess : gmap string (list string);
  ResourceAccess : gmap string (gmap string (list string));
  EmailVerified : bool;
}.

(** [Claims{}]. *)
Definition no_claims : Claims :=
  mkClaims [] [] "" "" "" "" "" "" "" "" "" "" "" "" "" (Finite 0 0) (Finite 0 0) 0 ∅ ∅ false.

Record Introspection := mkIntrospection { intr_Claims : Claims; Active : bool }.

Record Config := mkConfig {
  RealmURL : string;
  ClientID : string;
  ClientSecret : string;
  RequestTimeout : Z;
  SkipIssuerCheck : bool;
  SkipClientIDCheck : bool;
  SkipExpiryCheck : bool;
  DisableIntrospection : bool;
  IntrospectionEndpoint : string;
  IntrospectionCacheTTL : Z;
  IntrospectionHTTPTimeout : Z;
}.

(** ** helper.go *)

Definition ErrInvalidRealmURL := errors_New "oidcauth.ErrInvalidRealmURL".
Definition ErrEmptyClientID := errors_New "oidcauth.ErrEmptyClientID".
Definition ErrMissingClientSecret := errors_New "oidcauth.ErrMissingClientSecret".
Definition ErrInvalidOIDCConfiguration := errors_New "oidcauth.ErrInvalidOIDCConfiguration".

Definition defaultRequestTimeout : Z := 30 * Second.
Definition defaultIntrospectionHTTPTimeout : Z := 10 * Second.

(** [validateConfig]. [ParseRequestURI] gives the scheme and the host that
    net/url reads off the URL, when it parses. *)
Definition validateConfig (ParseRequestURI : string -> option (string * string)) (config : Config)
  : result Config :=
  let invalid (what : string) := Fail (Error what [ErrInvalidOIDCConfiguration]) in
  if String.eqb (RealmURL config) "" then Fail ErrInvalidRealmURL
  else
    match ParseRequestURI (RealmURL config) with
    | None => Fail ErrInvalidRealmURL
    | Some (scheme, host) =>
        if (negb (String.eqb scheme "http") && negb (String.eqb scheme "https"))
           || String.eqb host ""
        then Fail ErrInvalidRealmURL
        else if String.eqb (ClientID config) "" then Fail ErrEmptyClientID
        else if negb (DisableIntrospection config) && String.eqb (ClientSecret config) ""
        then Fail ErrMissingClientSecret
        else if IntrospectionCacheTTL config <? 0
        then invalid "introspection cache TTL cannot be negative"
        else if IntrospectionHTTPTimeout config <? 0
        then invalid "introspection HTTP timeout cannot be negative"
        else
          Ok (mkConfig (RealmURL config) (ClientID config) (ClientSecret config)
                (if RequestTimeout config <=? 0 then defaultRequestTimeout
                 else RequestTimeout config)
                (SkipIssuerCheck config) (SkipClientIDCheck config) (SkipExpiryCheck config)
                (DisableIntrospection config) (IntrospectionEndpoint config)
                (IntrospectionCacheTTL config)
                (if IntrospectionHTTPTimeout config =? 0 then defaultIntrospectionHTTPTimeout
                 else IntrospectionHTTPTimeout config))
    end.

(** ** cache.go *)

(** The [Cache] interface. *)
Class Cache (S : Type) := {
  cache_Get : S -> string -> Z -> option Claims;
  cache_Set : S -> string -> Claims -> Z -> S;
}.

Definition DefaultCacheDuration : Z := 5 * Minute.

Record memoryCacheEntry := mkEntry { entry_Claims : Claims; entry_ExpiresAt : Z }.

(** The entries under the lock; [stopped] is the [once]-guarded stop channel. *)
Record MemoryCache := mkMemoryCache {
  duration : Z;
  mem_entries : gmap string memoryCacheEntry;
  stopped : bool;
}.

Definition NewMemoryCache (duration : Z) : MemoryCache := mkMemoryCache duration ∅ false.

Definition MemoryCache_Get (c : MemoryCache) (key : string) (now : Z) : option Claims :=
  match mem_entries c !! key with
  | None => None
  | Some entry => if negb (Before now (entry_ExpiresAt entry)) then None
                  else Some (entry_Claims entry)
  end.

Definition MemoryCache_expiry (c : MemoryCache) (claims : Claims) (now : Z) : Z :=
  let configured := time_Add now (duration c) in
  if fnonpos (Exp claims) then configured
  else
    let tokenExp := time_Unix (float_to_int64 (Exp claims)) in
    if Before tokenExp configured then tokenExp else configured.

Definition MemoryCache_Set (c : MemoryCache) (key : string) (claims : Claims) (now : Z)
  : MemoryCache :=
  mkMemoryCache (duration c)
    (<[key := mkEntry claims (MemoryCache_expiry c claims now)]> (mem_entries c)) (stopped c).

Definition MemoryCache_Close (c : MemoryCache) : MemoryCache :=
  mkMemoryCache (duration c) (mem_entries c) true.

(** The sweep of the cleanup goroutine. *)
Definition MemoryCache_evict (c : MemoryCache) (now : Z) : MemoryCache :=
  mkMemoryCache (duration c)
    (filter (fun '(_, e) => Before now (entry_ExpiresAt e) = true) (mem_entries c)) (stopped c).

(** The wake-ups of the cleanup goroutine, and [runCleanup] over a sequence of
    them; [None] is the panic of [time.NewTicker], which ends the process. *)
Inductive cache_wakeup : Type :=
| CacheTick (now : Z)
| CacheStopped
| CacheCtxDone.
Fixpoint cleanup_loop (c : MemoryCache) (ws : list cache_wakeup) : MemoryCache :=
  match ws with
  | CacheTick now :: ws' => cleanup_loop (MemoryCache_evict c now) ws'
  | CacheStopped :: _ | CacheCtxDone :: _ | [] => c
  end.
Definition MemoryCache_runCleanup (c : MemoryCache) (ws : list cache_wakeup) : option MemoryCache :=
  if duration c <=? 0 then None else Some (cleanup_loop c ws).

#[export] Instance MemoryCache_cache : Cache MemoryCache := {|
  cache_Get := MemoryCache_Get;
  cache_Set := MemoryCache_Set;
|}.

(** ** Theorems *)

(** An [aud] claim decodes to the list of its members when it is an array
    of strings, to the one-element list when it is a bare string, to no audience
    when it is null, and to an error in every other shape. *)
Theorem Audience_shapes (data : json) :
  match Audience_UnmarshalJSON data with
  | Ok aud =>
      data = JNull /\ aud = [] \/ (exists s, data = JString s /\ aud = [s])
      \/ exists l, data = JArray l
           /\ Forall2 (fun j s => j = JString s \/ (j = JNull /\ s = "")) l aud
  | Fail _ =>
      (exists l, data = JArray l /\ Exists (fun j => j <> JNull /\ forall s, j <> JString s) l)
      \/ ((exists b, data = JBool b) \/ (exists f, data = JNumber f) \/ exists o, data = JObject o)
  end.
Proof.
  unfold Audience_UnmarshalJSON. destruct data as [|b|f|s|l|o]; simpl; try by eauto 8.
  destruct (mapM unmarshal_string l) as [aud|] eqn:E.
  - right; right. exists l. split; [done|]. apply mapM_Some in E.
    eapply Forall2_impl; [exact E|]. intros j t Hj. destruct j; simpl in *; naive_solver.
  - left. exists l. split; [done|]. apply mapM_None in E.
    eapply Exists_impl; [exact E|]. intros j Hj. destruct j; simpl in *; naive_solver.
Qed.

(** The operations on a cache, with the instant each ran at. *)
Inductive cache_op : Type :=
| OpSet (key : string) (claims : Claims)
| OpEvict
| OpClose.

Definition run_op (c : MemoryCache) (op : Z * cache_op) : MemoryCache :=
  match op with
  | (now, OpSet k claims) => MemoryCache_Set c k claims now
  | (now, OpEvict) => MemoryCache_evict c now
  | (_, OpClose) => MemoryCache_Close c
  end.
Definition run_ops (c : MemoryCache) (ops : list (Z * cache_op)) : MemoryCache :=
  fold_left run_op ops c.

(** The goroutine does nothing but sweep; it panics exactly when the cache was made
    with a lifetime that is not positive, which [NewMemoryCache] accepts. *)
Lemma MemoryCache_runCleanup_sweeps (c : MemoryCache) (ws : list cache_wakeup) :
  match MemoryCache_runCleanup c ws with
  | None => duration c <= 0
  | Some c' => 0 < duration c /\ exists times, c' = run_ops c ((fun t => (t, OpEvict)) <$> times)
  end.
Proof.
  unfold MemoryCache_runCleanup. destruct (Z.leb_spec (duration c) 0); [done|]. split; [done|].
  clear. revert c. induction ws as [|[now| |] ws IH]; intros c; try by exists [].
  destruct (IH (MemoryCache_evict c now)) as [times Ht]. by exists (now :: times).
Qed.

(** The last claims stored under a key, and when. *)
Definition last_set (key : string) (ops : list (Z * cache_op)) : option (Z * Claims) :=
  fold_left (fun acc op => match op with
                           | (now, OpSet k claims) => if String.eqb k key then Some (now, claims) else acc
                           | _ => acc
                           end) ops None.

(** Instants do not go back. *)
Definition in_order (ops : list (Z * cache_op)) (now : Z) : Prop :=
  StronglySorted Z.le (ops.*1) /\ Forall (fun t => t <= now) (ops.*1).

(** The expiry the specification gives: the lifetime counted from the moment of
    storing, cut by the token's own expiry. *)
Definition spec_expiry (duration stored : Z) (claims : Claims) : Z :=
  if fnonpos (Exp claims) then stored + duration
  else Z.min (time_Unix (float_to_int64 (Exp claims))) (stored + duration).

Lemma MemoryCache_expiry_spec (c : MemoryCache) (claims : Claims) (now : Z) :
  MemoryCache_expiry c claims now = spec_expiry (duration c) now claims.
Proof.
  unfold MemoryCache_expiry, spec_expiry, time_Add, Before. destruct (fnonpos _); [done|].
  destruct (Z.ltb_spec (time_Unix (float_to_int64 (Exp claims))) (now + duration c)); lia.
Qed.

Lemma run_op_duration (c : MemoryCache) op : duration (run_op c op) = duration c.
Proof. by destruct op as [t []]. Qed.
Lemma run_ops_duration (ops : list (Z * cache_op)) (c : MemoryCache) :
  duration (run_ops c ops) = duration c.
Proof.
  revert c. induction ops as [|op ops IH]; intros c; [done|]. simpl.
  rewrite IH. apply run_op_duration.
Qed.

Lemma run_ops_snoc (c : MemoryCache) ops op : run_ops c (ops ++ [op]) = run_op (run_ops c ops) op.
Proof. unfold run_ops. by rewrite fold_left_app. Qed.

Lemma last_set_snoc key ops op :
  last_set key (ops ++ [op])
  = match op with
    | (now, OpSet k claims) => if String.eqb k key then Some (now, claims) else last_set key ops
    | _ => last_set key ops
    end.
Proof. unfold last_set. rewrite fold_left_app. by destruct op as [? []]. Qed.

Lemma in_order_snoc ops t op now :
  in_order (ops ++ [(t, op)]) now -> in_order ops t /\ t <= now.
Proof.
  unfold in_order. rewrite fmap_app. intros [Hs Hf].
  apply Forall_app in Hf as [Hf Ht]. simpl in Ht. apply Forall_inv in Ht.
  apply StronglySorted_app in Hs as (Hle & Hs & _).
  split; [|done]. split; [done|]. apply Forall_forall. intros x Hx.
  apply Hle; [done|]. simpl. by constructor.
Qed.

(** What the specification finds under a key. *)
Definition spec_find (key : string) (ops : list (Z * cache_op)) (now dur : Z) : option Claims :=
  match last_set key ops with
  | Some (stored, claims) =>
      if now <? spec_expiry dur stored claims then Some claims else None
  | None => None
  end.

(** The simulation: the table holds the last entry stored under a key, unless
    a sweep removed it after it had expired. *)
Lemma run_ops_lookup (dur : Z) (ops : list (Z * cache_op)) (now : Z) (key : string) :
  in_order ops now ->
  match mem_entries (run_ops (NewMemoryCache dur) ops) !! key with
  | Some e => exists stored, last_set key ops = Some (stored, entry_Claims e)
                /\ entry_ExpiresAt e = spec_expiry dur stored (entry_Claims e)
  | None => last_set key ops = None
            \/ exists stored claims, last_set key ops = Some (stored, claims)
                 /\ spec_expiry dur stored claims <= now
  end.
Proof.
  revert now. induction ops as [|[t op] ops IH] using rev_ind; intros now Hord; [by left|].
  apply in_order_snoc in Hord as [Hord Ht]. specialize (IH t Hord).
  rewrite run_ops_snoc, last_set_snoc. cbv zeta.
  pose proof (run_ops_duration ops (NewMemoryCache dur)) as Hd. simpl in Hd.
  remember (run_ops (NewMemoryCache dur) ops) as c eqn:Ec. destruct op as [k claims| |]; simpl.
  - rewrite MemoryCache_expiry_spec, Hd.
    destruct (string_eqb_spec k key) as [->|Hne].
    + rewrite lookup_insert_eq. by exists t.
    + rewrite lookup_insert_ne by done. destruct (mem_entries c !! key); [done|].
      destruct IH as [?|(st & cl & ? & ?)]; [by left|right]. exists st, cl. split; [done|lia].
  - destruct (filter _ _ !! key) as [e|] eqn:Ef.
    + apply map_lookup_filter_Some in Ef as [Ee _]. by rewrite Ee in IH.
    + apply map_lookup_filter_None in Ef. destruct (mem_entries c !! key) as [e|] eqn:Ee.
      * destruct IH as (st & Hl & He). right. exists st, (entry_Claims e). split; [done|].
        rewrite <- He. destruct Ef as [Ef|Ef]; [done|]. specialize (Ef e eq_refl).
        unfold Before in Ef. simpl in Ef. destruct (Z.ltb_spec t (entry_ExpiresAt e)); [done|lia].
      * destruct IH as [?|(st & cl & ? & ?)]; [by left|right]. exists st, cl. split; [done|lia].
  - destruct (mem_entries c !! key); [done|].
    destruct IH as [?|(st & cl & ? & ?)]; [by left|right]. exists st, cl. split; [done|lia].
Qed.

(** [C21] Through any sequence of stores, sweeps and closings whose instants do
    not go back, the cache answers as its specification does: a lookup finds the
    claims last stored under the key until the configured lifetime counted from
    that moment, or the token's own expiry if that comes first, has passed; when
    the cleanup goroutine runs makes no difference. *)
Theorem MemoryCache_refines (dur : Z) (ops : list (Z * cache_op)) (now : Z) (key : string) :
  in_order ops now ->
  MemoryCache_Get (run_ops (NewMemoryCache dur) ops) key now = spec_find key ops now dur.
Proof.
  intros Hord. pose proof (run_ops_lookup dur ops now key Hord) as H.
  unfold MemoryCache_Get, spec_find, Before.
  destruct (mem_entries _ !! key) as [e|].
  - destruct H as (st & -> & ->). by destruct (_ <? _).
  - destruct H as [->|(st & cl & -> & Hle)]; [done|].
    destruct (Z.ltb_spec now (spec_expiry dur st cl)); [lia|done].
Qed.

Definition some_claims : Claims :=
  mkClaims ["api"] [] "" "iss" "user" "" "app" "" "" "openid email" "" "" "" "" ""
    (Finite 1700000000 0) (Finite 0 0) 0 ∅ {["app" := {["roles" := ["admin"; "reader"]]}]} true.
Definition noon : Z := time_Unix 1699999900.
Definition day_of_ops : list (Z * cache_op) :=
  [(noon, OpSet "k" some_claims); (noon + 150 * Second, OpEvict)].

Lemma MemoryCache_refines_witness :
  MemoryCache_Get (run_ops (NewMemoryCache (5 * Minute)) day_of_ops) "k" (noon + 150 * Second) = None
  /\ spec_find "k" day_of_ops (noon + 99 * Second) (5 * Minute) = Some some_claims
  /\ MemoryCache_Get (run_ops (NewMemoryCache (5 * Minute)) (take 1 day_of_ops)) "k"
       (noon + 99 * Second) = Some some_claims.
Proof.
  split; [|split].
  - rewrite MemoryCache_refines; [vm_compute; reflexivity|].
    split; repeat constructor; unfold day_of_ops, Second; simpl; lia.
  - vm_compute. reflexivity.
  - vm_compute. reflexivity.
Defined.
