(* ===== verification/Introspection.v ===== *)
(** * oidcauth/introspection.go: remote token introspection

    The introspector with its cache of positive answers, the coalescing of
    concurrent requests, and the helpers that decide whether a token has a JWT
    shape and where the issuer's endpoint is.  The HTTP exchange is the
    environment: [issuer] answers requests. *)
From S2P Require Import Prelude GoNum GoText OidcTypes.
Local Open Scope Z_scope.

Definition ErrAccessTokenInactive := errors_New "oidcauth.ErrAccessTokenInactive".
Definition ErrTokenRevoked := ErrAccessTokenInactive.
Definition ErrInvalidIntrospectionResponse := errors_New "oidcauth.ErrInvalidIntrospectionResponse".
Definition ErrIntrospectionFailed := errors_New "oidcauth.ErrIntrospectionFailed".

Definition minCleanupInterval : Z := Second.
Definition maxCleanupInterval : Z := 5 * Minute.

(** [IntrospectionCacheEntry]. *)
Record IntrospectionCacheEntry := mkCacheEntry { ce_Claims : Claims; ce_ExpiresAt : Z }.

(** [IntrospectionEvent] with its kind. *)
Inductive IntrospectionEvent : Type :=
| EventCacheHit
| EventCacheMiss
| EventIntrospectionSucceeded (Duration : Z)
| EventTokenInactive (Duration : Z)
| EventIntrospectionFailed (Duration : Z)
| EventCacheEvicted (Count : nat).

Record IntrospectorConfig := mkIntrospectorConfig {
  ic_Endpoint : string;
  ic_ClientID : string;
  ic_ClientSecret : string;
  ic_HTTPTimeout : Z;
  ic_CacheTTL : Z;
}.

Record introspectionResult := mkResult { res_claims : Claims; res_expiresAt : Z }.

(** The request that goes out. *)
Record http_request := mkRequest {
  req_URL : string;
  req_Form : list (string * string);
  req_Headers : list (string * string);
  req_BasicAuth : string * string;
}.

(** How the exchange ends: no request could be built, the transport failed, or
    a response came back with its status and what the JSON decoder made of its
    body. *)
Inductive issuer_reply : Type :=
| BuildFailed (e : error)
| TransportFailed (e : error)
| Replied (status : Z) (body : result Introspection).

(** [looksLikeJWT]. *)
Definition looksLikeJWT (token : string) : bool :=
  let parts := Split token "." in
  if negb (Nat.eqb (length parts) 3) then false
  else forallb (fun p => negb (String.eqb p "")) parts.

(** [resolveIntrospectionEndpoint]: [discovery] is the field of the provider's
    discovery document, when that decodes. *)
Definition resolveIntrospectionEndpoint (discovery : result string) (config : Config)
  : result string :=
  let from_config :=
    if negb (String.eqb (IntrospectionEndpoint config) "") then Ok (IntrospectionEndpoint config)
    else Fail (Error "no introspection endpoint" [ErrInvalidOIDCConfiguration]) in
  match discovery with
  | Ok endpoint => if negb (String.eqb endpoint "") then Ok endpoint else from_config
  | Fail _ => from_config
  end.

(** [clampCleanupInterval]. *)
Definition clampCleanupInterval (ttl : Z) : Z :=
  if ttl <? minCleanupInterval then minCleanupInterval
  else if maxCleanupInterval <? ttl then maxCleanupInterval
  else ttl.

Section Introspector.
Context {Key : Type} `{Countable Key}.
(** sha256 *)
Variable newTokenCacheKey : string -> Key.

Record Introspector := mkIntrospector {
  endpoint : string;
  clientID : string;
  clientSecret : string;
  httpTimeout : Z;
  cacheTTL : Z;
  entries : gmap Key IntrospectionCacheEntry;
}.

Definition with_entries (i : Introspector) (es : gmap Key IntrospectionCacheEntry) : Introspector :=
  mkIntrospector (endpoint i) (clientID i) (clientSecret i) (httpTimeout i) (cacheTTL i) es.

Definition NewIntrospector (cfg : IntrospectorConfig) : result Introspector :=
  let invalid (what : string) := Fail (Error what [ErrInvalidOIDCConfiguration]) in
  if String.eqb (ic_Endpoint cfg) "" then invalid "introspection endpoint is required"
  else if ic_CacheTTL cfg <? 0 then invalid "introspection cache TTL cannot be negative"
  else if ic_HTTPTimeout cfg <? 0 then invalid "introspection HTTP timeout cannot be negative"
  else
  let timeout := if ic_HTTPTimeout cfg =? 0 then defaultIntrospectionHTTPTimeout
                 else ic_HTTPTimeout cfg in
  Ok (mkIntrospector (ic_Endpoint cfg) (ic_ClientID cfg) (ic_ClientSecret cfg) timeout
        (ic_CacheTTL cfg) ∅).

(** [effectiveExpiry], with the instant it reads. *)
Definition effectiveExpiry (i : Introspector) (now knownExpiry : Z) (introspectedExp : float64) : Z :=
  if cacheTTL i <=? 0 then zero_time
  else
  let expiresAt := time_Add now (cacheTTL i) in
  let expiresAt := if negb (IsZero knownExpiry) && Before knownExpiry expiresAt
                   then knownExpiry else expiresAt in
  let expiresAt :=
    if fpos introspectedExp then
      let tokenExp := time_Unix (float_to_int64 introspectedExp) in
      if Before tokenExp expiresAt then tokenExp else expiresAt
    else expiresAt in
  if negb (After expiresAt now) then zero_time else expiresAt.

Definition lookup_entry (i : Introspector) (now : Z) (key : Key) : option IntrospectionCacheEntry :=
  match entries i !! key with
  | None => None
  | Some entry => if negb (Before now (ce_ExpiresAt entry)) then None else Some entry
  end.

Definition store_entry (i : Introspector) (key : Key) (entry : IntrospectionCacheEntry)
  : Introspector := with_entries i (<[key := entry]> (entries i)).

Definition evict (i : Introspector) (now : Z) : Introspector * list IntrospectionEvent :=
  let kept := filter (fun '(_, e) => Before now (ce_ExpiresAt e) = true) (entries i) in
  let removed := (size (entries i) - size kept)%nat in
  (with_entries i kept, if (0 <? removed)%nat then [EventCacheEvicted removed] else []).

Definition ClearCache (i : Introspector) : Introspector * list IntrospectionEvent :=
  let n := size (entries i) in
  (with_entries i ∅, if (0 <? n)%nat then [EventCacheEvicted n] else []).

(** The RFC 7662 request [doIntrospect] sends. *)
Definition introspect_request (i : Introspector) (token : string) : http_request := {|
  req_URL := endpoint i;
  req_Form := [("token", token); ("token_type_hint", "access_token")];
  req_Headers := [("Content-Type", "application/x-www-form-urlencoded");
                ("Accept", "application/json")];
  req_BasicAuth := (clientID i, clientSecret i);
|}.

(** [doIntrospect]: it reads the clock when it starts, when the exchange is
    over, and, on an active token, once more in [effectiveExpiry]. *)
Definition doIntrospect (issuer : http_request -> issuer_reply) (i : Introspector)
  (token : string) (knownExpiry : Z) (start finish now : Z)
  : list IntrospectionEvent * result introspectionResult :=
  let duration := time_Sub finish start in
  match issuer (introspect_request i token) with
  | BuildFailed e =>
    ([EventIntrospectionFailed duration],
     Fail (Error "introspection failed: build request" [ErrIntrospectionFailed; e]))
  | TransportFailed e =>
    ([EventIntrospectionFailed duration],
     Fail (Error "introspection failed" [ErrIntrospectionFailed; e]))
  | Replied status body =>
    if negb (status =? 200) then
      ([EventIntrospectionFailed duration],
       Fail (Error "introspection failed: unexpected HTTP status" [ErrIntrospectionFailed]))
    else
      match body with
      | Fail e =>
          ([EventIntrospectionFailed duration],
           Fail (Error "invalid introspection response: decode response"
                   [ErrInvalidIntrospectionResponse; e]))
      | Ok raw =>
          if negb (Active raw) then ([EventTokenInactive duration], Fail ErrAccessTokenInactive)
          else
            ([EventIntrospectionSucceeded duration],
             Ok (mkResult (intr_Claims raw)
                   (effectiveExpiry i now knownExpiry (Exp (intr_Claims raw)))))
      end
  end.

(** How the wait on the shared request ends for one caller. *)
Inductive flight : Type :=
| Delivered (res : result introspectionResult)
| Cancelled (ctx_err : error).

(** [Introspect]: [now] is the instant of the lookup, [shared key] the outcome
    of the request the caller waits for when the cache does not answer. *)
Definition Introspect (i : Introspector) (token : string) (now : Z) (shared : Key -> flight)
  : Introspector * list IntrospectionEvent * result Claims :=
  if String.eqb token "" then
  (i, [], Fail (Error "introspection failed: empty token" [ErrIntrospectionFailed]))
  else
  let key := newTokenCacheKey token in
  let wait (evs : list IntrospectionEvent) :=
    match shared key with
    | Delivered (Fail e) => (i, evs, Fail e)
    | Delivered (Ok result) =>
        let i' := if (0 <? cacheTTL i) && negb (IsZero (res_expiresAt result))
                  then store_entry i key (mkCacheEntry (res_claims result) (res_expiresAt result))
                  else i in
        (i', evs, Ok (res_claims result))
    | Cancelled e => (i, evs, Fail e)
    end in
  if 0 <? cacheTTL i then
    match lookup_entry i now key with
    | Some entry => (i, [EventCacheHit], Ok (ce_Claims entry))
    | None => wait [EventCacheMiss]
    end
  else wait [].

(** ** Lemmas *)

(** The bounds on how long a positive answer may be reused. *)
Definition expiry_bounds (i : Introspector) (now knownExpiry : Z) (exp : float64) : list Z :=
  (if IsZero knownExpiry then [] else [knownExpiry])
  ++ (if fpos exp then [time_Unix (float_to_int64 exp)] else []).

Lemma effectiveExpiry_le (i : Introspector) (now ke : Z) (exp : float64) :
  let e := effectiveExpiry i now ke exp in
  IsZero e = false ->
  now < e /\ e <= now + cacheTTL i /\ (ke <> 0 -> e <= ke)
  /\ (fpos exp = true -> e <= time_Unix (float_to_int64 exp)).
Proof.
  cbv zeta. unfold effectiveExpiry, IsZero, Before, After, time_Add, zero_time.
  destruct (cacheTTL i <=? 0); [done|].
  destruct (fpos exp), (Z.eqb_spec ke 0), (Z.ltb_spec ke (now + cacheTTL i)); simpl;
  repeat (match goal with |- context [?a <? ?b] => destruct (Z.ltb_spec a b) end; simpl);
  intros; split_and?; try done; try lia; intros; lia.
Qed.
End Introspector.
Arguments Introspector Key {_ _}.

(** ** Theorems *)

(** A positive answer may be reused until the shortest of the configured
    window from now, the token's own expiry when the caller knows it, and the
    expiry the issuer reported, when it reported one; and not at all, which the
    zero instant says, when the window is disabled or that moment is not in the
    future. *)
Theorem effectiveExpiry_min {Key} `{Countable Key} (i : Introspector Key) (now ke : Z) (exp : float64) :
  effectiveExpiry i now ke exp
  = if cacheTTL i <=? 0 then zero_time
    else
      let e := foldr Z.min (now + cacheTTL i) (expiry_bounds i now ke exp) in
      if now <? e then e else zero_time.
Proof.
  unfold effectiveExpiry, expiry_bounds, IsZero, Before, After, time_Add.
  destruct (cacheTTL i <=? 0); [done|].
  destruct (ke =? zero_time), (fpos exp); simpl; case_ltb; lia.
Qed.

Lemma effectiveExpiry_min_example :
  effectiveExpiry (mkIntrospector "https://issuer" "id" "secret" (10 * Second) Minute (∅ : gmap string _))
    (time_Unix 1000) (time_Unix 1030) (Finite 1020 0) = time_Unix 1020.
Proof. vm_compute. reflexivity. Qed.

(** A token has the shape of a JWT exactly when it is three non-empty
    segments without dots, joined by dots. *)
Theorem looksLikeJWT_iff (token : string) :
  looksLikeJWT token = true <->
  exists h p s, token = h +:+ "." +:+ p +:+ "." +:+ s /\ h <> "" /\ p <> "" /\ s <> ""
    /\ Forall (fun x => str_all (fun c => negb (Ascii.eqb c ".")) x = true) [h; p; s].
Proof.
  unfold looksLikeJWT. split.
  - intros H. pose proof (Join_Split token ".") as Hj. pose proof (Split_parts token ".") as Hn.
    destruct (Split token ".") as [|h [|p [|s [|]]]]; try discriminate H.
    simpl in H. bool_to_prop. exists h, p, s. split; [|done].
    rewrite <- Hj. simpl. by rewrite !string_app_cons, !string_app_nil_l.
  - intros (h & p & s & -> & Hh & Hp & Hs & Hall).
    rewrite !Forall_cons in Hall. destruct Hall as (H1 & H2 & H3 & _).
    change ("." +:+ p +:+ "." +:+ s) with (String "." (p +:+ String "." s)).
    rewrite (Split_app_sep h), (Split_app_sep p), (Split_no_sep s) by done. simpl.
    by destruct (string_eqb_spec h ""), (string_eqb_spec p ""), (string_eqb_spec s "").
Qed.

(** ** The introspector at work

    Callers look tokens up in the cache, start a request for a token or join
    the one in flight, and each stores the answer it is handed; sweeps and
    clearings run at any moment.  Instants do not go back. *)
Section System.
Context {Key : Type} `{Countable Key}.
Variable newTokenCacheKey : string -> Key.

(** An answer the issuer gave: it called the token active when the clock stood
    at [ans_at], to a caller who knew the token to expire at [ans_known]. *)
Record answer := mkAnswer {
  ans_token : string;
  ans_claims : Claims;
  ans_at : Z;
  ans_known : Z;
}.

(** [landed] are the outcomes of finished requests, each waiting in the
    channels of the callers that shared it; [answers] is the history of positive
    answers, which the code does not keep. *)
Record sys := mkSys {
  clock : Z;
  intro : Introspector Key;
  flights : gmap Key (string * Z);
  landed : list (Key * introspectionResult);
  answers : list answer;
}.

Inductive step : sys -> sys -> Prop :=
| step_tick s t :
    clock s <= t -> step s (mkSys t (intro s) (flights s) (landed s) (answers s))
| step_launch s token ke :
    token <> "" -> flights s !! newTokenCacheKey token = None ->
    step s (mkSys (clock s) (intro s) (<[newTokenCacheKey token := (token, ke)]> (flights s))
              (landed s) (answers s))
| step_land s key token ke issuer start finish res :
    flights s !! key = Some (token, ke) ->
    (doIntrospect issuer (intro s) token ke start finish (clock s)).2 = Ok res ->
    step s (mkSys (clock s) (intro s) (delete key (flights s)) ((key, res) :: landed s)
              (mkAnswer token (res_claims res) (clock s) ke :: answers s))
| step_land_failed s key token ke issuer start finish e :
    flights s !! key = Some (token, ke) ->
    (doIntrospect issuer (intro s) token ke start finish (clock s)).2 = Fail e ->
    step s (mkSys (clock s) (intro s) (delete key (flights s)) (landed s) (answers s))
| step_caller s token shared :
    (forall res, shared (newTokenCacheKey token) = Delivered (Ok res) ->
       (newTokenCacheKey token, res) ∈ landed s) ->
    step s (mkSys (clock s) (Introspect newTokenCacheKey (intro s) token (clock s) shared).1.1
              (flights s) (landed s) (answers s))
| step_evict s :
    step s (mkSys (clock s) (evict (intro s) (clock s)).1 (flights s) (landed s) (answers s))
| step_clear s :
    step s (mkSys (clock s) (ClearCache (intro s)).1 (flights s) (landed s) (answers s)).

Inductive reachable (i0 : Introspector Key) (t0 : Z) : sys -> Prop :=
| reach_start : reachable i0 t0 (mkSys t0 i0 ∅ [] [])
| reach_step s s' : reachable i0 t0 s -> step s s' -> reachable i0 t0 s'.

(** [claims], usable until [e] under [key], rest on a positive answer. *)
Definition backed (s : sys) (ttl : Z) (key : Key) (claims : Claims) (e : Z) : Prop :=
  exists a, a ∈ answers s /\ newTokenCacheKey (ans_token a) = key /\ ans_claims a = claims
    /\ ans_at a <= clock s
    /\ e <= ans_at a + ttl
    /\ (ans_known a <> 0 -> e <= ans_known a)
    /\ (fpos (Exp claims) = true -> e <= time_Unix (float_to_int64 (Exp claims))).

Definition sys_inv (ttl : Z) (s : sys) : Prop :=
  cacheTTL (intro s) = ttl
  /\ (forall key token ke, flights s !! key = Some (token, ke) -> newTokenCacheKey token = key)
  /\ (forall key res, (key, res) ∈ landed s -> IsZero (res_expiresAt res) = false ->
        backed s ttl key (res_claims res) (res_expiresAt res))
  /\ (forall key e, entries (intro s) !! key = Some e ->
        backed s ttl key (ce_Claims e) (ce_ExpiresAt e)).

Lemma backed_mono s s' ttl key claims e :
  clock s <= clock s' -> answers s ⊆ answers s' ->
  backed s ttl key claims e -> backed s' ttl key claims e.
Proof.
  intros Hc Ha (a & Hin & Hk & Hcl & Ht & Hrest). exists a. split; [by apply Ha|].
  split; [done|]. split; [done|]. split; [lia|]. exact Hrest.
Qed.

Lemma doIntrospect_Ok issuer (i : Introspector Key) token ke t1 t2 now res :
  (doIntrospect issuer i token ke t1 t2 now).2 = Ok res ->
  res_expiresAt res = effectiveExpiry i now ke (Exp (res_claims res)).
Proof.
  unfold doIntrospect. destruct (issuer _) as [e|e|st [raw|e]]; try done; cbn [snd];
    destruct (st =? 200); try done; cbn [negb snd].
  destruct (Active raw); cbn [negb snd]; [|done]. by intros [= <-].
Qed.

(** What a caller does to the cache: nothing, or storing what it was handed. *)
Lemma Introspect_cache (i : Introspector Key) token now shared :
  let i' := (Introspect newTokenCacheKey i token now shared).1.1 in
  i' = i \/ exists res, shared (newTokenCacheKey token) = Delivered (Ok res)
    /\ 0 < cacheTTL i /\ IsZero (res_expiresAt res) = false
    /\ i' = store_entry i (newTokenCacheKey token)
              (mkCacheEntry (res_claims res) (res_expiresAt res)).
Proof.
  cbv zeta. unfold Introspect. destruct (String.eqb token ""); [by left|].
  destruct (Z.ltb_spec 0 (cacheTTL i)).
  - destruct (lookup_entry i now _); [by left|].
    destruct (shared _) as [[res|e]|e] eqn:E; [|by left..]. cbn [andb].
    destruct (IsZero (res_expiresAt res)) eqn:Hz; [by left|]. right. by exists res.
  - by destruct (shared _) as [[res|e]|e]; left.
Qed.

Lemma sys_inv_step ttl s s' : sys_inv ttl s -> step s s' -> sys_inv ttl s'.
Proof.
  intros (Httl & Hf & Hl & He) Hs.
  assert (Hmono : clock s <= clock s' -> answers s ⊆ answers s' ->
    (forall key res, (key, res) ∈ landed s -> IsZero (res_expiresAt res) = false ->
        backed s' ttl key (res_claims res) (res_expiresAt res))
    /\ (forall key e, entries (intro s) !! key = Some e ->
        backed s' ttl key (ce_Claims e) (ce_ExpiresAt e))).
  { intros Hc Ha. split; intros; eapply backed_mono; eauto. }
  inversion Hs; subst; simpl in *.
  - destruct Hmono; [done..|]. by repeat split.
  - destruct Hmono; [lia|done|]. repeat split; try done; simpl.
    intros key token' ke' Hk. apply lookup_insert_Some in Hk as [[<- [= <- <-]]|[_ Hk]]; eauto.
  - destruct Hmono as [Hl' He']; [lia|set_solver|]. split; [done|]. split; [|split]; simpl; [|..|done].
    + intros k tk ke' Hk. apply lookup_delete_Some in Hk as [_ Hk]. eauto.
    + intros k r Hin Hz. apply elem_of_cons in Hin as [[= -> ->]|Hin]; [|by eauto].
      exists (mkAnswer token (res_claims res) (clock s) ke). simpl.
      pose proof (doIntrospect_Ok _ _ _ _ _ _ _ _ H1) as Hr. rewrite Hr in Hz |- *.
      pose proof (effectiveExpiry_le (intro s) (clock s) ke (Exp (res_claims res)) Hz) as Hb.
      cbv zeta in Hb. split; [by left|]. split; [by eapply Hf|]. intuition lia.
  - destruct Hmono as [Hl' He']; [lia|done|]. split; [done|]. split; [|by split]. simpl.
    intros k tk ke' Hk. apply lookup_delete_Some in Hk as [_ Hk]. eauto.
  - destruct Hmono as [Hl' He']; [lia|done|].
    destruct (Introspect_cache (intro s) token (clock s) shared)
      as [->|(res & Hsh & Hpos & Hz & ->)]; [by repeat split|].
    split; [done|]. split; [done|]. split; [done|]. simpl. intros k e Hk.
    apply lookup_insert_Some in Hk as [[<- <-]|[_ Hk]]; [|by eauto].
    simpl. apply Hl'; eauto.
  - destruct Hmono as [Hl' He']; [lia|done|]. do 3 (split; [done|]). simpl.
    intros k e Hk. apply map_lookup_filter_Some in Hk as [Hk _]. eauto.
  - destruct Hmono as [Hl' He']; [lia|done|]. do 3 (split; [done|]). simpl.
    intros k e Hk. by rewrite lookup_empty in Hk.
Qed.

Lemma sys_inv_reachable i0 t0 s :
  entries i0 = ∅ -> reachable i0 t0 s -> sys_inv (cacheTTL i0) s.
Proof.
  intros He. induction 1 as [|s s' _ IH Hs]; [|by eapply sys_inv_step].
  repeat split; simpl; try done.
  - intros key res Hin. by apply not_elem_of_nil in Hin.
  - intros key e Hk. by rewrite He in Hk.
Qed.
End System.

(** [C5] The window in which a revocation can go unnoticed.  However lookups,
    shared requests, deliveries, sweeps and clearings interleave, claims served
    from the cache rest on the issuer having called a token with that key active
    less than the configured window ago; and they are never served past the
    expiry the issuer reported, nor past the one the caller who asked knew. *)
Theorem cached_claims_window {Key} `{Countable Key} (sha256 : string -> Key)
    (i0 : Introspector Key) (t0 : Z) (s : sys) (token : string) (shared : Key -> flight)
    (i' : Introspector Key) (claims : Claims) :
  entries i0 = ∅ ->
  reachable sha256 i0 t0 s ->
  Introspect sha256 (intro s) token (clock s) shared = (i', [EventCacheHit], Ok claims) ->
  exists a, a ∈ answers s /\ sha256 (ans_token a) = sha256 token /\ ans_claims a = claims
    /\ ans_at a <= clock s < ans_at a + cacheTTL i0
    /\ (ans_known a <> zero_time -> clock s < ans_known a)
    /\ (fpos (Exp claims) = true -> clock s < time_Unix (float_to_int64 (Exp claims))).
Proof.
  intros He Hr Hi. destruct (sys_inv_reachable sha256 i0 t0 s He Hr) as (_ & _ & _ & Hb).
  unfold Introspect in Hi. destruct (String.eqb token ""); [done|].
  destruct (0 <? _); [|by destruct (shared _) as [[]|]].
  destruct (lookup_entry _ _ _) as [e|] eqn:E; [|by destruct (shared _) as [[]|]].
  injection Hi as <- <-. unfold lookup_entry in E.
  destruct (entries (intro s) !! sha256 token) as [e'|] eqn:Ee; [|done].
  destruct (Before (clock s) (ce_ExpiresAt e')) eqn:Hlt; [|done]. injection E as ->.
  unfold Before in Hlt. bool_to_prop.
  destruct (Hb _ _ Ee) as (a & Ha & Hk & Hc & Ht & H1 & H2 & H3). exists a.
  repeat (split; [done || lia|]). split; intros; [specialize (H2 ltac:(done))|specialize (H3 ltac:(done))]; lia.
Qed.

Definition test_introspector : Introspector string :=
  mkIntrospector "https://issuer/introspect" "app" "secret" (10 * Second) Minute ∅.
Definition issuer_says (raw : Introspection) (req : http_request) : issuer_reply := Replied 200 (Ok raw).
Definition test_result : introspectionResult := mkResult some_claims (noon + Minute).
Definition start_sys : sys := mkSys noon test_introspector ∅ [] [].
Definition launched : sys := mkSys noon test_introspector {["opaque" := ("opaque", 0)]} [] [].
Definition landed_sys : sys :=
  mkSys noon test_introspector ∅ [("opaque", test_result)] [mkAnswer "opaque" some_claims noon 0].
Definition stored_sys : sys :=
  mkSys noon (store_entry test_introspector "opaque" (mkCacheEntry some_claims (noon + Minute))) ∅
    [("opaque", test_result)] [mkAnswer "opaque" some_claims noon 0].

Lemma stored_sys_reachable : reachable (fun t => t) test_introspector noon stored_sys.
Proof.
  eapply reach_step; [eapply reach_step; [eapply reach_step; [apply reach_start|]|]|].
  - exact (step_launch (fun t => t) start_sys "opaque" 0 ltac:(done) eq_refl).
  - exact (step_land (fun t => t) launched "opaque" "opaque" 0
             (issuer_says (mkIntrospection some_claims true)) noon noon test_result eq_refl eq_refl).
  - refine (step_caller (fun t => t) landed_sys "opaque" (fun _ => Delivered (Ok test_result)) _).
    intros res [= <-]. by left.
Qed.

Lemma cached_claims_window_witness :
  exists a, a ∈ answers stored_sys /\ ans_at a <= noon < ans_at a + Minute.
Proof.
  destruct (cached_claims_window (fun t => t) test_introspector noon stored_sys "opaque"
              (fun _ => Cancelled (errors_New "context canceled")) (intro stored_sys) some_claims)
    as (a & Ha & _ & _ & Ht & _).
  - reflexivity.
  - exact stored_sys_reachable.
  - vm_compute. reflexivity.
  - exists a. split; [exact Ha|exact Ht].
Defined.

(** [C22] What one call answers when the cache does not: the issuer's word, and
    nothing else, decides.  An active token gives its claims; an inactive one,
    an undecodable answer and every transport failure or unexpected status give
    the three errors a caller can tell apart; only the claims of an active token
    are ever stored, and only while the window is open. *)
Theorem Introspect_by_issuer {Key} `{Countable Key} (sha256 : string -> Key)
    (issuer : http_request -> issuer_reply) (i : Introspector Key) (token : string)
    (ke now start finish later : Z) :
  token <> "" ->
  lookup_entry i now (sha256 token) = None ->
  let '(i', _, r) :=
    Introspect sha256 i token now
      (fun _ => Delivered (doIntrospect issuer i token ke start finish later).2) in
  match issuer (introspect_request i token) with
  | Replied 200 (Ok raw) =>
      if Active raw then
        let e := effectiveExpiry i later ke (Exp (intr_Claims raw)) in
        r = Ok (intr_Claims raw)
        /\ entries i' !! sha256 token
           = (if e =? 0 then entries i !! sha256 token else Some (mkCacheEntry (intr_Claims raw) e))
        /\ forall k, k <> sha256 token -> entries i' !! k = entries i !! k
      else r = Fail ErrAccessTokenInactive /\ i' = i
  | Replied 200 (Fail _) => fails_with r ErrInvalidIntrospectionResponse = true /\ i' = i
  | _ => fails_with r ErrIntrospectionFailed = true /\ i' = i
  end.
Proof.
  intros Hne Hmiss. unfold Introspect. destruct (string_eqb_spec token ""); [done|].
  rewrite Hmiss. unfold doIntrospect.
  destruct (issuer _) as [e|e|st body]; [by destruct (0 <? _); simpl; rewrite ?errors_Is_refl..|].
  destruct (Z.eqb_spec st 200) as [->|Hst]; cbn [negb].
  - destruct body as [raw|e]; [|by destruct (0 <? _)].
    destruct (Active raw); [|by destruct (0 <? _)]. cbn [negb snd res_claims res_expiresAt].
    cbv zeta. unfold IsZero, zero_time.
    destruct (Z.ltb_spec 0 (cacheTTL i)) as [Hp|Hp]; cbn [andb].
    + destruct (_ =? 0); [done|]. split; [done|]. simpl.
      split; [apply lookup_insert_eq|]. intros k Hk. by apply lookup_insert_ne.
    + unfold effectiveExpiry. destruct (Z.leb_spec (cacheTTL i) 0); [done|lia].
  - destruct (0 <? _), st as [|p|p]; try done;
      repeat (destruct p as [p|p|]; try done).
Qed.

Lemma Introspect_by_issuer_witness :
  let '(i', _, r) :=
    Introspect (fun t => t) test_introspector "opaque" noon
      (fun _ => Delivered (doIntrospect (issuer_says (mkIntrospection some_claims false))
                             test_introspector "opaque" 0 noon noon noon).2) in
  r = Fail ErrAccessTokenInactive /\ i' = test_introspector.
Proof.
  exact (Introspect_by_issuer (fun t => t) (issuer_says (mkIntrospection some_claims false))
           test_introspector "opaque" 0 noon noon noon noon ltac:(discriminate) eq_refl).
Defined.
