(* ===== verification/Lifecycle.v ===== *)
(** * oidcauth/introspection.go: the cleanup goroutine and Close

    An Introspector that caches runs [runCleanup] in the background; [Close] may
    be called any number of times, by any goroutines. The program is a step
    relation over the state they share: the [stop] channel, the [sync.Once], the
    wait group, and where each caller of [Close] is. *)
From S2P Require Import Prelude GoNum Introspection.
Local Open Scope nat_scope.

(** ** The state *)

(** A caller of [Close]: before [closeOnce.Do], inside its function, before
    [wg.Wait], back. *)
Inductive phase := Entering | InOnce | Waiting | Returned.
Inductive once := Fresh | Running | Done.

Record life := mkLife {
  stop_closed : bool;      (** [close(i.stop)] *)
  closeOnce : once;
  worker : bool;           (** [runCleanup] has not returned: the wait group counts it *)
  sweeps : nat;            (** the evictions it has made *)
  closers : list phase;
  panicked : bool;         (** a channel was closed twice *)
}.

#[export] Instance phase_eq_dec : EqDecision phase.
Proof. solve_decision. Defined.
#[export] Instance once_eq_dec : EqDecision once.
Proof. solve_decision. Defined.

(** [NewIntrospector]: the goroutine is started when there is a cache. *)
Definition started (cacheTTL : Z) : life :=
  mkLife false Fresh (bool_decide (0 < cacheTTL)%Z) 0 [] false.

Inductive event :=
| Call                (** somebody calls [Close] *)
| Enter (t : nat)     (** [closeOnce.Do]: in, or past it, or not yet *)
| CloseStop (t : nat) (** the function of the once *)
| WaitDone (t : nat)  (** [wg.Wait] returns *)
| Tick                (** the worker takes the ticker's branch *)
| StopSeen.           (** the worker takes the [stop] branch and returns *)

Definition set_closer (s : life) (t : nat) (p : phase) : life :=
  mkLife (stop_closed s) (closeOnce s) (worker s) (sweeps s) (<[t := p]> (closers s)) (panicked s).
Definition set_once (s : life) (o : once) : life :=
  mkLife (stop_closed s) o (worker s) (sweeps s) (closers s) (panicked s).

(** [Close], one step of one caller. *)
Definition Close_enter (s : life) (t : nat) : option life :=
  match closers s !! t, closeOnce s with
  | Some Entering, Fresh => Some (set_once (set_closer s t InOnce) Running)
  | Some Entering, Done => Some (set_closer s t Waiting)
  | _, _ => None
  end.
Definition Close_stop (s : life) (t : nat) : option life :=
  match closers s !! t with
  | Some InOnce =>
      Some (mkLife true Done (worker s) (sweeps s) (<[t := Waiting]> (closers s))
              (panicked s || stop_closed s))
  | _ => None
  end.
Definition Close_wait (s : life) (t : nat) : option life :=
  match closers s !! t with
  | Some Waiting => if worker s then None else Some (set_closer s t Returned)
  | _ => None
  end.

(** [runCleanup]: one turn of its [select]; a closed [stop] does not keep the
    ticker's branch from being taken when both are ready. *)
Definition runCleanup_tick (s : life) : option life :=
  if worker s
  then Some (mkLife (stop_closed s) (closeOnce s) true (S (sweeps s)) (closers s) (panicked s)) else None.
Definition runCleanup_stop (s : life) : option life :=
  if worker s && stop_closed s
  then Some (mkLife true (closeOnce s) false (sweeps s) (closers s) (panicked s)) else None.

(** One step; [None] when the event cannot happen. *)
Definition step (s : life) (e : event) : option life :=
  match e with
  | Call => Some (mkLife (stop_closed s) (closeOnce s) (worker s) (sweeps s) (closers s ++ [Entering]) (panicked s))
  | Enter t => Close_enter s t
  | CloseStop t => Close_stop s t
  | WaitDone t => Close_wait s t
  | Tick => runCleanup_tick s
  | StopSeen => runCleanup_stop s
  end.

Inductive steps : life -> list event -> life -> Prop :=
| steps_nil s : steps s [] s
| steps_cons s e s1 es s2 : step s e = Some s1 -> steps s1 es s2 -> steps s (e :: es) s2.

(** ** The invariant *)

(** Somebody is inside the once exactly while it runs, and alone; the channel is
    closed exactly when it is done; who is past it has found it done; who is back
    has found the worker gone. *)
Record life_inv (s : life) : Prop := {
  inv_panic : panicked s = false;
  inv_stop : stop_closed s = true <-> closeOnce s = Done;
  inv_running : closeOnce s = Running <-> exists t, closers s !! t = Some InOnce;
  inv_alone t t' : closers s !! t = Some InOnce -> closers s !! t' = Some InOnce -> t = t';
  inv_past t p : closers s !! t = Some p -> p = Waiting \/ p = Returned -> closeOnce s = Done;
  inv_back t : closers s !! t = Some Returned -> worker s = false;
}.

Lemma started_inv (ttl : Z) : life_inv (started ttl).
Proof. split; simpl; intros; rewrite ?lookup_nil in *; try done; naive_solver. Qed.

(** Split a lookup in an updated list of callers. *)
Ltac caller_cases :=
  repeat match goal with
  | H : <[?t := _]> _ !! ?t' = Some _ |- _ =>
      apply list_lookup_insert_Some in H as [(? & ? & ?)|[? ?]]; simplify_eq
  | H : (_ ++ [_]) !! _ = Some _ |- _ =>
      apply lookup_app_Some in H as [H|[? H]];
      [|apply list_lookup_singleton_Some in H as [? ?]; simplify_eq]
  end.

Lemma enter_inv (s s' : life) (t : nat) : life_inv s -> Close_enter s t = Some s' -> life_inv s'.
Proof.
  intros [Hp Hs Hr Ha Hpast Hback] H. unfold Close_enter in H.
  destruct (closers s !! t) as [[]|] eqn:Et; try done.
  assert (Hlt := lookup_lt_Some _ _ _ Et).
  destruct (closeOnce s) eqn:Eo; simplify_eq/=; split; simpl; try done.
  - naive_solver.
  - split; [|done]. intros _. exists t. by apply list_lookup_insert_eq.
  - intros t1 t2 H1 H2. caller_cases; [done|..]; exfalso;
      (assert (Fresh = Running) by (apply Hr; by eexists)); done.
  - intros t1 p H1 Hor. caller_cases; [naive_solver|]. discriminate (Hpast _ _ H0 Hor).
  - intros t1 H1. caller_cases. by eapply Hback.
  - by rewrite Eo.
  - rewrite Eo. split; [done|]. intros [t1 H1]. caller_cases. apply Hr. by exists t1.
  - intros t1 t2 H1 H2. caller_cases. by eapply Ha.
  - intros t1 H1. caller_cases. by eapply Hback.
Qed.

Lemma close_inv (s s' : life) (t : nat) : life_inv s -> Close_stop s t = Some s' -> life_inv s'.
Proof.
  intros [Hp Hs Hr Ha Hpast Hback] H. unfold Close_stop in H.
  destruct (closers s !! t) as [[]|] eqn:Et; simplify_eq. assert (Hlt := lookup_lt_Some _ _ _ Et).
  assert (Ho : closeOnce s = Running) by (apply Hr; by exists t).
  assert (Hst : stop_closed s = false).
  { destruct (stop_closed s); [|done]. assert (closeOnce s = Done) by (by apply Hs). congruence. }
  split; simpl; try done.
  - by rewrite Hp, Hst.
  - split; [done|]. intros [t1 H1]. caller_cases. by assert (t = t1) by eauto.
  - intros t1 t2 H1 H2. caller_cases. by eapply Ha.
  - intros t1 H1. caller_cases. by eapply Hback.
Qed.

Lemma wait_inv (s s' : life) (t : nat) : life_inv s -> Close_wait s t = Some s' -> life_inv s'.
Proof.
  intros [Hp Hs Hr Ha Hpast Hback] H. unfold Close_wait in H.
  destruct (closers s !! t) as [[]|] eqn:Et; try done. destruct (worker s) eqn:Ew; simplify_eq.
  assert (Ho : closeOnce s = Done) by (eapply Hpast; [exact Et|by left]).
  split; simpl; try done.
  - rewrite Ho. split; [done|]. intros [t1 H1]. caller_cases. rewrite <- Ho. apply Hr. by exists t1.
  - intros t1 t2 H1 H2. caller_cases. by eapply Ha.
Qed.

Lemma life_step_inv (s s' : life) (e : event) : life_inv s -> step s e = Some s' -> life_inv s'.
Proof.
  intros Hinv H. destruct e as [|t|t|t| |]; simpl in H;
    [|by eapply enter_inv|by eapply close_inv|by eapply wait_inv| |]; destruct Hinv as [Hp Hs Hr Ha Hpast Hback].
  - simplify_eq. split; simpl; try done.
    + rewrite Hr. split; intros [t Ht]; exists t; [by apply lookup_app_l_Some|by caller_cases].
    + intros t t' H1 H2. caller_cases. by eapply Ha.
    + intros t p H1 Hor. caller_cases; [by eapply Hpast|naive_solver].
    + intros t H1. caller_cases. by eapply Hback.
  - unfold runCleanup_tick in H. destruct (worker s) eqn:Ew; simplify_eq. by split.
  - unfold runCleanup_stop in H. destruct (worker s) eqn:Ew, (stop_closed s) eqn:Es; simplify_eq/=. by split.
Qed.

Lemma steps_inv (s s' : life) (es : list event) : steps s es s' -> life_inv s -> life_inv s'.
Proof. induction 1; eauto using life_step_inv. Qed.

(** A worker that has returned stays so, and its count of sweeps with it. *)
Lemma step_idle (s s' : life) (e : event) : step s e = Some s' -> worker s = false ->
  worker s' = false /\ sweeps s' = sweeps s.
Proof.
  destruct e; simpl; unfold Close_enter, Close_stop, Close_wait, runCleanup_tick, runCleanup_stop, set_once, set_closer;
    intros H Hw; repeat case_match; simplify_eq/=; congruence || done.
Qed.

Lemma steps_idle (s s' : life) (es : list event) : steps s es s' -> worker s = false -> sweeps s' = sweeps s.
Proof.
  induction 1 as [|s e s1 es s2 H _ IH]; [done|]. intros Hw.
  destruct (step_idle _ _ _ H Hw) as [Hw1 <-]. by apply IH.
Qed.

(** [C17] Closing is safe.  However many goroutines call [Close], and in whatever order
    they and the cleanup goroutine run, the channel is never closed twice, and
    once one call of [Close] has returned the cleanup goroutine is gone: no
    eviction is made after it. *)
Theorem Close_safe (ttl : Z) (es : list event) (s : life) :
  steps (started ttl) es s ->
  panicked s = false /\
  (Returned ∈ closers s -> worker s = false /\ forall es' s', steps s es' s' -> sweeps s' = sweeps s).
Proof.
  intros H. assert (Hinv := steps_inv _ _ _ H (started_inv ttl)). split; [by apply inv_panic|].
  intros [t Ht]%list_elem_of_lookup_1. assert (Hw := inv_back _ Hinv t Ht). split; [done|].
  intros es' s' H'. by eapply steps_idle.
Qed.

(** ** Every call returns *)

Definition weight (p : phase) : nat := match p with Entering => 3 | InOnce => 2 | Waiting => 1 | Returned => 0 end.
(** The steps that are left, but for the worker's ticks. *)
Definition left_to_do (s : life) : nat := sum_list_with weight (closers s) + (if worker s then 1 else 0).
(** The ticks of the worker, and new calls, are not work towards the end. *)
Definition is_work (e : event) : bool := match e with Tick | Call => false | _ => true end.

Lemma sum_insert (l : list phase) (t : nat) (p q : phase) : l !! t = Some p ->
  sum_list_with weight (<[t := q]> l) + weight p = sum_list_with weight l + weight q.
Proof.
  revert t. induction l as [|x l IH]; intros [|t] H; simplify_eq/=; [lia|]. specialize (IH t H). lia.
Qed.

Lemma step_progress (s s' : life) (e : event) : step s e = Some s' -> e <> Call ->
  left_to_do s' + (if is_work e then 1 else 0) <= left_to_do s.
Proof.
  destruct e as [|t|t|t| |]; simpl; unfold left_to_do; intros H Hne; [done|..];
    unfold Close_enter, Close_stop, Close_wait, runCleanup_tick, runCleanup_stop in H.
  - destruct (closers s !! t) as [[]|] eqn:Et; try done; destruct (closeOnce s); simplify_eq/=;
      pose proof (sum_insert _ t _ InOnce Et); pose proof (sum_insert _ t _ Waiting Et); simpl in *; lia.
  - destruct (closers s !! t) as [[]|] eqn:Et; try done; simplify_eq/=.
    pose proof (sum_insert _ t _ Waiting Et). simpl in *. lia.
  - destruct (closers s !! t) as [[]|] eqn:Et; try done; destruct (worker s) eqn:Ew; simplify_eq/=.
    pose proof (sum_insert _ t _ Returned Et). rewrite Ew. simpl in *. lia.
  - destruct (worker s); simplify_eq/=. lia.
  - destruct (worker s), (stop_closed s); simplify_eq/=. lia.
Qed.

Lemma steps_bound (s s' : life) (es : list event) : steps s es s' -> Call ∉ es ->
  length (List.filter is_work es) <= left_to_do s.
Proof.
  induction 1 as [|s e s1 es s2 H _ IH]; intros Hn; simpl; [lia|].
  apply not_elem_of_cons in Hn as [Hne Hn]. specialize (IH Hn).
  pose proof (step_progress _ _ _ H (not_eq_sym Hne)). destruct (is_work e); simpl; lia.
Qed.

(** While a caller is not back, something other than a tick can happen. *)
Lemma not_stuck (s : life) (t : nat) (p : phase) : life_inv s -> closers s !! t = Some p -> p <> Returned ->
  exists e, is_work e = true /\ is_Some (step s e).
Proof.
  intros Hinv Ht Hp. destruct p; [| | |done].
  - destruct (closeOnce s) eqn:Eo.
    + exists (Enter t). simpl. unfold Close_enter. rewrite Ht, Eo. eauto.
    + apply (inv_running _ Hinv) in Eo as [t' Ht']. exists (CloseStop t'). simpl. unfold Close_stop.
      rewrite Ht'. eauto.
    + exists (Enter t). simpl. unfold Close_enter. rewrite Ht, Eo. eauto.
  - exists (CloseStop t). simpl. unfold Close_stop. rewrite Ht. eauto.
  - destruct (worker s) eqn:Ew.
    + assert (Hs : stop_closed s = true).
      { apply (inv_stop _ Hinv). eapply (inv_past _ Hinv); [exact Ht|by left]. }
      exists StopSeen. simpl. unfold runCleanup_stop. rewrite Ew, Hs. eauto.
    + exists (WaitDone t). simpl. unfold Close_wait. rewrite Ht, Ew. eauto.
Qed.

(** [C18] Every call of [Close] returns.  From any state that can be reached, with no
    further calls, at most [left_to_do] steps other than ticks of the cleanup
    goroutine are possible, no more than three for each caller and one for the
    goroutine; and as long as a caller is not back, one of them is possible: the
    callers are never deadlocked. *)
Theorem Close_returns (ttl : Z) (es : list event) (s : life) :
  steps (started ttl) es s ->
  left_to_do s <= 3 * length (closers s) + 1 /\
  (forall es' s', steps s es' s' -> Call ∉ es' -> length (List.filter is_work es') <= left_to_do s) /\
  ((forall p, p ∈ closers s -> p = Returned) \/ exists e, is_work e = true /\ is_Some (step s e)).
Proof.
  intros H. assert (Hinv := steps_inv _ _ _ H (started_inv ttl)). split_and!.
  - unfold left_to_do. assert (sum_list_with weight (closers s) <= 3 * length (closers s)).
    { induction (closers s) as [|p l IH]; simpl; [lia|]. destruct p; simpl; lia. }
    destruct (worker s); lia.
  - intros es' s' Hs. by apply steps_bound with s'.
  - destruct (decide (Forall (eq Returned) (closers s))) as [Hall|Hnot].
    + left. intros p Hp. rewrite list.Forall_forall in Hall. symmetry. by apply Hall.
    + right. apply not_Forall_Exists in Hnot; [|apply _].
      apply list.Exists_exists in Hnot as (p & [t Ht]%list_elem_of_lookup_1 & Hp).
      eapply not_stuck; [done|exact Ht|naive_solver].
Qed.

(** Two callers, and a tick after the channel was closed. *)
Definition two_closers : list event :=
  [Tick; Call; Call; Enter 1; CloseStop 1; Tick; Enter 0; StopSeen; WaitDone 0].
Definition two_closed : life := mkLife true Done false 2 [Returned; Waiting] false.

Lemma two_closers_run : steps (started 1%Z) two_closers two_closed.
Proof. repeat (eapply steps_cons; [reflexivity|]). apply steps_nil. Qed.

Lemma Close_safe_witness : worker two_closed = false /\ panicked two_closed = false.
Proof.
  destruct (Close_safe 1%Z two_closers two_closed) as [Hp Hr].
  - apply two_closers_run.
  - split; [apply Hr; left|exact Hp].
Defined.

Lemma Close_returns_witness : exists e, is_work e = true /\ is_Some (step two_closed e).
Proof.
  destruct (Close_returns 1%Z two_closers two_closed) as (_ & _ & [Hall|H]).
  - apply two_closers_run.
  - assert (Waiting = Returned) by (apply Hall; right; left). discriminate.
  - exact H.
Defined.
