(* ===== verification/Oidc.v ===== *)
(** * oidcauth/oidc.go: the token verifier

    Construction and verification, on top of the introspector and a claims
    cache known by its interface; and the role, scope and party checks.  What
    go-oidc does (discovery, the local check of a JWT) is an argument. *)
From S2P Require Import Prelude GoNum GoText OidcTypes Introspection.
Local Open Scope Z_scope.

Definition ErrTokenValidationFailed := errors_New "oidcauth.ErrTokenValidationFailed".
Definition ErrProviderInitFailed := errors_New "oidcauth.ErrProviderInitFailed".

(** What go-oidc reports of a JWT whose signature, issuer, audience and expiry
    it accepts: the expiry, and the claims as far as they decode. *)
Record IDToken := mkIDToken { idt_Expiry : Z; idt_Claims : result Claims }.

Section OIDC.
Context {Key S : Type} `{Countable Key} `{Cache S}.
(** sha256, as bytes and in hexadecimal *)
Variable newTokenCacheKey : string -> Key.
Variable hashToken : string -> string.

(** The verifier: its configuration, the cache attached to it and its
    introspector. *)
Record OIDC := mkOIDC {
  config : Config;
  cache : option S;
  introspector : option (Introspector Key);
}.

(** [New]. [NewProvider] is the outcome of the discovery: an error, or the
    introspection endpoint of the discovery document as far as it decodes. *)
Definition New (ParseRequestURI : string -> option (string * string))
    (NewProvider : Config -> result (result string)) (config : Config) (WithCache : option S)
  : result OIDC :=
  match validateConfig ParseRequestURI config with
  | Fail e => Fail e
  | Ok config =>
      match NewProvider config with
      | Fail e => Fail (Error "failed to initialize OIDC provider" [ErrProviderInitFailed; e])
      | Ok discovery =>
          if DisableIntrospection config then Ok (mkOIDC config WithCache None)
          else
            match resolveIntrospectionEndpoint discovery config with
            | Fail e => Fail e
            | Ok endpoint =>
                match NewIntrospector (mkIntrospectorConfig endpoint (ClientID config)
                        (ClientSecret config) (IntrospectionHTTPTimeout config)
                        (IntrospectionCacheTTL config)) with
                | Fail e => Fail e
                | Ok i => Ok (mkOIDC config WithCache (Some i))
                end
            end
      end
  end.

(** [Verify]: [now] is the instant it reads on entry and [later] the instant of
    the lookup in the introspector's cache; [jwt] is go-oidc's verdict on the
    token, [shared] the outcome of the introspection request. A verifier [New]
    built has an introspector whenever introspection is on, so the last error
    below, a nil pointer in the code, is out of reach. *)
Definition Verify (jwt : string -> result IDToken) (shared : Key -> flight) (o : OIDC)
    (token : string) (now later : Z) : OIDC * result Claims :=
  let cacheKey := hashToken token in
  let failed (e : error) := Error "token validation failed" [ErrTokenValidationFailed; e] in
  match cache o ≫= (fun c => cache_Get c cacheKey now) with
  | Some claims => (o, Ok claims)
  | None =>
      let finish (i' : option (Introspector Key)) (claims : Claims) :=
        (mkOIDC (config o) ((fun c => cache_Set c cacheKey claims now) <$> cache o) i',
         Ok claims) in
      let introspect (local : option Claims) (knownExpiry : Z) :=
        if DisableIntrospection (config o) then
          match local with
          | None => (o, Fail (Error "token is opaque and introspection is disabled"
                                [ErrTokenValidationFailed]))
          | Some claims => finish (introspector o) claims
          end
        else
          match introspector o with
          | None => (o, Fail (errors_New "nil introspector"))
          | Some i =>
              let '(i', _, r) := Introspect newTokenCacheKey i token later shared in
              match r with
              | Fail e =>
                  (mkOIDC (config o) (cache o) (Some i'),
                   Fail (if errors_Is e ErrAccessTokenInactive then e else failed e))
              | Ok introspected =>
                  finish (Some i') (default introspected local)
              end
          end in
      if looksLikeJWT token then
        match jwt token with
        | Fail e => (o, Fail (failed e))
        | Ok idToken =>
            match idt_Claims idToken with
            | Fail e => (o, Fail (failed e))
            | Ok claims => introspect (Some claims) (idt_Expiry idToken)
            end
        end
      else introspect None zero_time
  end.

Definition HasRole (o : OIDC) (claims : Claims) (role : string) : bool :=
  match ResourceAccess claims !! ClientID (config o) with
  | None => false
  | Some clientRoles => existsb (String.eqb role) (default [] (clientRoles !! "roles"))
  end.

Definition HasScope (claims : Claims) (scope : string) : bool :=
  existsb (String.eqb scope) (Fields (Scope claims)).

Fixpoint HasAllScopes (claims : Claims) (scopes : list string) : bool :=
  match scopes with
  | [] => true
  | scope :: rest => if negb (HasScope claims scope) then false else HasAllScopes claims rest
  end.

Definition IsAuthorizedParty (claims : Claims) (azp : string) : bool := String.eqb (Azp claims) azp.

(** ** Lemmas *)

(** An introspector whenever introspection is on. *)
Definition well_built (o : OIDC) : Prop :=
  DisableIntrospection (config o) = false -> is_Some (introspector o).

Lemma New_well_built parse provider cfg wc o :
  New parse provider cfg wc = Ok o -> well_built o.
Proof.
  unfold New, well_built. destruct (validateConfig _ _) as [c|]; [|done].
  destruct (provider c) as [d|]; [|done].
  destruct (DisableIntrospection c) eqn:Hd; [by intros [= <-]; simpl; rewrite Hd|].
  destruct (resolveIntrospectionEndpoint _ _); [|done].
  destruct (NewIntrospector _); [|done]. intros [= <-]. by eexists.
Qed.

(** The verifiers a program can hold: what [New] returns, after any calls. *)
Inductive built : OIDC -> Prop :=
| built_New parse provider cfg wc o : New parse provider cfg wc = Ok o -> built o
| built_Verify jwt shared o token now later :
    built o -> built (Verify jwt shared o token now later).1.

Lemma Verify_keeps jwt shared o token now later :
  let o' := (Verify jwt shared o token now later).1 in
  config o' = config o /\ (is_Some (introspector o) -> is_Some (introspector o')).
Proof.
  cbv zeta. unfold Verify. destruct (cache o ≫= _); [done|].
  destruct (looksLikeJWT token); [destruct (jwt token) as [t|]; [destruct (idt_Claims t)|]|];
    try done; (destruct (DisableIntrospection (config o)); [done|]);
    destruct (introspector o) as [i|] eqn:Ei; try (by simpl; rewrite ?Ei);
    destruct (Introspect _ _ _ _ _) as [[i' evs] []]; done.
Qed.

Lemma built_well_built o : built o -> well_built o.
Proof.
  induction 1 as [|jwt shared o token now later _ IH]; [by eapply New_well_built|].
  destruct (Verify_keeps jwt shared o token now later) as [Hc Hi]. unfold well_built in *.
  rewrite Hc. auto.
Qed.

(** The claims the local check establishes, when it applies. *)
Definition local_claims (jwt : string -> result IDToken) (token : string) : option (result Claims) :=
  if looksLikeJWT token then
    Some (t ← jwt token; idt_Claims t)
  else None.
End OIDC.
Arguments OIDC Key S {_ _}.

(** ** Theorems *)

(** [C6] When a verifier that was built accepts a token, every check that
    applies has passed.  The claims were in the attached cache; or the token's
    own signature check passed, if it looks like a JWT, and those are the claims
    returned; and the issuer called it active, if introspection is on, and those
    are the claims if the token is opaque.  An opaque token is never accepted
    without introspection. *)
Theorem Verify_sound {Key S} `{Countable Key} `{Cache S} (sha256 : string -> Key)
    (hashToken : string -> string) (o o' : OIDC Key S)
    (jwt : string -> result IDToken) (shared : Key -> flight) (token : string) (now later : Z)
    (claims : Claims) :
  built sha256 hashToken o ->
  Verify sha256 hashToken jwt shared o token now later = (o', Ok claims) ->
  (exists c, cache o = Some c /\ cache_Get c (hashToken token) now = Some claims /\ o' = o)
  \/ ((local_claims jwt token = Some (Ok claims) \/ local_claims jwt token = None)
      /\ (DisableIntrospection (config o) = true -> local_claims jwt token <> None)
      /\ (DisableIntrospection (config o) = false ->
            exists i i' evs introspected,
              introspector o = Some i
              /\ Introspect sha256 i token later shared = (i', evs, Ok introspected)
              /\ (local_claims jwt token = None -> claims = introspected))
      /\ cache o' = (fun c => cache_Set c (hashToken token) claims now) <$> cache o).
Proof.
  intros Hw%built_well_built. unfold well_built in Hw. unfold Verify.
  destruct (cache o ≫= _) as [cl|] eqn:Ec.
  { intros [= <- <-]. left. destruct (cache o) as [c|]; [|done]. by exists c. }
  intros Hv. right. unfold local_claims.
  destruct (looksLikeJWT token); [destruct (jwt token) as [t|e]; [|done]; cbn [mbind result_bind];
    destruct (idt_Claims t) as [cl|e]; [|done]|];
  (destruct (DisableIntrospection (config o));
   [|destruct (Hw eq_refl) as [i Hi]; rewrite Hi in Hv |- *;
     destruct (Introspect sha256 i token later shared) as [[i' evs] [r|e]] eqn:Ei; [|done]]);
  simplify_eq/=; naive_solver.
Qed.

(** A verifier for evaluation: a cache in memory, keys that are the tokens, and
    an issuer whose one JWT is [a.b.c]. *)
Definition demo_parse (u : string) : option (string * string) := Some ("https", "issuer").
Definition demo_config (disable : bool) : Config :=
  mkConfig "https://issuer/realm" "app" "secret" 0 false false false disable "" Minute 0.
Definition demo_provider (_ : Config) : result (result string) := Ok (Ok "https://issuer/introspect").
Definition demo_jwt (t : string) : result IDToken :=
  if String.eqb t "a.b.c" then Ok (mkIDToken (noon + 90 * Second) (Ok some_claims))
  else Fail (errors_New "oidc: malformed jwt").
Definition demo_oidc (disable : bool) : OIDC string MemoryCache :=
  match New demo_parse demo_provider (demo_config disable) (Some (NewMemoryCache Hour)) with
  | Ok o => o
  | Fail _ => mkOIDC (demo_config disable) None None
  end.

Lemma demo_built (disable : bool) : built (fun t => t) (fun t => t) (demo_oidc disable).
Proof.
  apply built_New with demo_parse demo_provider (demo_config disable) (Some (NewMemoryCache Hour)).
  by destruct disable.
Qed.

Definition active_everywhere (_ : string) : flight := Delivered (Ok test_result).

Lemma Verify_sound_witness :
  let '(o', r) := Verify (fun t => t) (fun t => t) demo_jwt active_everywhere (demo_oidc false)
                    "a.b.c" noon noon in
  r = Ok some_claims /\ cache o' <> cache (demo_oidc false).
Proof.
  destruct (Verify (fun t => t) (fun t => t) demo_jwt active_everywhere (demo_oidc false)
              "a.b.c" noon noon) as [o' r] eqn:E.
  assert (r = Ok some_claims) as -> by (vm_compute in E; injection E as _ <-; reflexivity).
  split; [reflexivity|].
  destruct (Verify_sound (fun t => t) (fun t => t) _ o' demo_jwt active_everywhere "a.b.c" noon noon
              some_claims (demo_built false) E) as [(c & Hc & Hg & _)|(_ & _ & _ & Hs)].
  - vm_compute in Hc. injection Hc as <-. vm_compute in Hg. discriminate.
  - rewrite Hs. vm_compute. discriminate.
Defined.

(** Every rejection says why: the error is [ErrTokenValidationFailed], or
    it is the introspector's own [ErrAccessTokenInactive], passed on unwrapped,
    which takes introspection to be on; and a rejected token leaves the attached
    cache as it was. *)
Theorem Verify_rejects {Key S} `{Countable Key} `{Cache S} (sha256 : string -> Key)
    (hashToken : string -> string) (o o' : OIDC Key S) (jwt : string -> result IDToken)
    (shared : Key -> flight) (token : string) (now later : Z) (e : error) :
  built sha256 hashToken o ->
  Verify sha256 hashToken jwt shared o token now later = (o', Fail e) ->
  cache o' = cache o
  /\ (errors_Is e ErrTokenValidationFailed = true
      \/ errors_Is e ErrAccessTokenInactive = true
         /\ DisableIntrospection (config o) = false
         /\ exists i i' evs, introspector o = Some i
              /\ Introspect sha256 i token later shared = (i', evs, Fail e)).
Proof.
  intros Hw%built_well_built. unfold well_built in Hw. unfold Verify.
  destruct (cache o ≫= _); [done|].
  destruct (looksLikeJWT token); [destruct (jwt token) as [t|]; [destruct (idt_Claims t)|]|];
  try (intros [= <- <-]; split; [done|by left]);
  (destruct (DisableIntrospection (config o)); [intros Hv; simplify_eq/=; (split; [done|by left])|]);
  destruct (Hw eq_refl) as [i ->];
  destruct (Introspect sha256 i token later shared) as [[i' evs] [r|e']] eqn:Ei;
  intros Hv; simplify_eq/=; (split; [done|]);
  (destruct (errors_Is e' ErrAccessTokenInactive) eqn:Ea; [|by left]);
  right; rewrite Ea; repeat split; eauto.
Qed.

Lemma Verify_rejects_witness :
  let '(o', r) := Verify (fun t => t) (fun t => t) demo_jwt
                    (fun _ => Delivered (Fail ErrAccessTokenInactive)) (demo_oidc false)
                    "opaque" noon noon in
  r = Fail ErrAccessTokenInactive /\ cache o' = cache (demo_oidc false).
Proof.
  destruct (Verify (fun t => t) (fun t => t) demo_jwt
              (fun _ => Delivered (Fail ErrAccessTokenInactive)) (demo_oidc false)
              "opaque" noon noon) as [o' r] eqn:E.
  assert (r = Fail ErrAccessTokenInactive) as -> by (vm_compute in E; injection E as _ <-; reflexivity).
  split; [reflexivity|].
  exact (proj1 (Verify_rejects (fun t => t) (fun t => t) _ o' demo_jwt _ "opaque" noon noon _
                  (demo_built false) E)).
Defined.

(** The scope and role checks decide membership: a claim set has all the
    scopes asked for exactly when each is one of the fields of its scope
    string, and a role exactly when it is listed among the roles of the
    verifier's own client. *)
Theorem HasAllScopes_iff {Key S} `{Countable Key} (o : OIDC Key S) (claims : Claims)
    (scopes : list string) (role : string) :
  (HasAllScopes claims scopes = true <-> Forall (fun s => s ∈ Fields (Scope claims)) scopes)
  /\ (HasRole o claims role = true <->
       exists clientRoles roles, ResourceAccess claims !! ClientID (config o) = Some clientRoles
         /\ clientRoles !! "roles" = Some roles /\ role ∈ roles).
Proof.
  split.
  - induction scopes as [|s scopes IH]; cbn [HasAllScopes]; [by split; constructor|].
    rewrite Forall_cons, <- IH. unfold HasScope. rewrite <- existsb_string_elem.
    destruct (existsb _ _); simpl; naive_solver.
  - unfold HasRole. destruct (ResourceAccess claims !! _) as [cr|]; [|naive_solver].
    rewrite existsb_string_elem. destruct (cr !! "roles") as [rs|] eqn:E; simpl.
    + naive_solver.
    + split; [by intros ?%not_elem_of_nil|naive_solver].
Qed.
