(* ===== verification/Sessions.v ===== *)
(** * oidcauth: server-side sessions

    Sessions and the store interface (session.go), the session manager
    (session_manager.go), the token endpoint's part of the flow and the logout
    URL (flow.go), and the cleanup job (cleanup.go).  The store is known by its
    interface: [SessionStore] has the operations, [SessionStoreOk] the contract
    its comments state; a map satisfies it.  The issuer is an argument. *)
From S2P Require Import Prelude GoNum GoText OidcTypes.
From stdpp Require Import fin_maps.
Local Open Scope Z_scope.

Definition ErrSessionNotFound := errors_New "oidcauth.ErrSessionNotFound".

Definition defaultAccessTokenTTL : Z := 5 * Minute.
Definition defaultRefreshTokenTTL : Z := 30 * 24 * Hour.

(** What the code reads of golang.org/x/oauth2's [Token]: its fields, and the
    members of the token response with the types the code asks for. *)
Record Token := mkToken {
  tok_AccessToken : string;
  tok_TokenType : string;
  tok_RefreshToken : string;
  tok_Expiry : Z;
  tok_id_token : option string;
  tok_refresh_expires_in : option float64;
  tok_scope : option string;
}.

(** ** session.go *)

Record TokenSet := mkTokenSet {
  AccessToken : string;
  RefreshToken : string;
  IDToken : string;
  TokenType : string;
  Scopes : list string;
  AccessTokenExpiresAt : Z;
  RefreshTokenExpiresAt : Z;
}.

(** [TokenSet{}]. *)
Definition no_tokens : TokenSet := mkTokenSet "" "" "" "" [] zero_time zero_time.

Record Session := mkSession {
  ID : string;
  Tokens : TokenSet;
  sess_Claims : Claims;
  ExpiresAt : Z;
  CreatedAt : Z;
  UpdatedAt : Z;
  LastSeenAt : Z;
}.

Definition set_LastSeenAt (t : Z) (s : Session) : Session :=
  mkSession (ID s) (Tokens s) (sess_Claims s) (ExpiresAt s) (CreatedAt s) (UpdatedAt s) t.

(** The [SessionStore] interface. The callback of [WithLock] changes variables
    of its caller, of type [W]. *)
Class SessionStore (S : Type) := {
  st_Create : S -> Session -> S * option error;
  st_Get : S -> string -> S * result Session;
  st_Touch : S -> string -> Z -> S * option error;
  st_WithLock : forall W : Type, S -> string -> (Session -> W -> W * result (option Session)) -> W ->
    S * W * option error;
  st_Delete : S -> string -> S * option error;
  st_DeleteExpired : S -> Z -> S * result Z;
}.
Arguments st_WithLock {S _ W}.

(** The contract, for a store whose medium does not fail: [sessions] is what it
    holds. *)
Class SessionStoreOk (S : Type) `{SessionStore S} := {
  sessions : S -> gmap string Session;
  st_Create_ok s x :
    sessions (st_Create s x).1 = <[ID x := x]> (sessions s) /\ (st_Create s x).2 = None;
  st_Get_ok s id :
    sessions (st_Get s id).1 = sessions s
    /\ match sessions s !! id with
       | Some x => (st_Get s id).2 = Ok x
       | None => fails_with (st_Get s id).2 ErrSessionNotFound = true
       end;
  st_Touch_ok s id t : sessions (st_Touch s id t).1 = alter (set_LastSeenAt t) id (sessions s);
  st_WithLock_ok W s id (fn : Session -> W -> W * result (option Session)) w :
    let '(s', w', err) := st_WithLock s id fn w in
    match sessions s !! id with
    | None => w' = w /\ sessions s' = sessions s
              /\ exists e, err = Some e /\ errors_Is e ErrSessionNotFound = true
    | Some x =>
        w' = (fn x w).1
        /\ match (fn x w).2 with
           | Fail e => err = Some e /\ sessions s' = sessions s
           | Ok None => err = None /\ sessions s' = sessions s
           | Ok (Some x') => err = None /\ sessions s' = <[id := x']> (sessions s)
           end
    end;
  st_Delete_ok s id :
    sessions (st_Delete s id).1 = delete id (sessions s) /\ (st_Delete s id).2 = None;
  st_DeleteExpired_ok s now :
    let kept := filter (fun '(_, x) => now < ExpiresAt x) (sessions s) in
    sessions (st_DeleteExpired s now).1 = kept
    /\ (st_DeleteExpired s now).2 = Ok (Z.of_nat (size (sessions s) - size kept));
}.

(** A store held in a map. *)
#[export] Instance map_store : SessionStore (gmap string Session) := {|
  st_Create s x := (<[ID x := x]> s, None);
  st_Get s id := (s, match s !! id with Some x => Ok x | None => Fail ErrSessionNotFound end);
  st_Touch s id t := (alter (set_LastSeenAt t) id s, None);
  st_WithLock W s id fn w :=
    match s !! id with
    | None => (s, w, Some ErrSessionNotFound)
    | Some x =>
        match (fn x w).2 with
        | Fail e => (s, (fn x w).1, Some e)
        | Ok None => (s, (fn x w).1, None)
        | Ok (Some x') => (<[id := x']> s, (fn x w).1, None)
        end
    end;
  st_Delete s id := (delete id s, None);
  st_DeleteExpired s now :=
    let kept := filter (fun '(_, x) => now < ExpiresAt x) s in
    (kept, Ok (Z.of_nat (size s - size kept)));
|}.

#[export] Program Instance map_store_ok : SessionStoreOk (gmap string Session) := {|
  sessions s := s;
|}.
Next Obligation. done. Qed.
Next Obligation. intros s id. simpl. by destruct (s !! id). Qed.
Next Obligation. done. Qed.
Next Obligation.
  intros W s id fn w. simpl. destruct (s !! id) as [x|]; [|by eauto 10].
  by destruct (fn x w) as [w' [[x'|]|e]].
Qed.
Next Obligation. done. Qed.
Next Obligation. done. Qed.

(** ** flow.go *)

(** [Flow.Refresh], over the token source of the oauth2 library. *)
Definition Flow_Refresh (TokenSource : string -> result Token) (refreshToken : string)
  : result Token :=
  map_err (fun e => Error "oidc flow: refresh token" [e]) (TokenSource refreshToken).

(** [Flow.Exchange], likewise. *)
Definition Flow_Exchange (oauth2_Exchange : string -> string -> result Token)
    (code verifier : string) : result Token :=
  map_err (fun e => Error "oidc flow: exchange code" [e]) (oauth2_Exchange code verifier).

(** [Flow.EndSessionURL]; [Encode] is the query encoding of net/url, which
    sorts the parameters by name. *)
Definition EndSessionURL (Encode : list (string * string) -> string)
    (endSessionURL clientID idToken postLogoutRedirectURI : string) : string :=
  if String.eqb endSessionURL "" then ""
  else
    let params := [("client_id", clientID)]
                  ++ (if negb (String.eqb idToken "") then [("id_token_hint", idToken)] else [])
                  ++ [("post_logout_redirect_uri", postLogoutRedirectURI)] in
    endSessionURL +:+ "?" +:+ Encode params.

(** ** session_manager.go *)

Record SessionManager := mkManager {
  verifier : option (string -> result Claims);
  clientID : string;
  idleTimeout : Z;
  absoluteTimeout : Z;
}.

(** [tokenSetFrom], with the two instants it may read. *)
Definition tokenSetFrom (token : Token) (previous : TokenSet) (wall wall' : Z) : TokenSet :=
  {| AccessToken := tok_AccessToken token;
     TokenType := tok_TokenType token;
     AccessTokenExpiresAt := if IsZero (tok_Expiry token) then time_Add wall defaultAccessTokenTTL
                             else tok_Expiry token;
     RefreshToken := if negb (String.eqb (tok_RefreshToken token) "") then tok_RefreshToken token
                     else RefreshToken previous;
     IDToken := match tok_id_token token with
                | Some idToken => if negb (String.eqb idToken "") then idToken else IDToken previous
                | None => IDToken previous
                end;
     RefreshTokenExpiresAt :=
       match tok_refresh_expires_in token with
       | Some secs => if fpos secs then time_Add wall' (mul64 (float_to_int64 secs) Second)
                      else RefreshTokenExpiresAt previous
       | None => RefreshTokenExpiresAt previous
       end;
     Scopes := match tok_scope token with
               | Some scope => if negb (String.eqb scope "") then Fields scope else Scopes previous
               | None => Scopes previous
               end |}.

Definition isExpired (m : SessionManager) (s : Session) (now : Z) : bool :=
  if negb (Before now (ExpiresAt s)) then true
  else if (0 <? idleTimeout m) && negb (IsZero (LastSeenAt s))
          && (idleTimeout m <? time_Sub now (LastSeenAt s))
  then true
  else false.

Definition computeExpiresAt (m : SessionManager) (s : Session) : Z :=
  let ceiling :=
    if String.eqb (RefreshToken (Tokens s)) "" then AccessTokenExpiresAt (Tokens s)
    else if negb (IsZero (RefreshTokenExpiresAt (Tokens s))) then RefreshTokenExpiresAt (Tokens s)
    else time_Add (CreatedAt s) defaultRefreshTokenTTL in
  if 0 <? absoluteTimeout m then
    let cap := time_Add (CreatedAt s) (absoluteTimeout m) in
    if Before cap ceiling then cap else ceiling
  else ceiling.

Definition notFound (err : error) : error :=
  if errors_Is err ErrSessionNotFound then err else Error "not found" [ErrSessionNotFound; err].

(** The session a token set makes, before and after its ceiling is computed. *)
Definition set_ExpiresAt (t : Z) (s : Session) : Session :=
  mkSession (ID s) (Tokens s) (sess_Claims s) t (CreatedAt s) (UpdatedAt s) (LastSeenAt s).

(** What the callback of [refresh] leaves in the locked session. *)
Definition renewed (m : SessionManager) (locked : Session) (token : Token) (now wall wall' : Z)
  : Session :=
  let s := mkSession (ID locked) (tokenSetFrom token (Tokens locked) wall wall')
             (sess_Claims locked) (ExpiresAt locked) (CreatedAt locked) (UpdatedAt locked)
             (LastSeenAt locked) in
  mkSession (ID s) (Tokens s) (sess_Claims s) (computeExpiresAt m s) (CreatedAt s) now now.

(** The callback [refresh] runs under the lock. It changes [resolved], and calls
    the issuer, which the list of presented refresh tokens records. *)
Definition refresh_callback (m : SessionManager) (TokenSource : string -> result Token)
    (now wall wall' : Z) (locked : Session) (w : option Session * list string)
  : (option Session * list string) * result (option Session) :=
  let '(resolved, presented) := w in
  if Before now (AccessTokenExpiresAt (Tokens locked)) then ((Some locked, presented), Ok None)
  else if isExpired m locked now then (w, Fail (Error "expired" [ErrSessionNotFound]))
  else if String.eqb (RefreshToken (Tokens locked)) "" then
    (w, Fail (Error "access token expired and session has no refresh token" [ErrSessionNotFound]))
  else
    let presented := presented ++ [RefreshToken (Tokens locked)] in
    match Flow_Refresh TokenSource (RefreshToken (Tokens locked)) with
    | Fail _ => ((resolved, presented), Fail (Error "refresh rejected" [ErrSessionNotFound]))
    | Ok token =>
        let locked := renewed m locked token now wall wall' in
        ((Some locked, presented), Ok (Some locked))
    end.

Section Manager.
Context {S : Type} `{SessionStore S}.
Variable m : SessionManager.
Variable TokenSource : string -> result Token.

(** [Create]; [uuid] is the fresh identifier. *)
Definition Create (s : S) (uuid : string) (token : Token) (claims : Claims) (now wall wall' : Z)
  : S * result Session :=
  let x := mkSession uuid (tokenSetFrom token no_tokens wall wall') claims zero_time now now zero_time in
  let x := set_ExpiresAt (computeExpiresAt m x) x in
  match st_Create s x with
  | (s, Some e) => (s, Fail (Error "oidcauth: create session" [e]))
  | (s, None) => (s, Ok x)
  end.

(** [refresh]: the store, the refresh tokens presented to the issuer, and the
    outcome. The session is [nil], here [None], when the store reports success
    without having run the callback. *)
Definition refresh (s : S) (id : string) (now wall wall' : Z)
  : S * list string * result (option Session) :=
  let '(s, (resolved, presented), err) :=
    st_WithLock s id (refresh_callback m TokenSource now wall wall') (None, []) in
  match err with
  | Some e =>
      let s := if errors_Is e ErrSessionNotFound then (st_Delete s id).1 else s in
      (s, presented, Fail (notFound e))
  | None => (s, presented, Ok resolved)
  end.

(** [Resolve]; [uuid_Parse] tells the identifiers that parse, [now] is the
    instant read on entry. *)
Definition Resolve (uuid_Parse : string -> bool) (s : S) (id : string) (now wall wall' : Z)
  : S * list string * result (option Session) :=
  if negb (uuid_Parse id) then (s, [], Fail (Error "malformed session id" [ErrSessionNotFound]))
  else
    let '(s, r) := st_Get s id in
    match r with
    | Fail e => (s, [], Fail (notFound e))
    | Ok x =>
        if isExpired m x now then
          ((st_Delete s id).1, [], Fail (Error "expired" [ErrSessionNotFound]))
        else if Before now (AccessTokenExpiresAt (Tokens x)) then
          let rejected :=
            match verifier m with
            | None => None
            | Some verify =>
                match verify (AccessToken (Tokens x)) with Fail e => Some e | Ok _ => None end
            end in
          match rejected with
          | Some e =>
              ((st_Delete s id).1, [],
               Fail (Error "revalidation rejected" [ErrSessionNotFound; e]))
          | None => ((st_Touch s id now).1, [], Ok (Some (set_LastSeenAt now x)))
          end
        else refresh s id now wall wall'
    end.

Definition Peek (s : S) (id : string) : S * result Session := st_Get s id.
Definition Delete (s : S) (id : string) : S * option error := st_Delete s id.
Definition CleanupExpired (s : S) (now : Z) : S * result Z := st_DeleteExpired s now.

(** [Verify]; a store that keeps its contract never gives the nil session whose
    claims the last case would read. *)
Definition Verify (uuid_Parse : string -> bool) (s : S) (sessionID : string) (now wall wall' : Z)
  : S * list string * result Claims :=
  let '(s, presented, r) := Resolve uuid_Parse s sessionID now wall wall' in
  (s, presented,
   match r with
   | Fail e => Fail e
   | Ok (Some x) => Ok (sess_Claims x)
   | Ok None => Fail (errors_New "nil session")
   end).

Definition HasRole (claims : Claims) (role : string) : bool :=
  match ResourceAccess claims !! clientID m with
  | None => false
  | Some clientRoles => existsb (String.eqb role) (default [] (clientRoles !! "roles"))
  end.

(** ** cleanup.go *)

Record CleanupResult := mkCleanup { Removed : Z; cr_Duration : Z; cr_Err : option error }.

Definition defaultCleanupTimeout : Z := 30 * Second.

(** The effective interval and timeout of [RunSessionCleanup]. *)
Definition cleanup_interval (interval : Z) : Z := if interval <=? 0 then Hour else interval.
Definition cleanup_timeout (timeout : Z) : Z :=
  if timeout <=? 0 then defaultCleanupTimeout else timeout.

(** One pass: it reads the clock at the start, for the deletion, and at the
    end; the pass's outcome is what [onResult] is handed. *)
Definition runCleanupOnce (s : S) (start now finish : Z) : S * CleanupResult :=
  let '(s, r) := CleanupExpired s now in
  (s, match r with
      | Ok n => mkCleanup n (time_Sub finish start) None
      | Fail e => mkCleanup 0 (time_Sub finish start) (Some e)
      end).

(** The wake-ups of the loop. *)
Inductive wakeup : Type :=
| Tick (start now finish : Z)
| CtxDone.

(** The loop over a sequence of wake-ups, with the results it reports. *)
Fixpoint RunSessionCleanup (s : S) (ws : list wakeup) : S * list CleanupResult :=
  match ws with
  | Tick start now finish :: ws' =>
      let '(s1, r) := runCleanupOnce s start now finish in
      let '(s2, rs) := RunSessionCleanup s1 ws' in (s2, r :: rs)
  | CtxDone :: _ | [] => (s, [])
  end.
End Manager.

(** ** Lemmas *)

Lemma notFound_is (e : error) : errors_Is (notFound e) ErrSessionNotFound = true.
Proof.
  unfold notFound. destruct (errors_Is e ErrSessionNotFound) eqn:E; [done|].
  apply errors_Is_wrap2_l, errors_Is_refl.
Qed.

Lemma alter_present {A} (f : A -> A) (k : string) (m : gmap string A) (x : A) :
  m !! k = Some x -> alter f k m = <[k := f x]> m.
Proof. intros Hx. apply map_eq. intros j. destruct (decide (k = j)) as [->|]; simplify_map_eq; done. Qed.

(** A session that may go on being used at [now], given the issuer. *)
Definition usable (m : SessionManager) (TokenSource : string -> result Token) (x : Session)
    (now : Z) : bool :=
  negb (isExpired m x now)
  && (if Before now (AccessTokenExpiresAt (Tokens x)) then
        match verifier m with
        | None => true
        | Some verify => is_Ok (verify (AccessToken (Tokens x)))
        end
      else negb (String.eqb (RefreshToken (Tokens x)) "")
           && is_Ok (TokenSource (RefreshToken (Tokens x)))).

(** The session it then is. *)
Definition carried_on (m : SessionManager) (TokenSource : string -> result Token) (x : Session)
    (now wall wall' : Z) : Session :=
  if Before now (AccessTokenExpiresAt (Tokens x)) then set_LastSeenAt now x
  else match TokenSource (RefreshToken (Tokens x)) with
       | Ok token => renewed m x token now wall wall'
       | Fail _ => x
       end.

(** Whether the issuer is asked for new tokens. *)
Definition asks_issuer (m : SessionManager) (x : Session) (now : Z) : bool :=
  negb (isExpired m x now) && negb (Before now (AccessTokenExpiresAt (Tokens x)))
  && negb (String.eqb (RefreshToken (Tokens x)) "").

(** The callback of [refresh] decides by [usable] once the access token has
    expired. *)
Lemma refresh_callback_spec m ts now wall wall' x pres :
  Before now (AccessTokenExpiresAt (Tokens x)) = false ->
  let '((resolved, presented), r) := refresh_callback m ts now wall wall' x (None, pres) in
  presented = pres ++ (if asks_issuer m x now then [RefreshToken (Tokens x)] else [])
  /\ if usable m ts x now
     then r = Ok (Some (carried_on m ts x now wall wall'))
          /\ resolved = Some (carried_on m ts x now wall wall')
     else fails_with r ErrSessionNotFound = true.
Proof.
  intros Hb. unfold refresh_callback, usable, carried_on, asks_issuer, Flow_Refresh. rewrite Hb.
  destruct (isExpired m x now); simpl; [by rewrite app_nil_r|].
  destruct (String.eqb (RefreshToken (Tokens x)) ""); simpl; [by rewrite app_nil_r|].
  by destruct (ts _).
Qed.

Section Resolution.
Context {S : Type} `{SessionStoreOk S}.
Variable m : SessionManager.
Variable ts : string -> result Token.

Lemma refresh_decides s id x now wall wall' :
  sessions s !! id = Some x ->
  Before now (AccessTokenExpiresAt (Tokens x)) = false ->
  let '(s', presented, r) := refresh m ts s id now wall wall' in
  presented = (if asks_issuer m x now then [RefreshToken (Tokens x)] else [])
  /\ if usable m ts x now
     then r = Ok (Some (carried_on m ts x now wall wall'))
          /\ sessions s' = <[id := carried_on m ts x now wall wall']> (sessions s)
     else fails_with r ErrSessionNotFound = true /\ sessions s' = delete id (sessions s).
Proof.
  intros Hx Hb. unfold refresh.
  pose proof (st_WithLock_ok _ s id (refresh_callback m ts now wall wall') (None, [])) as Hlaw.
  rewrite Hx in Hlaw.
  pose proof (refresh_callback_spec m ts now wall wall' x [] Hb) as Hcb.
  destruct (st_WithLock s id _ _) as [[s1 [resolved presented]] err].
  destruct (refresh_callback _ _ _ _ _ _ _) as [[res pres] out]. simpl in Hlaw.
  destruct Hlaw as [[= -> ->] Hlaw]. destruct Hcb as [-> Hcb].
  destruct (usable m ts x now).
  - destruct Hcb as [-> ->]. by destruct Hlaw as [-> ->].
  - destruct out as [o|e]; [done|]. simpl in Hcb. destruct Hlaw as [-> Hs].
    rewrite Hcb. destruct (st_Delete_ok s1 id) as [-> _]. rewrite Hs. split; [done|].
    split; [|done]. apply notFound_is.
Qed.
(** [Resolve] on a session that is stored, and on one that is not. *)
Lemma Resolve_stored uuid_Parse s id x now wall wall' :
  uuid_Parse id = true -> sessions s !! id = Some x ->
  let '(s', presented, r) := Resolve m ts uuid_Parse s id now wall wall' in
  presented = (if asks_issuer m x now then [RefreshToken (Tokens x)] else [])
  /\ if usable m ts x now
     then r = Ok (Some (carried_on m ts x now wall wall'))
          /\ sessions s' = <[id := carried_on m ts x now wall wall']> (sessions s)
     else fails_with r ErrSessionNotFound = true /\ sessions s' = delete id (sessions s).
Proof.
  intros Hu Hx. unfold Resolve. rewrite Hu. cbn [negb].
  destruct (st_Get_ok s id) as [Hs Hg]. destruct (st_Get s id) as [s1 r1]. simpl in Hs, Hg.
  rewrite Hx in Hg. subst r1. rewrite <- Hs in Hx |- *.
  destruct (isExpired m x now) eqn:Hexp.
  { unfold usable, asks_issuer. rewrite Hexp. simpl. by destruct (st_Delete_ok s1 id). }
  destruct (Before now (AccessTokenExpiresAt (Tokens x))) eqn:Hb.
  2: { pose proof (refresh_decides s1 id x now wall wall' Hx Hb) as Hr.
       by destruct (refresh _ _ _ _ _ _ _) as [[s2 pres] r2]. }
  unfold usable, asks_issuer, carried_on. rewrite Hexp, Hb. cbn [negb andb].
  assert (Htouch : sessions (st_Touch s1 id now).1 = <[id := set_LastSeenAt now x]> (sessions s1)).
  { rewrite st_Touch_ok. by apply alter_present. }
  destruct (verifier m) as [verify|]; [|by rewrite Htouch].
  destruct (verify _) as [c|e]; simpl; [by rewrite Htouch|]. by destruct (st_Delete_ok s1 id).
Qed.

Lemma Resolve_absent uuid_Parse s id now wall wall' :
  uuid_Parse id = true -> sessions s !! id = None ->
  let '(s', presented, r) := Resolve m ts uuid_Parse s id now wall wall' in
  presented = [] /\ fails_with r ErrSessionNotFound = true /\ sessions s' = sessions s.
Proof.
  intros Hu Hx. unfold Resolve. rewrite Hu. cbn [negb].
  destruct (st_Get_ok s id) as [Hs Hg]. destruct (st_Get s id) as [s1 r1]. simpl in Hs, Hg.
  rewrite Hx in Hg. destruct r1 as [x|e]; [done|]. split; [done|]. split; [apply notFound_is|done].
Qed.

(** What a verified session identifier stands for. *)
Lemma Verify_Ok uuid_Parse s id now wall wall' s' pres claims :
  Verify m ts uuid_Parse s id now wall wall' = (s', pres, Ok claims) ->
  uuid_Parse id = true
  /\ exists x, sessions s !! id = Some x /\ usable m ts x now = true
       /\ claims = sess_Claims (carried_on m ts x now wall wall')
       /\ sessions s' = <[id := carried_on m ts x now wall wall']> (sessions s).
Proof.
  unfold Verify. destruct (uuid_Parse id) eqn:Hu.
  2: { unfold Resolve. by rewrite Hu. }
  destruct (sessions s !! id) as [x|] eqn:Hx.
  - pose proof (Resolve_stored uuid_Parse s id x now wall wall' Hu Hx) as Hr.
    destruct (Resolve _ _ _ _ _ _ _ _) as [[s1 pres1] r]. destruct Hr as [_ Hr].
    destruct (usable m ts x now) eqn:E.
    + destruct Hr as [-> Hs]. intros [= <- <- <-]. split; [done|]. by exists x.
    + destruct Hr as [Hf _]. destruct r; [done|]. by intros [=].
  - pose proof (Resolve_absent uuid_Parse s id now wall wall' Hu Hx) as Hr.
    destruct (Resolve _ _ _ _ _ _ _ _) as [[s1 pres1] [r|e]]; [by destruct Hr as (_ & ? & _)|done].
Qed.
End Resolution.

(** ** Theorems *)

(** Where the code and its documentation agree on what an accepted session went
    through: no verifier is configured, or the access token was still valid, so
    that the verifier was asked about it. The documentation promises the verifier
    on every call; a token that was just refreshed is not shown to it
    ([refresh_skips_verifier]). *)
Definition revalidated (m : SessionManager) (x : Session) (now : Z) : Prop :=
  verifier m = None \/ Before now (AccessTokenExpiresAt (Tokens x)) = true.

(** [C1] Resolving a session decides by one rule.  Over a store that keeps its
    contract, an identifier that does not parse or is not stored is refused and
    changes nothing.  A stored session is refused, as [ErrSessionNotFound], and is
    gone from the store, when it has passed its ceiling or idled out, when its
    access token is valid and the verifier rejects it, and when the token has
    expired and there is no refresh token or the issuer does not honour it.
    Otherwise, if no verifier is configured or it has accepted the access token,
    the session is returned and stored with its last use or its new tokens
    recorded.  (With a verifier and an expired access token nothing is claimed
    here about acceptance: the code does not do what is documented.)  The issuer
    sees the refresh token once, and only when the access token has expired.  No
    other session changes. *)
Theorem Resolve_decides {S} `{SessionStoreOk S} (m : SessionManager)
    (TokenSource : string -> result Token) (uuid_Parse : string -> bool) (s : S) (id : string)
    (now wall wall' : Z) :
  let '(s', presented, r) := Resolve m TokenSource uuid_Parse s id now wall wall' in
  match (if uuid_Parse id then sessions s !! id else None) with
  | None => presented = [] /\ fails_with r ErrSessionNotFound = true /\ sessions s' = sessions s
  | Some x =>
      presented = (if asks_issuer m x now then [RefreshToken (Tokens x)] else [])
      /\ (usable m TokenSource x now = false ->
           fails_with r ErrSessionNotFound = true /\ sessions s' = delete id (sessions s))
      /\ (usable m TokenSource x now = true -> revalidated m x now ->
           r = Ok (Some (carried_on m TokenSource x now wall wall'))
           /\ sessions s' = <[id := carried_on m TokenSource x now wall wall']> (sessions s))
  end.
Proof.
  destruct (uuid_Parse id) eqn:Hu; [|unfold Resolve; by rewrite Hu].
  destruct (sessions s !! id) as [x|] eqn:Hx; [|by apply Resolve_absent].
  pose proof (Resolve_stored m TokenSource uuid_Parse s id x now wall wall' Hu Hx) as Hr.
  destruct (Resolve _ _ _ _ _ _ _ _) as [[s' presented] r]. destruct Hr as [Hp Hr]. split; [exact Hp|].
  destruct (usable m TokenSource x now); (split; [done|]); by intros.
Qed.

(** Every way a session fails to resolve looks the same to the caller: over
    any store, whatever it answers and however it fails, the error is
    [ErrSessionNotFound]. *)
Theorem Resolve_fails_not_found {S} `{SessionStore S} (m : SessionManager)
    (TokenSource : string -> result Token) (uuid_Parse : string -> bool) (s : S) (id : string)
    (now wall wall' : Z) :
  let '(_, _, r) := Resolve m TokenSource uuid_Parse s id now wall wall' in
  is_Ok r = true \/ fails_with r ErrSessionNotFound = true.
Proof.
  unfold Resolve. destruct (uuid_Parse id); [|by right]. cbn [negb].
  destruct (st_Get s id) as [s1 [x|e]]; [|right; apply notFound_is].
  destruct (isExpired m x now); [by right|].
  destruct (Before now _).
  - destruct (verifier m) as [v|]; [|by left]. destruct (v _); [by left|by right].
  - unfold refresh. destruct (st_WithLock _ _ _ _) as [[s2 [res pres]] [e|]]; [|by left].
    right. apply notFound_is.
Qed.

Definition demo_manager : SessionManager := mkManager None "app" (30 * Minute) (8 * Hour).
Definition demo_tokens (expiry : Z) : TokenSet := mkTokenSet "at1" "rt1" "idt" "Bearer" [] expiry 0.
Definition demo_session (expiry : Z) : Session :=
  mkSession "sid" (demo_tokens expiry) some_claims (noon + 8 * Hour) noon noon noon.
Definition demo_issuer (rt : string) : result Token :=
  if String.eqb rt "rt1"
  then Ok (mkToken "at2" "Bearer" "rt2" (noon + 10 * Minute) None (Some (Finite 1800 0)) None)
  else Fail (errors_New "invalid_grant").

Lemma Resolve_decides_witness :
  let s : gmap string Session := {["sid" := demo_session (noon + Minute)]} in
  let '(s', presented, r) :=
    Resolve demo_manager demo_issuer (fun _ => true) s "sid" (noon + 2 * Minute) noon noon in
  presented = ["rt1"] /\ is_Ok r = true
  /\ exists x, s' !! "sid" = Some x /\ RefreshToken (Tokens x) = "rt2"
       /\ ExpiresAt x = noon + 30 * Minute.
Proof.
  intros s.
  pose proof (Resolve_decides demo_manager demo_issuer (fun _ => true) s "sid"
                (noon + 2 * Minute) noon noon) as H.
  destruct (Resolve _ _ _ _ _ _ _ _) as [[s' presented] r].
  destruct H as (Hp & _ & Hr). destruct (Hr eq_refl (or_introl eq_refl)) as [-> Hs]. rewrite Hp.
  split; [vm_compute; reflexivity|]. split; [reflexivity|].
  exists (carried_on demo_manager demo_issuer (demo_session (noon + Minute)) (noon + 2 * Minute) noon noon).
  split; [|split; vm_compute; reflexivity].
  change (sessions s') with s' in Hs. rewrite Hs. apply lookup_insert_eq.
Defined.

(** A verifier that rejects every token is not asked about a refreshed one: the
    session is accepted, against the documentation of [Resolve]. *)
Lemma refresh_skips_verifier :
  let strict := mkManager (Some (fun _ => Fail (errors_New "inactive"))) "app" (30 * Minute) (8 * Hour) in
  let s (expiry : Z) : gmap string Session := {["sid" := demo_session expiry]} in
  is_Ok (Resolve strict demo_issuer (fun _ => true) (s (noon + Minute)) "sid" (noon + 2 * Minute) noon noon).2 = true
  /\ is_Ok (Resolve strict demo_issuer (fun _ => true) (s (noon + 5 * Minute)) "sid" (noon + 2 * Minute) noon noon).2 = false.
Proof. vm_compute. by split. Qed.

(** *** The ceiling *)

(** What the identity provider authorised. *)
Definition authorised_until (s : Session) : Z :=
  if decide (RefreshToken (Tokens s) = "") then AccessTokenExpiresAt (Tokens s)
  else if decide (RefreshTokenExpiresAt (Tokens s) = 0) then CreatedAt s + defaultRefreshTokenTTL
  else RefreshTokenExpiresAt (Tokens s).

Lemma computeExpiresAt_min m s :
  computeExpiresAt m s
  = if 0 <? absoluteTimeout m then Z.min (CreatedAt s + absoluteTimeout m) (authorised_until s)
    else authorised_until s.
Proof.
  unfold computeExpiresAt, authorised_until, IsZero, zero_time, time_Add, Before.
  destruct (string_eqb_spec (RefreshToken (Tokens s)) ""), (Z.eqb_spec (RefreshTokenExpiresAt (Tokens s)) 0);
    repeat case_decide; try done; cbn [negb]; case_ltb; lia.
Qed.

(** The states of one session: as created, then touched and renewed any number
    of times. *)
Inductive lifetime (m : SessionManager) (x0 : Session) : Session -> Prop :=
| life_created : lifetime m x0 x0
| life_touched x t : lifetime m x0 x -> lifetime m x0 (set_LastSeenAt t x)
| life_renewed x token now wall wall' :
    lifetime m x0 x -> lifetime m x0 (renewed m x token now wall wall').

Lemma lifetime_inv m x0 x :
  ExpiresAt x0 = computeExpiresAt m x0 -> lifetime m x0 x ->
  ID x = ID x0 /\ sess_Claims x = sess_Claims x0 /\ CreatedAt x = CreatedAt x0
  /\ ExpiresAt x = computeExpiresAt m x.
Proof.
  intros H0. induction 1 as [|x t _ (Hi & Hc & Hcr & He)|x tok now wl wl' _ (Hi & Hc & Hcr & He)];
    [done|by repeat split..].
Qed.

(** [C12] A session's ceiling is never later than what was authorised.  However
    often a created session is touched and renewed, it keeps its identifier, its
    claims and its time of creation; it ends, at the latest, when the absolute
    lifetime counted from its creation is over, if one is configured; and it
    never outlives the refresh token, or without one the access token, or the
    default lifetime when the issuer reports none. *)
Theorem ceiling_holds {S} `{SessionStore S} (m : SessionManager) (s s' : S) (uuid : string)
    (token : Token) (claims : Claims) (now wall wall' : Z) (x0 x : Session) :
  Create m s uuid token claims now wall wall' = (s', Ok x0) ->
  lifetime m x0 x ->
  ID x = uuid /\ sess_Claims x = claims /\ CreatedAt x = now
  /\ (0 < absoluteTimeout m -> ExpiresAt x <= now + absoluteTimeout m)
  /\ ExpiresAt x <= authorised_until x.
Proof.
  unfold Create. destruct (st_Create _ _) as [s1 [e|]]; [done|]. intros [= _ <-] Hl.
  apply lifetime_inv in Hl as (Hi & Hc & Hcr & He); [|reflexivity].
  simpl in *. rewrite He, computeExpiresAt_min, Hcr.
  repeat (split; [done|]). case_ltb; lia.
Qed.

Definition demo_token : Token :=
  mkToken "at1" "Bearer" "rt1" (noon + 5 * Minute) None (Some (Finite 1800 0)) None.

Lemma ceiling_holds_witness :
  exists x0, (Create demo_manager (∅ : gmap string Session) "sid" demo_token some_claims noon noon noon).2
               = Ok x0
    /\ ExpiresAt (set_LastSeenAt (noon + Minute) x0) <= noon + 8 * Hour.
Proof.
  destruct (Create demo_manager (∅ : gmap string Session) "sid" demo_token some_claims noon noon noon)
    as [s' [x0|e]] eqn:E; [|discriminate E].
  exists x0. split; [reflexivity|].
  refine (proj1 (proj2 (proj2 (proj2 (ceiling_holds demo_manager ∅ s' "sid" demo_token some_claims
    noon noon noon x0 _ E _)))) _).
  - apply life_touched, life_created.
  - reflexivity.
Defined.

(** *** Cleanup *)

(** The deletion instants of the ticks before the context is done. *)
Fixpoint ticks (ws : list wakeup) : list Z :=
  match ws with
  | Tick _ now _ :: ws' => now :: ticks ws'
  | CtxDone :: _ | [] => []
  end.

(** The cleanup job removes exactly the sessions that have reached their
    ceiling.  After any run of it over a store that keeps its contract, the
    sessions left are those whose ceiling lies after every pass, so neither the
    number of passes nor their order, nor other instances running the same job,
    matters; every pass reports its count, and the counts add up to what is
    gone. *)
Theorem RunSessionCleanup_exact {S} `{SessionStoreOk S} (s : S) (ws : list wakeup) :
  let '(s', rs) := RunSessionCleanup s ws in
  (forall id x, sessions s' !! id = Some x <->
     sessions s !! id = Some x /\ Forall (fun now => now < ExpiresAt x) (ticks ws))
  /\ Forall (fun r => cr_Err r = None /\ 0 <= Removed r) rs
  /\ foldr Z.add 0 (Removed <$> rs) = Z.of_nat (size (sessions s)) - Z.of_nat (size (sessions s')).
Proof.
  revert s. induction ws as [|[start now finish|] ws IH]; intros s; cbn [RunSessionCleanup ticks].
  - split; [|split; [done|simpl; lia]]. intros. split; [done|]. by intros [? _].
  - unfold runCleanupOnce, CleanupExpired. destruct (st_DeleteExpired_ok s now) as [Hk Hr].
    destruct (st_DeleteExpired s now) as [s1 r1]. simpl in Hk, Hr. subst r1.
    specialize (IH s1). destruct (RunSessionCleanup s1 ws) as [s2 rs].
    destruct IH as (Hs & Hrs & Hsum). split; [|split].
    + intros id x. rewrite Hs, Hk, map_lookup_filter_Some, Forall_cons. tauto.
    + constructor; [|done]. split; [done|]. apply Nat2Z.is_nonneg.
    + rewrite fmap_cons. cbn [foldr Removed]. rewrite Hsum, <- Hk.
      assert (size (sessions s1) <= size (sessions s))%nat; [|lia].
      rewrite Hk. apply map_subseteq_size, map_filter_subseteq.
  - split; [|split; [done|simpl; lia]]. intros. split; [done|]. by intros [? _].
Qed.

Lemma RunSessionCleanup_exact_witness :
  let s : gmap string Session := {["sid" := demo_session noon]} in
  let '(s', rs) := RunSessionCleanup s [Tick noon (noon + 7 * Hour) noon; Tick noon (noon + 9 * Hour) noon;
                                        CtxDone; Tick noon noon noon] in
  (Removed <$> rs) = [0; 1] /\ s' !! "sid" = None.
Proof.
  intros s.
  pose proof (RunSessionCleanup_exact s [Tick noon (noon + 7 * Hour) noon; Tick noon (noon + 9 * Hour) noon;
                                         CtxDone; Tick noon noon noon]) as H.
  destruct (RunSessionCleanup _ _) as [s' rs] eqn:E. split.
  - vm_compute in E. injection E as _ <-. reflexivity.
  - destruct H as [H _]. destruct (s' !! "sid") as [x|] eqn:Ex; [|reflexivity].
    destruct (proj1 (H "sid" x) Ex) as [Hx Hf]. vm_compute in Hx. injection Hx as <-.
    apply Forall_cons in Hf as [_ Hf]. apply Forall_cons in Hf as [Hf _]. vm_compute in Hf. discriminate Hf.
Defined.

(** *** Requests for the same session at the same time

    Each request resolves the session in steps, one call of the store each, and
    the steps of different requests interleave in any order.  The clock readings
    of a request and the issuer's answers are arbitrary. *)

(** Where a request stands: what it is about to do, with the instant it read on
    entry. *)
Inductive pc : Type :=
| PGet
| PTouch (x : Session)
| PLock
| PDelete (e : error)
| PDone (r : result (option Session)).

Section Interleaving.
Context {S : Type} `{SessionStoreOk S}.
Variable m : SessionManager.
Variable id : string.

(** One step of [Resolve]; the list holds the refresh tokens presented. *)
Definition resolve_step (ts : string -> result Token) (now wall wall' : Z) (p : pc) (s : S)
  : S * list string * pc :=
  match p with
  | PGet =>
      let '(s, r) := st_Get s id in
      (s, [], match r with
              | Fail e => PDone (Fail (notFound e))
              | Ok x =>
                  if isExpired m x now then PDelete (Error "expired" [ErrSessionNotFound])
                  else if Before now (AccessTokenExpiresAt (Tokens x)) then
                    match verifier m with
                    | Some verify =>
                        match verify (AccessToken (Tokens x)) with
                        | Fail e => PDelete (Error "revalidation rejected" [ErrSessionNotFound; e])
                        | Ok _ => PTouch x
                        end
                    | None => PTouch x
                    end
                  else PLock
              end)
  | PTouch x => ((st_Touch s id now).1, [], PDone (Ok (Some (set_LastSeenAt now x))))
  | PLock =>
      let '(s, (resolved, presented), err) :=
        st_WithLock s id (refresh_callback m ts now wall wall') (None, []) in
      (s, presented, match err with
                     | Some e => if errors_Is e ErrSessionNotFound then PDelete (notFound e)
                                 else PDone (Fail (notFound e))
                     | None => PDone (Ok resolved)
                     end)
  | PDelete e => ((st_Delete s id).1, [], PDone (Fail e))
  | PDone r => (s, [], p)
  end.

(** A request that runs alone: its three steps are [Resolve]. *)
Lemma resolve_steps_alone ts uuid_Parse now wall wall' s :
  uuid_Parse id = true ->
  let '(s1, p1, c1) := resolve_step ts now wall wall' PGet s in
  let '(s2, p2, c2) := resolve_step ts now wall wall' c1 s1 in
  let '(s3, p3, c3) := resolve_step ts now wall wall' c2 s2 in
  Resolve m ts uuid_Parse s id now wall wall'
  = (s3, p1 ++ p2 ++ p3, match c3 with PDone r => r | _ => Ok None end)
  /\ exists r, c3 = PDone r.
Proof.
  intros Hu. unfold Resolve, resolve_step. rewrite Hu. cbn [negb].
  destruct (st_Get s id) as [s1 [x|e]]; [|by eauto].
  destruct (isExpired m x now); [by eauto|].
  destruct (Before now _).
  - destruct (verifier m) as [v|]; [destruct (v _)|]; by eauto.
  - unfold refresh. destruct (st_WithLock _ _ _ _) as [[s2 [res pres]] [e|]]; [|simpl; rewrite app_nil_r; by eauto].
    destruct (errors_Is e _); simpl; rewrite app_nil_r; by eauto.
Qed.

(** The requests under way, with the instants they read, the refresh tokens
    presented so far and those the issuer has exchanged for new ones. *)
Record requests := mkRequests {
  store : S;
  running : gmap nat (Z * pc);
  presented : list string;
  exchanged : list string;
}.

(** The tokens of a list the issuer exchanges. *)
Definition honoured (ts : string -> result Token) (rts : list string) : list string :=
  List.filter (fun rt => is_Ok (ts rt)) rts.

(** An issuer answering at a moment when [spent] were exchanged: new access
    tokens are valid beyond [horizon]; refresh tokens are rotated, so the new
    one is not empty and was never exchanged before. *)
Definition rotates (horizon : Z) (spent : list string) (ts : string -> result Token) : Prop :=
  forall rt token, ts rt = Ok token ->
    horizon <= tok_Expiry token /\ tok_Expiry token <> zero_time
    /\ tok_RefreshToken token <> "" /\ tok_RefreshToken token <> rt
    /\ tok_RefreshToken token ∉ spent.

Inductive request_step (horizon : Z) : requests -> requests -> Prop :=
| request_arrives g tid now :
    running g !! tid = None ->
    request_step horizon g
      (mkRequests (store g) (<[tid := (now, PGet)]> (running g)) (presented g) (exchanged g))
| request_moves g tid now p ts wall wall' s' pres p' :
    running g !! tid = Some (now, p) ->
    rotates horizon (exchanged g) ts ->
    resolve_step ts now wall wall' p (store g) = (s', pres, p') ->
    request_step horizon g
      (mkRequests s' (<[tid := (now, p')]> (running g)) (presented g ++ pres)
         (exchanged g ++ honoured ts pres)).

Inductive requests_reach (horizon : Z) (s0 : S) : requests -> Prop :=
| reach_none : requests_reach horizon s0 (mkRequests s0 ∅ [] [])
| reach_more g g' :
    requests_reach horizon s0 g -> request_step horizon g g' -> requests_reach horizon s0 g'.

(** What every step does to the session, and what it presents. *)
Lemma resolve_step_effect ts now wall wall' p s :
  let '(s', pres, p') := resolve_step ts now wall wall' p s in
  (pres = [] /\ (sessions s' !! id = None \/
                 exists x x', sessions s !! id = Some x /\ sessions s' !! id = Some x'
                              /\ Tokens x' = Tokens x))
  \/ exists x, sessions s !! id = Some x /\ pres = [RefreshToken (Tokens x)]
       /\ Before now (AccessTokenExpiresAt (Tokens x)) = false
       /\ match ts (RefreshToken (Tokens x)) with
          | Ok token => sessions s' !! id = Some (renewed m x token now wall wall')
          | Fail _ => sessions s' !! id = Some x
          end.
Proof.
  assert (Hsame : forall s', sessions s' = sessions s ->
    sessions s' !! id = None \/ exists x x', sessions s !! id = Some x
      /\ sessions s' !! id = Some x' /\ Tokens x' = Tokens x).
  { intros s' ->. destruct (sessions s !! id) as [x|]; [right; by exists x, x|by left]. }
  destruct p as [|x| |e|r]; cbn [resolve_step].
  - destruct (st_Get_ok s id) as [Hs _]. destruct (st_Get s id) as [s1 r]. left. auto.
  - left. split; [done|]. rewrite st_Touch_ok, lookup_alter_eq.
    destruct (sessions s !! id) as [y|]; [right; by eexists _, _|by left].
  - pose proof (st_WithLock_ok _ s id (refresh_callback m ts now wall wall') (None, [])) as Hlaw.
    destruct (st_WithLock s id _ _) as [[s1 [res pres]] err].
    destruct (sessions s !! id) as [x|] eqn:Hx.
    2: { destruct Hlaw as ([= -> ->] & Hs & _). left. split; [done|]. left. by rewrite Hs. }
    unfold refresh_callback, Flow_Refresh in Hlaw.
    destruct (Before now _) eqn:Hb.
    { destruct Hlaw as [[= -> ->] [_ Hs]]. left. split; [done|]. right. exists x, x. by rewrite Hs. }
    destruct (isExpired m x now).
    { destruct Hlaw as [[= -> ->] [_ Hs]]. left. split; [done|]. right. exists x, x. by rewrite Hs. }
    destruct (String.eqb _ "").
    { destruct Hlaw as [[= -> ->] [_ Hs]]. left. split; [done|]. right. exists x, x. by rewrite Hs. }
    right. exists x. destruct (ts _) as [token|e]; simpl in Hlaw;
      destruct Hlaw as [[= -> ->] [_ Hs]]; rewrite Hs; repeat split; try done.
    by rewrite lookup_insert_eq.
  - left. split; [done|]. left. destruct (st_Delete_ok s id) as [-> _]. apply lookup_delete_eq.
  - left. split; [done|]. by apply Hsame.
Qed.

(** No token of the session was exchanged before; and once one was, the
    session's access token outlives the horizon. *)
Definition requests_inv (horizon : Z) (g : requests) : Prop :=
  forall x, sessions (store g) !! id = Some x ->
    RefreshToken (Tokens x) ∉ exchanged g
    /\ (exchanged g <> [] -> horizon <= AccessTokenExpiresAt (Tokens x)).

Lemma renewed_tokens x token now wall wall' :
  tok_Expiry token <> zero_time -> tok_RefreshToken token <> "" ->
  RefreshToken (Tokens (renewed m x token now wall wall')) = tok_RefreshToken token
  /\ AccessTokenExpiresAt (Tokens (renewed m x token now wall wall')) = tok_Expiry token.
Proof.
  intros He Hr. simpl. unfold IsZero. destruct (string_eqb_spec (tok_RefreshToken token) ""); [done|].
  by destruct (Z.eqb_spec (tok_Expiry token) zero_time).
Qed.

Lemma requests_inv_step horizon g g' :
  requests_inv horizon g -> request_step horizon g g' -> requests_inv horizon g'.
Proof.
  intros Hinv Hstep. destruct Hstep as [g tid now Hr|g tid now p ts wall wall' s' pres p' Hr Hrot Hs];
    [exact Hinv|].
  pose proof (resolve_step_effect ts now wall wall' p (store g)) as He. rewrite Hs in He.
  intros y Hy. simpl in *. destruct He as [[-> [Hn|(x & x' & Hx & Hx' & Ht)]]|(x & Hx & -> & _ & Hts)].
  - by rewrite Hn in Hy.
  - rewrite Hx' in Hy. injection Hy as <-. rewrite Ht. simpl. rewrite app_nil_r. by apply Hinv.
  - unfold honoured. simpl. destruct (ts _) as [token|e] eqn:Ets; simpl.
    + rewrite Hts in Hy. injection Hy as <-.
      destruct (Hrot _ _ Ets) as (Hh & Hz & Hne & Hnew & Hsp).
      destruct (renewed_tokens x token now wall wall' Hz Hne) as [-> ->].
      split; [|done]. rewrite not_elem_of_app, list_elem_of_singleton. done.
    + rewrite app_nil_r. rewrite Hts in Hy. injection Hy as <-. by apply Hinv.
Qed.

Lemma requests_inv_reach horizon s0 g : requests_reach horizon s0 g -> requests_inv horizon g.
Proof.
  induction 1 as [|g g' _ IH Hs]; [|by eapply requests_inv_step].
  intros x _. split; [apply not_elem_of_nil|done].
Qed.
End Interleaving.

(** Every request under way read its instant before [horizon]. *)
Definition all_before {S} (horizon : Z) (g : @requests S) : Prop :=
  forall tid now p, running g !! tid = Some (now, p) -> now < horizon.

Lemma all_before_back {S} `{SessionStoreOk S} m id horizon (g g' : @requests S) :
  request_step m id horizon g g' -> all_before horizon g' -> all_before horizon g.
Proof.
  intros Hs Hb tid now p Hr. destruct Hs as [g tid' now' Hn|g tid' now' p0 ts wl wl' s' pres p' Hr0 _ _].
  - apply (Hb tid now p). simpl. rewrite lookup_insert_ne; [done|]. intros ->. by rewrite Hr in Hn.
  - destruct (decide (tid' = tid)) as [->|Hne].
    + rewrite Hr0 in Hr. injection Hr as -> ->. apply (Hb tid now p'). simpl. by rewrite lookup_insert_eq.
    + apply (Hb tid now p). simpl. by rewrite lookup_insert_ne.
Qed.

(** [C2] Concurrent requests cannot race the issuer with duplicate grants.
    However many requests for one session interleave, at any steps, over a store
    that keeps its contract: if the access tokens the issuer grants outlive
    every request's own clock reading, at most one refresh grant succeeds. *)
Theorem at_most_one_grant {S} `{SessionStoreOk S} (m : SessionManager) (id : string) (horizon : Z)
    (s0 : S) (g : requests) :
  requests_reach m id horizon s0 g ->
  all_before horizon g ->
  (length (exchanged g) <= 1)%nat.
Proof.
  induction 1 as [|g g' Hg IH Hs]; intros Hb; [simpl; lia|].
  pose proof (all_before_back _ _ _ _ _ Hs Hb) as Hbg. specialize (IH Hbg).
  pose proof (requests_inv_reach m id horizon s0 g Hg) as Hinv.
  destruct Hs as [|g tid now p ts wl wl' s' pres p' Hr Hrot Hst]; [exact IH|].
  pose proof (resolve_step_effect m id ts now wl wl' p (store g)) as He. rewrite Hst in He.
  simpl. rewrite length_app.
  destruct He as [[-> _]|(x & Hx & -> & Hexp & _)]; [simpl; lia|].
  destruct (Hinv x Hx) as [_ Hlong]. destruct (exchanged g) as [|rt rts] eqn:Ex.
  - unfold honoured. simpl. destruct (is_Ok _); simpl; lia.
  - specialize (Hlong ltac:(done)). specialize (Hbg tid now p Hr).
    unfold Before in Hexp. bool_to_prop. lia.
Qed.

(** [C9] A refresh token the issuer has exchanged is never presented again.
    With an issuer that rotates refresh tokens and a store that keeps its
    contract, no step of any interleaving presents a spent token, whatever the
    clocks say, so no request can trip the issuer's reuse detection. *)
Theorem spent_token_never_presented {S} `{SessionStoreOk S} (m : SessionManager) (id : string)
    (horizon : Z) (s0 : S) (g g' : requests) :
  requests_reach m id horizon s0 g ->
  request_step m id horizon g g' ->
  exists pres, presented g' = presented g ++ pres /\ Forall (fun rt => rt ∉ exchanged g) pres.
Proof.
  intros Hg Hs. pose proof (requests_inv_reach m id horizon s0 g Hg) as Hinv.
  destruct Hs as [g tid now Hn|g tid now p ts wl wl' s' pres p' Hr Hrot Hst].
  - exists []. simpl. by rewrite app_nil_r.
  - exists pres. split; [done|].
    pose proof (resolve_step_effect m id ts now wl wl' p (store g)) as He. rewrite Hst in He.
    destruct He as [[-> _]|(x & Hx & -> & _)]; [done|]. constructor; [|done]. by apply Hinv.
Qed.

(** Two requests meet an expired access token: both pass the unlocked read, the
    first one in refreshes, the second one finds the new tokens. *)
Definition expired_store : gmap string Session := {["sid" := demo_session (noon - Minute)]}.
Definition late : Z := noon + Minute.
Definition arrived (g : @requests (gmap string Session)) (tid : nat) : requests :=
  mkRequests (store g) (<[tid := (late, PGet)]> (running g)) (presented g) (exchanged g).
Definition moved (g : @requests (gmap string Session)) (tid : nat) (p : pc) : requests :=
  let st := resolve_step demo_manager "sid" demo_issuer late noon noon p (store g) in
  mkRequests st.1.1 (<[tid := (late, st.2)]> (running g)) (presented g ++ st.1.2)
    (exchanged g ++ honoured demo_issuer st.1.2).
Definition both_locking : requests :=
  moved (moved (arrived (arrived (mkRequests expired_store ∅ [] []) 0) 1) 0 PGet) 1 PGet.
Definition one_refreshed : requests := moved both_locking 0 PLock.

Lemma demo_issuer_rotates : rotates (noon + 5 * Minute) [] demo_issuer.
Proof.
  intros rt token. unfold demo_issuer. destruct (string_eqb_spec rt "rt1") as [->|]; [|done].
  intros [= <-]. vm_compute. repeat split; try discriminate. apply not_elem_of_nil.
Qed.

Lemma moved_step g tid p :
  running g !! tid = Some (late, p) -> exchanged g = [] ->
  request_step demo_manager "sid" (noon + 5 * Minute) g (moved g tid p).
Proof.
  intros Hr He. eapply request_moves; [exact Hr|rewrite He; exact demo_issuer_rotates|].
  apply surjective_pairing_3.
Qed.

Lemma late_inserted (r : gmap nat (Z * pc)) tid p :
  (forall tid now p, r !! tid = Some (now, p) -> now < noon + 5 * Minute) ->
  forall tid' now p', <[tid := (late, p)]> r !! tid' = Some (now, p') -> now < noon + 5 * Minute.
Proof.
  intros Hr tid' now p' [[_ [= <- _]]|[_ Hk]]%lookup_insert_Some; [unfold late, Minute, Second; lia|].
  by eapply Hr.
Qed.

Lemma arrived_before g tid :
  all_before (noon + 5 * Minute) g -> all_before (noon + 5 * Minute) (arrived g tid).
Proof. exact (late_inserted (running g) tid PGet). Qed.

Lemma moved_before g tid p :
  all_before (noon + 5 * Minute) g -> all_before (noon + 5 * Minute) (moved g tid p).
Proof. exact (late_inserted (running g) tid _). Qed.

Lemma one_refreshed_reached :
  requests_reach demo_manager "sid" (noon + 5 * Minute) expired_store one_refreshed.
Proof.
  do 3 (eapply reach_more; [|apply moved_step; vm_compute; reflexivity]).
  do 2 (eapply reach_more; [|apply request_arrives; vm_compute; reflexivity]).
  apply reach_none.
Qed.

Lemma at_most_one_grant_witness :
  exchanged one_refreshed = ["rt1"] /\ (length (exchanged one_refreshed) <= 1)%nat
  /\ presented (moved one_refreshed 1 PLock) = ["rt1"].
Proof.
  split; [vm_compute; reflexivity|split; [|vm_compute; reflexivity]].
  refine (at_most_one_grant demo_manager "sid" (noon + 5 * Minute) expired_store one_refreshed
            one_refreshed_reached _).
  do 3 apply moved_before. do 2 apply arrived_before.
  intros tid now p Hr. discriminate Hr.
Defined.

Lemma spent_token_never_presented_witness :
  exists g' pres, request_step demo_manager "sid" (noon + 5 * Minute) one_refreshed g'
    /\ presented g' = ["rt1"] ++ pres /\ Forall (fun rt => rt ∉ ["rt1"]) pres.
Proof.
  pose proof (request_arrives demo_manager "sid" (noon + 5 * Minute) one_refreshed 2%nat late eq_refl) as Hs.
  eexists.
  destruct (spent_token_never_presented demo_manager "sid" (noon + 5 * Minute) expired_store
              one_refreshed _ one_refreshed_reached Hs) as (pres & Hp & Hf).
  exists pres. split; [exact Hs|split; [exact Hp|exact Hf]].
Defined.
