(* ===== verification/SessionLocks.v ===== *)
(** * oidcauth: waiting for a session's lock

    [Sessions] takes what [WithLock] does for one atomic step. This file opens it:
    a request waits until the row is free, loads it, runs the callback of [refresh]
    call by call, and stores the answer before it lets the row go (session.go). A
    request that would have to wait has no step, so that a deadlock is a state
    without steps; the callback is a small program, in which a call of the store
    that needs the row could stand as well. *)
From S2P Require Import Prelude GoNum GoText OidcTypes Sessions.
From stdpp Require Import fin_maps relations.
Local Open Scope Z_scope.

(** What a callback may do under the lock: ask the issuer, call the store's
    [Delete], which waits for the row, or return, with the session it leaves to
    its caller and its answer to the store. *)
Inductive callback : Type :=
| CbReturn (resolved : option Session) (answer : result (option Session))
| CbIssuer (refreshToken : string) (k : result Token -> callback)
| CbDelete (k : callback).

(** The callback of [refresh], call by call. *)
Definition refresh_program (m : SessionManager) (now wall wall' : Z) (locked : Session) : callback :=
  if Before now (AccessTokenExpiresAt (Tokens locked)) then CbReturn (Some locked) (Ok None)
  else if isExpired m locked now then CbReturn None (Fail (Error "expired" [ErrSessionNotFound]))
  else if String.eqb (RefreshToken (Tokens locked)) "" then
    CbReturn None
      (Fail (Error "access token expired and session has no refresh token" [ErrSessionNotFound]))
  else
    CbIssuer (RefreshToken (Tokens locked)) (fun r =>
      match Flow_Refresh (fun _ => r) (RefreshToken (Tokens locked)) with
      | Fail _ => CbReturn None (Fail (Error "refresh rejected" [ErrSessionNotFound]))
      | Ok token =>
          let locked := renewed m locked token now wall wall' in
          CbReturn (Some locked) (Ok (Some locked))
      end).

(** Where a request stands. *)
Inductive lpc : Type :=
| LGet
| LTouch (x : Session)
| LWait
| LHeld (c : callback)
| LDelete (e : error)
| LDone (r : result (option Session)).

Definition embed (p : pc) : lpc :=
  match p with
  | PGet => LGet
  | PTouch x => LTouch x
  | PLock => LWait
  | PDelete e => LDelete e
  | PDone r => LDone r
  end.

Local Notation rows := (gmap string Session).

Section Locks.
Variable m : SessionManager.
Variable id : string.

(** What [refresh] does with the error of [WithLock]. *)
Definition after_lock (err : option error) (resolved : option Session) : lpc :=
  match err with
  | Some e => if errors_Is e ErrSessionNotFound then LDelete (notFound e) else LDone (Fail (notFound e))
  | None => LDone (Ok resolved)
  end.

(** One step of the request [tid]: the rows, the holder of the row's lock, the
    refresh tokens presented, where it then stands; [None] while it has to wait, and
    when it is done. [Get] and [Touch] take no lock. *)
Definition lock_step (ts : string -> result Token) (now wall wall' : Z) (tid : nat) (p : lpc)
    (s : rows) (lock : option nat) : option (rows * option nat * list string * lpc) :=
  let unlocked pc :=
    let '(s, pres, pc) := resolve_step m id ts now wall wall' pc s in Some (s, lock, pres, embed pc) in
  match p with
  | LGet => unlocked PGet
  | LTouch x => unlocked (PTouch x)
  | LWait =>
      match lock with
      | Some _ => None
      | None =>
          match s !! id with
          | None => Some (s, None, [], after_lock (Some ErrSessionNotFound) None)
          | Some x => Some (s, Some tid, [], LHeld (refresh_program m now wall wall' x))
          end
      end
  | LHeld (CbReturn resolved answer) =>
      match answer with
      | Fail e => Some (s, None, [], after_lock (Some e) resolved)
      | Ok None => Some (s, None, [], after_lock None resolved)
      | Ok (Some x) => Some (<[id := x]> s, None, [], after_lock None resolved)
      end
  | LHeld (CbIssuer rt k) => Some (s, lock, [rt], LHeld (k (ts rt)))
  | LHeld (CbDelete k) =>
      match lock with Some _ => None | None => Some (delete id s, None, [], LHeld k) end
  | LDelete e =>
      match lock with Some _ => None | None => Some (delete id s, None, [], LDone (Fail e)) end
  | LDone _ => None
  end.

(** The requests under way, with the instants they read. *)
Record race := mkRace { r_rows : rows; r_lock : option nat; r_running : gmap nat (Z * lpc) }.

(** A request that is not done moves. *)
Definition move (g g' : race) : Prop :=
  exists tid now p ts wall wall' s lock pres p',
    r_running g !! tid = Some (now, p)
    /\ lock_step ts now wall wall' tid p (r_rows g) (r_lock g) = Some (s, lock, pres, p')
    /\ g' = mkRace s lock (<[tid := (now, p')]> (r_running g)).

(** Requests arrive at any time, and while the row is free others, a logout, a
    clean-up, may change the rows. *)
Inductive race_reach (s0 : rows) : race -> Prop :=
| race_start : race_reach s0 (mkRace s0 None ∅)
| race_arrives g tid now :
    race_reach s0 g -> r_running g !! tid = None ->
    race_reach s0 (mkRace (r_rows g) (r_lock g) (<[tid := (now, LGet)]> (r_running g)))
| race_others g s :
    race_reach s0 g -> r_lock g = None -> race_reach s0 (mkRace s None (r_running g))
| race_moves g g' : race_reach s0 g -> move g g' -> race_reach s0 g'.

Definition can_move (g : race) (tid : nat) : Prop :=
  exists now p, r_running g !! tid = Some (now, p)
    /\ forall ts wall wall', is_Some (lock_step ts now wall wall' tid p (r_rows g) (r_lock g)).
Definition is_done (p : lpc) : bool := match p with LDone _ => true | _ => false end.

(** ** Lemmas *)

(** The callback asks the issuer at most once and calls no store. *)
Definition returns (c : callback) : Prop := match c with CbReturn _ _ => True | _ => False end.
Definition well_behaved (c : callback) : Prop :=
  match c with
  | CbReturn _ _ => True
  | CbIssuer _ k => forall r, returns (k r)
  | CbDelete _ => False
  end.

Lemma refresh_program_well_behaved now wall wall' x : well_behaved (refresh_program m now wall wall' x).
Proof.
  unfold refresh_program. destruct (Before _ _); [done|]. destruct (isExpired _ _ _); [done|].
  destruct (String.eqb _ _); [done|]. intros r. by destruct (Flow_Refresh _ _).
Qed.

(** Taken together, the steps under the lock are the atomic [WithLock] of
    [Sessions], over the store that is a map. *)
Lemma lock_steps_atomic ts now wall wall' tid s :
  let '(s', pres', p') := resolve_step m id ts now wall wall' PLock s in
  match s !! id with
  | None => lock_step ts now wall wall' tid LWait s None = Some (s', None, pres', embed p')
  | Some x =>
      exists c, lock_step ts now wall wall' tid LWait s None = Some (s, Some tid, [], LHeld c)
        /\ (lock_step ts now wall wall' tid (LHeld c) s (Some tid) = Some (s', None, pres', embed p')
            \/ exists c', lock_step ts now wall wall' tid (LHeld c) s (Some tid) = Some (s, Some tid, pres', LHeld c')
                 /\ lock_step ts now wall wall' tid (LHeld c') s (Some tid) = Some (s', None, [], embed p'))
  end.
Proof.
  unfold resolve_step, st_WithLock, map_store. cbn [lock_step]. destruct (s !! id) as [x|] eqn:Hx.
  2: { cbn [after_lock]. unfold after_lock. by rewrite errors_Is_refl. }
  unfold refresh_callback, refresh_program, Flow_Refresh.
  destruct (Before now _); [eexists; split; [done|by left]|].
  destruct (isExpired m x now); [eexists; split; [done|by left]|].
  destruct (String.eqb _ ""); [eexists; split; [done|by left]|].
  destruct (ts (RefreshToken (Tokens x))) as [token|e] eqn:E; cbn [map_err fst snd];
    eexists; (split; [done|]); right; eexists; cbn [lock_step]; (split; [done|]); rewrite E; done.
Qed.

(** The lock is held by exactly the request that is in its callback. *)
Definition lock_inv (g : race) : Prop :=
  (forall tid now c, r_running g !! tid = Some (now, LHeld c) -> r_lock g = Some tid /\ well_behaved c)
  /\ forall tid, r_lock g = Some tid -> exists now c, r_running g !! tid = Some (now, LHeld c).

(** How a step changes the holder. *)
Lemma lock_step_holder ts now wall wall' tid p s lock s' lock' pres p' :
  lock_step ts now wall wall' tid p s lock = Some (s', lock', pres, p') ->
  (forall c, p = LHeld c -> well_behaved c) ->
  match p with
  | LHeld _ => (exists c, p' = LHeld c /\ well_behaved c /\ lock' = lock) \/ ((forall c, p' <> LHeld c) /\ lock' = None)
  | _ => (exists c, p' = LHeld c /\ well_behaved c /\ lock = None /\ lock' = Some tid)
         \/ ((forall c, p' <> LHeld c) /\ lock' = lock)
  end.
Proof.
  assert (Hemb : forall q c, embed q <> LHeld c) by (by intros []).
  assert (Haft : forall err r c, after_lock err r <> LHeld c).
  { intros [e|] r c; cbn; [by destruct (errors_Is _ _)|done]. }
  intros Hs Hb. destruct p as [|x| |c|e|r]; cbn [lock_step] in Hs.
  - destruct (resolve_step _ _ _ _ _ _ _ _) as [[s1 pr] q]. simplify_eq. right. by split.
  - destruct (resolve_step _ _ _ _ _ _ _ _) as [[s1 pr] q]. simplify_eq. right. by split.
  - destruct lock; [done|]. destruct (s !! id) as [x|]; simplify_eq.
    + left. eexists. split_and!; [done|apply refresh_program_well_behaved|done|done].
    + right. split; [apply Haft|done].
  - specialize (Hb c eq_refl). destruct c as [res ans|rt k|k]; [| |done].
    + destruct ans as [[x|]|e]; simplify_eq; right; (split; [apply Haft|done]).
    + simplify_eq. left. eexists. split_and!; [done| |done]. specialize (Hb (ts rt)). by destruct (k (ts rt)).
  - destruct lock; [done|]. simplify_eq. right. by split.
  - done.
Qed.

Lemma move_inv g g' : lock_inv g -> move g g' -> lock_inv g'.
Proof.
  intros [Hheld Hlock] (tid & now & p & ts & wl & wl' & s & lock & pres & p' & Hr & Hs & ->).
  assert (Hb : forall c, p = LHeld c -> well_behaved c) by (intros c ->; by apply (Hheld _ _ _ Hr)).
  pose proof (lock_step_holder _ _ _ _ _ _ _ _ _ _ _ _ Hs Hb) as Hh.
  assert (Hself : forall c, p = LHeld c -> r_lock g = Some tid) by (intros c ->; by apply (Hheld _ _ _ Hr)).
  assert (Hother : (forall c, p <> LHeld c) -> r_lock g <> Some tid).
  { intros Hn Hl. destruct (Hlock _ Hl) as (now' & c & Hc). rewrite Hr in Hc. injection Hc as _ ->. by destruct (Hn c). }
  assert (Hcases : (exists c, p' = LHeld c /\ well_behaved c /\ lock = Some tid
                     /\ (r_lock g = Some tid \/ r_lock g = None))
                   \/ (forall c, p' <> LHeld c) /\ lock <> Some tid
                      /\ ((r_lock g = Some tid /\ lock = None) \/ lock = r_lock g)).
  { destruct p as [|x| |c|e|r];
      try (destruct Hh as [(c & -> & Hc & Hl & ->)|[Hn ->]];
           [left; by eauto 10|right; split_and!; [done|by apply Hother|by right]]).
    destruct Hh as [(c' & -> & Hc & ->)|[Hn ->]].
    - left. exists c'. split_and!; [done|done|by eapply Hself|left; by eapply Hself].
    - right. split_and!; [done|done|left]. split; [by eapply Hself|done]. }
  split; cbn.
  - intros tid' now' c [[<- [= <- ->]]|[Hne Hr']]%lookup_insert_Some.
    + destruct Hcases as [(c' & [= <-] & Hc & -> & _)|[Hn _]]; [done|by destruct (Hn c)].
    + destruct (Hheld _ _ _ Hr') as [Hl Hc]. split; [|done].
      destruct Hcases as [(c' & _ & _ & _ & [Hg|Hg])|(_ & _ & [[Hg _]| ->])]; congruence.
  - intros tid' ->. destruct (decide (tid = tid')) as [<-|Hne].
    + rewrite lookup_insert_eq. destruct Hcases as [(c' & -> & _)|(_ & Hn & _)]; [by eexists _, _|done].
    + rewrite lookup_insert_ne by done. apply Hlock.
      destruct Hcases as [(c' & _ & _ & [= ->] & _)|(_ & _ & [[_ ?]|Hg])]; done.
Qed.

Lemma reach_inv s0 g : race_reach s0 g -> lock_inv g.
Proof.
  induction 1 as [|g tid now _ [Hh Hl] Hn|g s _ [Hh Hl] Hfree|g g' _ IH Hm].
  - by split.
  - split; cbn.
    + intros tid' now' c [[_ [=]]|[_ Hr]]%lookup_insert_Some. by eapply Hh.
    + intros tid' Hlk. destruct (Hl _ Hlk) as (now' & c & Hc). exists now', c.
      rewrite lookup_insert_ne; [done|]. intros ->. congruence.
  - split; cbn; [|done]. intros tid now c Hr. apply Hh in Hr as [? _]. congruence.
  - by eapply move_inv.
Qed.

(** ** How long a race lasts *)

Definition lpc_rank (p : lpc) : nat :=
  match p with
  | LGet => 5
  | LWait => 4
  | LHeld (CbIssuer _ _) => 3
  | LHeld (CbReturn _ _) => 2
  | LHeld (CbDelete _) => 0
  | LTouch _ | LDelete _ => 1
  | LDone _ => 0
  end.

Lemma lock_step_rank ts now wall wall' tid p s lock s' lock' pres p' :
  lock_step ts now wall wall' tid p s lock = Some (s', lock', pres, p') ->
  (forall c, p = LHeld c -> well_behaved c) -> (lpc_rank p' < lpc_rank p)%nat.
Proof.
  assert (Haft : forall err r, (lpc_rank (after_lock err r) <= 1)%nat).
  { intros [e|] r; cbn; [destruct (errors_Is _ _)|]; cbn; lia. }
  intros Hs Hb. destruct p as [|x| |c|e|r]; cbn [lock_step] in Hs.
  - unfold resolve_step in Hs. destruct (st_Get s id) as [s1 [x|e]]; [|simplify_eq; cbn; lia].
    destruct (isExpired _ _ _); [simplify_eq; cbn; lia|]. destruct (Before _ _); [|simplify_eq; cbn; lia].
    destruct (verifier m) as [v|]; [destruct (v _)|]; simplify_eq; cbn; lia.
  - cbn in Hs. simplify_eq. cbn. lia.
  - destruct lock; [done|]. destruct (s !! id) as [x|]; simplify_eq.
    + pose proof (refresh_program_well_behaved now wall wall' x) as Hw.
      destruct (refresh_program _ _ _ _ _); cbn; [lia|lia|done].
    + pose proof (Haft (Some ErrSessionNotFound) None). change (lpc_rank LWait) with 4%nat. lia.
  - specialize (Hb c eq_refl). destruct c as [res ans|rt k|k]; [| |done].
    + destruct ans as [[x|]|e]; simplify_eq; cbn [lpc_rank]; eauto using Nat.le_lt_trans.
    + simplify_eq. specialize (Hb (ts rt)). destruct (k (ts rt)); cbn; [lia|done|done].
  - destruct lock; [done|]. simplify_eq. cbn. lia.
  - done.
Qed.

Definition rank (g : race) : nat := sum_list_with (fun x => lpc_rank x.2.2) (map_to_list (r_running g)).

(** The weight of one request among the others. *)
Lemma rank_split (r : gmap nat (Z * lpc)) tid v :
  r !! tid = Some v ->
  sum_list_with (fun x => lpc_rank x.2.2) (map_to_list r)
  = (lpc_rank v.2 + sum_list_with (fun x => lpc_rank x.2.2) (map_to_list (delete tid r)))%nat.
Proof.
  intros Hr. rewrite <- (insert_delete_id r tid v Hr) at 1.
  by rewrite map_to_list_insert by apply lookup_delete_eq.
Qed.

Lemma move_rank g g' :
  lock_inv g -> move g g' -> (rank g' < rank g)%nat /\ size (r_running g') = size (r_running g).
Proof.
  intros [Hheld _] (tid & now & p & ts & wl & wl' & s & lock & pres & p' & Hr & Hs & ->).
  assert (Hb : forall c, p = LHeld c -> well_behaved c) by (intros c ->; by apply (Hheld _ _ _ Hr)).
  pose proof (lock_step_rank _ _ _ _ _ _ _ _ _ _ _ _ Hs Hb) as Hlt. unfold rank. cbn in *.
  rewrite (rank_split (r_running g) tid (now, p)) by done.
  rewrite (rank_split (<[tid:=(now, p')]> (r_running g)) tid (now, p')) by apply lookup_insert_eq.
  rewrite delete_insert_eq. cbn. split; [lia|]. rewrite map_size_insert, Hr. done.
Qed.

Lemma rank_bound g : (rank g <= 5 * size (r_running g))%nat.
Proof.
  unfold rank. rewrite <- length_map_to_list. induction (map_to_list (r_running g)) as [|[k [t p]] l IH]; [done|].
  cbn. assert (lpc_rank p <= 5)%nat by (destruct p as [| | |[]| |]; cbn; lia). lia.
Qed.

Lemma moves_bound n g g' : lock_inv g -> nsteps move n g g' -> (n + rank g' <= rank g)%nat.
Proof.
  intros Hi Hn. induction Hn as [|n g g1 g' Hs _ IH]; [lia|].
  specialize (IH (move_inv _ _ Hi Hs)). apply move_rank in Hs as [Hs _]; [lia|done].
Qed.

(** ** Nobody waits for ever *)

(** A request waits only for the lock, and the holder of the lock for nothing. *)
Lemma request_enabled g tid now p :
  lock_inv g -> r_running g !! tid = Some (now, p) -> is_done p = false ->
  can_move g tid \/ exists holder, holder <> tid /\ r_lock g = Some holder /\ can_move g holder.
Proof.
  intros [Hheld Hlock] Hr Hd.
  assert (Hholder : forall h, r_lock g = Some h -> can_move g h).
  { intros h Hh. destruct (Hlock _ Hh) as (now' & c & Hc). exists now', (LHeld c). split; [done|].
    intros ts wl wl'. destruct (Hheld _ _ _ Hc) as [_ Hb].
    destruct c as [res [[x|]|e]|rt k|k]; cbn; try done; by eexists. }
  destruct (r_lock g) as [h|] eqn:El.
  - destruct (decide (h = tid)) as [->|Hne]; [left; by apply Hholder|]. right. exists h. eauto.
  - left. exists now, p. split; [done|]. intros ts wl wl'. rewrite El.
    destruct p as [|x| |c|e|r]; cbn [lock_step].
    + destruct (resolve_step _ _ _ _ _ _ _ _) as [[s1 pr] q]. by eexists.
    + destruct (resolve_step _ _ _ _ _ _ _ _) as [[s1 pr] q]. by eexists.
    + destruct (r_rows g !! id); by eexists.
    + destruct (Hheld _ _ _ Hr) as [? _]. congruence.
    + by eexists.
    + done.
Qed.

Lemma can_move_moves g tid : can_move g tid -> exists g', move g g'.
Proof.
  intros (now & p & Hr & Hen). destruct (Hen (fun _ => Fail (errors_New "unreachable")) 0 0) as [[[[s lock] pres] p'] Hs].
  eexists. exists tid, now, p, (fun _ => Fail (errors_New "unreachable")), 0, 0, s, lock, pres, p'. by split_and!.
Qed.
End Locks.

(** ** Theorems *)

(** [C11] A race for a session always ends.  However many requests for one session
    have arrived, wherever they stand, and whatever became of the row while it was
    free: at most five more steps can be taken for each before all are answered,
    whatever the issuer answers and the clocks say; a request that is not answered
    can move, or waits for the lock of another one that can, so that there is no
    deadlock; and the race can be brought to its end, the lock free again. *)
Theorem races_terminate (m : SessionManager) (id : string) (s0 : rows) (g : race) :
  race_reach m id s0 g ->
  (forall n g', nsteps (move m id) n g g' -> (n <= 5 * size (r_running g))%nat)
  /\ (forall tid now p, r_running g !! tid = Some (now, p) -> is_done p = false ->
        can_move m id g tid
        \/ exists holder, holder <> tid /\ r_lock g = Some holder /\ can_move m id g holder)
  /\ exists n g', nsteps (move m id) n g g' /\ r_lock g' = None
       /\ forall tid now p, r_running g' !! tid = Some (now, p) -> is_done p = true.
Proof.
  intros Hreach. pose proof (reach_inv _ _ _ _ Hreach) as Hi. clear Hreach. split_and!.
  - intros n g' Hn. pose proof (moves_bound _ _ _ _ _ Hi Hn). pose proof (rank_bound g). lia.
  - intros tid now p. by apply request_enabled.
  - remember (rank g) as k eqn:Ek. revert g Hi Ek. induction (lt_wf k) as [k _ IH]. intros g Hi ->.
    destruct (decide (map_Forall (fun _ v => is_done v.2 = true) (r_running g))) as [Hd|Hd].
    + exists 0%nat, g. split; [constructor|]. split; [|intros tid now p Hr; by apply (Hd _ _ Hr)].
      destruct (r_lock g) as [h|] eqn:El; [|done]. destruct Hi as [_ Hl].
      destruct (Hl _ El) as (now & c & Hc). by specialize (Hd _ _ Hc).
    + apply map_not_Forall in Hd as (tid & [now p] & Hr & Hp); [|intros; apply _].
      apply not_true_is_false in Hp. cbn in Hp.
      assert (Hm : exists g1, move m id g g1).
      { destruct (request_enabled m id g tid now p Hi Hr Hp) as [Hc|(h & _ & _ & Hc)]; by eapply can_move_moves. }
      destruct Hm as [g1 Hg1]. pose proof (move_rank _ _ _ _ Hi Hg1) as [Hlt _].
      destruct (IH (rank g1) Hlt g1 (move_inv _ _ _ _ Hi Hg1) eq_refl) as (n & g' & Hn & Hend).
      exists (S n), g'. split; [by econstructor|done].
Qed.

(** Two requests find the access token expired; the first has the row and is about
    to ask the issuer, the second waits. *)
Definition one_waits : race :=
  mkRace expired_store (Some 0%nat)
    {[0%nat := (late, LHeld (refresh_program demo_manager late noon noon (demo_session (noon - Minute))));
      1%nat := (late, LWait)]}.

Lemma one_waits_reached : race_reach demo_manager "sid" expired_store one_waits.
Proof.
  pose (g0 := mkRace expired_store None {[0%nat := (late, LGet); 1%nat := (late, LGet)]}).
  pose (g1 := mkRace expired_store None {[0%nat := (late, LGet); 1%nat := (late, LWait)]}).
  pose (g2 := mkRace expired_store None {[0%nat := (late, LWait); 1%nat := (late, LWait)]}).
  assert (H0 : race_reach demo_manager "sid" expired_store g0).
  { change g0 with (mkRace expired_store None (<[0%nat := (late, LGet)]> {[1%nat := (late, LGet)]})).
    refine (race_arrives demo_manager "sid" expired_store (mkRace expired_store None {[1%nat := (late, LGet)]})
              0%nat late _ eq_refl).
    refine (race_arrives demo_manager "sid" expired_store (mkRace expired_store None ∅) 1%nat late _ eq_refl).
    apply race_start. }
  assert (H1 : race_reach demo_manager "sid" expired_store g1).
  { eapply race_moves; [exact H0|].
    exists 1%nat, late, LGet, demo_issuer, noon, noon, expired_store, None, [], LWait.
    split_and!; vm_compute; reflexivity. }
  assert (H2 : race_reach demo_manager "sid" expired_store g2).
  { eapply race_moves; [exact H1|].
    exists 0%nat, late, LGet, demo_issuer, noon, noon, expired_store, None, [], LWait.
    split_and!; vm_compute; reflexivity. }
  eapply race_moves; [exact H2|].
  exists 0%nat, late, LWait, demo_issuer, noon, noon, expired_store, (Some 0%nat), [],
    (LHeld (refresh_program demo_manager late noon noon (demo_session (noon - Minute)))).
  split_and!; reflexivity.
Qed.

Lemma races_terminate_witness :
  ~ can_move demo_manager "sid" one_waits 1%nat
  /\ (exists holder, holder <> 1%nat /\ r_lock one_waits = Some holder
       /\ can_move demo_manager "sid" one_waits holder)
  /\ forall n g', nsteps (move demo_manager "sid") n one_waits g' -> (n <= 10)%nat.
Proof.
  assert (Hn : ~ can_move demo_manager "sid" one_waits 1%nat).
  { intros (now & p & Hr & Hen). vm_compute in Hr. injection Hr as <- <-.
    destruct (Hen demo_issuer noon noon) as [x Hx]. vm_compute in Hx. discriminate Hx. }
  destruct (races_terminate demo_manager "sid" expired_store one_waits one_waits_reached) as (Hb & He & _).
  split; [exact Hn|]. split; [|exact Hb].
  destruct (He 1%nat late LWait eq_refl eq_refl) as [Hc|Hw]; [destruct (Hn Hc)|exact Hw].
Defined.
