(* ===== verification/OidcSetup.v ===== *)
(** * oidcauth: building and closing the parts

    The construction of a [Flow] (flow.go), of a [SessionManager]
    (session_manager.go) and [OIDC.Close] (oidc.go). Discovery is go-oidc's and
    the authorize URL is built by the oauth2 library from what it is given. *)
From S2P Require Import Prelude GoNum GoText OidcTypes Introspection Lifecycle Oidc Sessions.
Local Open Scope string_scope.

(** ** flow.go *)

Record FlowConfig := mkFlowConfig {
  IssuerURL : string; fc_ClientID : string; ClientSecret_ : string; RedirectURI : string; fc_Scopes : list string;
}.

(** [oauth2.Config] *)
Record oauth2_Config (Endpoint : Type) := mkOauth2 {
  o_ClientID : string; o_ClientSecret : string; RedirectURL : string; o_Scopes : list string; endpoint : Endpoint;
}.
Arguments mkOauth2 {Endpoint}.
Arguments o_ClientID {Endpoint}.
Arguments o_ClientSecret {Endpoint}.
Arguments RedirectURL {Endpoint}.
Arguments o_Scopes {Endpoint}.
Arguments endpoint {Endpoint}.

Record Flow (Endpoint : Type) := mkFlow { oauth2Config : oauth2_Config Endpoint; endSessionURL : string }.
Arguments mkFlow {Endpoint}.
Arguments oauth2Config {Endpoint}.
Arguments endSessionURL {Endpoint}.

Definition defaultScopes : list string := ["openid"; "profile"; "email"].

(** [NewFlow]. The discovery gives the endpoints, and the end-session endpoint of
    the document as far as it decodes: empty when the issuer names none. *)
Definition NewFlow {Endpoint : Type} (NewProvider : string -> result (Endpoint * result string))
    (cfg : FlowConfig) : result (Flow Endpoint) :=
  match NewProvider (IssuerURL cfg) with
  | Fail err => Fail (Error "oidc flow: discover provider" [err])
  | Ok (e, discovery) =>
      match discovery with
      | Fail err => Fail (Error "oidc flow: read discovery claims" [err])
      | Ok end_session =>
          let scopes := match fc_Scopes cfg with [] => defaultScopes | ss => ss end in
          Ok (mkFlow (mkOauth2 (fc_ClientID cfg) (ClientSecret_ cfg) (RedirectURI cfg) scopes e) end_session)
      end
  end.

(** [AuthCodeURL]: the library's URL, with the challenge of the verifier. *)
Definition AuthCodeURL {Endpoint : Type} (oauth2_AuthCodeURL : oauth2_Config Endpoint -> string -> string -> string)
    (S256Challenge : string -> string) (f : Flow Endpoint) (state verifier : string) : string :=
  oauth2_AuthCodeURL (oauth2Config f) state (S256Challenge verifier).

(** ** session_manager.go *)

(** [SessionManagerConfig]; a nil store or flow is [None]. *)
Record SessionManagerConfig (Store FlowT : Type) := mkSessionManagerConfig {
  smc_Store : option Store; smc_Flow : option FlowT; smc_Verifier : option (string -> result Claims);
  smc_ClientID : string; smc_IdleTimeout : Z; smc_AbsoluteTimeout : Z;
}.
Arguments mkSessionManagerConfig {Store FlowT}.
Arguments smc_Store {Store FlowT}.
Arguments smc_Flow {Store FlowT}.
Arguments smc_Verifier {Store FlowT}.
Arguments smc_ClientID {Store FlowT}.
Arguments smc_IdleTimeout {Store FlowT}.
Arguments smc_AbsoluteTimeout {Store FlowT}.

(** [NewSessionManager]: the store, the flow and the manager's settings; no
    result is the panic. *)
Definition NewSessionManager {Store FlowT : Type} (cfg : SessionManagerConfig Store FlowT)
  : option (Store * FlowT * SessionManager) :=
  match smc_Store cfg, smc_Flow cfg with
  | Some store, Some flow =>
      Some (store, flow, mkManager (smc_Verifier cfg) (smc_ClientID cfg) (smc_IdleTimeout cfg)
                           (smc_AbsoluteTimeout cfg))
  | _, _ => None
  end.

(** ** oidc.go *)

(** [OIDC.Close]: a call of [Close] of the introspector, when there is one. *)
Definition OIDC_Close (introspector : option life) : option life :=
  match introspector with
  | Some s => step s Call
  | None => None
  end.

(** ** Theorems *)

(** A flow that is made has the caller's credentials and at least one scope, the
    caller's own when there are any, and logs out exactly where the issuer says;
    none is made when the discovery fails or its document does not decode. *)
Lemma NewFlow_spec {Endpoint : Type} (NewProvider : string -> result (Endpoint * result string)) (cfg : FlowConfig) :
  match NewFlow NewProvider cfg with
  | Ok f =>
      exists e, NewProvider (IssuerURL cfg) = Ok (e, Ok (endSessionURL f)) /\ endpoint (oauth2Config f) = e /\
      o_ClientID (oauth2Config f) = fc_ClientID cfg /\ o_Scopes (oauth2Config f) <> [] /\
      (fc_Scopes cfg <> [] -> o_Scopes (oauth2Config f) = fc_Scopes cfg)
  | Fail _ => forall e u, NewProvider (IssuerURL cfg) <> Ok (e, Ok u)
  end.
Proof.
  unfold NewFlow. destruct (NewProvider (IssuerURL cfg)) as [[e [u|err]]|err]; [|naive_solver..].
  exists e. split_and!; [done..| |]; simpl; by destruct (fc_Scopes cfg).
Qed.

(** A logout URL exists exactly when the issuer's discovery names an end-session
    endpoint. *)
Lemma NewFlow_logout {Endpoint : Type} (NewProvider : string -> result (Endpoint * result string))
    (Encode : list (string * string) -> string) (cfg : FlowConfig) (f : Flow Endpoint) (idToken back : string) :
  NewFlow NewProvider cfg = Ok f ->
  EndSessionURL Encode (endSessionURL f) (o_ClientID (oauth2Config f)) idToken back = "" <->
  exists e, NewProvider (IssuerURL cfg) = Ok (e, Ok "").
Proof.
  intros H. assert (Hs := NewFlow_spec NewProvider cfg). rewrite H in Hs.
  destruct Hs as (e & Hp & _). rewrite Hp. unfold EndSessionURL.
  destruct (string_eqb_spec (endSessionURL f) "") as [E|E].
  - rewrite E. split; [by eexists|done].
  - split; [|by intros [e' [= _ ?]]]. intros [? _]%string_app_eq_nil. done.
Qed.
