(* ===== verification/Authorization.v ===== *)
(** * httpserver/middlewares/authorization.go

    Finding the caller's credential, verifying it, and the role checks.  The
    verifier is known by the interface the file declares, [TokenVerifier];
    [oidc_verifier] and [session_verifier] are its two implementations in this
    repository. *)
From S2P Require Import Prelude GoNum GoText Respond OidcTypes Introspection Oidc Sessions.
From stdpp Require Import fin_maps.
Local Open Scope Z_scope.

Definition claimsKey : string := "oidc_claims".
Definition SessionCookie : string := "session_id".

Definition ErrMissingToken := errors_New "middlewares.ErrMissingToken".
Definition ErrForbidden := errors_New "middlewares.ErrForbidden".
Definition ErrMissingAuthorizationHeader := errors_New "middlewares.ErrMissingAuthorizationHeader".
Definition ErrInvalidAuthorizationFormat := errors_New "middlewares.ErrInvalidAuthorizationFormat".
Definition ErrEmptyToken := errors_New "middlewares.ErrEmptyToken".
Definition ErrRoleContextConflict := errors_New "middlewares.ErrRoleContextConflict".

(** What is stored under the keys of a context: the claims, or a value of a role
    context, of a comparable type [A]. *)
Inductive value (A : Type) : Type :=
| VClaims (c : Claims)
| VOther (a : A).
Arguments VClaims {A} c.
Arguments VOther {A} a.

#[export] Instance float64_eq_dec : EqDecision float64.
Proof. solve_decision. Defined.
#[export] Instance Claims_eq_dec : EqDecision Claims.
Proof. solve_decision. Defined.
#[export] Instance value_eq_dec {A} `{EqDecision A} : EqDecision (value A).
Proof. solve_decision. Defined.

(** [TokenVerifier]: [T] is what the verifier holds and changes. *)
Class TokenVerifier (T : Type) := {
  tv_Verify : T -> string -> T * result Claims;
  tv_HasRole : T -> Claims -> string -> bool;
}.

(** [*oidcauth.OIDC] at one instant, in one environment. *)
Definition oidc_verifier {Key S} `{Countable Key} `{Cache S} (sha256 : string -> Key)
    (hashToken : string -> string) (jwt : string -> result Oidc.IDToken) (shared : Key -> flight)
    (now later : Z) : TokenVerifier (OIDC Key S) := {|
  tv_Verify o token := Oidc.Verify sha256 hashToken jwt shared o token now later;
  tv_HasRole := Oidc.HasRole;
|}.

(** [*oidcauth.SessionManager] over its store, likewise. *)
Definition session_verifier {S} `{SessionStore S} (m : SessionManager)
    (TokenSource : string -> result Token) (uuid_Parse : string -> bool) (now wall wall' : Z)
  : TokenVerifier S := {|
  tv_Verify s token :=
    let '(s', _, r) := Sessions.Verify m TokenSource uuid_Parse s token now wall wall' in (s', r);
  tv_HasRole _ := Sessions.HasRole m;
|}.

Definition sessionCookieName (SessionCookieName : string) : string :=
  if String.eqb SessionCookieName "" then SessionCookie else SessionCookieName.

Definition extractBearerToken (authHeader : string) : result string :=
  if String.eqb authHeader "" then Fail ErrMissingAuthorizationHeader
  else
    match SplitN2 authHeader " " with
    | [scheme; rest] =>
        if negb (String.eqb scheme "Bearer") then Fail ErrInvalidAuthorizationFormat
        else
          let token := TrimSpace rest in
          if String.eqb token "" then Fail ErrEmptyToken else Ok token
    | _ => Fail ErrInvalidAuthorizationFormat
    end.

(** [RoleContext]. *)
Record RoleContext (A : Type) := mkRoleContext { RoleName : string; Values : gmap string (value A) }.
Arguments mkRoleContext {A}. Arguments RoleName {A}. Arguments Values {A}.

Section Authorization.
Context {C A T : Type} `{EqDecision A} `{GinContext C (value A)} `{TokenVerifier T}.

Definition readSessionCookie (ctx : C) (cookieName : string) : option string :=
  match gin_Cookie ctx cookieName with
  | None => None
  | Some value => if String.eqb value "" then None else Some value
  end.

Definition extractToken (ctx : C) (cookieName : string) : result string :=
  let cookie := readSessionCookie ctx cookieName in
  let bearer := match extractBearerToken (gin_GetHeader ctx "Authorization") with
                | Ok b => if String.eqb b "" then None else Some b
                | Fail _ => None
                end in
  match cookie, bearer with
  | Some _, Some _ => Fail ErrForbidden
  | Some c, None => Ok c
  | None, Some b => Ok b
  | None, None => Fail ErrMissingToken
  end.

Definition ClaimsFromContext (ctx : C) : option Claims :=
  match gin_Get ctx claimsKey with
  | Some (VClaims claims) => Some claims
  | _ => None
  end.

Definition AuthorizationWithOptions (SessionCookieName : string) (ctx : C) (verifier : T) : C * T :=
  match extractToken ctx (sessionCookieName SessionCookieName) with
  | Fail err =>
      if errors_Is err ErrForbidden then
        (Forbidden ctx [NewError "ERR_TOKEN_CONFLICT"
           "Authorization token supplied via both header and cookie" []], verifier)
      else
        (Unauthorized ctx [NewError "ERR_MISSING_TOKEN"
           "Authorization token is missing or malformed" []], verifier)
  | Ok token =>
      let '(verifier, r) := tv_Verify verifier token in
      match r with
      | Fail _ =>
          (Unauthorized ctx [NewError "ERR_INVALID_TOKEN"
             "Authorization token is invalid or expired" []], verifier)
      | Ok claims => (gin_do (gin_Set ctx claimsKey (VClaims claims)) Next, verifier)
      end
  end.

Definition Authorization (ctx : C) (verifier : T) : C * T := AuthorizationWithOptions "" ctx verifier.

(** The loops of [applyRoleContexts]. [range] is the order in which the runtime
    enumerates a map. *)
Variable range : gmap string (value A) -> list (string * value A).

Fixpoint stage_values (staged : gmap string (value A)) (kvs : list (string * value A))
  : result (gmap string (value A)) :=
  match kvs with
  | [] => Ok staged
  | (k, v) :: kvs' =>
      match staged !! k with
      | Some existing =>
          if bool_decide (existing <> v) then Fail (Error "role context conflict" [ErrRoleContextConflict])
          else stage_values (<[k := v]> staged) kvs'
      | None => stage_values (<[k := v]> staged) kvs'
      end
  end.

Fixpoint stage_extras (verifier : T) (claims : Claims) (staged : gmap string (value A))
    (extras : list (RoleContext A)) : result (gmap string (value A)) :=
  match extras with
  | [] => Ok staged
  | e :: extras' =>
      if negb (tv_HasRole verifier claims (RoleName e)) then stage_extras verifier claims staged extras'
      else
        match stage_values staged (range (Values e)) with
        | Fail err => Fail err
        | Ok staged => stage_extras verifier claims staged extras'
        end
  end.

Definition applyRoleContexts (ctx : C) (verifier : T) (claims : Claims)
    (extras : list (RoleContext A)) : C * option error :=
  match stage_extras verifier claims ∅ extras with
  | Fail err => (ctx, Some err)
  | Ok staged => (fold_left (fun ctx kv => gin_Set ctx kv.1 kv.2) (range staged) ctx, None)
  end.

(** The common tail of the role checks. *)
Definition with_role_contexts (ctx : C) (verifier : T) (claims : Claims)
    (extras : list (RoleContext A)) : C * T :=
  match applyRoleContexts ctx verifier claims extras with
  | (ctx, Some _) =>
      (InternalServerError ctx [NewError "ERR_ROLE_CONTEXT_CONFLICT"
         "Conflicting role context configuration" []], verifier)
  | (ctx, None) => (gin_do ctx Next, verifier)
  end.

Definition RequireRole (role : string) (extras : list (RoleContext A)) (ctx : C) (verifier : T)
  : C * T :=
  match ClaimsFromContext ctx with
  | None =>
      (Unauthorized ctx [NewError "ERR_INVALID_TOKEN"
         "Authorization token is invalid or expired" []], verifier)
  | Some claims =>
      if negb (tv_HasRole verifier claims role) then
        (Forbidden ctx [NewError "ERR_PERMISSION_DENIED"
           "You do not have permission to access this resource" []], verifier)
      else with_role_contexts ctx verifier claims extras
  end.

Definition RequireAnyRole (roles : list string) (extras : list (RoleContext A)) (ctx : C)
    (verifier : T) : C * T :=
  match ClaimsFromContext ctx with
  | None =>
      (Unauthorized ctx [NewError "ERR_INVALID_TOKEN"
         "Authorization token is invalid or expired" []], verifier)
  | Some claims =>
      let granted := existsb (fun role => tv_HasRole verifier claims role) roles in
      if negb granted then
        (Forbidden ctx [NewError "ERR_PERMISSION_DENIED"
           "You do not have permission to access this resource" []], verifier)
      else with_role_contexts ctx verifier claims extras
  end.
End Authorization.

(** ** Lemmas *)

Section RoleContexts.
Context {C A T : Type} `{EqDecision A} `{GinContextOk C (value A)} `{TokenVerifier T}.
Variable range : gmap string (value A) -> list (string * value A).
Hypothesis range_perm : forall m, range m ≡ₚ map_to_list m.

Lemma range_NoDup m : NoDup (range m).*1.
Proof. rewrite range_perm. apply NoDup_fst_map_to_list. Qed.

Lemma elem_of_range m k v : (k, v) ∈ range m <-> m !! k = Some v.
Proof. rewrite range_perm. apply elem_of_map_to_list. Qed.

Lemma stage_values_spec (kvs : list (string * value A)) (staged : gmap string (value A)) :
  NoDup kvs.*1 ->
  match stage_values staged kvs with
  | Ok s' => forall k v, s' !! k = Some v <-> staged !! k = Some v \/ (k, v) ∈ kvs
  | Fail e => errors_Is e ErrRoleContextConflict = true
              /\ exists k v v', staged !! k = Some v /\ (k, v') ∈ kvs /\ v <> v'
  end.
Proof.
  revert staged. induction kvs as [|[k v] kvs IH]; intros staged Hnd; cbn [stage_values].
  { intros k v. split; [by left|by intros [?|?%not_elem_of_nil]]. }
  rewrite fmap_cons in Hnd. apply NoDup_cons in Hnd as [Hk Hnd].
  assert (Hnotin : forall w, (k, w) ∉ kvs).
  { intros w Hw. apply Hk. apply list_elem_of_fmap. by exists (k, w). }
  specialize (IH (<[k := v]> staged) Hnd).
  assert (Hgo : match staged !! k with Some w => w = v | None => True end ->
    match stage_values (<[k := v]> staged) kvs with
    | Ok s' => forall j w, s' !! j = Some w <-> staged !! j = Some w \/ (j, w) ∈ (k, v) :: kvs
    | Fail e => errors_Is e ErrRoleContextConflict = true
                /\ exists j w w', staged !! j = Some w /\ (j, w') ∈ (k, v) :: kvs /\ w <> w'
    end).
  { intros Hsame. destruct (stage_values _ kvs) as [s'|e].
    - intros j w. rewrite IH, elem_of_cons, lookup_insert_Some.
      destruct (decide (k = j)) as [<-|Hne]; [|naive_solver].
      destruct (staged !! k) as [x|]; subst; naive_solver.
    - destruct IH as [Hc (j & w & w' & Hj & Hin & Hne)]. split; [done|].
      apply lookup_insert_Some in Hj as [[<- <-]|[_ Hj]]; [by apply Hnotin in Hin|].
      exists j, w, w'. split; [done|]. split; [by right|done]. }
  destruct (staged !! k) as [w|] eqn:Ek; [|by apply Hgo].
  destruct (decide (w = v)) as [->|Hne].
  - rewrite bool_decide_false by (intros Hc; by apply Hc). by apply Hgo.
  - rewrite bool_decide_true by done. split; [done|]. exists k, w, v. split; [done|]. split; [by left|done].
Qed.

(** [k] is given the value [v] by a role context that applies. *)
Definition given (verifier : T) (claims : Claims) (extras : list (RoleContext A)) (k : string)
    (v : value A) : Prop :=
  exists e, e ∈ extras /\ tv_HasRole verifier claims (RoleName e) = true /\ Values e !! k = Some v.

Definition conflict (verifier : T) (claims : Claims) (extras : list (RoleContext A)) : Prop :=
  exists k v v', given verifier claims extras k v /\ given verifier claims extras k v' /\ v <> v'.

Lemma given_cons verifier claims e extras k v :
  given verifier claims (e :: extras) k v <->
  (tv_HasRole verifier claims (RoleName e) = true /\ Values e !! k = Some v)
  \/ given verifier claims extras k v.
Proof. unfold given. setoid_rewrite elem_of_cons. naive_solver. Qed.

Lemma given_cons_no verifier claims e extras k v :
  tv_HasRole verifier claims (RoleName e) = false ->
  given verifier claims (e :: extras) k v <-> given verifier claims extras k v.
Proof. intros Hr. rewrite given_cons, Hr. intuition discriminate. Qed.

Lemma given_cons_yes verifier claims e extras k v :
  tv_HasRole verifier claims (RoleName e) = true ->
  given verifier claims (e :: extras) k v <->
  Values e !! k = Some v \/ given verifier claims extras k v.
Proof. intros Hr. rewrite given_cons, Hr. tauto. Qed.

Lemma stage_extras_spec verifier claims extras staged :
  match stage_extras range verifier claims staged extras with
  | Ok s' => forall k v, s' !! k = Some v <-> staged !! k = Some v \/ given verifier claims extras k v
  | Fail e => errors_Is e ErrRoleContextConflict = true
              /\ exists k v v', (staged !! k = Some v \/ given verifier claims extras k v)
                   /\ given verifier claims extras k v' /\ v <> v'
  end.
Proof.
  revert staged. induction extras as [|e extras IH]; intros staged; cbn [stage_extras].
  { unfold given. setoid_rewrite elem_of_nil. naive_solver. }
  destruct (tv_HasRole verifier claims (RoleName e)) eqn:Hr; cbn [negb].
  2: { specialize (IH staged). destruct (stage_extras _ _ _ _ _) as [s'|err].
       - intros k v. by rewrite given_cons_no, IH.
       - destruct IH as [Hc (k & v & v' & Hk & Hg & Hne)]. split; [done|]. exists k, v, v'.
         by rewrite !given_cons_no. }
  pose proof (stage_values_spec (range (Values e)) staged (range_NoDup _)) as Hv.
  destruct (stage_values staged _) as [s1|err].
  2: { destruct Hv as [Hc (k & v & v' & Hk & Hin & Hne)]. split; [done|]. exists k, v, v'.
       rewrite elem_of_range in Hin. rewrite !given_cons_yes by done. auto. }
  specialize (IH s1). setoid_rewrite elem_of_range in Hv.
  destruct (stage_extras _ _ _ s1 _) as [s'|err].
  - intros k v. rewrite given_cons_yes, IH, Hv by done. tauto.
  - destruct IH as [Hc (k & v & v' & Hk & Hg & Hne)]. split; [done|]. exists k, v, v'.
    rewrite !given_cons_yes by done. rewrite Hv in Hk. tauto.
Qed.

Lemma fold_Set_Get (kvs : list (string * value A)) (ctx : C) (k : string) :
  NoDup kvs.*1 ->
  gin_Get (fold_left (fun ctx kv => gin_Set ctx kv.1 kv.2) kvs ctx) k
  = match (list_to_map kvs : gmap string (value A)) !! k with
    | Some v => Some v
    | None => gin_Get ctx k
    end.
Proof.
  revert ctx. induction kvs as [|[j v] kvs IH]; intros ctx Hnd; cbn [fold_left]; [done|].
  rewrite fmap_cons in Hnd. apply NoDup_cons in Hnd as [Hj Hnd]. rewrite IH by done. simpl.
  destruct (decide (j = k)) as [->|Hne].
  - rewrite lookup_insert_eq, gin_Get_Set. by rewrite not_elem_of_list_to_map_1.
  - rewrite lookup_insert_ne by done. by rewrite gin_Get_Set_ne by done.
Qed.

Lemma fold_Set_calls (kvs : list (string * value A)) (ctx : C) :
  gin_calls (fold_left (fun ctx kv => gin_Set ctx kv.1 kv.2) kvs ctx) = gin_calls ctx.
Proof.
  revert ctx. induction kvs as [|kv kvs IH]; intros ctx; cbn [fold_left]; [done|].
  by rewrite IH, gin_calls_Set.
Qed.

Lemma given_or_not verifier claims extras k :
  (exists v, given verifier claims extras k v) \/ (forall v, ~ given verifier claims extras k v).
Proof.
  destruct (decide (Exists (fun e => tv_HasRole verifier claims (RoleName e) = true
                                     /\ is_Some (Values e !! k)) extras)) as [Hex|Hno].
  - left. apply Exists_exists in Hex as (e & He & Hr & [v Hv]). exists v, e. done.
  - right. intros v (e & He & Hr & Hv). apply Hno, Exists_exists. exists e. by rewrite Hv.
Qed.

(** What [applyRoleContexts] does, whatever the order of its loops. *)
Lemma applyRoleContexts_spec (ctx : C) verifier claims extras :
  let '(ctx', err) := applyRoleContexts range ctx verifier claims extras in
  gin_calls ctx' = gin_calls ctx
  /\ ((exists e, err = Some e /\ errors_Is e ErrRoleContextConflict = true
         /\ ctx' = ctx /\ conflict verifier claims extras)
      \/ (err = None /\ ~ conflict verifier claims extras
          /\ forall k, (forall v, given verifier claims extras k v -> gin_Get ctx' k = Some v)
               /\ ((forall v, ~ given verifier claims extras k v) -> gin_Get ctx' k = gin_Get ctx k))).
Proof.
  unfold applyRoleContexts. pose proof (stage_extras_spec verifier claims extras ∅) as Hs.
  destruct (stage_extras _ _ _ _ _) as [staged|e].
  - assert (Hg : forall k v, staged !! k = Some v <-> given verifier claims extras k v).
    { intros k v. rewrite Hs, lookup_empty. naive_solver. }
    split; [apply fold_Set_calls|right]. split; [done|]. split.
    + intros (k & v & v' & Hv & Hv' & Hne). rewrite <- Hg in Hv, Hv'. congruence.
    + intros k. rewrite fold_Set_Get by apply range_NoDup.
      assert (Hl : (list_to_map (range staged) : gmap string (value A)) !! k = staged !! k).
      { rewrite (list_to_map_proper (range staged) (map_to_list staged)), list_to_map_to_list; 
          [done|apply range_NoDup|apply range_perm]. }
      rewrite Hl. setoid_rewrite <- Hg. destruct (staged !! k) as [w|]; naive_solver.
  - destruct Hs as [Hc (k & v & v' & Hk & Hg & Hne)]. split; [done|]. left. exists e.
    split; [done|]. split; [done|]. split; [done|]. exists k, v, v'.
    rewrite lookup_empty in Hk. naive_solver.
Qed.
End RoleContexts.

(** ** Theorems *)

(** The bearer credential of a header is what follows [Bearer] and one
    space, trimmed, when that is not blank; every other header has none. *)
Theorem extractBearerToken_iff (header token : string) :
  extractBearerToken header = Ok token <->
  exists rest, header = "Bearer " +:+ rest /\ TrimSpace rest = token /\ token <> "".
Proof.
  unfold extractBearerToken, SplitN2. split.
  - destruct (String.eqb header ""); [done|].
    destruct (Cut header " ") as [[scheme rest]|] eqn:Ec; [|done].
    destruct (string_eqb_spec scheme "Bearer") as [->|]; [|done]. cbn [negb].
    destruct (string_eqb_spec (TrimSpace rest) ""); [done|]. intros [= <-].
    exists rest. split; [|done]. by apply Cut_Some in Ec.
  - intros (rest & -> & <- & Hne).
    change ("Bearer " +:+ rest) with ("Bearer" +:+ String " " rest).
    rewrite Cut_no_sep by reflexivity. cbn [String.eqb negb].
    by destruct (string_eqb_spec (TrimSpace rest) "").
Qed.

(** The credentials a request carries: the cookie's, then the header's. *)
Definition credentials {C A} `{GinContext C (value A)} (ctx : C) (cookieName : string) : list string :=
  match gin_Cookie ctx cookieName with
  | Some c => if decide (c = "") then [] else [c]
  | None => []
  end
  ++ match extractBearerToken (gin_GetHeader ctx "Authorization") with
     | Ok b => [b]
     | Fail _ => []
     end.

Lemma extractToken_credentials {C A} `{GinContext C (value A)} (ctx : C) (name : string) :
  extractToken ctx name
  = match credentials ctx name with
    | [] => Fail ErrMissingToken
    | [token] => Ok token
    | _ => Fail ErrForbidden
    end.
Proof.
  unfold extractToken, credentials, readSessionCookie.
  assert (Hb : match extractBearerToken (gin_GetHeader ctx "Authorization") with
               | Ok b => (b =? "")%string = false | Fail _ => True end).
  { destruct (extractBearerToken _) as [b|] eqn:E; [|done].
    apply extractBearerToken_iff in E as (_ & _ & _ & Hne). by destruct (string_eqb_spec b ""). }
  destruct (gin_Cookie ctx name) as [c|].
  - destruct (string_eqb_spec c "") as [Hc|Hc], (decide (c = "")); try done;
      destruct (extractBearerToken _) as [b|]; simpl; rewrite ?Hb; done.
  - destruct (extractBearerToken _) as [b|]; simpl; rewrite ?Hb; done.
Qed.

(** [C13] Who gets past [Authorization].  A request goes on exactly when it
    carries one credential, in the session cookie or as a bearer token but not
    both, and the verifier accepts it; its claims are then what the later
    handlers find.  Otherwise it is aborted, with 403 when both channels carry a
    credential and 401 in every other case, its keys are as they were, and
    without exactly one credential the verifier is not even asked. *)
Theorem Authorization_decides {C A T} `{EqDecision A} `{GinContextOk C (value A)} `{TokenVerifier T}
    (name : string) (ctx : C) (verifier : T) :
  let '(ctx', verifier') := AuthorizationWithOptions name ctx verifier in
  let refused (status : Z) :=
    (exists body, gin_calls ctx' = gin_calls ctx ++ [AbortWithStatusJSON status body])
    /\ forall k, gin_Get ctx' k = gin_Get ctx k in
  match credentials ctx (sessionCookieName name) with
  | [token] =>
      verifier' = (tv_Verify verifier token).1
      /\ match (tv_Verify verifier token).2 with
         | Ok claims => gin_calls ctx' = gin_calls ctx ++ [Next]
                        /\ ClaimsFromContext ctx' = Some claims
                        /\ forall k, k <> claimsKey -> gin_Get ctx' k = gin_Get ctx k
         | Fail _ => refused 401
         end
  | [] => refused 401 /\ verifier' = verifier
  | _ => refused 403 /\ verifier' = verifier
  end.
Proof.
  unfold AuthorizationWithOptions. rewrite extractToken_credentials.
  destruct (credentials ctx _) as [|token [|token2 rest]]; cbn [errors_Is].
  - unfold Unauthorized. split; [|done]. split; [eexists; by rewrite gin_calls_do|].
    intros k. by rewrite gin_Get_do.
  - destruct (tv_Verify verifier token) as [v' [claims|e]]; (split; [done|]); simpl.
    + rewrite gin_calls_do, gin_calls_Set. split; [done|].
      unfold ClaimsFromContext. rewrite gin_Get_do, gin_Get_Set. split; [done|].
      intros k Hk. rewrite gin_Get_do. by apply gin_Get_Set_ne.
    + unfold Unauthorized. split; [eexists; by rewrite gin_calls_do|]. intros k. by rewrite gin_Get_do.
  - cbn. unfold Forbidden. split; [|done]. split; [eexists; by rewrite gin_calls_do|].
    intros k. by rewrite gin_Get_do.
Qed.

(** [C20] The role contexts do not depend on the order anything is listed or
    enumerated in: for any two orders of the entries and any two orders in which
    the runtime walks the maps, both runs fail or both succeed and leave the
    same values.  They fail exactly when two entries that apply to the caller
    give one key different values, and then nothing is set; on success every key
    an applying entry gives holds its value, and the others are untouched. *)
Theorem applyRoleContexts_order {C A T} `{EqDecision A} `{GinContextOk C (value A)} `{TokenVerifier T}
    (range range' : gmap string (value A) -> list (string * value A)) (ctx : C) (verifier : T)
    (claims : Claims) (extras extras' : list (RoleContext A)) :
  (forall m, range m ≡ₚ map_to_list m) ->
  (forall m, range' m ≡ₚ map_to_list m) ->
  extras ≡ₚ extras' ->
  let '(ctx1, err1) := applyRoleContexts range ctx verifier claims extras in
  let '(ctx2, err2) := applyRoleContexts range' ctx verifier claims extras' in
  (is_Some err1 <-> is_Some err2)
  /\ (forall k, gin_Get ctx1 k = gin_Get ctx2 k)
  /\ (is_Some err1 <-> conflict verifier claims extras)
  /\ (forall k, is_Some err1 \/ (forall v, ~ given verifier claims extras k v) ->
        gin_Get ctx1 k = gin_Get ctx k)
  /\ (forall k v, err1 = None -> given verifier claims extras k v -> gin_Get ctx1 k = Some v).
Proof.
  intros Hr Hr' Hp.
  assert (Hg : forall k v, given verifier claims extras k v <-> given verifier claims extras' k v).
  { intros k v. unfold given. by setoid_rewrite Hp. }
  assert (Hc : conflict verifier claims extras <-> conflict verifier claims extras').
  { unfold conflict. by setoid_rewrite Hg. }
  pose proof (applyRoleContexts_spec range Hr ctx verifier claims extras) as Hs1.
  pose proof (applyRoleContexts_spec range' Hr' ctx verifier claims extras') as Hs2.
  destruct (applyRoleContexts range _ _ _ _) as [ctx1 err1], (applyRoleContexts range' _ _ _ _) as [ctx2 err2].
  destruct Hs1 as [_ [(e1 & -> & _ & -> & Hc1)|(-> & Hn1 & Hk1)]],
           Hs2 as [_ [(e2 & -> & _ & -> & Hc2)|(-> & Hn2 & Hk2)]]; try tauto.
  - by repeat split.
  - split; [done|]. split; [|split; [split; [by intros [? ?]|done]|split]].
    + intros k. destruct (Hk1 k) as [Ha Hb], (Hk2 k) as [Ha2 Hb2].
      destruct (given_or_not verifier claims extras k) as [[v Hv]|Hno].
      * rewrite (Ha v Hv). symmetry. by apply Ha2, Hg.
      * rewrite (Hb Hno). symmetry. apply Hb2. intros v. by rewrite <- Hg.
    + intros k [[? ?]|Hno]; [done|]. by apply Hk1.
    + intros k v _. apply Hk1.
Qed.

Definition admin_extra : RoleContext Z := mkRoleContext "admin" {["tenant" := VOther 7]}.
Definition reader_extra : RoleContext Z := mkRoleContext "reader" {["tenant" := VOther 8]}.
Definition role_store : gmap string Session := {["sid" := demo_session (noon + 10 * Minute)]}.
#[local] Instance demo_session_verifier : TokenVerifier (gmap string Session) :=
  session_verifier demo_manager demo_issuer (fun _ => true) noon noon noon.
Definition request (cookies headers : gmap string string) : test_context (value Z) :=
  TestContext "GET" headers cookies ∅ ∅ [].

Lemma applyRoleContexts_order_witness :
  let run extras := applyRoleContexts map_to_list (request ∅ ∅)
                      role_store some_claims extras in
  is_Some (run [admin_extra; reader_extra]).2 /\ is_Some (run [reader_extra; admin_extra]).2
  /\ gin_Get (run [admin_extra]).1 "tenant" = Some (VOther 7).
Proof.
  intros run.
  assert (is_Some (run [admin_extra; reader_extra]).2) as Hfail by (vm_compute; by eexists).
  split; [exact Hfail|]. split; [|vm_compute; reflexivity].
  pose proof (applyRoleContexts_order map_to_list map_to_list
                (request ∅ ∅) role_store some_claims [admin_extra; reader_extra]
                [reader_extra; admin_extra] (fun m => reflexivity _) (fun m => reflexivity _)
                (perm_swap reader_extra admin_extra [])) as Hp.
  unfold run in *. destruct (applyRoleContexts _ _ _ _ [admin_extra; reader_extra]) as [c1 e1].
  destruct (applyRoleContexts _ _ _ _ [reader_extra; admin_extra]) as [c2 e2].
  exact (proj1 (proj1 Hp) Hfail).
Defined.

Definition cookie_request : test_context (value Z) := request {["session_id" := "sid"]} ∅.
Definition both_request : test_context (value Z) :=
  request {["session_id" := "sid"]} {["Authorization" := "Bearer abc"]}.

Lemma Authorization_decides_witness :
  gin_calls (Authorization cookie_request role_store).1 = [Next]
  /\ exists body, gin_calls (Authorization both_request role_store).1 = [AbortWithStatusJSON 403 body].
Proof.
  split; [vm_compute; reflexivity|].
  pose proof (Authorization_decides "" both_request role_store) as H. unfold Authorization.
  assert (credentials both_request (sessionCookieName "") = ["sid"; "abc"]) as Hc by (vm_compute; reflexivity).
  rewrite Hc in H. destruct (AuthorizationWithOptions "" both_request role_store) as [c v].
  exact (proj1 (proj1 H)).
Defined.

Lemma with_role_contexts_decides {C A T} `{EqDecision A} `{GinContextOk C (value A)} `{TokenVerifier T}
    range (ctx : C) (verifier : T) claims (extras : list (RoleContext A)) :
  (forall m, range m ≡ₚ map_to_list m) ->
  let '(ctx', verifier') := with_role_contexts range ctx verifier claims extras in
  verifier' = verifier
  /\ ((conflict verifier claims extras
       /\ exists body, gin_calls ctx' = gin_calls ctx ++ [AbortWithStatusJSON 500 body])
      \/ (~ conflict verifier claims extras /\ gin_calls ctx' = gin_calls ctx ++ [Next])).
Proof.
  intros Hr. unfold with_role_contexts.
  pose proof (applyRoleContexts_spec range Hr ctx verifier claims extras) as Hs.
  destruct (applyRoleContexts _ _ _ _ _) as [ctx1 err].
  destruct Hs as [Hc [(e & -> & _ & -> & Hconf)|(-> & Hn & _)]]; (split; [done|]).
  - left. split; [done|]. unfold InternalServerError. eexists. by rewrite gin_calls_do.
  - right. split; [done|]. by rewrite gin_calls_do, Hc.
Qed.

(** The role checks.  After [Authorization], a request goes on exactly when
    its claims hold one of the roles asked for and the role contexts that apply
    agree; without claims it is aborted with 401, without a role with 403, on a
    conflict with 500.  Asking for any of no roles denies everyone, and
    [RequireRole] is [RequireAnyRole] of that one role. *)
Theorem RequireAnyRole_decides {C A T} `{EqDecision A} `{GinContextOk C (value A)} `{TokenVerifier T}
    range (roles : list string) (extras : list (RoleContext A)) (ctx : C) (verifier : T) :
  (forall m, range m ≡ₚ map_to_list m) ->
  (forall role, RequireRole range role extras ctx verifier
                = RequireAnyRole range [role] extras ctx verifier)
  /\ let '(ctx', verifier') := RequireAnyRole range roles extras ctx verifier in
     let refused (status : Z) :=
       exists body, gin_calls ctx' = gin_calls ctx ++ [AbortWithStatusJSON status body] in
     verifier' = verifier
     /\ match ClaimsFromContext ctx with
        | None => refused 401
        | Some claims =>
            (refused 403 /\ Forall (fun role => tv_HasRole verifier claims role = false) roles)
            \/ ((exists role, role ∈ roles /\ tv_HasRole verifier claims role = true)
                /\ ((conflict verifier claims extras /\ refused 500)
                    \/ (~ conflict verifier claims extras
                        /\ gin_calls ctx' = gin_calls ctx ++ [Next])))
        end.
Proof.
  intros Hr. split.
  { intros role. unfold RequireRole, RequireAnyRole. destruct (ClaimsFromContext ctx); [|done].
    simpl. by rewrite orb_false_r. }
  unfold RequireAnyRole. destruct (ClaimsFromContext ctx) as [claims|].
  2: { split; [done|]. unfold Unauthorized. eexists. by rewrite gin_calls_do. }
  destruct (existsb _ roles) eqn:Hex; cbn [negb].
  - pose proof (with_role_contexts_decides range ctx verifier claims extras Hr) as Hw.
    destruct (with_role_contexts _ _ _ _ _) as [ctx' v']. destruct Hw as [-> Hw].
    split; [done|]. right. split; [|tauto].
    apply existsb_exists in Hex as (role & Hin & Hrole). exists role. by rewrite list_elem_of_In.
  - split; [done|]. left. split; [unfold Forbidden; eexists; by rewrite gin_calls_do|].
    apply Forall_forall. intros role Hin. destruct (tv_HasRole verifier claims role) eqn:E; [|done].
    assert (existsb (fun role => tv_HasRole verifier claims role) roles = true); [|congruence].
    apply existsb_exists. exists role. by rewrite <- list_elem_of_In.
Qed.

Lemma RequireAnyRole_decides_witness :
  let run roles extras :=
    (RequireAnyRole map_to_list roles extras
       (gin_Set (request ∅ ∅) claimsKey (VClaims some_claims)) role_store).1 in
  gin_calls (run ["owner"; "reader"] [reader_extra]) = [Next]
  /\ aborted (run [] [reader_extra]) = true
  /\ RequireRole map_to_list "admin" [admin_extra] (request ∅ ∅) role_store
     = RequireAnyRole map_to_list ["admin"] [admin_extra] (request ∅ ∅) role_store.
Proof.
  intros run. split; [vm_compute; reflexivity|]. split; [vm_compute; reflexivity|].
  exact (proj1 (RequireAnyRole_decides map_to_list ["admin"] [admin_extra] (request ∅ ∅) role_store
                  (fun m => reflexivity _)) "admin").
Defined.

Lemma carried_on_claims m ts x now wall wall' :
  sess_Claims (carried_on m ts x now wall wall') = sess_Claims x.
Proof. unfold carried_on. destruct (Before _ _); [done|]. by destruct (ts _). Qed.

Lemma Authorization_passes {C A T} `{EqDecision A} `{GinContextOk C (value A)} `{TokenVerifier T}
    name (ctx ctx' : C) (verifier verifier' : T) :
  AuthorizationWithOptions name ctx verifier = (ctx', verifier') -> aborted ctx' = false ->
  exists token claims, credentials ctx (sessionCookieName name) = [token]
    /\ tv_Verify verifier token = (verifier', Ok claims) /\ ClaimsFromContext ctx' = Some claims.
Proof.
  unfold AuthorizationWithOptions, Unauthorized, Forbidden. rewrite extractToken_credentials.
  destruct (credentials ctx _) as [|token [|]]; simpl; try (intros [= <- <-]);
    rewrite ?aborted_do, ?orb_true_r; try done.
  destruct (tv_Verify verifier token) as [v' [claims|e]] eqn:E; intros [= <- <-];
    rewrite ?aborted_do, ?orb_true_r; [|done].
  intros _. exists token, claims. unfold ClaimsFromContext. by rewrite gin_Get_do, gin_Get_Set.
Qed.

Lemma RequireRole_passes {C A T} `{EqDecision A} `{GinContextOk C (value A)} `{TokenVerifier T}
    range role extras (ctx ctx' : C) (verifier verifier' : T) :
  (forall v, range v ≡ₚ map_to_list v) ->
  RequireRole range role extras ctx verifier = (ctx', verifier') -> aborted ctx' = false ->
  verifier' = verifier
  /\ exists claims, ClaimsFromContext ctx = Some claims /\ tv_HasRole verifier claims role = true.
Proof.
  intros Hr. unfold RequireRole, Unauthorized, Forbidden.
  destruct (ClaimsFromContext ctx) as [claims|]; simpl.
  2: { intros [= <- <-]. by rewrite aborted_do, orb_true_r. }
  destruct (tv_HasRole verifier claims role) eqn:E; simpl.
  - pose proof (with_role_contexts_decides range ctx verifier claims extras Hr) as Hw. intros Heq.
    rewrite Heq in Hw. destruct Hw as [-> _]. intros _. eauto.
  - intros [= <- <-]. by rewrite aborted_do, orb_true_r.
Qed.

(** What [Authorization] and then [RequireRole] over sessions let through. *)
Lemma session_guard {C A S} `{EqDecision A} `{GinContextOk C (value A)} `{SessionStoreOk S}
    range (m : SessionManager) (TokenSource : string -> result Token) (uuid_Parse : string -> bool)
    (now wall wall' : Z) (name role : string) (extras : list (RoleContext A))
    (ctx c1 c2 : C) (s s1 s2 : S) :
  (forall v, range v ≡ₚ map_to_list v) ->
  let verifier := session_verifier m TokenSource uuid_Parse now wall wall' in
  AuthorizationWithOptions name ctx s = (c1, s1) -> aborted c1 = false ->
  RequireRole range role extras c1 s1 = (c2, s2) -> aborted c2 = false ->
  exists id x, credentials ctx (sessionCookieName name) = [id]
    /\ uuid_Parse id = true
    /\ sessions s !! id = Some x
    /\ usable m TokenSource x now = true
    /\ Sessions.HasRole m (sess_Claims x) role = true
    /\ sessions s2 = <[id := carried_on m TokenSource x now wall wall']> (sessions s).
Proof.
  intros Hr verifier E1 Hab E2 Hok.
  destruct (Authorization_passes _ _ _ _ _ E1 Hab) as (id & claims & Hcred & Hv & Hcl).
  destruct (RequireRole_passes range role extras _ _ _ _ Hr E2 Hok) as (-> & claims' & Hcl' & Hrole).
  rewrite Hcl in Hcl'. injection Hcl' as <-. simpl in Hv, Hrole.
  destruct (Sessions.Verify m TokenSource uuid_Parse s id now wall wall') as [[s3 pres] r] eqn:Ev.
  injection Hv as -> ->. apply Verify_Ok in Ev as (Hu & x & Hx & Hus & -> & Hs).
  rewrite carried_on_claims in Hrole. by exists id, x.
Qed.

(** [C3] A route behind [Authorization] and [RequireRole], over sessions.  If a
    request that was not aborted before gets through both, it carried exactly
    one credential, the identifier of a session in the store that had neither
    reached its ceiling nor idled out and whose access token was good or could be
    refreshed; the role is among the client roles of that session's claims; and
    the store now holds the session with this use recorded. *)
Theorem session_route_guard {C A S} `{EqDecision A} `{GinContextOk C (value A)} `{SessionStoreOk S}
    range (m : SessionManager) (TokenSource : string -> result Token) (uuid_Parse : string -> bool)
    (now wall wall' : Z) (name role : string) (extras : list (RoleContext A))
    (ctx ctx' : C) (s s' : S) :
  (forall v, range v ≡ₚ map_to_list v) ->
  let verifier := session_verifier m TokenSource uuid_Parse now wall wall' in
  run_chain [AuthorizationWithOptions name; RequireRole range role extras] ctx s = (ctx', s') ->
  aborted ctx' = false ->
  exists id x, credentials ctx (sessionCookieName name) = [id]
    /\ uuid_Parse id = true
    /\ sessions s !! id = Some x
    /\ usable m TokenSource x now = true
    /\ Sessions.HasRole m (sess_Claims x) role = true
    /\ sessions s' = <[id := carried_on m TokenSource x now wall wall']> (sessions s).
Proof.
  intros Hr verifier. cbn [run_chain].
  destruct (AuthorizationWithOptions name ctx s) as [c1 s1] eqn:E1.
  destruct (aborted c1) eqn:Hab; [by intros [= <- <-]; rewrite Hab|].
  destruct (RequireRole range role extras c1 s1) as [c2 s2] eqn:E2.
  intros Heq Hok.
  assert (c2 = ctx' /\ s2 = s') as [-> ->] by (destruct (aborted c2); by injection Heq).
  by apply (session_guard range m TokenSource uuid_Parse now wall wall' name role extras ctx c1 ctx' s s1 s').
Qed.

Lemma session_route_guard_witness :
  exists id x, credentials cookie_request "session_id" = [id] /\ role_store !! id = Some x
    /\ Sessions.HasRole demo_manager (sess_Claims x) "admin" = true.
Proof.
  destruct (run_chain [AuthorizationWithOptions ""; RequireRole map_to_list "admin" []]
              cookie_request role_store) as [ctx' s'] eqn:E.
  destruct (session_route_guard map_to_list demo_manager demo_issuer (fun _ => true) noon noon noon
              "" "admin" [] cookie_request ctx' role_store s' (fun m => reflexivity _) E)
    as (id & x & Hc & _ & Hx & _ & Hrole & _).
  - vm_compute in E. injection E as <- _. vm_compute. reflexivity.
  - exists id, x. split; [exact Hc|split; [exact Hx|exact Hrole]].
Defined.
