(* ===== verification/CsrfCors.v ===== *)
(** * httpserver/middlewares: csrf.go and cors.go

    The double-submit check on mutating requests, and the cross-origin policy
    advertised to browsers. *)
From S2P Require Import Prelude GoNum GoText Respond.
Local Open Scope Z_scope.

(** ** csrf.go *)

Definition CSRFCookie : string := "csrf_token".
Definition CSRFHeader : string := "X-CSRF-Token".

Definition safeMethods : list string := ["GET"; "HEAD"; "OPTIONS"].

Record CSRFOptions := mkCSRFOptions { CookieName : string; HeaderName : string }.

Definition withDefaults (o : CSRFOptions) : CSRFOptions :=
  mkCSRFOptions (if String.eqb (CookieName o) "" then CSRFCookie else CookieName o)
                (if String.eqb (HeaderName o) "" then CSRFHeader else HeaderName o).

Section CSRF.
Context {C V : Type} `{GinContext C V}.

Definition CSRFWithOptions (opts : CSRFOptions) (ctx : C) : C :=
  let opts := withDefaults opts in
  if existsb (String.eqb (gin_Method ctx)) safeMethods then gin_do ctx Next
  else
    let missing := Forbidden ctx [NewError "ERR_CSRF_TOKEN_MISSING" "Missing CSRF cookie" []] in
    match gin_Cookie ctx (CookieName opts) with
    | None => missing
    | Some cookieValue =>
        if String.eqb cookieValue "" then missing
        else
          let headerValue := gin_GetHeader ctx (HeaderName opts) in
          if String.eqb headerValue "" || negb (String.eqb cookieValue headerValue) then
            Forbidden ctx [NewError "ERR_CSRF_TOKEN_MISMATCH"
                             "CSRF token missing or does not match" []]
          else gin_do ctx Next
    end.

Definition CSRF (ctx : C) : C := CSRFWithOptions (mkCSRFOptions "" "") ctx.
End CSRF.

(** ** cors.go *)

Definition DefaultAllowedHeaders : list string :=
  ["Content-Type"; "Content-Length"; "Accept-Encoding"; "X-CSRF-Token"; "Authorization"; "Accept";
   "Origin"; "Cache-Control"; "X-Requested-With"].
Definition DefaultAllowedMethods : list string := ["GET"; "POST"; "PUT"; "PATCH"; "DELETE"; "OPTIONS"].

Record CORSOptions := mkCORSOptions {
  AllowedOrigins : list string;
  AllowedMethods : list string;
  AllowedHeaders : list string;
  AllowCredentials : bool;
}.

Record CORSPolicy := mkCORSPolicy {
  allowed : gmap string bool;
  methods : string;
  headers : string;
  cors_credentials : bool;
}.

Fixpoint joinHeaderValues_loop (values out : list string) : list string :=
  match values with
  | [] => out
  | v :: values' =>
      let v := TrimSpace v in
      joinHeaderValues_loop values' (if negb (String.eqb v "") then out ++ [v] else out)
  end.

Definition joinHeaderValues (values fallback : list string) : string :=
  let out := joinHeaderValues_loop values [] in
  let out := match out with [] => fallback | _ => out end in
  Join out ", ".

Definition NewCORSPolicy (opts : CORSOptions) : CORSPolicy := {|
  allowed := fold_left (fun m origin => <[origin := true]> m) (AllowedOrigins opts) ∅;
  methods := joinHeaderValues (AllowedMethods opts) DefaultAllowedMethods;
  headers := joinHeaderValues (AllowedHeaders opts) DefaultAllowedHeaders;
  cors_credentials := AllowCredentials opts;
|}.

Section CORS.
Context {C V : Type} `{GinContext C V}.

(** [CORSWithProvider]: [policy] is what the provider returns for this request. *)
Definition CORSWithProvider (policy : option CORSPolicy) (ctx : C) : C :=
  let origin := gin_GetHeader ctx "Origin" in
  let ctx :=
    match policy with
    | Some policy =>
        if negb (String.eqb origin "") && default false (allowed policy !! origin) then
          let ctx := gin_do ctx (SetHeader "Vary" "Origin") in
          let ctx := gin_do ctx (SetHeader "Access-Control-Allow-Origin" origin) in
          let ctx := if negb (String.eqb (methods policy) "")
                     then gin_do ctx (SetHeader "Access-Control-Allow-Methods" (methods policy))
                     else ctx in
          let ctx := if negb (String.eqb (headers policy) "")
                     then gin_do ctx (SetHeader "Access-Control-Allow-Headers" (headers policy))
                     else ctx in
          if cors_credentials policy
          then gin_do ctx (SetHeader "Access-Control-Allow-Credentials" "true")
          else ctx
        else ctx
    | None => ctx
    end in
  if String.eqb (gin_Method ctx) "OPTIONS" then gin_do ctx (AbortWithStatus 204)
  else gin_do ctx Next.

Definition CORSWithOptions (opts : CORSOptions) (ctx : C) : C :=
  CORSWithProvider (Some (NewCORSPolicy opts)) ctx.
Definition CORS (allowedOrigins : list string) (ctx : C) : C :=
  CORSWithOptions (mkCORSOptions allowedOrigins [] [] true) ctx.
End CORS.

(** ** Theorems *)

(** [C23] The double-submit check.  A request goes on exactly when its method is
    safe, or it carries the configured cookie, not blank, and echoes the same
    value in the configured header; every other request is aborted with 403. *)
Theorem CSRF_decides {C V} `{GinContextOk C V} (opts : CSRFOptions) (ctx : C) :
  let cookie := if decide (CookieName opts = "") then CSRFCookie else CookieName opts in
  let header := if decide (HeaderName opts = "") then CSRFHeader else HeaderName opts in
  let passes := gin_Method ctx ∈ safeMethods
                \/ exists v, v <> "" /\ gin_Cookie ctx cookie = Some v
                             /\ gin_GetHeader ctx header = v in
  (passes -> gin_calls (CSRFWithOptions opts ctx) = gin_calls ctx ++ [Next])
  /\ (~ passes -> exists body,
        gin_calls (CSRFWithOptions opts ctx) = gin_calls ctx ++ [AbortWithStatusJSON 403 body]).
Proof.
  cbv zeta. unfold CSRFWithOptions, withDefaults, Forbidden. rewrite <- existsb_string_elem.
  destruct (existsb _ safeMethods) eqn:Em.
  { split; [intros _; by rewrite gin_calls_do|]. intros Hno. exfalso. apply Hno. by left. }
  simpl CookieName. simpl HeaderName.
  assert (Hd : forall s d : string, (if (s =? "")%string then d else s) = (if decide (s = "") then d else s)).
  { intros s d. by destruct (string_eqb_spec s ""), (decide (s = "")). }
  rewrite !Hd. set (ck := if decide (CookieName opts = "") then _ else _).
  set (hd := if decide (HeaderName opts = "") then _ else _).
  assert (Habort : forall body, gin_calls (gin_do ctx (AbortWithStatusJSON 403 body))
            = gin_calls ctx ++ [AbortWithStatusJSON 403 body]) by (intros; by rewrite gin_calls_do).
  destruct (gin_Cookie ctx ck) as [v|].
  2: { split; [intros [?|(v & _ & ? & _)]; done|]. eauto. }
  destruct (string_eqb_spec v "") as [->|Hv].
  { split; [intros [?|(v & Hne & [= <-] & _)]; done|]. eauto. }
  destruct (string_eqb_spec (gin_GetHeader ctx hd) "") as [Hh|Hh]; simpl.
  { split; [intros [?|(w & Hne & [= <-] & ?)]; congruence|]. eauto. }
  destruct (string_eqb_spec v (gin_GetHeader ctx hd)) as [He|He]; simpl.
  - split; [intros _; by rewrite gin_calls_do|]. intros Hno. exfalso. apply Hno. right. by exists v.
  - split; [intros [?|(w & Hne & [= <-] & ?)]; congruence|]. eauto.
Qed.

Definition csrf_post (cookie header : string) : test_context unit :=
  TestContext "POST" {["X-CSRF-Token" := header]} {["csrf_token" := cookie]} ∅ ∅ [].

Lemma CSRF_decides_witness :
  gin_calls (CSRF (csrf_post "abc" "abc")) = [Next] /\ aborted (CSRF (csrf_post "abc" "abd")) = true.
Proof.
  split; [|vm_compute; reflexivity].
  refine (proj1 (CSRF_decides (mkCSRFOptions "" "") (csrf_post "abc" "abc")) _).
  right. exists "abc". split; [discriminate|]. split; vm_compute; reflexivity.
Defined.

Lemma joinHeaderValues_loop_spec (values out : list string) :
  joinHeaderValues_loop values out
  = out ++ List.filter (fun v => negb (String.eqb v "")) (TrimSpace <$> values).
Proof.
  revert out. induction values as [|v values IH]; intros out; simpl; [by rewrite app_nil_r|].
  rewrite IH. destruct (negb _); [|done]. by rewrite <- app_assoc.
Qed.

(** The usable entries of a list, or the default set. *)
Definition advertised (values fallback : list string) : string :=
  let usable := List.filter (fun v => negb (String.eqb v "")) (TrimSpace <$> values) in
  Join (if decide (usable = []) then fallback else usable) ", ".

Lemma joinHeaderValues_advertised (values fallback : list string) :
  joinHeaderValues values fallback = advertised values fallback.
Proof.
  unfold joinHeaderValues, advertised. rewrite joinHeaderValues_loop_spec. simpl.
  by destruct (List.filter _ _).
Qed.

Lemma Join_not_blank (v : string) (l : list string) (sep : string) :
  v <> "" -> (Join (v :: l) sep =? "")%string = false.
Proof. intros Hv. destruct v as [|c v]; [done|]. by destruct l. Qed.

Lemma advertised_not_blank (values : list string) (f : string) (fs : list string) :
  f <> "" -> (joinHeaderValues values (f :: fs) =? "")%string = false.
Proof.
  intros Hf. rewrite joinHeaderValues_advertised. unfold advertised.
  destruct (decide _) as [_|Hne]; [by apply Join_not_blank|].
  destruct (List.filter _ _) as [|v l] eqn:E; [done|]. apply Join_not_blank.
  assert (Hin : List.In v (List.filter (fun v => negb (v =? "")%string) (TrimSpace <$> values))).
  { rewrite E. by left. }
  apply filter_In in Hin as [_ Hv]. by destruct (string_eqb_spec v "").
Qed.

Lemma allowed_lookup (origins : list string) (m : gmap string bool) (o : string) :
  default false (fold_left (fun m origin => <[origin := true]> m) origins m !! o) = true
  <-> o ∈ origins \/ default false (m !! o) = true.
Proof.
  revert m. induction origins as [|x xs IH]; intros m; cbn [fold_left].
  - rewrite elem_of_nil. tauto.
  - rewrite IH, elem_of_cons. destruct (decide (x = o)) as [->|Hne].
    + rewrite lookup_insert_eq. simpl. tauto.
    + rewrite lookup_insert_ne by done. naive_solver.
Qed.

(** Which origins are let in.  A request whose [Origin] is, byte for byte,
    one of the listed ones gets exactly the policy's headers, with that origin
    as the allowed one, [Vary: Origin], and method and header lists that are
    never blank: the usable entries, or the default set when there is none; any other request, one without an
    origin, and every request while no policy is published, gets no such header
    at all.  Preflights are answered with 204 and go no further; everything else
    goes on. *)
Theorem CORS_decides {C V} `{GinContextOk C V} (policy : option CORSOptions) (ctx : C) :
  let origin := gin_GetHeader ctx "Origin" in
  let last := if decide (gin_Method ctx = "OPTIONS") then AbortWithStatus 204 else Next in
  exists hs,
    gin_calls (CORSWithProvider (NewCORSPolicy <$> policy) ctx) = gin_calls ctx ++ hs ++ [last]
    /\ match policy with
       | Some opts =>
           if decide (origin <> "" /\ origin ∈ AllowedOrigins opts) then
             hs = [SetHeader "Vary" "Origin"; SetHeader "Access-Control-Allow-Origin" origin;
                   SetHeader "Access-Control-Allow-Methods"
                     (advertised (AllowedMethods opts) DefaultAllowedMethods);
                   SetHeader "Access-Control-Allow-Headers"
                     (advertised (AllowedHeaders opts) DefaultAllowedHeaders)]
                  ++ (if AllowCredentials opts
                      then [SetHeader "Access-Control-Allow-Credentials" "true"] else [])
           else hs = []
       | None => hs = []
       end.
Proof.
  cbv zeta. unfold CORSWithProvider.
  assert (Hend : forall c : C, gin_Method c = gin_Method ctx ->
    gin_calls (if (gin_Method c =? "OPTIONS")%string then gin_do c (AbortWithStatus 204) else gin_do c Next)
    = gin_calls c ++ [if decide (gin_Method ctx = "OPTIONS") then AbortWithStatus 204 else Next]).
  { intros c ->. destruct (string_eqb_spec (gin_Method ctx) "OPTIONS"), (decide (gin_Method ctx = "OPTIONS"));
      try done; by rewrite gin_calls_do. }
  destruct policy as [opts|]; cbn [fmap option_fmap option_map].
  2: { exists []. split; [by apply Hend|done]. }
  assert (Hal : negb (gin_GetHeader ctx "Origin" =? "")%string
                && default false (allowed (NewCORSPolicy opts) !! gin_GetHeader ctx "Origin")
              = bool_decide (gin_GetHeader ctx "Origin" <> "" /\ gin_GetHeader ctx "Origin" ∈ AllowedOrigins opts)).
  { apply eq_true_iff_eq. rewrite andb_true_iff, bool_decide_eq_true. simpl allowed.
    rewrite allowed_lookup, lookup_empty. simpl.
    destruct (string_eqb_spec (gin_GetHeader ctx "Origin") ""); simpl; naive_solver. }
  rewrite Hal. destruct (decide (_ /\ _)) as [Hp|Hn];
    [rewrite bool_decide_true by exact Hp|rewrite bool_decide_false by exact Hn].
  2: { exists []. split; [by apply Hend|done]. }
  eexists. split; [|reflexivity].
  assert ((methods (NewCORSPolicy opts) =? "")%string = false) as -> by by apply advertised_not_blank.
  assert ((headers (NewCORSPolicy opts) =? "")%string = false) as -> by by apply advertised_not_blank.
  rewrite <- !joinHeaderValues_advertised. cbn [negb]. rewrite Hend.
  - simpl cors_credentials. destruct (AllowCredentials opts); rewrite !gin_calls_do, <- !app_assoc; done.
  - destruct (cors_credentials _); by rewrite !gin_Method_do.
Qed.

Definition cors_request (origin : string) : test_context unit :=
  TestContext "OPTIONS" {["Origin" := origin]} ∅ ∅ ∅ [].

Lemma CORS_decides_witness :
  let opts := mkCORSOptions ["https://a.example"] ["GET"; " "] [] false in
  gin_calls (CORSWithOptions opts (cors_request "https://b.example")) = [AbortWithStatus 204]
  /\ exists hs, gin_calls (CORSWithProvider None (cors_request "https://a.example")) = hs ++ [AbortWithStatus 204]
       /\ hs = [].
Proof.
  split; [vm_compute; reflexivity|].
  destruct (CORS_decides None (cors_request "https://a.example")) as (hs & Hc & Hhs).
  exists hs. split; [exact Hc|exact Hhs].
Defined.
