(* ===== verification/LoginFlow.v ===== *)
(** * httpserver/middlewares/oidcauth.go: the browser login flow

    The signed login state, the checks on the return path, and the handlers
    [Login], [Callback], [Refresh], [Logout] and [Me] over the session manager.
    HMAC-SHA256, the JSON codec of the state, net/url and the oauth2 library are
    arguments; random values and clock readings are passed in. *)
From S2P Require Import Prelude GoNum GoText GoBase64 Respond OidcTypes Sessions Authorization CsrfCors.
From stdpp Require Import fin_maps.
Local Open Scope Z_scope.

Definition loginStateTTL : Z := 10 * Minute.
Definition errInvalidLoginState := errors_New "middlewares.errInvalidLoginState".

Record loginState := mkLoginState { Verifier : string; ReturnTo : string; ls_Exp : Z }.

Record AuthCookieOptions := mkCookieOptions {
  Domain : string;
  Path : string;
  Secure : bool;
  SameSite : Z;
  Name : string;
  CSRFName : string;
}.

Definition sessionName (o : AuthCookieOptions) : string :=
  if String.eqb (Name o) "" then SessionCookie else Name o.
Definition csrfName (o : AuthCookieOptions) : string :=
  if String.eqb (CSRFName o) "" then CSRFCookie else CSRFName o.

(** The handler; of its [flow] it keeps the client and the logout endpoint. *)
Record Auth := mkAuth {
  sessions_m : SessionManager;
  flow_clientID : string;
  flow_endSessionURL : string;
  cookies : AuthCookieOptions;
  auth_clientID : string;
  postLoginRedirectURI : string;
  postLogoutRedirectURI : string;
  stateSigningKey : string;
}.

(** [NewAuth], past the checks that panic on a nil argument; [None] is the
    panic on an empty one. *)
Definition NewAuth (sessions : SessionManager) (flow_clientID flow_endSessionURL clientID : string)
    (cookies : AuthCookieOptions) (postLogin postLogout stateSigningKey : string) : option Auth :=
  if String.eqb clientID "" then None
  else if String.eqb stateSigningKey "" then None
  else
    let cookies := mkCookieOptions (Domain cookies)
                     (if String.eqb (Path cookies) "" then "/" else Path cookies) (Secure cookies)
                     (if SameSite cookies =? 0 then 2 else SameSite cookies)
                     (Name cookies) (CSRFName cookies) in
    Some (mkAuth sessions flow_clientID flow_endSessionURL cookies clientID postLogin postLogout
            stateSigningKey).

(** [sanitizeReturnTo]. *)
Definition sanitizeReturnTo (raw : string) : string :=
  match raw with
  | "" => "/"
  | String c _ =>
      if negb (Ascii.eqb c "/") || HasPrefix raw "//" || Contains raw "://" then "/" else raw
  end.

(** What the handlers take from net/url: parsing, the parts of a URL they look
    at, and the text of a reference resolved against a base. *)
Record url_lib := mkUrlLib {
  URL : Type;
  url_Parse : string -> option URL;
  url_Scheme : URL -> string;
  url_Host : URL -> string;
  url_ResolveReference : URL -> URL -> string;
}.

Definition resolveReturnTo (net_url : url_lib) (h : Auth) (returnTo : string) : string :=
  match url_Parse net_url (postLoginRedirectURI h) with
  | None => postLoginRedirectURI h
  | Some base =>
      if String.eqb (url_Scheme net_url base) "" || String.eqb (url_Host net_url base) ""
      then postLoginRedirectURI h
      else match url_Parse net_url returnTo with
           | None => postLoginRedirectURI h
           | Some rel => url_ResolveReference net_url base rel
           end
  end.

Section LoginState.
(** HMAC-SHA256 of a message under a key, and the JSON codec of the state. *)
Variable hmac : string -> string -> string.
Variable marshal : loginState -> string.
Variable unmarshal : string -> option loginState.

Definition signState (h : Auth) (encoded : string) : string :=
  EncodeToString (hmac (stateSigningKey h) encoded).

(** [now] is the instant read. *)
Definition encodeState (h : Auth) (verifier returnTo : string) (now : Z) : string :=
  let payload := marshal (mkLoginState verifier returnTo (Unix (time_Add now loginStateTTL))) in
  let encoded := EncodeToString payload in
  encoded +:+ "." +:+ signState h encoded.

Definition decodeState (h : Auth) (raw : string) (now : Z) : result loginState :=
  match Cut raw "." with
  | None => Fail errInvalidLoginState
  | Some (encoded, sig) =>
      if String.eqb encoded "" || String.eqb sig "" then Fail errInvalidLoginState
      else if negb (String.eqb sig (signState h encoded)) then Fail errInvalidLoginState
      else
        match DecodeString encoded with
        | None => Fail errInvalidLoginState
        | Some payload =>
            match unmarshal payload with
            | None => Fail errInvalidLoginState
            | Some ls =>
                if String.eqb (Verifier ls) "" || (ls_Exp ls <? Unix now)
                then Fail errInvalidLoginState
                else Ok ls
            end
        end
  end.
End LoginState.

Section Handlers.
Context {C A S : Type} `{GinContext C (value A)} `{SessionStore S}.
Variable h : Auth.

Definition noStore (ctx : C) : C := gin_do ctx (SetHeader "Cache-Control" "no-store").

Definition setCookie (ctx : C) (name val : string) (maxAge : Z) (httpOnly : bool) : C :=
  gin_do ctx (SetCookie {|
    ck_Name := name;
    ck_Value := val;
    ck_Path := Path (cookies h);
    ck_Domain := Domain (cookies h);
    ck_MaxAge := float_to_int64 (duration_Seconds maxAge);
    ck_Secure := Secure (cookies h);
    ck_HttpOnly := httpOnly;
    ck_SameSite := SameSite (cookies h) |}).

Definition clearCookie (ctx : C) (name : string) : C :=
  gin_do ctx (SetCookie {|
    ck_Name := name;
    ck_Value := "";
    ck_Path := Path (cookies h);
    ck_Domain := Domain (cookies h);
    ck_MaxAge := -1;
    ck_Secure := Secure (cookies h);
    ck_HttpOnly := false;
    ck_SameSite := SameSite (cookies h) |}).

(** [applySession]: [now] is the instant [time.Until] reads, [random] the 24
    random bytes of the CSRF token. *)
Definition applySession (ctx : C) (session : Session) (now : Z) (random : string) : C :=
  let maxAge := time_Sub (ExpiresAt session) now in
  let maxAge := if maxAge <? 0 then 0 else maxAge in
  let ctx := setCookie ctx (sessionName (cookies h)) (ID session) maxAge true in
  setCookie ctx (csrfName (cookies h)) (EncodeToString random) maxAge false.

Definition clearSessionCookie (ctx : C) : C :=
  clearCookie (clearCookie ctx (sessionName (cookies h))) (csrfName (cookies h)).

(** [Login]: [AuthCodeURL] is the flow's authorize URL, [verifier] the PKCE
    verifier that was generated. *)
Definition Login (hmac : string -> string -> string) (marshal : loginState -> string)
    (AuthCodeURL : string -> string -> string) (ctx : C) (verifier : string) (now : Z) : C :=
  let ctx := noStore ctx in
  let returnTo := sanitizeReturnTo (gin_Query ctx "redirect_uri") in
  let state := encodeState hmac marshal h verifier returnTo now in
  gin_do ctx (Redirect 302 (AuthCodeURL state verifier)).

(** The clock readings and random values of one request. *)
Record moment := mkMoment { at_start : Z; at_wall : Z; at_wall' : Z; at_end : Z; uuid : string; random : string }.

(** [Callback]: [exchange] is the flow's code exchange, [Verify] the claims
    verifier. *)
Definition Callback (hmac : string -> string -> string) (unmarshal : string -> option loginState)
    (net_url : url_lib) (exchange : string -> string -> result Token)
    (Verify : string -> result Claims) (t : moment) (ctx : C) (s : S) : C * S :=
  let ctx := noStore ctx in
  if negb (String.eqb (gin_Query ctx "error") "") then
    (BadRequest ctx [NewError "ERR_OIDC_CALLBACK" (gin_Query ctx "error_description") []], s)
  else
    match decodeState hmac unmarshal h (gin_Query ctx "state") (at_start t) with
    | Fail _ => (BadRequest ctx [NewError "ERR_OIDC_STATE" "Invalid or expired login state" []], s)
    | Ok loginState =>
        let code := gin_Query ctx "code" in
        if String.eqb code "" then
          (BadRequest ctx [NewError "ERR_OIDC_CALLBACK" "Missing authorization code" []], s)
        else
          match Flow_Exchange exchange code (Verifier loginState) with
          | Fail _ =>
              (Unauthorized ctx [NewError "ERR_OIDC_EXCHANGE"
                                   "Failed to exchange authorization code" []], s)
          | Ok token =>
              match Verify (tok_AccessToken token) with
              | Fail _ =>
                  (Unauthorized ctx [NewError "ERR_OIDC_CLAIMS" "Failed to read identity claims" []], s)
              | Ok claims =>
                  match Create (sessions_m h) s (uuid t) token claims (at_start t) (at_wall t)
                          (at_wall' t) with
                  | (s, Fail _) =>
                      (InternalServerError ctx [NewError "ERR_SESSION_CREATE"
                                                  "Failed to create session" []], s)
                  | (s, Ok session) =>
                      let ctx := applySession ctx session (at_end t) (random t) in
                      (gin_do ctx (Redirect 302 (resolveReturnTo net_url h (ReturnTo loginState))), s)
                  end
              end
          end
    end.

(** [Refresh]. A session of [None] is the nil pointer [applySession] would read;
    no store that keeps its contract gives it. *)
Definition Refresh (TokenSource : string -> result Token) (uuid_Parse : string -> bool) (t : moment)
    (ctx : C) (s : S) : C * S :=
  let ctx := noStore ctx in
  let missing := (Unauthorized ctx [NewError "ERR_MISSING_SESSION" "No session cookie present" []], s) in
  match gin_Cookie ctx (sessionName (cookies h)) with
  | None => missing
  | Some sessionID =>
      if String.eqb sessionID "" then missing
      else
        let '(s, _, r) := Resolve (sessions_m h) TokenSource uuid_Parse s sessionID
                            (at_start t) (at_wall t) (at_wall' t) in
        match r with
        | Fail _ =>
            (Unauthorized (clearSessionCookie ctx)
               [NewError "ERR_SESSION_INVALID" "Session is invalid or expired" []], s)
        | Ok (Some session) => (NoContent (applySession ctx session (at_end t) (random t)), s)
        | Ok None => (ctx, s)
        end
  end.

(** [Logout]; [Encode] is the query encoding. *)
Definition Logout (Encode : list (string * string) -> string) (ctx : C) (s : S) : C * S :=
  let ctx := noStore ctx in
  let sessionID := default "" (gin_Cookie ctx (sessionName (cookies h))) in
  let '(s, idToken) :=
    if negb (String.eqb sessionID "") then
      let '(s, r) := Sessions.Peek s sessionID in
      let idToken := match r with Ok x => IDToken (Tokens x) | Fail _ => "" end in
      ((Sessions.Delete s sessionID).1, idToken)
    else (s, "") in
  let logoutURL := EndSessionURL Encode (flow_endSessionURL h) (flow_clientID h) idToken
                     (postLogoutRedirectURI h) in
  let logoutURL := if String.eqb logoutURL "" then postLogoutRedirectURI h else logoutURL in
  let ctx := clearSessionCookie ctx in
  (OK ctx (PObject [("logout_url", PString logoutURL)]) [], s).

Definition Me (ctx : C) : C :=
  let ctx := noStore ctx in
  match ClaimsFromContext ctx with
  | None =>
      Unauthorized ctx [NewError "ERR_INVALID_TOKEN" "Authorization token is invalid or expired" []]
  | Some claims =>
      let roles := default [] (ResourceAccess claims !! auth_clientID h ≫= (.!! "roles")) in
      OK ctx (PObject [("sub", PString (Sub claims)); ("email", PString (Email claims));
                       ("name", PString (OidcTypes.Name claims));
                       ("preferred_username", PString (PreferredUsername claims));
                       ("client_roles", PStrings roles)]) []
  end.
End Handlers.

(** ** Theorems *)

(** What net/url documents of references (RFC 3986, section 5.2): a text that starts
    with one slash names no scheme and no host, and a reference that names neither
    is resolved to a URL with the scheme and the host of the base. *)
Record url_laws (net_url : url_lib) : Prop := {
  rooted_reference p u :
    HasPrefix p "/" = true -> HasPrefix p "//" = false -> url_Parse net_url p = Some u ->
    url_Scheme net_url u = "" /\ url_Host net_url u = "";
  resolved_on_base b base p rel :
    url_Parse net_url b = Some base -> url_Scheme net_url base <> "" -> url_Host net_url base <> "" ->
    url_Parse net_url p = Some rel -> url_Scheme net_url rel = "" -> url_Host net_url rel = "" ->
    exists u, url_Parse net_url (url_ResolveReference net_url base rel) = Some u
      /\ url_Scheme net_url u = url_Scheme net_url base /\ url_Host net_url u = url_Host net_url base;
}.

Lemma sanitizeReturnTo_rooted (raw : string) :
  HasPrefix (sanitizeReturnTo raw) "/" = true /\ HasPrefix (sanitizeReturnTo raw) "//" = false.
Proof.
  unfold sanitizeReturnTo. destruct raw as [|c t]; [done|].
  destruct (Ascii.eqb_spec c "/") as [->|Hc]; simpl negb; cbn [orb]; [|done].
  destruct (HasPrefix (String "/" t) "//") eqn:Hp; simpl orb; [done|].
  destruct (Contains (String "/" t) "://"); [done|]. split; [by destruct t|exact Hp].
Qed.

(** [C25] A login ends on the frontend.  Whatever return path a login was asked for,
    the target of the redirect after it is the configured frontend address itself,
    or, when that is an absolute URL, a URL with its scheme and its host.  What is
    kept of the request is no more than this needs: [sanitizeReturnTo] alone does
    not make it a same-origin path in the eyes of a browser
    ([sanitizeReturnTo_keeps_backslash]). *)
Theorem login_ends_on_frontend (net_url : url_lib) (h : Auth) (raw : string) :
  url_laws net_url ->
  let target := resolveReturnTo net_url h (sanitizeReturnTo raw) in
  target = postLoginRedirectURI h
  \/ exists base u, url_Parse net_url (postLoginRedirectURI h) = Some base
       /\ url_Scheme net_url base <> "" /\ url_Host net_url base <> ""
       /\ url_Parse net_url target = Some u
       /\ url_Scheme net_url u = url_Scheme net_url base /\ url_Host net_url u = url_Host net_url base.
Proof.
  intros Hlaws target. unfold target, resolveReturnTo.
  destruct (url_Parse net_url (postLoginRedirectURI h)) as [base|] eqn:Eb; [|by left].
  destruct (string_eqb_spec (url_Scheme net_url base) "") as [|Hs]; [by left|].
  destruct (string_eqb_spec (url_Host net_url base) "") as [|Hh]; [by left|]. cbn [orb].
  destruct (url_Parse net_url (sanitizeReturnTo raw)) as [rel|] eqn:Er; [|by left]. right.
  destruct (sanitizeReturnTo_rooted raw) as [Hr1 Hr2].
  destruct (rooted_reference _ Hlaws _ _ Hr1 Hr2 Er) as [Hrs Hrh].
  destruct (resolved_on_base _ Hlaws _ _ _ _ Eb Hs Hh Er Hrs Hrh) as (u & Hu & Hus & Huh).
  by exists base, u.
Qed.

(** Texts that browsers, unlike RFC 3986, read as "//evil.example" are kept. *)
Lemma sanitizeReturnTo_keeps_backslash :
  sanitizeReturnTo "/\evil.example" = "/\evil.example"
  /\ sanitizeReturnTo (String "/" (String (Ascii.ascii_of_nat 9) "/evil.example"))
     = String "/" (String (Ascii.ascii_of_nat 9) "/evil.example").
Proof. by vm_compute. Qed.

(** A net/url for evaluation, of a frontend at https://app: a URL is its scheme, its
    host and its path. *)
Definition frontend_url : url_lib := mkUrlLib (string * string * string)
  (fun s => if HasPrefix s "https://app" then Some ("https", "app", str_drop 11 s)
            else if HasPrefix s "//" then Some ("", str_drop 2 s, "")
            else if HasPrefix s "/" then Some ("", "", s) else None)
  (fun u => u.1.1) (fun u => u.1.2)
  (fun base rel => if String.eqb rel.1.2 "" then base.1.1 +:+ "://" +:+ base.1.2 +:+ rel.2
                   else base.1.1 +:+ "://" +:+ rel.1.2).

Lemma frontend_url_laws : url_laws frontend_url.
Proof.
  split; cbn.
  - intros p u Hp Hn. destruct (HasPrefix p "https://app") eqn:E.
    { apply HasPrefix_spec in Hp as [t ->]. done. }
    rewrite Hn, Hp. by intros [= <-].
  - intros b [[bs bh] bp] p [[rs rh] rp]. cbn. intros Hb Hs Hh _ _ ->. cbn.
    destruct (HasPrefix b "https://app") eqn:E; [|destruct (HasPrefix b "//"); [|destruct (HasPrefix b "/")]];
      simplify_eq.
    exists ("https", "app", rp). by destruct rp.
Qed.

Lemma login_ends_on_frontend_witness :
  let h := mkAuth demo_manager "" "" (mkCookieOptions "" "" true 0 "" "") "" "https://app/home" "" "" in
  let target raw := resolveReturnTo frontend_url h (sanitizeReturnTo raw) in
  target "/inbox" = "https://app/inbox" /\ target "//evil.example" = "https://app/"
  /\ (target "//evil.example" = "https://app/home"
      \/ exists base u, url_Parse frontend_url "https://app/home" = Some base
           /\ url_Scheme frontend_url base <> "" /\ url_Host frontend_url base <> ""
           /\ url_Parse frontend_url (target "//evil.example") = Some u
           /\ url_Scheme frontend_url u = url_Scheme frontend_url base
           /\ url_Host frontend_url u = url_Host frontend_url base).
Proof.
  intros h target. split; [vm_compute; reflexivity|]. split; [vm_compute; reflexivity|].
  exact (login_ends_on_frontend frontend_url h "//evil.example" frontend_url_laws).
Defined.

(** [C8] The login state survives the trip through the browser.  What [Login]
    put in comes back out, the PKCE verifier and the return path, until ten
    minutes have passed and not later; and nothing comes out of a state unless
    its signature is the one the server makes, so no other party can choose
    either. *)
Theorem login_state_roundtrip (hmac : string -> string -> string) (marshal : loginState -> string)
    (unmarshal : string -> option loginState) (h : Auth) (verifier returnTo : string) (now now' : Z) :
  let exp := Unix (now + loginStateTTL) in
  (forall k m, hmac k m <> "") ->
  marshal (mkLoginState verifier returnTo exp) <> "" ->
  unmarshal (marshal (mkLoginState verifier returnTo exp)) = Some (mkLoginState verifier returnTo exp) ->
  verifier <> "" ->
  (decodeState hmac unmarshal h (encodeState hmac marshal h verifier returnTo now) now'
   = if exp <? Unix now' then Fail errInvalidLoginState else Ok (mkLoginState verifier returnTo exp))
  /\ forall raw ls, decodeState hmac unmarshal h raw now' = Ok ls ->
       exists encoded, raw = encoded +:+ "." +:+ signState hmac h encoded
         /\ DecodeString encoded ≫= unmarshal = Some ls
         /\ Unix now' <= ls_Exp ls /\ Verifier ls <> "".
Proof.
  cbv zeta. intros Hmac Hne Hls Hv. split.
  - unfold encodeState, decodeState, time_Add.
    set (ls := mkLoginState verifier returnTo (Unix (now + loginStateTTL))) in *.
    set (enc := EncodeToString (marshal ls)).
    change (enc +:+ "." +:+ signState hmac h enc) with (enc +:+ String "." (signState hmac h enc)).
    rewrite Cut_no_sep by apply EncodeToString_no_dot.
    destruct (string_eqb_spec enc "") as [He|_]; [by apply EncodeToString_nil in He|].
    destruct (string_eqb_spec (signState hmac h enc) "") as [He|_].
    { apply EncodeToString_nil in He. by apply Hmac in He. }
    cbn [orb]. rewrite String.eqb_refl. cbn [negb].
    unfold enc at 1. rewrite DecodeString_EncodeToString, Hls.
    destruct (string_eqb_spec (Verifier ls) "") as [He|_]; [done|]. done.
  - intros raw ls. unfold decodeState.
    destruct (Cut raw ".") as [[enc sig]|] eqn:Hc; [|done].
    destruct (_ || _); [done|].
    destruct (string_eqb_spec sig (signState hmac h enc)) as [->|]; [|done]. cbn [negb].
    destruct (DecodeString enc) as [payload|] eqn:Hd; [|done].
    destruct (unmarshal payload) as [ls'|] eqn:Hu; [|done].
    destruct (string_eqb_spec (Verifier ls') ""), (Z.ltb_spec (ls_Exp ls') (Unix now')); try done.
    intros [= <-]. exists enc. split; [by apply Cut_Some in Hc|]. by rewrite Hd.
Qed.

(** A codec for evaluation. *)
Definition demo_marshal (ls : loginState) : string :=
  EncodeToString (Verifier ls) +:+ "." +:+ EncodeToString (ReturnTo ls) +:+ "." +:+ Itoa (ls_Exp ls).
Definition demo_unmarshal (s : string) : option loginState :=
  '(v, rest) ← Cut s "."; '(r, e) ← Cut rest ".";
  v ← DecodeString v; r ← DecodeString r; e ← Atoi e; Some (mkLoginState v r e).
Definition demo_hmac (key message : string) : string := "mac of " +:+ message +:+ " under " +:+ key.
Definition demo_cookies : AuthCookieOptions := mkCookieOptions "" "" true 0 "" "".
Definition demo_auth : Auth :=
  default (mkAuth demo_manager "" "" demo_cookies "" "" "" "")
    (NewAuth demo_manager "app" "https://issuer/logout" "app" demo_cookies "https://front/" "https://front/bye"
       "key").

Lemma login_state_roundtrip_witness :
  decodeState demo_hmac demo_unmarshal demo_auth
    (encodeState demo_hmac demo_marshal demo_auth "pkce" "/orders" noon) (noon + 9 * Minute)
  = Ok (mkLoginState "pkce" "/orders" (Unix (noon + 10 * Minute)))
  /\ is_Ok (decodeState demo_hmac demo_unmarshal demo_auth
       (encodeState demo_hmac demo_marshal demo_auth "pkce" "/orders" noon +:+ "x") (noon + 9 * Minute))
     = false.
Proof.
  split; [|vm_compute; reflexivity].
  destruct (login_state_roundtrip demo_hmac demo_marshal demo_unmarshal demo_auth "pkce" "/orders" noon
              (noon + 9 * Minute)) as [H _].
  - intros k m. discriminate.
  - vm_compute. discriminate.
  - vm_compute. reflexivity.
  - discriminate.
  - rewrite H. vm_compute. reflexivity.
Defined.

Section HandlerTheorems.
Context {C A S : Type} `{GinContextOk C (value A)} `{SessionStoreOk S}.

(** What the browser is told to keep for a session. *)
Definition session_cookies (h : Auth) (x : Session) (now : Z) (random : string) : list gin_call :=
  let keep (name val : string) (httpOnly : bool) :=
    SetCookie (mkCookie name val (Path (cookies h)) (Domain (cookies h))
      (float_to_int64 (duration_Seconds (Z.max 0 (time_Sub (ExpiresAt x) now))))
      (Secure (cookies h)) httpOnly (SameSite (cookies h))) in
  [keep (sessionName (cookies h)) (ID x) true;
   keep (csrfName (cookies h)) (EncodeToString random) false].

Definition cleared_cookies (h : Auth) : list gin_call :=
  let drop (name : string) :=
    SetCookie (mkCookie name "" (Path (cookies h)) (Domain (cookies h)) (-1) (Secure (cookies h))
                 false (SameSite (cookies h))) in
  [drop (sessionName (cookies h)); drop (csrfName (cookies h))].

Definition no_store : gin_call := SetHeader "Cache-Control" "no-store".

Lemma applySession_calls h (ctx : C) x now rnd :
  gin_calls (applySession h ctx x now rnd) = gin_calls ctx ++ session_cookies h x now rnd.
Proof.
  unfold applySession, setCookie, session_cookies. rewrite !gin_calls_do, <- app_assoc. simpl.
  assert ((if time_Sub (ExpiresAt x) now <? 0 then 0 else time_Sub (ExpiresAt x) now)
          = Z.max 0 (time_Sub (ExpiresAt x) now)) as ->; [|done].
  case_ltb; lia.
Qed.

Lemma clearSessionCookie_calls h (ctx : C) :
  gin_calls (clearSessionCookie h ctx) = gin_calls ctx ++ cleared_cookies h.
Proof. unfold clearSessionCookie, clearCookie. by rewrite !gin_calls_do, <- app_assoc. Qed.
End HandlerTheorems.

(** [C7] How a login ends.  When the issuer reported no error, the state is one
    [Login] signed and still fresh, there is a code, the issuer exchanges it for
    this state's verifier and the claims can be read, exactly one session is
    created, under a fresh identifier, and the browser gets two cookies, the
    identifier, out of reach of scripts, and a CSRF token, and is sent to the
    return path; no token is in anything it is given.  In every other case the
    store is as it was, no cookie is set, and the answer is 400 or 401. *)
Theorem Callback_decides {C A S} `{GinContextOk C (value A)} `{SessionStoreOk S} (h : Auth)
    hmac unmarshal net_url exchange (Verify : string -> result Claims) (t : moment) (ctx : C) (s : S) :
  let '(ctx', s') := Callback h hmac unmarshal net_url exchange Verify t ctx s in
  let completes (ls : loginState) (token : Token) (claims : Claims) :=
    gin_Query ctx "error" = ""
    /\ decodeState hmac unmarshal h (gin_Query ctx "state") (at_start t) = Ok ls
    /\ gin_Query ctx "code" <> ""
    /\ exchange (gin_Query ctx "code") (Verifier ls) = Ok token
    /\ Verify (tok_AccessToken token) = Ok claims in
  (forall ls token claims, completes ls token claims ->
     exists x, ID x = uuid t /\ sess_Claims x = claims /\ AccessToken (Tokens x) = tok_AccessToken token
       /\ sessions s' = <[uuid t := x]> (sessions s)
       /\ gin_calls ctx' = gin_calls ctx ++ [no_store] ++ session_cookies h x (at_end t) (random t)
                           ++ [Redirect 302 (resolveReturnTo net_url h (ReturnTo ls))])
  /\ ((forall ls token claims, ~ completes ls token claims) ->
       sessions s' = sessions s
       /\ exists status body, status ∈ [400; 401]
            /\ gin_calls ctx' = gin_calls ctx ++ [no_store; AbortWithStatusJSON status body]).
Proof.
  unfold Callback, Flow_Exchange, noStore. rewrite !gin_Query_do.
  assert (Hrefuse : forall status body, status ∈ [400; 401] ->
    sessions s = sessions s /\ exists st b, st ∈ [400; 401]
      /\ gin_calls (gin_do (gin_do ctx no_store) (AbortWithStatusJSON status body))
         = gin_calls ctx ++ [no_store; AbortWithStatusJSON st b]).
  { intros st b Hst. split; [done|]. exists st, b. by rewrite !gin_calls_do, <- app_assoc. }
  destruct (string_eqb_spec (gin_Query ctx "error") "") as [He|He]; cbn [negb].
  2: { split; [intros ? ? ? (? & ? & ? & ? & ?); congruence|]. intros _. apply Hrefuse. set_solver. }
  destruct (decodeState _ _ _ _ _) as [ls|e] eqn:Hd.
  2: { split; [intros ? ? ? (? & ? & ? & ? & ?); congruence|]. intros _. apply Hrefuse. set_solver. }
  destruct (string_eqb_spec (gin_Query ctx "code") "") as [Hc|Hc].
  { split; [intros ? ? ? (? & ? & ? & ? & ?); congruence|]. intros _. apply Hrefuse. set_solver. }
  destruct (exchange _ _) as [token|e] eqn:Hx; cbn [map_err].
  2: { split; [intros ? ? ? (? & ? & ? & ? & ?); congruence|]. intros _. apply Hrefuse. set_solver. }
  destruct (Verify _) as [claims|e] eqn:Hv.
  2: { split; [intros ? ? ? (? & ? & ? & ? & ?); congruence|]. intros _. apply Hrefuse. set_solver. }
  unfold Create. match goal with |- context [st_Create s ?x] => set (x0 := x) end.
  destruct (st_Create_ok s x0) as [Hs Herr]. destruct (st_Create s x0) as [s1 err]. simpl in Hs, Herr.
  subst err. split; [|intros Hno; exfalso; by eapply Hno].
  intros ls' token' claims' (_ & [= <-] & _ & Hx' & Hv').
  assert (token' = token) as -> by congruence. assert (claims' = claims) as -> by congruence.
  exists x0. split; [done|]. split; [done|]. split; [done|]. split; [exact Hs|].
  rewrite gin_calls_do, applySession_calls, gin_calls_do, <- !app_assoc. done.
Qed.

Definition browser (query cookies : gmap string string) : test_context (value Z) :=
  TestContext "GET" ∅ cookies query ∅ [].
Definition some_moment : moment := mkMoment (noon + Minute) noon noon (noon + Minute) "sid" "abc".
Definition no_url : url_lib := mkUrlLib unit (fun _ => None) (fun _ => "") (fun _ => "") (fun _ _ => "").
Definition returning : test_context (value Z) :=
  browser {["state" := encodeState demo_hmac demo_marshal demo_auth "pkce" "/orders" noon; "code" := "c"]} ∅.

Lemma Callback_decides_witness :
  let '(ctx', s') := Callback demo_auth demo_hmac demo_unmarshal no_url (fun _ _ => Ok demo_token)
                       (fun _ => Ok some_claims) some_moment returning (∅ : gmap string Session) in
  exists x, ID x = "sid" /\ s' = {["sid" := x]}
    /\ gin_calls ctx' = [no_store] ++ session_cookies demo_auth x (noon + Minute) "abc"
                        ++ [Redirect 302 "https://front/"].
Proof.
  pose proof (Callback_decides demo_auth demo_hmac demo_unmarshal no_url (fun _ _ => Ok demo_token)
                (fun _ => Ok some_claims) some_moment returning (∅ : gmap string Session)) as H.
  destruct (Callback _ _ _ _ _ _ _ _ _) as [ctx' s']. destruct H as [H _].
  destruct (H (mkLoginState "pkce" "/orders" (Unix (noon + 10 * Minute))) demo_token some_claims)
    as (x & Hid & _ & _ & Hs & Hc).
  - split; [vm_compute; reflexivity|]. split; [vm_compute; reflexivity|].
    split; [vm_compute; discriminate|]. split; vm_compute; reflexivity.
  - exists x. split; [exact Hid|]. split; [exact Hs|exact Hc].
Defined.

(** What a refresh and a logout leave behind.  [Refresh] renews both cookies
    from the resolved session, or, when the session cannot be used any more,
    clears both and answers 401, and the session is gone from the store.
    [Logout] always succeeds: it removes the session the cookie names, clears
    both cookies and answers with the issuer's logout address, carrying the
    identity token when the session was still there to give it. *)
Theorem Refresh_Logout_decide {C A S} `{GinContextOk C (value A)} `{SessionStoreOk S} (h : Auth)
    (TokenSource : string -> result Token) (uuid_Parse : string -> bool)
    (Encode : list (string * string) -> string) (t : moment) (ctx : C) (s : S) (id : string) :
  gin_Cookie ctx (sessionName (cookies h)) = Some id -> id <> "" -> uuid_Parse id = true ->
  let m := sessions_m h in
  (let '(ctx', s') := Refresh h TokenSource uuid_Parse t ctx s in
   match sessions s !! id with
   | Some x =>
       if usable m TokenSource x (at_start t) then
         let x' := carried_on m TokenSource x (at_start t) (at_wall t) (at_wall' t) in
         sessions s' = <[id := x']> (sessions s)
         /\ gin_calls ctx' = gin_calls ctx ++ [no_store] ++ session_cookies h x' (at_end t) (random t)
                             ++ [SetStatus 204]
       else sessions s' = delete id (sessions s)
            /\ exists body, gin_calls ctx' = gin_calls ctx ++ [no_store] ++ cleared_cookies h
                                             ++ [AbortWithStatusJSON 401 body]
   | None => sessions s' = sessions s
             /\ exists body, gin_calls ctx' = gin_calls ctx ++ [no_store] ++ cleared_cookies h
                                              ++ [AbortWithStatusJSON 401 body]
   end)
  /\ (let '(ctx', s') := Logout h Encode ctx s in
      let idToken := match sessions s !! id with Some x => IDToken (Tokens x) | None => "" end in
      let issuer := EndSessionURL Encode (flow_endSessionURL h) (flow_clientID h) idToken
                      (postLogoutRedirectURI h) in
      let url := if decide (issuer = "") then postLogoutRedirectURI h else issuer in
      sessions s' = delete id (sessions s)
      /\ exists body, resp_Data body = PObject [("logout_url", PString url)] /\ Success body = true
           /\ gin_calls ctx' = gin_calls ctx ++ [no_store] ++ cleared_cookies h ++ [JSON 200 body]).
Proof.
  intros Hck Hne Hu. cbv zeta. split.
  - unfold Refresh, noStore. rewrite gin_Cookie_do, Hck.
    destruct (string_eqb_spec id "") as [|_]; [done|].
    assert (Hout : forall c body, gin_calls (Unauthorized (clearSessionCookie h (gin_do ctx no_store)) [NewError c body []])
      = gin_calls ctx ++ [no_store] ++ cleared_cookies h
        ++ [AbortWithStatusJSON 401 (errorResponse [NewError c body []] msgUnauthorized)]).
    { intros. unfold Unauthorized. by rewrite gin_calls_do, clearSessionCookie_calls, gin_calls_do, <- !app_assoc. }
    destruct (sessions s !! id) as [x|] eqn:Hx.
    + pose proof (Resolve_stored (sessions_m h) TokenSource uuid_Parse s id x (at_start t) (at_wall t)
                    (at_wall' t) Hu Hx) as Hr.
      destruct (Resolve _ _ _ _ _ _ _ _) as [[s1 pres] r]. destruct Hr as [_ Hr].
      destruct (usable _ _ _ _).
      * destruct Hr as [-> Hs]. split; [exact Hs|]. unfold NoContent.
        by rewrite gin_calls_do, applySession_calls, gin_calls_do, <- !app_assoc.
      * destruct Hr as [Hf Hs]. destruct r as [|e]; [done|]. split; [exact Hs|]. eexists. apply Hout.
    + pose proof (Resolve_absent (sessions_m h) TokenSource uuid_Parse s id (at_start t) (at_wall t)
                    (at_wall' t) Hu Hx) as Hr.
      destruct (Resolve _ _ _ _ _ _ _ _) as [[s1 pres] r]. destruct Hr as (_ & Hf & Hs).
      destruct r as [|e]; [done|]. split; [exact Hs|]. eexists. apply Hout.
  - unfold Logout, noStore. rewrite gin_Cookie_do, Hck. simpl default.
    destruct (string_eqb_spec id "") as [|_]; [done|]. cbn [negb]. unfold Sessions.Peek, Sessions.Delete.
    destruct (st_Get_ok s id) as [Hs Hg]. destruct (st_Get s id) as [s1 r]. simpl in Hs, Hg.
    destruct (st_Delete_ok s1 id) as [Hd _].
    assert (Htok : match r with Ok x => IDToken (Tokens x) | Fail _ => "" end
                   = match sessions s !! id with Some x => IDToken (Tokens x) | None => "" end).
    { destruct (sessions s !! id); [by rewrite Hg|]. by destruct r. }
    rewrite Htok. split; [by rewrite Hd, Hs|]. unfold OK. eexists. split; [|split].
    3: { by rewrite gin_calls_do, clearSessionCookie_calls, gin_calls_do, <- !app_assoc. }
    2: reflexivity.
    match goal with |- context [decide (?u = "")] => destruct (string_eqb_spec u ""), (decide (u = "")) end;
      done.
Qed.

Lemma Refresh_Logout_decide_witness :
  let ctx := browser ∅ {["session_id" := "sid"]} in
  let '(ctx', s') := Logout demo_auth (fun _ => "q") ctx role_store in
  s' = delete "sid" role_store
  /\ exists body, resp_Data body = PObject [("logout_url", PString "https://issuer/logout?q")]
       /\ gin_calls ctx' = [no_store] ++ cleared_cookies demo_auth ++ [JSON 200 body].
Proof.
  intros ctx.
  assert (gin_Cookie ctx (sessionName (cookies demo_auth)) = Some "sid") as Hck by (vm_compute; reflexivity).
  destruct (Refresh_Logout_decide demo_auth demo_issuer (fun _ => true) (fun _ => "q") some_moment ctx
              role_store "sid" Hck ltac:(discriminate) eq_refl) as [_ H].
  destruct (Logout _ _ _ _) as [ctx' s']. destruct H as [Hs (body & Hd & _ & Hc)].
  split; [exact Hs|]. exists body. split; [exact Hd|exact Hc].
Defined.
