(* ===== verification/RateLimit.v ===== *)
(** * httpserver/middlewares/rate_limit.go: a token bucket per client

    The buckets themselves are golang.org/x/time/rate's, known by the calls made
    on them ([RateLimiter]); this file models the table that gives every client
    its own, retunes them all when the policy changes and forgets idle ones. *)
From S2P Require Import Prelude GoNum GoText Respond.
From stdpp Require Import fin_maps sorting.
Local Open Scope Z_scope.

(** [rate.Limiter]; every call but the constructor reads the clock. *)
Class RateLimiter (L : Type) := {
  rate_NewLimiter : float64 -> Z -> L;
  rate_Allow : L -> Z -> L * bool;
  rate_SetLimit : L -> float64 -> Z -> L;
  rate_SetBurst : L -> Z -> Z -> L;
}.

Definition rateLimitIdleTimeout : Z := 10 * Minute.

Record RateLimitOptions := mkRateLimitOptions { RequestsPerMinute : Z; Burst : Z }.

Definition WithDefaults (o : RateLimitOptions) (requestsPerMinute burst : Z) : RateLimitOptions :=
  mkRateLimitOptions
    (if RequestsPerMinute o <=? 0 then requestsPerMinute else RequestsPerMinute o)
    (if Burst o <=? 0 then burst else Burst o).

(** [rate.Limit(float64(requestsPerMinute) / 60)]. *)
Definition per_second (requestsPerMinute : Z) : float64 :=
  fdiv (float_of_int requestsPerMinute) (float_of_int 60).

Section Limiter.
Context {L : Type} `{RateLimiter L}.

Record ipLimiterEntry := mkLimiterEntry { limiter : L; lastSeen : Z }.

Record ipRateLimiter := mkLimiter {
  limiters : gmap string ipLimiterEntry;
  rps : float64;
  burst : Z;
  lastEvict : Z;
}.

Definition newIPRateLimiter (requestsPerMinute burst now : Z) : ipRateLimiter :=
  mkLimiter ∅ (per_second requestsPerMinute) burst now.

(** [retune]; [now] is the instant the buckets read. *)
Definition retune (l : ipRateLimiter) (opts : RateLimitOptions) (now : Z) : ipRateLimiter :=
  let rps' := per_second (RequestsPerMinute opts) in
  if feq (rps l) rps' && (burst l =? Burst opts) then l
  else
    mkLimiter
      ((fun e => mkLimiterEntry (rate_SetBurst (rate_SetLimit (limiter e) rps' now) (Burst opts) now)
                   (lastSeen e)) <$> limiters l)
      rps' (Burst opts) (lastEvict l).

Definition evictIfDue (l : ipRateLimiter) (now : Z) : ipRateLimiter :=
  if time_Sub now (lastEvict l) <? rateLimitIdleTimeout then l
  else
    mkLimiter
      (filter (fun '(_, e) => (rateLimitIdleTimeout <? time_Sub now (lastSeen e)) = false) (limiters l))
      (rps l) (burst l) now.

(** The three readings of the clock of one call: for the sweep, for [lastSeen],
    by the bucket. *)
Record readings := mkReadings { r_evict : Z; r_seen : Z; r_allow : Z }.

Definition allow (l : ipRateLimiter) (key : string) (t : readings) : ipRateLimiter * bool :=
  let l := evictIfDue l (r_evict t) in
  let bucket := match limiters l !! key with
                | Some entry => limiter entry
                | None => rate_NewLimiter (rps l) (burst l)
                end in
  let '(bucket, ok) := rate_Allow bucket (r_allow t) in
  (mkLimiter (<[key := mkLimiterEntry bucket (r_seen t)]> (limiters l)) (rps l) (burst l) (lastEvict l), ok).

(** The handler; [policy] is what the provider returns, [None] without one, and
    [clientIP] the framework's answer to who is calling. *)
Definition middleware {C V} `{GinContext C V} (policy : option RateLimitOptions) (clientIP : string)
    (t_retune : Z) (t : readings) (ctx : C) (l : ipRateLimiter) : C * ipRateLimiter :=
  let l := match policy with Some opts => retune l opts t_retune | None => l end in
  let '(l, ok) := allow l clientIP t in
  if negb ok then (TooManyRequests ctx [], l) else (gin_do ctx Next, l).

(** [RateLimitByIP] and [RateLimitByIPProvider]: the limiter each constructor
    makes and the handler on it. The first never retunes; the second starts
    with no rate and no burst, and asks [provider] before every request. *)
Definition RateLimitByIP {C V} `{GinContext C V} (opts : RateLimitOptions) (now : Z)
  : ipRateLimiter * (string -> readings -> C -> ipRateLimiter -> C * ipRateLimiter) :=
  (newIPRateLimiter (RequestsPerMinute opts) (Burst opts) now,
   fun clientIP t ctx l => middleware None clientIP (r_evict t) t ctx l).

Definition RateLimitByIPProvider {C V} `{GinContext C V} (now : Z)
  : ipRateLimiter
    * (RateLimitOptions -> string -> Z -> readings -> C -> ipRateLimiter -> C * ipRateLimiter) :=
  (newIPRateLimiter 0 0 now,
   fun provided clientIP t_retune t ctx l => middleware (Some provided) clientIP t_retune t ctx l).

(** ** The limiter at work *)

Inductive rl_event : Type :=
| Request (key : string) (t : readings)
| Retune (opts : RateLimitOptions) (now : Z).

Definition rl_step (l : ipRateLimiter) (ev : rl_event) : ipRateLimiter :=
  match ev with
  | Request key t => (allow l key t).1
  | Retune opts now => retune l opts now
  end.
Definition rl_run (l : ipRateLimiter) (evs : list rl_event) : ipRateLimiter := fold_left rl_step evs l.

(** One client on its own: the policy in force and its bucket, once it has one.
    Nothing another client does appears here. *)
Definition solo_step (key : string) (st : float64 * Z * option L) (ev : rl_event)
  : float64 * Z * option L :=
  let '(r, b, bucket) := st in
  match ev with
  | Request key' t =>
      if decide (key' = key)
      then (r, b, Some (rate_Allow (default (rate_NewLimiter r b) bucket) (r_allow t)).1)
      else st
  | Retune opts now =>
      let r' := per_second (RequestsPerMinute opts) in
      if feq r r' && (b =? Burst opts) then st
      else (r', Burst opts,
            (fun l => rate_SetBurst (rate_SetLimit l r' now) (Burst opts) now) <$> bucket)
  end.
Definition solo_run (key : string) (r : float64) (b : Z) (evs : list rl_event) : float64 * Z * option L :=
  fold_left (solo_step key) evs (r, b, None).

(** ** Lemmas *)

Lemma rl_run_snoc l evs ev : rl_run l (evs ++ [ev]) = rl_step (rl_run l evs) ev.
Proof. unfold rl_run. by rewrite fold_left_app. Qed.
Lemma solo_run_snoc key r b evs ev :
  solo_run key r b (evs ++ [ev]) = solo_step key (solo_run key r b evs) ev.
Proof. unfold solo_run. by rewrite fold_left_app. Qed.

Lemma solo_run_first key r b t :
  (solo_run key r b [Request key t]).2 = Some (rate_Allow (rate_NewLimiter r b) (r_allow t)).1.
Proof. unfold solo_run. cbn [fold_left solo_step]. by rewrite decide_True. Qed.

Lemma evictIfDue_policy l now : rps (evictIfDue l now) = rps l /\ burst (evictIfDue l now) = burst l.
Proof. unfold evictIfDue. by destruct (_ <? _). Qed.

(** A sweep keeps a bucket as it is, or drops it. *)
Lemma evictIfDue_lookup l now key :
  limiters (evictIfDue l now) !! key = limiters l !! key \/ limiters (evictIfDue l now) !! key = None.
Proof.
  unfold evictIfDue. destruct (_ <? _); [by left|]. simpl.
  destruct (filter _ _ !! key) as [e|] eqn:E; [|by right].
  apply map_lookup_filter_Some in E as [E _]. by left.
Qed.

Definition bucket_of (l : ipRateLimiter) (key : string) : option L := limiter <$> limiters l !! key.

(** What [allow] does to the bucket of any client. *)
Lemma allow_bucket l key t key' :
  bucket_of (allow l key t).1 key'
  = if decide (key = key')
    then Some (rate_Allow (default (rate_NewLimiter (rps l) (burst l))
                 (bucket_of (evictIfDue l (r_evict t)) key)) (r_allow t)).1
    else bucket_of (evictIfDue l (r_evict t)) key'.
Proof.
  unfold allow, bucket_of. destruct (evictIfDue_policy l (r_evict t)) as [-> ->].
  destruct (limiters (evictIfDue l (r_evict t)) !! key) as [e|]; simpl;
    destruct (rate_Allow _ _) as [b ok]; simpl;
    (destruct (decide (key = key')) as [->|Hne];
     [by rewrite lookup_insert_eq|by rewrite lookup_insert_ne]).
Qed.

Lemma allow_policy l key t : rps (allow l key t).1 = rps l /\ burst (allow l key t).1 = burst l.
Proof.
  unfold allow. destruct (evictIfDue_policy l (r_evict t)) as [Hr Hb].
  destruct (rate_Allow _ _). simpl. by rewrite Hr, Hb.
Qed.

(** The policy in force depends on the retunings alone. *)
Lemma solo_policy key l0 evs :
  (solo_run key (rps l0) (burst l0) evs).1 = (rps (rl_run l0 evs), burst (rl_run l0 evs)).
Proof.
  induction evs as [|ev evs IH] using rev_ind; [done|].
  rewrite rl_run_snoc, solo_run_snoc. destruct (solo_run _ _ _ evs) as [[r b] bk].
  simpl in IH. injection IH as -> ->. destruct ev as [k t|opts now]; simpl.
  - destruct (allow_policy (rl_run l0 evs) k t) as [-> ->]. by destruct (decide (k = key)).
  - unfold retune. by destruct (feq _ _ && _).
Qed.

(** When a client was last seen. *)
Definition last_seen (key : string) (evs : list rl_event) : option Z :=
  fold_left (fun seen ev => match ev with
                            | Request key' t => if decide (key' = key) then Some (r_seen t) else seen
                            | Retune _ _ => seen
                            end) evs None.

(** A client may be forgotten between [before] and what comes next only if it had
    not been seen at all, or if what comes next is a request, of any client, at
    whose sweep it was last seen longer ago than the idle timeout. *)
Definition forgotten (key : string) (before since : list rl_event) : Prop :=
  match last_seen key before with
  | None => True
  | Some seen => exists key' t rest, since = Request key' t :: rest
                   /\ rateLimitIdleTimeout < time_Sub (r_evict t) seen
  end.

Lemma last_seen_snoc key evs ev :
  last_seen key (evs ++ [ev])
  = match ev with
    | Request key' t => if decide (key' = key) then Some (r_seen t) else last_seen key evs
    | Retune _ _ => last_seen key evs
    end.
Proof. unfold last_seen. by rewrite fold_left_app. Qed.

Lemma forgotten_more key before since ev : forgotten key before since -> forgotten key before (since ++ [ev]).
Proof.
  unfold forgotten. destruct (last_seen key before); [|done].
  intros (key' & t & rest & -> & Hidle). by exists key', t, (rest ++ [ev]).
Qed.

(** A sweep keeps an entry, or drops one that has been idle too long. *)
Lemma evictIfDue_entry l now key e :
  limiters l !! key = Some e ->
  limiters (evictIfDue l now) !! key = Some e
  \/ limiters (evictIfDue l now) !! key = None /\ rateLimitIdleTimeout < time_Sub now (lastSeen e).
Proof.
  intros He. unfold evictIfDue. destruct (_ <? _); [by left|]. simpl.
  destruct (Z.ltb_spec rateLimitIdleTimeout (time_Sub now (lastSeen e))) as [Hlt|Hge].
  - right. split; [|done]. apply map_lookup_filter_None. right. intros e' He' Hf.
    rewrite He in He'. injection He' as <-. apply Z.ltb_ge in Hf. lia.
  - left. apply map_lookup_filter_Some. split; [done|]. by apply Z.ltb_ge.
Qed.

Lemma evictIfDue_client l now key :
  limiters (evictIfDue l now) !! key = limiters l !! key
  \/ exists e, limiters l !! key = Some e /\ limiters (evictIfDue l now) !! key = None
       /\ rateLimitIdleTimeout < time_Sub now (lastSeen e).
Proof.
  destruct (limiters l !! key) as [e|] eqn:Ee.
  - destruct (evictIfDue_entry _ now _ _ Ee) as [?|[? ?]]; [by left|right; by exists e].
  - left. destruct (evictIfDue_lookup l now key) as [->|]; [exact Ee|done].
Qed.

(** The history of a client's bucket: from some moment on, at which the client
    had just been forgotten or had never come, the bucket is its own history
    replayed; and the table knows when it was last seen. *)
Definition tracks (l0 : ipRateLimiter) (evs : list rl_event) (key : string)
    (before since : list rl_event) : Prop :=
  evs = before ++ since /\ forgotten key before since
  /\ solo_run key (rps (rl_run l0 before)) (burst (rl_run l0 before)) since
     = (rps (rl_run l0 evs), burst (rl_run l0 evs), bucket_of (rl_run l0 evs) key)
  /\ forall e, limiters (rl_run l0 evs) !! key = Some e -> last_seen key evs = Some (lastSeen e).

Lemma seen_entry l key t key' e :
  limiters (allow l key t).1 !! key' = Some e ->
  if decide (key = key') then lastSeen e = r_seen t else limiters (evictIfDue l (r_evict t)) !! key' = Some e.
Proof.
  unfold allow. destruct (rate_Allow _ _) as [b ok]. simpl. destruct (decide (key = key')) as [->|Hne].
  - rewrite lookup_insert_eq. by intros [= <-].
  - by rewrite lookup_insert_ne.
Qed.

(** A step that finds the client's bucket where it was left goes on with its
    history. *)
Lemma tracks_on l0 evs key before since ev :
  tracks l0 evs key before since ->
  (forall k t, ev = Request k t ->
     limiters (evictIfDue (rl_run l0 evs) (r_evict t)) !! key = limiters (rl_run l0 evs) !! key) ->
  tracks l0 (evs ++ [ev]) key before (since ++ [ev]).
Proof.
  intros (-> & Hf & Hs & Hseen) Hkeep. split; [by rewrite app_assoc|]. split; [by apply forgotten_more|].
  rewrite solo_run_snoc, Hs, rl_run_snoc, last_seen_snoc. destruct ev as [k t|opts now]; cbn [rl_step solo_step].
  - specialize (Hkeep k t eq_refl). destruct (allow_policy (rl_run l0 (before ++ since)) k t) as [-> ->].
    split.
    + rewrite allow_bucket. unfold bucket_of.
      destruct (decide (k = key)) as [->|]; by rewrite Hkeep.
    + intros e He. apply seen_entry in He. destruct (decide (k = key)) as [->|]; [by rewrite He|].
      apply Hseen. by rewrite <- Hkeep.
  - unfold retune, bucket_of. destruct (feq _ _ && _); [by split|]. cbn [rps burst limiters].
    rewrite lookup_fmap. split; [by destruct (limiters _ !! key)|].
    intros e He. apply fmap_Some in He as (e0 & He0 & ->). exact (Hseen e0 He0).
Qed.

(** A step that sweeps the client's bucket away starts a new one. *)
Lemma tracks_anew l0 evs key k t e :
  limiters (rl_run l0 evs) !! key = Some e -> last_seen key evs = Some (lastSeen e) ->
  limiters (evictIfDue (rl_run l0 evs) (r_evict t)) !! key = None ->
  rateLimitIdleTimeout < time_Sub (r_evict t) (lastSeen e) ->
  tracks l0 (evs ++ [Request k t]) key evs [Request k t].
Proof.
  intros He Hseen Hn Hidle. split; [done|]. split.
  { unfold forgotten. rewrite Hseen. by exists k, t, []. }
  rewrite rl_run_snoc, last_seen_snoc. cbn [rl_step].
  destruct (allow_policy (rl_run l0 evs) k t) as [-> ->]. split.
  - rewrite allow_bucket. unfold bucket_of, solo_run. cbn [fold_left solo_step].
    destruct (decide (k = key)) as [->|]; by rewrite Hn.
  - intros e' He'. apply seen_entry in He'. destruct (decide (k = key)) as [->|]; [by rewrite He'|].
    by rewrite Hn in He'.
Qed.

Lemma bucket_is_tracked l0 evs key :
  limiters l0 = ∅ -> exists before since, tracks l0 evs key before since.
Proof.
  intros H0. induction evs as [|ev evs (before & since & Ht)] using rev_ind.
  { exists [], []. split_and!; try done; unfold bucket_of; cbn; rewrite H0; done. }
  destruct ev as [k t|opts now].
  2: { exists before, (since ++ [Retune opts now]). by apply tracks_on. }
  destruct (evictIfDue_client (rl_run l0 evs) (r_evict t) key) as [Hkeep|(e & He & Hn & Hidle)].
  - exists before, (since ++ [Request k t]). apply tracks_on; [done|]. by intros ? ? [= <- <-].
  - exists evs, [Request k t]. destruct Ht as (_ & _ & _ & Hseen). eapply tracks_anew; eauto.
Qed.

(** The provider's policy is in force from the first request on: the limiter
    that starts with none is retuned to the rate and the burst [RateLimitByIP]
    starts with, over the same empty table. *)
Lemma provider_adopts_policy (opts : RateLimitOptions) (now t : Z) :
  let l := retune (newIPRateLimiter 0 0 now) opts t in
  let l' := newIPRateLimiter (RequestsPerMinute opts) (Burst opts) now in
  limiters l = limiters l' /\ lastEvict l = lastEvict l' /\ burst l = burst l'
  /\ (rps l = rps l' \/ feq (rps l) (rps l') = true).
Proof.
  unfold retune, newIPRateLimiter. cbn [rps burst limiters lastEvict].
  generalize (per_second 0) (per_second (RequestsPerMinute opts)). intros r r'.
  destruct (feq r r') eqn:Hr; cbn [andb].
  - destruct (0 =? Burst opts) eqn:Hb; cbn [rps burst limiters lastEvict].
    + apply Z.eqb_eq in Hb. auto.
    + rewrite fmap_empty. auto.
  - cbn [rps burst limiters lastEvict]. rewrite fmap_empty. auto.
Qed.

End Limiter.
Arguments ipRateLimiter L : clear implicits.
Arguments ipLimiterEntry L : clear implicits.

(** ** Theorems *)

(** [C27] One client cannot spend another's budget, and none gets a new one by
    coming often.  Whatever every client does and however the policy is retuned, a
    request is decided by the bucket that this client's own requests, and the
    retunings, have made of a fresh one under the policy then in force; and they
    are all of its requests, unless at some request's sweep the client had not been
    seen for longer than the idle timeout, and then all of them since. *)
Theorem bucket_isolation {L} `{RateLimiter L} (l0 : ipRateLimiter L) (evs : list rl_event)
    (key : string) (t : readings) :
  limiters l0 = ∅ ->
  exists before since bucket, evs ++ [Request key t] = before ++ since ++ [Request key t]
    /\ forgotten key before (since ++ [Request key t])
    /\ solo_run key (rps (rl_run l0 before)) (burst (rl_run l0 before)) since
       = (rps (rl_run l0 evs), burst (rl_run l0 evs), bucket)
    /\ (allow (rl_run l0 evs) key t).2
       = (rate_Allow (default (rate_NewLimiter (rps (rl_run l0 evs)) (burst (rl_run l0 evs))) bucket)
            (r_allow t)).2.
Proof.
  intros H0. destruct (bucket_is_tracked l0 evs key H0) as (before & since & Ht).
  unfold allow. destruct (evictIfDue_policy (rl_run l0 evs) (r_evict t)) as [-> ->].
  destruct Ht as (He & Hf & Hs & Hseen). destruct (evictIfDue_client (rl_run l0 evs) (r_evict t) key) as [Hkeep|(e & Hin & Hn & Hidle)].
  - exists before, since, (bucket_of (rl_run l0 evs) key). rewrite Hkeep.
    split; [by rewrite He, app_assoc|]. split; [by apply forgotten_more|]. split; [exact Hs|].
    unfold bucket_of. destruct (limiters (rl_run l0 evs) !! key) as [e|]; simpl; by destruct (rate_Allow _ _).
  - exists evs, [], None. split; [done|]. split; [|split; [done|]].
    + unfold forgotten. rewrite (Hseen _ Hin). by exists key, t, [].
    + rewrite Hn. simpl. by destruct (rate_Allow _ _).
Qed.

(** A bucket for evaluation: it holds whole tokens and is never refilled. *)
#[export] Instance plain_bucket : RateLimiter Z := {|
  rate_NewLimiter _ burst := burst;
  rate_Allow n _ := if 0 <? n then (n - 1, true) else (n, false);
  rate_SetLimit n _ _ := n;
  rate_SetBurst n burst _ := Z.min n burst;
|}.

Definition at_minute (k : Z) : readings := mkReadings (k * Minute) (k * Minute) (k * Minute).
Definition greedy : list rl_event :=
  [Request "a" (at_minute 0); Request "a" (at_minute 1); Request "b" (at_minute 1); Request "a" (at_minute 2)].

Lemma bucket_isolation_witness :
  let l0 := newIPRateLimiter (L := Z) 60 2 0 in
  (allow (rl_run l0 greedy) "a" (at_minute 3)).2 = false
  /\ (allow (rl_run l0 greedy) "b" (at_minute 3)).2 = true
  /\ exists before since bucket, greedy ++ [Request "b" (at_minute 3)] = before ++ since ++ [Request "b" (at_minute 3)]
       /\ forgotten "b" before (since ++ [Request "b" (at_minute 3)])
       /\ solo_run "b" (rps (rl_run l0 before)) (burst (rl_run l0 before)) since
          = (per_second 60, 2, bucket).
Proof.
  intros l0. split; [vm_compute; reflexivity|]. split; [vm_compute; reflexivity|].
  destruct (bucket_isolation l0 greedy "b" (at_minute 3) eq_refl) as (before & since & bk & He & Hf & Hs & _).
  exists before, since, bk. split; [exact He|]. split; [exact Hf|]. rewrite Hs. vm_compute. reflexivity.
Defined.

(** The instants of the events do not go back, and each call reads its clock in
    order. *)
Definition event_times (ev : rl_event) : list Z :=
  match ev with Request _ t => [r_evict t; r_seen t; r_allow t] | Retune _ now => [now] end.
Definition ordered_after (start : Z) (evs : list rl_event) : Prop :=
  StronglySorted Z.le (start :: mjoin (event_times <$> evs)).

(** The table after [evs]: what is in it was seen at most one timeout before the
    last sweep, every sweep happened, and no instant lies in the future. *)
Definition table_inv {L} (l : ipRateLimiter L) (now : Z) : Prop :=
  lastEvict l <= now
  /\ forall key e, limiters l !! key = Some e ->
       lastEvict l - rateLimitIdleTimeout <= lastSeen e <= now.

Lemma idle_in_range : 0 < rateLimitIdleTimeout < max_int64.
Proof. unfold rateLimitIdleTimeout, Minute, Second, max_int64. lia. Qed.

(** A sweep keeps exactly the buckets seen within the timeout, when it is due. *)
Lemma evictIfDue_spec {L} (l : ipRateLimiter L) (now : Z) :
  (now - lastEvict l < rateLimitIdleTimeout /\ evictIfDue l now = l)
  \/ (rateLimitIdleTimeout <= now - lastEvict l /\ lastEvict (evictIfDue l now) = now
      /\ forall key e, limiters (evictIfDue l now) !! key = Some e <->
           limiters l !! key = Some e /\ now - lastSeen e <= rateLimitIdleTimeout).
Proof.
  assert (Hr : 0 <= rateLimitIdleTimeout < max_int64) by (pose proof idle_in_range; lia).
  unfold evictIfDue.
  destruct (Z.ltb_spec (time_Sub now (lastEvict l)) rateLimitIdleTimeout) as [Hd|Hd].
  - left. by rewrite time_Sub_lt in Hd.
  - right. split; [pose proof (time_Sub_lt now (lastEvict l) _ Hr); lia|]. split; [done|].
    intros key e. simpl. rewrite map_lookup_filter_Some, Z.ltb_ge.
    pose proof (time_Sub_gt now (lastSeen e) _ Hr). intuition lia.
Qed.

Lemma table_inv_allow {L} `{RateLimiter L} (l : ipRateLimiter L) key t now :
  table_inv l now -> now <= r_evict t <= r_seen t ->
  table_inv (allow l key t).1 (r_seen t)
  /\ r_evict t - lastEvict (allow l key t).1 < rateLimitIdleTimeout.
Proof.
  intros [Hl He] Ht. unfold allow.
  assert (Hinv : table_inv (evictIfDue l (r_evict t)) (r_evict t)
                 /\ r_evict t - lastEvict (evictIfDue l (r_evict t)) < rateLimitIdleTimeout).
  { destruct (evictIfDue_spec l (r_evict t)) as [[Hd ->]|(Hd & Hev & Hk)].
    - split; [|lia]. split; [lia|]. intros k e Hke. specialize (He k e Hke). lia.
    - unfold table_inv. rewrite Hev. pose proof idle_in_range. split; [|lia]. split; [lia|].
      intros k e Hke%Hk. destruct Hke as [Hke Hseen]. specialize (He k e Hke). lia. }
  destruct Hinv as [[Hl1 He1] Hd1].
  destruct (rate_Allow _ _) as [b ok]. simpl. split; [|done]. split; simpl; [lia|].
  intros k e [[<- <-]|[_ Hk]]%lookup_insert_Some; simpl.
  - pose proof idle_in_range. lia.
  - specialize (He1 k e Hk). lia.
Qed.

Lemma table_inv_retune {L} `{RateLimiter L} (l : ipRateLimiter L) opts now t later :
  table_inv l now -> now <= later -> table_inv (retune l opts t) later.
Proof.
  intros [Hl He] Ht. unfold retune. destruct (_ && _); (split; simpl; [lia|]).
  - intros k e Hk. specialize (He k e Hk). lia.
  - intros k e Hk. rewrite lookup_fmap in Hk. apply fmap_Some in Hk as (e0 & Hk & ->).
    simpl. specialize (He k e0 Hk). lia.
Qed.

Lemma ordered_after_cons start ev evs :
  ordered_after start (ev :: evs) ->
  exists last, ordered_after last evs
    /\ match ev with
       | Request _ t => start <= r_evict t <= r_seen t /\ r_seen t <= last
       | Retune _ now => start <= now <= last
       end.
Proof.
  unfold ordered_after. rewrite fmap_cons. cbn [mjoin list_join].
  destruct ev as [key t|opts now]; simpl; rewrite !StronglySorted_cons, !Forall_cons;
    intros; destruct_and?.
  - exists (r_allow t). rewrite StronglySorted_cons. auto.
  - exists now. rewrite StronglySorted_cons. auto with lia.
Qed.

Lemma table_inv_run {L} `{RateLimiter L} (evs rest : list rl_event) (l : ipRateLimiter L) now :
  table_inv l now -> ordered_after now (evs ++ rest) ->
  exists last, table_inv (rl_run l evs) last /\ ordered_after last rest.
Proof.
  revert l now. induction evs as [|ev evs IH]; intros l now Hinv Hord; [by exists now|].
  apply (ordered_after_cons now ev) in Hord as (last & Hord & Ht).
  apply (IH (rl_step l ev) last); [|exact Hord]. destruct ev as [key t|opts t]; simpl.
  - destruct (table_inv_allow l key t now Hinv) as [[Ha Hb] _]; [lia|].
    split; [lia|]. intros k e Hk. specialize (Hb k e Hk). lia.
  - apply (table_inv_retune l opts now t last Hinv). lia.
Qed.

(** The table does not grow without bound and does not forget the active.
    However requests and retunings go, with a clock that does not go back, after
    any request every bucket in the table belongs to a client seen less than
    twenty minutes before; and a request finds the bucket its client last left
    whenever that was at most ten minutes before. *)
Theorem idle_buckets {L} `{RateLimiter L} (rpm burst start : Z) (evs : list rl_event) (key : string)
    (t : readings) :
  ordered_after start (evs ++ [Request key t]) ->
  let l := rl_run (newIPRateLimiter rpm burst start) evs in
  (forall key' e, limiters (allow l key t).1 !! key' = Some e ->
     r_evict t - lastSeen e < 2 * rateLimitIdleTimeout)
  /\ (forall key' e, limiters l !! key' = Some e -> r_evict t - lastSeen e <= rateLimitIdleTimeout ->
       limiters (evictIfDue l (r_evict t)) !! key' = Some e).
Proof.
  intros Hord. cbv zeta.
  assert (H0 : table_inv (newIPRateLimiter (L := L) rpm burst start) start).
  { split; simpl; [lia|]. intros k e Hk. by rewrite lookup_empty in Hk. }
  destruct (table_inv_run evs [Request key t] _ start H0 Hord) as (last & Hinv & Hlast).
  apply ordered_after_cons in Hlast as (_ & _ & Ht & _).
  destruct (table_inv_allow _ key t last Hinv ltac:(lia)) as [[_ Ha] Hb]. split.
  - intros k e Hk. specialize (Ha k e Hk). lia.
  - intros k e Hk Hseen. destruct (evictIfDue_spec (rl_run (newIPRateLimiter rpm burst start) evs) (r_evict t))
      as [[_ ->]|(_ & _ & Hkept)]; [done|]. by apply Hkept.
Qed.

Lemma idle_buckets_witness :
  let l := rl_run (newIPRateLimiter (L := Z) 60 2 0) greedy in
  limiters (allow l "b" (at_minute 13)).1 !! "a" = None
  /\ forall key' e, limiters (allow l "b" (at_minute 13)).1 !! key' = Some e ->
       13 * Minute - lastSeen e < 2 * rateLimitIdleTimeout.
Proof.
  intros l. split; [vm_compute; reflexivity|].
  refine (proj1 (idle_buckets 60 2 0 greedy "b" (at_minute 13) _)).
  unfold ordered_after, greedy, at_minute, Minute, Second. simpl. repeat constructor; lia.
Defined.
