(* ===== verification/Pipeline.v ===== *)
(** * httpserver/middlewares: the chain of a protected route

    The middlewares of the package mounted one behind the other, as its README
    mounts them one by one: CORS, the rate limit, the double-submit check,
    [Authorization] over the session manager and [RequireRole]. The chain shares
    the table of buckets and the session store. *)
From stdpp Require Import fin_maps.
From S2P Require Import Prelude GoNum GoText Respond OidcTypes Oidc Sessions Authorization CsrfCors RateLimit.
Local Open Scope Z_scope.

(** ** Mounting *)

Section Mount.
Context {C A B : Type}.
(** A middleware in the state of the whole chain. *)
Definition stateless (h : C -> C) (ctx : C) (t : A * B) : C * (A * B) := (h ctx, t).
Definition on_left (h : C -> A -> C * A) (ctx : C) (t : A * B) : C * (A * B) :=
  let '(ctx', a') := h ctx t.1 in (ctx', (a', t.2)).
Definition on_right (h : C -> B -> C * B) (ctx : C) (t : A * B) : C * (A * B) :=
  let '(ctx', b') := h ctx t.2 in (ctx', (t.1, b')).
End Mount.

(** ** The request stays what it was *)

Section SameRequest.
Context {C V : Type} `{GinContextOk C V}.

Definition same_request (c c' : C) : Prop :=
  gin_Method c' = gin_Method c /\ gin_GetHeader c' = gin_GetHeader c /\ gin_Cookie c' = gin_Cookie c.

#[export] Instance same_request_refl : Reflexive same_request.
Proof. by intros c. Qed.
#[export] Instance same_request_trans : Transitive same_request.
Proof. intros a b c (H1 & H2 & H3) (H1' & H2' & H3'). repeat split; congruence. Qed.

Lemma same_do (c : C) (call : gin_call) : same_request c (gin_do c call).
Proof. repeat split; [apply gin_Method_do|apply gin_GetHeader_do|apply gin_Cookie_do]. Qed.

(** After a further call. *)
Lemma same_then_do (c c' : C) (call : gin_call) : same_request c c' -> same_request c (gin_do c' call).
Proof. intros Hs. etransitivity; [exact Hs|apply same_do]. Qed.

Lemma CORS_same (policy : option CORSPolicy) (ctx : C) : same_request ctx (CORSWithProvider policy ctx).
Proof.
  unfold CORSWithProvider. cbv zeta. repeat case_match; repeat apply same_then_do; reflexivity.
Qed.

(** A preflight ends at CORS, and nothing else does. *)
Lemma CORS_aborted (policy : option CORSPolicy) (ctx : C) :
  aborted (CORSWithProvider policy ctx) = aborted ctx || String.eqb (gin_Method ctx) "OPTIONS".
Proof.
  unfold CORSWithProvider. cbv zeta. set (c := match policy with Some _ => _ | None => _ end).
  assert (Hc : gin_Method c = gin_Method ctx /\ aborted c = aborted ctx).
  { unfold c. destruct policy as [p|]; [|done].
    repeat case_match; rewrite ?gin_Method_do, ?aborted_do, ?orb_false_r; done. }
  destruct Hc as [-> Ha]. destruct (gin_Method ctx =? "OPTIONS")%string; rewrite aborted_do, Ha; done.
Qed.

Lemma middleware_same {L} `{RateLimiter L} policy clientIP now t (ctx : C) (l : ipRateLimiter L) :
  same_request ctx (middleware policy clientIP now t ctx l).1.
Proof.
  unfold middleware, TooManyRequests. destruct (allow _ clientIP t) as [l' ok]. destruct ok; apply same_do.
Qed.

(** The table after the policy of this request. *)
Definition in_force {L} `{RateLimiter L} (policy : option RateLimitOptions) (now : Z)
    (l : ipRateLimiter L) : ipRateLimiter L :=
  match policy with Some opts => retune l opts now | None => l end.

Lemma middleware_aborted {L} `{RateLimiter L} policy clientIP now t (ctx : C) (l : ipRateLimiter L) :
  let '(ctx', l') := middleware policy clientIP now t ctx l in
  l' = (allow (in_force policy now l) clientIP t).1 /\
  aborted ctx' = aborted ctx || negb (allow (in_force policy now l) clientIP t).2.
Proof.
  unfold middleware, TooManyRequests. fold (in_force policy now l).
  destruct (allow (in_force policy now l) clientIP t) as [l' ok]. destruct ok; simpl; rewrite aborted_do; done.
Qed.

(** The double-submit token is there and echoed. *)
Definition csrf_ok (opts : CSRFOptions) (ctx : C) : bool :=
  existsb (String.eqb (gin_Method ctx)) safeMethods ||
  match gin_Cookie ctx (CookieName (withDefaults opts)) with
  | Some v => negb (String.eqb v "") && String.eqb v (gin_GetHeader ctx (HeaderName (withDefaults opts)))
  | None => false
  end.

Lemma CSRF_aborted (opts : CSRFOptions) (ctx : C) :
  same_request ctx (CSRFWithOptions opts ctx) /\
  aborted (CSRFWithOptions opts ctx) = aborted ctx || negb (csrf_ok opts ctx).
Proof.
  unfold CSRFWithOptions, csrf_ok, Forbidden. cbv zeta. destruct (withDefaults opts) as [ck hd].
  cbn [CookieName HeaderName].
  destruct (existsb _ safeMethods); [split; [apply same_do|by rewrite aborted_do]|].
  destruct (gin_Cookie ctx _) as [v|]; simpl; [|split; [apply same_do|by rewrite aborted_do]].
  destruct (string_eqb_spec v "") as [->|Hv]; simpl; [split; [apply same_do|by rewrite aborted_do]|].
  destruct (string_eqb_spec v (gin_GetHeader ctx hd)) as [<-|Hne]; simpl.
  - apply String.eqb_neq in Hv. rewrite Hv. simpl. split; [apply same_do|by rewrite aborted_do].
  - rewrite orb_true_r. split; [apply same_do|by rewrite aborted_do].
Qed.

Lemma csrf_ok_same (opts : CSRFOptions) (c c' : C) : same_request c c' -> csrf_ok opts c' = csrf_ok opts c.
Proof. intros (H1 & H2 & H3). unfold csrf_ok. by rewrite H1, H2, H3. Qed.
End SameRequest.

(** ** The route *)

Section Route.
Context {C A S L : Type} `{EqDecision A} `{GinContextOk C (value A)} `{SessionStoreOk S} `{RateLimiter L}.

(** What the route is configured with, and what it reads while it serves. *)
Context (policy : option CORSPolicy)
  (limits : option RateLimitOptions) (clientIP : string) (retuned : Z) (t : readings)
  (csrf : CSRFOptions)
  (m : SessionManager) (TokenSource : string -> result Token) (uuid_Parse : string -> bool)
  (now wall wall' : Z) (cookie role : string) (extras : list (RoleContext A))
  (range : gmap string (value A) -> list (string * value A)).

#[local] Instance route_verifier : TokenVerifier S := session_verifier m TokenSource uuid_Parse now wall wall'.

Definition route : list (C -> ipRateLimiter L * S -> C * (ipRateLimiter L * S)) :=
  [stateless (CORSWithProvider policy);
   on_left (middleware limits clientIP retuned t);
   stateless (CSRFWithOptions csrf);
   on_right (AuthorizationWithOptions cookie);
   on_right (RequireRole range role extras)].

(** The checks before any session is looked at. *)
Definition admitted (ctx : C) (l : ipRateLimiter L) : bool :=
  negb (String.eqb (gin_Method ctx) "OPTIONS")
  && (allow (in_force limits retuned l) clientIP t).2 && csrf_ok csrf ctx.

Lemma credentials_same (c c' : C) (name : string) : same_request c c' -> credentials c' name = credentials c name.
Proof. intros (_ & H1' & H2'). unfold credentials. by rewrite H1', H2'. Qed.

(** The first three handlers: the request is as it was, and goes on exactly when
    it is admitted; only the limiter has changed. *)
Lemma front_decides (ctx : C) (l : ipRateLimiter L) (s : S) : aborted ctx = false ->
  exists c l',
    run_chain (take 3 route) ctx (l, s) = (c, (l', s)) /\ same_request ctx c /\
    aborted c = negb (admitted ctx l) /\
    l' = (if String.eqb (gin_Method ctx) "OPTIONS" then l
          else (allow (in_force limits retuned l) clientIP t).1).
Proof.
  intros Hc. unfold route, admitted. cbn [take run_chain]. unfold stateless, on_left. cbn [fst snd].
  assert (H1' := CORS_same policy ctx). assert (Ha1 := CORS_aborted policy ctx). rewrite Hc in Ha1.
  destruct (gin_Method ctx =? "OPTIONS")%string eqn:Eo; simpl in Ha1; rewrite Ha1; [by do 2 eexists|].
  set (c1 := CORSWithProvider policy ctx) in *.
  assert (H2' := middleware_same limits clientIP retuned t c1 l).
  assert (Ha2 := middleware_aborted limits clientIP retuned t c1 l).
  destruct (middleware limits clientIP retuned t c1 l) as [c2 l2]. destruct Ha2 as [-> Ha2].
  rewrite Ha1 in Ha2. simpl in H2', Ha2. assert (H12 : same_request ctx c2) by (by etransitivity).
  destruct (allow (in_force limits retuned l) clientIP t).2; simpl in Ha2; rewrite Ha2; simpl; [|by do 2 eexists].
  destruct (CSRF_aborted csrf c2) as [H3' Ha3]. rewrite Ha2 in Ha3. simpl in Ha3.
  exists (CSRFWithOptions csrf c2), (allow (in_force limits retuned l) clientIP t).1. rewrite Ha3, (csrf_ok_same csrf _ _ H12).
  split_and!; [destruct (csrf_ok csrf ctx); reflexivity|by etransitivity|done|done].
Qed.

Lemma run_chain_split {T} (hs ks : list (C -> T -> C * T)) : forall (ctx : C) (x : T),
  run_chain (hs ++ ks) ctx x =
  let '(c, y) := run_chain hs ctx x in
  if aborted c && negb (match hs with [] => true | _ => false end) then (c, y) else run_chain ks c y.
Proof.
  induction hs as [|h hs IH]; intros ctx x; cbn [run_chain app]; [by rewrite andb_false_r|].
  destruct (h ctx x) as [c y] eqn:E. destruct (aborted c) eqn:Ea; [by rewrite Ea|].
  rewrite IH. destruct hs as [|h' hs]; [cbn [run_chain]; by rewrite Ea|].
  destruct (run_chain (h' :: hs) c y) as [c' y']. done.
Qed.

(** [C4] Who reaches a protected route.  A request that gets through the whole chain
    was no preflight, was within its client's rate, echoed the double-submit
    token unless its method is safe, and carried exactly one credential: the
    identifier of a stored session that is usable and holds the role; its use is
    what changed in the store. A request the first three checks refuse never
    reaches the sessions, and a preflight does not even take a token of the
    limiter. *)
Theorem protected_route (ctx ctx' : C) (l l' : ipRateLimiter L) (s s' : S) :
  (forall v, range v ≡ₚ map_to_list v) ->
  aborted ctx = false ->
  run_chain route ctx (l, s) = (ctx', (l', s')) ->
  l' = (if String.eqb (gin_Method ctx) "OPTIONS" then l
        else (allow (in_force limits retuned l) clientIP t).1) /\
  (admitted ctx l = false -> aborted ctx' = true /\ s' = s) /\
  (aborted ctx' = false ->
     admitted ctx l = true /\
     exists id x, credentials ctx (sessionCookieName cookie) = [id]
       /\ uuid_Parse id = true
       /\ sessions s !! id = Some x
       /\ usable m TokenSource x now = true
       /\ Sessions.HasRole m (sess_Claims x) role = true
       /\ sessions s' = <[id := carried_on m TokenSource x now wall wall']> (sessions s)).
Proof.
  intros Hr Hc. destruct (front_decides ctx l s Hc) as (c & l1 & Hrun & Hsame & Ha & ->).
  change route with (take 3 route ++ drop 3 route). rewrite run_chain_split, Hrun. cbn [take route app].
  rewrite Ha. destruct (admitted ctx l) eqn:Ead; cbn [negb andb].
  2:{ intros [= <- <- <-]. rewrite Ha. by split_and!. }
  cbn [drop route run_chain]. unfold on_right. cbn [fst snd].
  destruct (AuthorizationWithOptions cookie c s) as [c1 s1] eqn:E1.
  destruct (aborted c1) eqn:Ha1; [intros [= <- <- <-]; rewrite Ha1; by split_and!|].
  cbn [fst snd]. destruct (RequireRole range role extras c1 s1) as [c2 s2] eqn:E2.
  destruct (aborted c2) eqn:Ha2; intros [= <- <- <-]; [rewrite Ha2; by split_and!|].
  split_and!; [done|done|]. intros Hok. split; [done|].
  rewrite <- (credentials_same ctx c) by done.
  by apply (session_guard range m TokenSource uuid_Parse now wall wall' cookie role extras c c1 c2 s s1 s2).
Qed.
End Route.

(** A POST with the cookies of a session and of the double-submit check. *)
Definition post : test_context (value Z) :=
  TestContext "POST" {["X-CSRF-Token" := "k"]} (<["csrf_token" := "k"]> {["session_id" := "sid"]}) ∅ ∅ [].
Definition demo_route :=
  route (L := Z) (S := gmap string Session) (C := test_context (value Z)) None
    (Some (mkRateLimitOptions 60 5)) "10.0.0.1" 0 (at_minute 1) (mkCSRFOptions "" "")
    demo_manager demo_issuer (fun _ => true) noon noon noon "" "admin" [] map_to_list.

Lemma protected_route_witness :
  exists id x, credentials post "session_id" = [id] /\ role_store !! id = Some x
    /\ Sessions.HasRole demo_manager (sess_Claims x) "admin" = true.
Proof.
  destruct (run_chain demo_route post (newIPRateLimiter (L := Z) 60 5 0, role_store))
    as [ctx' [l' s']] eqn:E.
  assert (Hpost : aborted (V := value Z) post = false) by (vm_compute; reflexivity).
  destruct (protected_route (C := test_context (value Z)) (A := Z) (L := Z) None (Some (mkRateLimitOptions 60 5)) "10.0.0.1" 0 (at_minute 1)
    (mkCSRFOptions "" "") demo_manager demo_issuer (fun _ => true) noon noon noon "" "admin" [] map_to_list
    post ctx' (newIPRateLimiter (L := Z) 60 5 0) l' role_store s' (fun m => reflexivity _) Hpost E)
    as (_ & _ & H).
  destruct H as (_ & id & x & Hc & _ & Hx & _ & Hrole & _).
  - vm_compute in E. injection E as <- _ _. vm_compute. reflexivity.
  - exists id, x. split; [exact Hc|]. split; [exact Hx|exact Hrole].
Defined.
