(* ===== verification/TokenManager.v ===== *)
(** * oauth2/token_manager.go: tokens for calling other services

    One token per scope, fetched on first use, kept until it expires and then
    fetched again.  net/url, the transport and the JSON decoder are arguments;
    the body of the answer is decoded by [HttpClient.DecompressResponse]. *)
From S2P Require Import Prelude GoNum GoText HttpClient.
From stdpp Require Import fin_maps.
Local Open Scope Z_scope.

(** [TokenAccess]; [LastAuthentication] is always set before a token is kept. *)
Record TokenAccess := mkTokenAccess {
  AccessToken : string;
  TokenType : string;
  ExpiresIn : Z;
  RefreshToken : string;
  Scope : string;
  LastAuthentication : Z;
}.

Record TokenManager := mkTokenManager {
  authUrl : string;
  clientID : string;
  clientSecret : string;
  grantType : string;
  cache : gmap string TokenAccess;
  authParams : gmap string string;
  sendAsPost : bool;
}.

Definition NewTokenManager (clientID clientSecret grantType : string) : TokenManager :=
  mkTokenManager "" clientID clientSecret grantType ∅ ∅ false.

Definition set_sendAsPost (b : bool) (tm : TokenManager) : TokenManager :=
  mkTokenManager (authUrl tm) (clientID tm) (clientSecret tm) (grantType tm) (cache tm) (authParams tm) b.
Definition SendAsGet : TokenManager -> TokenManager := set_sendAsPost false.
Definition SendAsPost : TokenManager -> TokenManager := set_sendAsPost true.
Definition WithAuthenticationURL (tm : TokenManager) (url : string) : TokenManager :=
  mkTokenManager url (clientID tm) (clientSecret tm) (grantType tm) (cache tm) (authParams tm) (sendAsPost tm).
Definition WithOptionalParams (tm : TokenManager) (params : gmap string string) : TokenManager :=
  mkTokenManager (authUrl tm) (clientID tm) (clientSecret tm) (grantType tm) (cache tm) params (sendAsPost tm).
Definition with_token (tm : TokenManager) (scope : string) (t : TokenAccess) : TokenManager :=
  mkTokenManager (authUrl tm) (clientID tm) (clientSecret tm) (grantType tm)
    (<[scope := t]> (cache tm)) (authParams tm) (sendAsPost tm).

(** The request [authenticate] sends. [ar_URL] is the address without its
    query; the query is in [ar_Query], or in the body of a POST. *)
Record auth_request := mkAuthRequest {
  ar_Method : string;
  ar_URL : string;
  ar_Query : gmap string (list string);
  ar_Body : option (gmap string (list string));
  ar_Headers : list (string * string);
}.

(** An answer: its status, its Content-Encoding, and its body as far as it can
    be read. *)
Record auth_reply := mkAuthReply { rep_Status : Z; rep_Encoding : string; rep_Body : result string }.

(** The environment of one authentication: the parsed address and its query,
    the request constructor's verdict, the server, the JSON decoder, and the
    instant read at the end. *)
Record auth_env := mkAuthEnv {
  ae_Parse : string -> result (string * gmap string (list string));
  ae_NewRequest : auth_request -> option error;
  ae_Do : auth_request -> result auth_reply;
  ae_codecs : codecs;
  ae_Unmarshal : string -> result TokenAccess;
  ae_now : Z;
}.

(** The parameters of the request: those of the address, then the manager's
    own, then the optional ones; a later setting replaces an earlier one. *)
Definition auth_query (tm : TokenManager) (base : gmap string (list string)) (scope : string)
  : gmap string (list string) :=
  ((fun v => [v]) <$> authParams tm)
  ∪ <["scope" := [scope]]> (<["grant_type" := [grantType tm]]>
      (<["client_secret" := [clientSecret tm]]> (<["client_id" := [clientID tm]]> base))).

Definition build_request (tm : TokenManager) (address : string) (q : gmap string (list string))
  : auth_request :=
  let headers := [("Accept", "application/json; charset=utf-8");
                  ("Accept-Encoding", "gzip, deflate, br")] in
  if sendAsPost tm then
    mkAuthRequest "POST" address ∅ (Some q)
      (headers ++ [("Content-Type", "application/x-www-form-urlencoded")])
  else mkAuthRequest "GET" address q None headers.

(** [authenticate]: the manager after it, the requests sent, and the error. *)
Definition authenticate (tm : TokenManager) (env : auth_env) (scope : string)
  : TokenManager * list auth_request * option error :=
  match ae_Parse env (authUrl tm) with
  | Fail _ => (tm, [], Some (errors_New "invalid authentication URL"))
  | Ok (address, base) =>
      let req := build_request tm address (auth_query tm base scope) in
      match ae_NewRequest env req with
      | Some _ => (tm, [], Some (errors_New "failed to create authentication request"))
      | None =>
          match ae_Do env req with
          | Fail _ => (tm, [req], Some (errors_New "failed to send authentication request"))
          | Ok resp =>
              match DecompressResponse (ae_codecs env) (rep_Encoding resp) (rep_Body resp) with
              | Fail _ => (tm, [req], Some (errors_New "failed to decompress response"))
              | Ok reader =>
                  match reader with
                  | Fail _ => (tm, [req], Some (errors_New "failed to read response body"))
                  | Ok body =>
                      if negb (rep_Status resp =? 200) then
                        (tm, [req], Some (errors_New "authentication request returned error status code"))
                      else
                        match ae_Unmarshal env body with
                        | Fail _ => (tm, [req], Some (errors_New "failed to decode response body"))
                        | Ok t =>
                            let now := time_Add (ae_now env) (- (5 * Second)) in
                            let t := mkTokenAccess (AccessToken t) (TokenType t) (ExpiresIn t)
                                       (RefreshToken t) (Scope t) now in
                            (with_token tm scope t, [req], None)
                        end
                  end
              end
          end
      end
  end.

Definition getTokenFromScope (tm : TokenManager) (scope : string) : option TokenAccess :=
  cache tm !! scope.

Definition expiration (t : TokenAccess) : Z :=
  time_Add (LastAuthentication t) (mul64 (ExpiresIn t) Second).

(** [getAccessToken]; [now] is the instant the expiry is checked at. The token
    is [nil], here [None], when it is not in the cache after authenticating. *)
Definition getAccessToken (tm : TokenManager) (env : auth_env) (scope : string) (now : Z)
  : TokenManager * list auth_request * result (option TokenAccess) :=
  let fetch :=
    match authenticate tm env scope with
    | (tm, reqs, Some e) => (tm, reqs, Fail e)
    | (tm, reqs, None) => (tm, reqs, Ok (getTokenFromScope tm scope))
    end in
  if String.eqb scope "" then (tm, [], Fail (errors_New "invalid access scope"))
  else
    match getTokenFromScope tm scope with
    | None => fetch
    | Some tokenScope =>
        if After (expiration tokenScope) now then (tm, [], Ok (Some tokenScope)) else fetch
    end.

(** [SetAuthorizationHeader], as the header value it sets; a token that is nil
    would be a nil pointer, which [getAccessToken] never gives. *)
Definition SetAuthorizationHeader (tm : TokenManager) (env : auth_env) (scope : string) (now : Z)
  : TokenManager * result string :=
  match getAccessToken tm env scope now with
  | (tm, _, Ok (Some t)) => (tm, Ok (TokenType t +:+ " " +:+ AccessToken t))
  | (tm, _, Ok None) => (tm, Fail (errors_New "nil token"))
  | (tm, _, Fail e) => (tm, Fail e)
  end.

Definition GetAccessToken (tm : TokenManager) (env : auth_env) (scope : string) (now : Z)
  : TokenManager * result string :=
  match getAccessToken tm env scope now with
  | (tm, _, Ok (Some t)) => (tm, Ok (AccessToken t))
  | (tm, _, Ok None) => (tm, Fail (errors_New "nil token"))
  | (tm, _, Fail e) => (tm, Fail e)
  end.

Definition GetTokenType (tm : TokenManager) (env : auth_env) (scope : string) (now : Z)
  : TokenManager * result string :=
  match getAccessToken tm env scope now with
  | (tm, _, Ok (Some t)) => (tm, Ok (TokenType t))
  | (tm, _, Ok None) => (tm, Fail (errors_New "nil token"))
  | (tm, _, Fail e) => (tm, Fail e)
  end.

(** ** Lemmas *)

(** [req] is the request [authenticate] sends for [scope]: to the configured
    address, with its parameters and the manager's. *)
Definition is_request (tm : TokenManager) (env : auth_env) (scope : string) (req : auth_request) : Prop :=
  exists address base,
    ae_Parse env (authUrl tm) = Ok (address, base)
    /\ ae_NewRequest env req = None
    /\ req = build_request tm address (auth_query tm base scope).

(** [req] was answered with status 200 and a readable body that decodes to
    [t], and [t'] is [t] with the moment of issue, five seconds back. *)
Definition granted (env : auth_env) (req : auth_request) (t' : TokenAccess) : Prop :=
  exists resp body t,
    ae_Do env req = Ok resp /\ rep_Status resp = 200
    /\ DecompressResponse (ae_codecs env) (rep_Encoding resp) (rep_Body resp) = Ok (Ok body)
    /\ ae_Unmarshal env body = Ok t
    /\ t' = mkTokenAccess (AccessToken t) (TokenType t) (ExpiresIn t) (RefreshToken t) (Scope t)
              (ae_now env - 5 * Second).

(** What an authentication leaves behind. *)
Lemma authenticate_cases tm env scope :
  let '(tm', reqs, err) := authenticate tm env scope in
  (length reqs <= 1)%nat
  /\ Forall (is_request tm env scope) reqs
  /\ match err with
     | Some _ => tm' = tm /\ forall req t, is_request tm env scope req -> ~ granted env req t
     | None => exists t req, reqs = [req] /\ tm' = with_token tm scope t /\ granted env req t
     end.
Proof.
  unfold authenticate. destruct (ae_Parse env (authUrl tm)) as [[address base]|] eqn:Ep.
  2: { split_and!; [simpl; lia|done|done|]. intros req t (a & b & Hp & _). congruence. }
  set (req := build_request _ _ _).
  assert (Hreq : forall req', is_request tm env scope req' -> req' = req).
  { intros req' (a & b & Hp & _ & ->). rewrite Ep in Hp. by injection Hp as <- <-. }
  destruct (ae_NewRequest env req) eqn:En.
  { split_and!; [simpl; lia|done|done|]. intros req' t Hr. pose proof (Hreq _ Hr) as ->.
    destruct Hr as (a & b & _ & Hn & _). congruence. }
  assert (Hsent : is_request tm env scope req) by by exists address, base.
  assert (Hall : Forall (is_request tm env scope) [req]) by by constructor.
  assert (Hno : (forall t, ~ granted env req t) ->
    (length [req] <= 1)%nat /\ Forall (is_request tm env scope) [req] /\ tm = tm
    /\ forall req t, is_request tm env scope req -> ~ granted env req t).
  { intros Hg. split_and!; [done|done|done|]. intros req' t Hr. rewrite (Hreq _ Hr). apply Hg. }
  destruct (ae_Do env req) as [resp|] eqn:Ed.
  2: { apply Hno. intros t (r & bd & t0 & Hd & _). congruence. }
  destruct (DecompressResponse _ _ _) as [reader|] eqn:Ec.
  2: { apply Hno. intros t (r & bd & t0 & Hd & _ & Hc & _). congruence. }
  destruct reader as [body|].
  2: { apply Hno. intros t (r & bd & t0 & Hd & _ & Hc & _). congruence. }
  destruct (Z.eqb_spec (rep_Status resp) 200) as [H200|H200]; cbn [negb].
  2: { apply Hno. intros t (r & bd & t0 & Hd & Hs & _). congruence. }
  destruct (ae_Unmarshal env body) as [t|] eqn:Eu.
  2: { apply Hno. intros t (r & bd & t0 & Hd & _ & Hc & Hu & _). congruence. }
  split_and!; [done|done|]. eexists _, req. split; [done|]. split; [done|].
  exists resp, body, t. split_and!; try done.
Qed.

(** The calls made on a manager: the scope, the instant of the check and the
    environment of the authentication, should there be one. *)
Definition run_calls (tm : TokenManager) (calls : list (string * Z * auth_env)) : TokenManager :=
  fold_left (fun tm '(scope, now, env) => (getAccessToken tm env scope now).1.1) calls tm.

(** A token still usable at [now]. *)
Definition unexpired (t : TokenAccess) (now : Z) : Prop :=
  now < LastAuthentication t + mul64 (ExpiresIn t) Second.

#[export] Instance unexpired_dec t now : Decision (unexpired t now).
Proof. unfold unexpired. apply _. Defined.

Lemma getAccessToken_cached tm env scope now t :
  scope <> "" -> cache tm !! scope = Some t -> unexpired t now ->
  getAccessToken tm env scope now = (tm, [], Ok (Some t)).
Proof.
  intros Hs Ht Hv. unfold getAccessToken, getTokenFromScope. rewrite Ht.
  destruct (string_eqb_spec scope ""); [done|].
  unfold After, expiration, time_Add, unexpired in *.
  by destruct (Z.ltb_spec now (LastAuthentication t + mul64 (ExpiresIn t) Second)); [|lia].
Qed.

Lemma getAccessToken_fetches tm env scope now :
  scope <> "" -> (forall t, cache tm !! scope = Some t -> ~ unexpired t now) ->
  getAccessToken tm env scope now
  = match authenticate tm env scope with
    | (tm', reqs, Some e) => (tm', reqs, Fail e)
    | (tm', reqs, None) => (tm', reqs, Ok (getTokenFromScope tm' scope))
    end.
Proof.
  intros Hs Hn. unfold getAccessToken, getTokenFromScope at 1.
  destruct (string_eqb_spec scope ""); [done|]. destruct (cache tm !! scope) as [t|]; [|done].
  specialize (Hn t eq_refl). unfold After, expiration, time_Add, unexpired in *.
  by destruct (Z.ltb_spec now (LastAuthentication t + mul64 (ExpiresIn t) Second)).
Qed.

Lemma authenticate_keeps tm env scope other t :
  cache tm !! other = Some t -> other <> scope ->
  cache (match authenticate tm env scope with
         | (tm', reqs, Some e) => (tm', reqs, Fail e)
         | (tm', reqs, None) => (tm', reqs, Ok (getTokenFromScope tm' scope))
         end).1.1 !! other = Some t.
Proof.
  intros Ht Hne. pose proof (authenticate_cases tm env scope) as Ha.
  destruct (authenticate _ _ _) as [[tm' reqs] [e|]].
  - by destruct Ha as (_ & _ & -> & _).
  - destruct Ha as (_ & _ & t1 & req & _ & -> & _). simpl. by rewrite lookup_insert_ne.
Qed.

(** The cache changes only under the scope asked for, and not while the token
    there is usable. *)
Lemma getAccessToken_keeps tm env scope now other t :
  cache tm !! other = Some t -> other <> scope \/ unexpired t now ->
  cache (getAccessToken tm env scope now).1.1 !! other = Some t.
Proof.
  intros Ht Hor. destruct (decide (scope = "")) as [->|Hs]; [done|].
  destruct (cache tm !! scope) as [t0|] eqn:Es.
  - destruct (decide (now < LastAuthentication t0 + mul64 (ExpiresIn t0) Second)) as [Hv|Hv].
    { by rewrite (getAccessToken_cached tm env scope now t0). }
    rewrite getAccessToken_fetches by (done || (intros t1 Ht1; assert (t1 = t0) as -> by congruence; exact Hv)).
    apply authenticate_keeps; [done|]. destruct Hor as [Hne|Hv2]; [done|]. intros ->. congruence.
  - rewrite getAccessToken_fetches by (done || congruence).
    apply authenticate_keeps; [done|]. congruence.
Qed.

(** ** Theorems *)

(** [C28] A token is fetched when it is needed and only then, and it is the one
    the issuer granted.  A call without a scope fails and sends nothing.  A scope's
    token that has not expired is returned as it is and nothing is sent.
    Otherwise at most one request is sent, the one to the configured address with
    the manager's parameters, and the call succeeds exactly when that request is
    answered with status 200 and a body that decodes to a token: that token is
    returned, with the moment of issue five seconds back, and is kept under this
    scope, while no other scope's token is touched.  A call that fails leaves the
    manager as it was. *)
Theorem getAccessToken_decides (tm : TokenManager) (env : auth_env) (scope : string) (now : Z) :
  let '(tm', reqs, r) := getAccessToken tm env scope now in
  match (if decide (scope = "") then None else Some (t0 ← cache tm !! scope; guard (unexpired t0 now);; Some t0)) with
  | None => is_Ok r = false /\ reqs = [] /\ tm' = tm
  | Some (Some t0) => r = Ok (Some t0) /\ reqs = [] /\ tm' = tm
  | Some None =>
      (length reqs <= 1)%nat /\ Forall (is_request tm env scope) reqs
      /\ match r with
         | Fail _ => tm' = tm /\ forall req t, is_request tm env scope req -> ~ granted env req t
         | Ok None => False
         | Ok (Some t) => exists req, reqs = [req] /\ granted env req t /\ tm' = with_token tm scope t
         end
  end.
Proof.
  destruct (decide (scope = "")) as [->|Hs]; [done|].
  assert (Hfetch : (forall t, cache tm !! scope = Some t -> ~ unexpired t now) ->
    let '(tm', reqs, r) := getAccessToken tm env scope now in
    (length reqs <= 1)%nat /\ Forall (is_request tm env scope) reqs
      /\ match r with
         | Fail _ => tm' = tm /\ forall req t, is_request tm env scope req -> ~ granted env req t
         | Ok None => False
         | Ok (Some t) => exists req, reqs = [req] /\ granted env req t /\ tm' = with_token tm scope t
         end).
  { intros Hn. rewrite getAccessToken_fetches by done. pose proof (authenticate_cases tm env scope) as Ha.
    destruct (authenticate _ _ _) as [[tm' reqs] [e|]]; [done|].
    destruct Ha as (Hl & Hf & t1 & req & -> & -> & Hg). split_and!; [done|done|].
    unfold getTokenFromScope. simpl. rewrite lookup_insert_eq. by exists req. }
  destruct (cache tm !! scope) as [t0|] eqn:Es; simpl; [|apply Hfetch; done].
  case_guard as Hv; simpl; [by rewrite (getAccessToken_cached tm env scope now t0)|].
  apply Hfetch. by intros t [= <-].
Qed.

(** Until it expires a token is reused.  After a scope's token was handed
    out, through any calls for any scopes made before its expiry, whatever the
    servers answer, a call for this scope before then gives the same token and
    sends nothing. *)
Theorem token_reused_until_expiry (tm : TokenManager) (calls : list (string * Z * auth_env))
    (env env' : auth_env) (scope : string) (now now' : Z) (tm1 : TokenManager)
    (reqs : list auth_request) (t : TokenAccess) :
  getAccessToken tm env scope now = (tm1, reqs, Ok (Some t)) ->
  Forall (fun call => unexpired t call.1.2) calls ->
  unexpired t now' ->
  getAccessToken (run_calls tm1 calls) env' scope now' = (run_calls tm1 calls, [], Ok (Some t)).
Proof.
  intros Hfirst Hcalls Hnow.
  assert (Hs : scope <> "") by (intros ->; done).
  assert (Hkept : cache tm1 !! scope = Some t).
  { unfold getAccessToken, getTokenFromScope in Hfirst. destruct (string_eqb_spec scope ""); [done|].
    destruct (cache tm !! scope) as [t0|] eqn:E; [destruct (After _ _); [by simplify_eq|]|];
      destruct (authenticate tm env scope) as [[tm' rq] [e|]]; simplify_eq; done. }
  apply getAccessToken_cached; [done| |done].
  clear Hfirst. revert tm1 Hkept. induction calls as [|[[sc tc] ec] calls IH]; intros tm1 Hkept; [done|].
  apply Forall_cons in Hcalls as [Hc Hcalls]. simpl. apply IH; [done|].
  apply getAccessToken_keeps; [done|]. by right.
Qed.

Definition demo_server (at_ : Z) : auth_env := {|
  ae_Parse u := Ok (u, ∅);
  ae_NewRequest _ := None;
  ae_Do _ := Ok (mkAuthReply 200 "" (Ok "{..}"));
  ae_codecs := toy_codecs;
  ae_Unmarshal _ := Ok (mkTokenAccess "at" "Bearer" 60 "" "api" 0);
  ae_now := at_;
|}.
Definition demo_tm : TokenManager := NewTokenManager "id" "secret" "client_credentials".

Lemma token_reused_until_expiry_witness :
  let tm1 := (getAccessToken demo_tm (demo_server (100 * Second)) "api" 0).1.1 in
  getAccessToken tm1 (demo_server 0) "api" (154 * Second)
  = (tm1, [], Ok (Some (mkTokenAccess "at" "Bearer" 60 "" "api" (95 * Second)))).
Proof.
  intros tm1.
  refine (token_reused_until_expiry demo_tm [] (demo_server (100 * Second)) (demo_server 0) "api" 0
            (154 * Second) tm1 (getAccessToken demo_tm (demo_server (100 * Second)) "api" 0).1.2 _ _ _ _).
  - vm_compute. reflexivity.
  - constructor.
  - vm_compute. reflexivity.
Defined.
