(* ===== verification/Secure.v ===== *)
(** * secure/aesgcm.go: authenticated encryption of payloads

    The key check, and the nonce-prefixed format around crypto/cipher's AEAD,
    which is known by its interface. *)
From S2P Require Import Prelude GoText.

Definition KeySize : nat := 32.
Definition ErrInvalidKeySize := errors_New "secure.ErrInvalidKeySize".
Definition ErrCiphertextTooShort := errors_New "secure.ErrCiphertextTooShort".

(** [cipher.AEAD], for no additional data. *)
Record AEAD := mkAEAD {
  NonceSize : nat;
  Seal : string -> string -> string;
  Open : string -> string -> result string;
}.

(** Its documented behaviour, for nonces of its size: what was sealed opens, and
    nothing opens that was not sealed under this nonce. *)
Record aead_ok (aead : AEAD) : Prop := {
  Open_Seal nonce p : String.length nonce = NonceSize aead -> Open aead nonce (Seal aead nonce p) = Ok p;
  Open_sound nonce c p : String.length nonce = NonceSize aead -> Open aead nonce c = Ok p ->
    c = Seal aead nonce p;
}.

(** [NewAESGCMEncryptor]: [NewCipher] and [NewGCM] are the standard library's. *)
Definition NewAESGCMEncryptor {Block : Type} (NewCipher : string -> result Block)
    (NewGCM : Block -> result AEAD) (key : string) : result AEAD :=
  if negb (Nat.eqb (String.length key) KeySize) then Fail ErrInvalidKeySize
  else
    match NewCipher key with
    | Fail e => Fail (Error "secure: build AES cipher" [e])
    | Ok block =>
        match NewGCM block with
        | Fail e => Fail (Error "secure: build GCM" [e])
        | Ok aead => Ok aead
        end
    end.

(** [Encrypt]: [random] is what reading the system's randomness gave. *)
Definition Encrypt (e : AEAD) (random : result string) (plaintext : string) : result string :=
  match random with
  | Fail err => Fail (Error "secure: generate nonce" [err])
  | Ok nonce => Ok (nonce +:+ Seal e nonce plaintext)
  end.

Definition Decrypt (e : AEAD) (ciphertext : string) : result string :=
  if Nat.ltb (String.length ciphertext) (NonceSize e) then Fail ErrCiphertextTooShort
  else
    let nonce := str_take (NonceSize e) ciphertext in
    let sealed := str_drop (NonceSize e) ciphertext in
    match Open e nonce sealed with
    | Fail err => Fail (Error "secure: decrypt" [err])
    | Ok plaintext => Ok plaintext
    end.

(** ** Theorems *)

(** What is encrypted decrypts, and nothing else does.  With a nonce of the
    cipher's size, decrypting an encryption gives the plaintext back; and a
    ciphertext decrypts to a plaintext only if it is that plaintext's own
    encryption under the nonce it starts with, so any change to it is refused. *)
Theorem Encrypt_Decrypt (aead : AEAD) :
  aead_ok aead ->
  (forall nonce p, String.length nonce = NonceSize aead ->
     Encrypt aead (Ok nonce) p ≫= Decrypt aead = Ok p)
  /\ (forall c p, Decrypt aead c = Ok p ->
       exists nonce, String.length nonce = NonceSize aead /\ Encrypt aead (Ok nonce) p = Ok c)
  /\ (forall c, (String.length c < NonceSize aead)%nat -> Decrypt aead c = Fail ErrCiphertextTooShort).
Proof.
  intros [Hos Hsound]. unfold Encrypt, Decrypt. split; [|split].
  - intros nonce p Hn. cbn [mbind result_bind]. rewrite string_length_app, <- Hn.
    destruct (Nat.ltb_spec (String.length nonce + String.length (Seal aead nonce p)) (String.length nonce)); [lia|].
    by rewrite str_take_app, str_drop_app, Hos.
  - intros c p. destruct (Nat.ltb_spec (String.length c) (NonceSize aead)) as [|Hlen]; [done|].
    destruct (Open aead _ _) as [p'|e] eqn:E; [|done]. intros [= ->].
    exists (str_take (NonceSize aead) c). rewrite length_str_take. split; [lia|].
    apply Hsound in E; [|rewrite length_str_take; lia]. by rewrite <- E, str_take_drop.
  - intros c Hlen. by destruct (Nat.ltb_spec (String.length c) (NonceSize aead)); [|lia].
Qed.

(** An AEAD for evaluation: the tag is the nonce and the length. *)
Definition toy_aead : AEAD := {|
  NonceSize := 2;
  Seal nonce p := p +:+ nonce;
  Open nonce c :=
    let n := (String.length c - 2)%nat in
    if String.eqb (str_drop n c) nonce then Ok (str_take n c) else Fail (errors_New "message authentication failed");
|}.

Lemma toy_aead_ok : aead_ok toy_aead.
Proof.
  split; simpl.
  - intros nonce p Hn. rewrite string_length_app, Hn.
    replace (String.length p + 2 - 2)%nat with (String.length p) by lia.
    by rewrite str_drop_app, str_take_app, String.eqb_refl.
  - intros nonce c p Hn. destruct (string_eqb_spec (str_drop (String.length c - 2) c) nonce) as [<-|]; [|done].
    intros [= <-]. by rewrite str_take_drop.
Qed.

Lemma Encrypt_Decrypt_witness :
  Encrypt toy_aead (Ok "ab") "hello" = Ok "abhelloab"
  /\ Encrypt toy_aead (Ok "ab") "hello" ≫= Decrypt toy_aead = Ok "hello"
  /\ is_Ok (Decrypt toy_aead "abhelloax") = false.
Proof.
  split; [vm_compute; reflexivity|]. split; [|vm_compute; reflexivity].
  exact (proj1 (Encrypt_Decrypt toy_aead toy_aead_ok) "ab" "hello" eq_refl).
Defined.
