(* ===== verification/Fcm.v ===== *)
(** * Package fcm: push notifications through Firebase Cloud Messaging

    Building the request (message.go), reading the answer (response.go), the
    configuration (config.go, credentials.go) and the client that puts them
    together (fcm.go).  JSON decoding, key parsing and path escaping are
    arguments. *)
From S2P Require Import Prelude GoNum GoText GoFmt.
From stdpp Require Import fin_maps.
Local Open Scope Z_scope.

(** ** errors.go *)
Definition ErrInvalidCredentials := errors_New "fcm.ErrInvalidCredentials".
Definition ErrMissingProject := errors_New "fcm.ErrMissingProject".
Definition ErrProjectMismatch := errors_New "fcm.ErrProjectMismatch".
Definition ErrEmptyAddress := errors_New "fcm.ErrEmptyAddress".

(** ** message.go *)

Definition maxTitleBytes : nat := 512.
Definition maxBodyBytes : nat := 2048.

Record NotificationMessage := mkNotification {
  Address : string;
  Title : string;
  Body : string;
  Link : string;
  Tag : string;
  Data : gmap string string;
  TTL : Z;
}.

Record message := mkMessage {
  m_Token : string;
  m_Data : gmap string string;
  m_Headers : gmap string string;
}.

(** The loop of [truncateBytes]: it steps back from [limit] to the start of a
    character. *)
Fixpoint step_back (s : string) (limit : nat) : nat :=
  match limit with
  | O => O
  | S limit' =>
      match String.get limit s with
      | Some c => if negb (RuneStart c) then step_back s limit' else limit
      | None => limit
      end
  end.

Definition truncateBytes (s : string) (limit : nat) : string :=
  if Nat.leb (String.length s) limit then s else str_take (step_back s limit) s.

Definition newSendRequest (msg : NotificationMessage) : result message :=
  let token := TrimSpace (Address msg) in
  if String.eqb token "" then Fail ErrEmptyAddress
  else
    let data := Data msg in
    let data := <["title" := truncateBytes (Title msg) maxTitleBytes]> data in
    let data := <["body" := truncateBytes (Body msg) maxBodyBytes]> data in
    let data := <["link" := Link msg]> data in
    let data := <["tag" := Tag msg]> data in
    let headers := {["Urgency" := "high"]} in
    let headers := if 0 <? TTL msg then <["TTL" := Itoa (Z.quot (TTL msg) Second)]> headers
                   else headers in
    Ok (mkMessage token data headers).

(** ** response.go *)

Definition ErrorUnregistered : string := "UNREGISTERED".
Definition ErrorSenderIDMismatch : string := "SENDER_ID_MISMATCH".
Definition ErrorQuotaExceeded : string := "QUOTA_EXCEEDED".
Definition ErrorUnavailable : string := "UNAVAILABLE".
Definition ErrorInternal : string := "INTERNAL".

Record SendResponse := mkSendResponse {
  StatusCode : Z;
  sr_Body : string;
  sr_Headers : gmap string string;
  AcceptedName : string;
  sr_ErrorCode : string;
  RetryAfter : Z;
}.

Definition Accepted (r : SendResponse) : bool := StatusCode r =? 200.
Definition Retryable (r : SendResponse) : bool :=
  if existsb (String.eqb (sr_ErrorCode r)) [ErrorQuotaExceeded; ErrorUnavailable; ErrorInternal]
  then true
  else (StatusCode r =? 429) || (500 <=? StatusCode r).
Definition InvalidToken (r : SendResponse) : bool :=
  String.eqb (sr_ErrorCode r) ErrorUnregistered || String.eqb (sr_ErrorCode r) ErrorSenderIDMismatch.

(** What the JSON decoder finds in an error answer: the API status and the
    codes of its details. *)
Record error_answer := mkErrorAnswer { ea_Status : string; ea_Details : list string }.

Fixpoint first_detail (details : list string) : option string :=
  match details with
  | [] => None
  | d :: ds => if negb (String.eqb d "") then Some d else first_detail ds
  end.

Definition parseErrorCode (unmarshal : string -> option error_answer) (body : string) : string :=
  match unmarshal body with
  | None => ""
  | Some answer => default (ea_Status answer) (first_detail (ea_Details answer))
  end.

(** [parseRetryAfter]: [ParseTime] reads an HTTP date, [now] is the instant
    [time.Until] reads. *)
Definition parseRetryAfter (ParseTime : string -> option Z) (now : Z) (value : string) : Z :=
  if String.eqb value "" then 0
  else
    match Atoi value with
    | Some seconds => Z.max (mul64 seconds Second) 0
    | None => match ParseTime value with
              | Some at_ => Z.max (time_Sub at_ now) 0
              | None => 0
              end
    end.

(** The decoders and the clock [newSendResponse] uses. *)
Record reply_env := mkReplyEnv {
  re_name : string -> option string;
  re_error : string -> option error_answer;
  re_ParseTime : string -> option Z;
  re_now : Z;
}.

(** [newSendResponse], of an HTTP answer with this status, [Retry-After] header
    and body. *)
Definition newSendResponse (env : reply_env) (status : Z) (retry_after body : string)
    (headers : gmap string string) : SendResponse :=
  if status =? 200 then
    mkSendResponse status body headers (default "" (re_name env body)) "" 0
  else
    mkSendResponse status body headers "" (parseErrorCode (re_error env) body)
      (parseRetryAfter (re_ParseTime env) (re_now env) retry_after).

(** ** credentials.go *)

Record serviceAccount := mkServiceAccount {
  sa_Type : string;
  sa_ProjectID : string;
  sa_PrivateKeyID : string;
  sa_PrivateKey : string;
  sa_ClientEmail : string;
  sa_TokenURI : string;
}.

Definition serviceAccountType : string := "service_account".

(** [validateKey]: [PKCS8] tells the keys that parse as PKCS #8 and whether they
    are RSA keys, [PKCS1] those that parse as PKCS #1, [PEM] undoes the armour. *)
Definition validateKey (PEM : string -> option string) (PKCS8 : string -> option bool)
    (PKCS1 : string -> bool) (key : string) : option error :=
  let key := default key (PEM key) in
  match PKCS8 key with
  | None => if negb (PKCS1 key) then Some (errors_New "private_key is neither PKCS #8 nor PKCS #1")
            else None
  | Some rsa => if negb rsa then Some (errors_New "private_key is not an RSA key") else None
  end.

Definition parseServiceAccount (unmarshal : string -> result serviceAccount)
    (validateKey : string -> option error) (raw : string) : result serviceAccount :=
  let invalid (us : list error) := Fail (Error "fcm: invalid credentials" (ErrInvalidCredentials :: us)) in
  match unmarshal raw with
  | Fail e => invalid [e]
  | Ok account =>
      if negb (String.eqb (sa_Type account) serviceAccountType)
         || String.eqb (sa_ClientEmail account) "" || String.eqb (sa_PrivateKey account) ""
      then invalid []
      else match validateKey (sa_PrivateKey account) with
           | Some e => invalid [e]
           | None => Ok account
           end
  end.

Definition resolveProjectID (configured account : string) : result string :=
  let projectID := TrimSpace configured in
  let projectID := if String.eqb projectID "" then account else projectID in
  if String.eqb projectID "" then Fail ErrMissingProject
  else if negb (String.eqb account "") && negb (String.eqb projectID account)
  then Fail (Error "fcm: project mismatch" [ErrProjectMismatch])
  else Ok projectID.

(** ** config.go, fcm.go *)

Definition DefaultEndpoint : string := "https://fcm.googleapis.com".
Definition DefaultTokenURL : string := "https://oauth2.googleapis.com/token".

Record Config := mkConfig {
  cfg_ProjectID : string;
  cfg_Credentials : string;
  cfg_Endpoint : string;
  cfg_TokenURL : string;
}.

Fixpoint firstNonEmpty (values : list string) : string :=
  match values with
  | [] => ""
  | value :: values' =>
      let trimmed := TrimSpace value in
      if negb (String.eqb trimmed "") then trimmed else firstNonEmpty values'
  end.

(** [strings.TrimRight(s, "/")]. *)
Fixpoint TrimRight_slash (s : string) : string :=
  match s with
  | "" => ""
  | String c t =>
      let t := TrimRight_slash t in
      if String.eqb t "" && Ascii.eqb c "/" then "" else String c t
  end.

Record Client := mkClient { projectID : string; sendURL : string; tokenURL : string }.

Definition New (parse : string -> result serviceAccount) (PathEscape : string -> string) (cfg : Config)
  : result Client :=
  match parse (cfg_Credentials cfg) with
  | Fail e => Fail e
  | Ok account =>
      match resolveProjectID (cfg_ProjectID cfg) (sa_ProjectID account) with
      | Fail e => Fail e
      | Ok projectID =>
          let endpoint := TrimRight_slash (firstNonEmpty [cfg_Endpoint cfg; DefaultEndpoint]) in
          Ok (mkClient projectID
                (endpoint +:+ "/v1/projects/" +:+ PathEscape projectID +:+ "/messages:send")
                (firstNonEmpty [cfg_TokenURL cfg; sa_TokenURI account; DefaultTokenURL]))
      end
  end.

(** An answer as [Send] reads it. *)
Record http_answer := mkAnswer { ha_Status : Z; ha_RetryAfter : string; ha_Body : string }.

(** [Send]: [Marshal], [NewRequest] and [Do] are the standard library's and the
    transport's; a body is read up to [maxResponseBody] bytes. *)
Definition maxResponseBody : nat := Z.to_nat (Z.shiftl 64 10).
Definition Send (Marshal : message -> result string) (NewRequest : string -> string -> option error)
    (Do : string -> string -> result http_answer) (env : reply_env) (c : Client)
    (msg : NotificationMessage) : result SendResponse :=
  match newSendRequest msg with
  | Fail e => Fail e
  | Ok request =>
      match Marshal request with
      | Fail e => Fail (Error "fcm: encode message" [e])
      | Ok payload =>
          match NewRequest (sendURL c) payload with
          | Some e => Fail (Error "fcm: build request" [e])
          | None =>
              match Do (sendURL c) payload with
              | Fail e => Fail (Error "fcm: send message" [e])
              | Ok resp =>
                  Ok (newSendResponse env (ha_Status resp) (ha_RetryAfter resp)
                        (str_take maxResponseBody (ha_Body resp)) (m_Headers request))
              end
          end
      end
  end.

(** ** Lemmas on characters *)

Lemma get_app_r (u t : string) (i : nat) : String.get (String.length u + i) (u +:+ t) = String.get i t.
Proof. induction u as [|c u IH]; [done|]. rewrite string_app_cons. exact IH. Qed.

(** The bytes of a valid first character: it starts one, the others do not. *)
Lemma first_char_bytes (s : string) :
  s <> "" -> valid_unit ((decode_rune s).1, str_take (decode_rune s).2 s) = true ->
  (exists c, String.get 0 s = Some c /\ RuneStart c = true)
  /\ forall i, (0 < i < (decode_rune s).2)%nat -> exists c, String.get i s = Some c /\ RuneStart c = false.
Proof.
  intros Hs. destruct s as [|c0 t]; [done|]. unfold valid_unit.
  assert (Hcont : forall lo hi c, 128 <= lo -> hi <= 191 -> cont_in lo hi c = true -> RuneStart c = false).
  { intros lo hi c Hlo Hhi Hc. unfold RuneStart, cont_in in *. bool_to_prop. apply negb_false_iff.
    apply andb_true_iff. split; apply Z.leb_le; lia. }
  assert (Hlead : byte_val c0 < 128 \/ 194 <= byte_val c0 -> RuneStart c0 = true).
  { intros Hb. unfold RuneStart, cont_in.
    destruct (Z.leb_spec 128 (byte_val c0)), (Z.leb_spec (byte_val c0) 191); simpl; (done || lia). }
  assert (Hbad : (RuneError, str_take 1 (String c0 t)).2 = String c0 "") by (by destruct t).
  unfold decode_rune.
  destruct (Z.ltb_spec (byte_val c0) 128) as [Ha|Ha]; [intros _; split; [exists c0; eauto|simpl; lia]|].
  assert (Hl : forall n lo hi, utf8_lead (byte_val c0) = Some (n, lo, hi) ->
                 128 <= lo /\ hi <= 191 /\ 194 <= byte_val c0).
  { intros n lo hi. unfold utf8_lead. case_ltb; try done.
    repeat (match goal with |- context [if ?b then _ else _] => destruct b end);
      intros [= <- <- <-]; lia. }
  destruct (utf8_lead (byte_val c0)) as [[[n lo] hi]|]; [|by destruct t].
  destruct (Hl n lo hi eq_refl) as (Hlo & Hhi & Hc0). clear Hl.
  destruct n as [|[|[|[|n]]]]; try (by destruct t).
  - destruct t as [|c1 t]; [done|]. destruct (cont_in lo hi c1) eqn:H1; [|done].
    intros _. split; [exists c0; eauto|]. intros [|[|i]] Hi; simpl in *; try lia. eauto.
  - destruct t as [|c1 [|c2 t]]; try done.
    destruct (cont_in lo hi c1) eqn:H1, (cont_in 128 191 c2) eqn:H2; try done.
    intros _. split; [exists c0; eauto|].
    intros [|[|[|i]]] Hi; simpl in *; try lia; [exists c1|exists c2]; eauto using Z.le_refl.
  - destruct t as [|c1 [|c2 [|c3 t]]]; try done.
    destruct (cont_in lo hi c1) eqn:H1, (cont_in 128 191 c2) eqn:H2, (cont_in 128 191 c3) eqn:H3; try done.
    intros _. split; [exists c0; eauto|].
    intros [|[|[|[|i]]]] Hi; simpl in *; try lia; [exists c1|exists c2|exists c3]; eauto using Z.le_refl.
Qed.

(** Stepping back inside the first character reaches the start of the string,
    and beyond it behaves as on the rest. *)
Lemma step_back_inside (s : string) (w limit : nat) :
  (forall i, (0 < i < w)%nat -> exists c, String.get i s = Some c /\ RuneStart c = false) ->
  (limit < w)%nat -> step_back s limit = O.
Proof.
  intros Hin. induction limit as [|l IH]; intros Hl; [done|]. cbn [step_back].
  destruct (Hin (S l)) as (c & -> & ->); [lia|]. simpl. apply IH. lia.
Qed.

Lemma step_back_beyond (u t : string) (k : nat) :
  (0 < String.length u)%nat ->
  (forall i, (0 < i < String.length u)%nat -> exists c, String.get i (u +:+ t) = Some c /\ RuneStart c = false) ->
  (exists c, String.get 0 t = Some c /\ RuneStart c = true) ->
  step_back (u +:+ t) (String.length u + k) = (String.length u + step_back t k)%nat.
Proof.
  intros Hu Hin (c0 & Hc0 & Hr0). induction k as [|k IH].
  - pose proof (get_app_r u t 0) as Hg. rewrite Nat.add_0_r in *.
    destruct (String.length u) as [|n] eqn:En; [lia|]. cbn [step_back]. by rewrite Hg, Hc0, Hr0.
  - pose proof (get_app_r u t (S k)) as Hg. rewrite Nat.add_succ_r in *. cbn [step_back]. rewrite Hg.
    destruct (String.get (S k) t) as [c|]; [|lia]. destruct (RuneStart c); cbn [negb]; [lia|exact IH].
Qed.

(** The longest run of whole characters, from the start, that fits. *)
Fixpoint longest_fit (limit : nat) (us : list (Z * string)) : string :=
  match us with
  | [] => ""
  | u :: us' => if Nat.leb (String.length u.2) limit
                then u.2 +:+ longest_fit (limit - String.length u.2) us' else ""
  end.

Lemma truncate_longest_fit (s : string) (limit : nat) :
  valid_utf8 s = true -> truncateBytes s limit = longest_fit limit (runes s).
Proof.
  revert limit. induction s as [|s Hs IH] using runes_ind; intros limit Hv; [done|].
  unfold valid_utf8 in Hv. rewrite runes_cons in Hv |- * by done. cbn [forallb] in Hv. bool_to_prop.
  destruct s as [|c0 s0]; [done|]. pose proof (decode_rune_width c0 s0) as Hw.
  destruct (first_char_bytes (String c0 s0) Hs H) as [Hfirst Hin].
  remember (String c0 s0) as s eqn:Es. clear Es Hs Hfirst c0 s0 H.
  remember (decode_rune s).2 as w eqn:Ew. clear Ew.
  set (u := str_take w s) in *. set (t := str_drop w s) in *.
  assert (Hu : String.length u = w) by (unfold u; rewrite length_str_take; lia).
  assert (Hsu : s = u +:+ t) by (unfold u, t; by rewrite str_take_drop).
  assert (Hlen : String.length s = (w + String.length t)%nat) by (rewrite Hsu, string_length_app; lia).
  cbn [longest_fit snd]. rewrite Hu.
  specialize (IH (limit - w)%nat H0). unfold truncateBytes in *.
  destruct (Nat.leb_spec w limit) as [Hfit|Hfit].
  - rewrite <- IH. rewrite Hlen.
    destruct (Nat.leb_spec (w + String.length t) limit), (Nat.leb_spec (String.length t) (limit - w)); try lia;
      [by rewrite Hsu|].
    assert (Ht : t <> "") by (intros E; rewrite E in *; simpl in *; lia).
    assert (Hbeyond : step_back s limit = (w + step_back t (limit - w))%nat).
    { pose proof (step_back_beyond u t (limit - w)) as Hb. rewrite <- Hsu, Hu in Hb.
      replace (w + (limit - w))%nat with limit in Hb by lia. apply Hb; [lia|exact Hin|].
      unfold valid_utf8 in H0. rewrite runes_cons in H0 by done. cbn [forallb] in H0. bool_to_prop.
      by apply first_char_bytes. }
    rewrite Hbeyond, <- Hu, Hsu. apply str_take_app_add.
  - destruct (Nat.leb_spec (String.length s) limit); [lia|].
    rewrite (step_back_inside s w limit Hin Hfit). by destruct s.
Qed.

Lemma raw_cons (u : Z * string) us : raw (u :: us) = u.2 +:+ raw us.
Proof. done. Qed.

Lemma longest_fit_take (us : list (Z * string)) (limit : nat) :
  exists k, longest_fit limit us = raw (take k us)
    /\ (String.length (raw (take k us)) <= limit)%nat
    /\ (k = length us \/ (k < length us)%nat /\ (limit < String.length (raw (take (S k) us)))%nat).
Proof.
  revert limit. induction us as [|u us IH]; intros limit; cbn [longest_fit].
  { exists 0%nat. split; [done|]. split; [simpl; lia|by left]. }
  destruct (Nat.leb_spec (String.length u.2) limit) as [Hu|Hu].
  - destruct (IH (limit - String.length u.2)%nat) as (k & -> & Hk & Hmax). exists (S k).
    change (take (S k) (u :: us)) with (u :: take k us).
    change (take (S (S k)) (u :: us)) with (u :: take (S k) us).
    rewrite !raw_cons, !string_length_app. split; [done|]. split; [lia|].
    destruct Hmax as [->|[Hlt Hmax]]; [by left|right]. simpl. split; lia.
  - exists 0%nat. split; [done|]. split; [simpl; lia|]. right. split; [simpl; lia|].
    simpl take. rewrite take_0, raw_cons, string_length_app. lia.
Qed.

Lemma truncateBytes_length (s : string) (limit : nat) :
  (String.length (truncateBytes s limit) <= limit)%nat.
Proof.
  unfold truncateBytes. destruct (Nat.leb_spec (String.length s) limit); [done|].
  rewrite length_str_take.
  assert (step_back s limit <= limit)%nat; [|lia]. clear. induction limit as [|l IH]; [done|].
  cbn [step_back]. destruct (String.get _ s) as [c|]; [|done]. destruct (RuneStart c); simpl; lia.
Qed.

(** ** Theorems *)

(** [C29] Truncation keeps as many whole characters as fit: of a valid UTF-8
    string it is the longest run of complete characters from the start within
    the limit, so a character is never split and nothing that fits is dropped. *)
Theorem truncateBytes_whole_characters (s : string) (limit : nat) :
  valid_utf8 s = true ->
  exists k, truncateBytes s limit = raw (take k (runes s))
    /\ (String.length (truncateBytes s limit) <= limit)%nat
    /\ (truncateBytes s limit = s
        \/ (k < length (runes s))%nat /\ (limit < String.length (raw (take (S k) (runes s))))%nat).
Proof.
  intros Hv. rewrite truncate_longest_fit by done.
  destruct (longest_fit_take (runes s) limit) as (k & -> & Hk & Hmax). exists k.
  split; [done|]. split; [done|]. destruct Hmax as [->|Hmax]; [left|by right].
  by rewrite firstn_all, raw_runes.
Qed.

Definition euro : string := String (Ascii.ascii_of_nat 226) (String (Ascii.ascii_of_nat 130) (String (Ascii.ascii_of_nat 172) "")).

Lemma truncateBytes_whole_characters_witness :
  truncateBytes ("ab" +:+ euro +:+ "c") 4 = "ab"
  /\ exists k, truncateBytes ("ab" +:+ euro +:+ "c") 5 = raw (take k (runes ("ab" +:+ euro +:+ "c"))).
Proof.
  split; [vm_compute; reflexivity|].
  destruct (truncateBytes_whole_characters ("ab" +:+ euro +:+ "c") 5) as (k & Hk & _).
  - vm_compute. reflexivity.
  - exists k. exact Hk.
Defined.

(** What is sent.  A request is built exactly when the address is not
    blank.  Its data is the message's own, with the four reserved keys holding
    the fields whatever the caller put under them, title and body within their
    limits; and a time to live goes out, in whole seconds, exactly when it is
    positive. *)
Theorem newSendRequest_decides (msg : NotificationMessage) :
  match newSendRequest msg with
  | Fail e => TrimSpace (Address msg) = "" /\ e = ErrEmptyAddress
  | Ok m =>
      m_Token m = TrimSpace (Address msg) /\ m_Token m <> ""
      /\ (exists t b, m_Data m !! "title" = Some t /\ m_Data m !! "body" = Some b
            /\ (String.length t <= maxTitleBytes)%nat /\ (String.length b <= maxBodyBytes)%nat)
      /\ m_Data m !! "link" = Some (Link msg) /\ m_Data m !! "tag" = Some (Tag msg)
      /\ (forall k, k ∉ ["title"; "body"; "link"; "tag"] -> m_Data m !! k = Data msg !! k)
      /\ m_Headers m !! "Urgency" = Some "high"
      /\ m_Headers m !! "TTL" = (if decide (0 < TTL msg) then Some (Itoa (Z.quot (TTL msg) Second)) else None)
  end.
Proof.
  unfold newSendRequest. destruct (string_eqb_spec (TrimSpace (Address msg)) "") as [He|He]; [done|].
  cbn [m_Token m_Data m_Headers]. split; [done|]. split; [done|]. split.
  { exists (truncateBytes (Title msg) maxTitleBytes), (truncateBytes (Body msg) maxBodyBytes).
    split; [by simplify_map_eq|]. split; [by simplify_map_eq|]. split; apply truncateBytes_length. }
  split; [by simplify_map_eq|]. split; [by simplify_map_eq|]. split.
  { intros k Hk. rewrite !not_elem_of_cons in Hk. by rewrite !lookup_insert_ne by naive_solver. }
  destruct (Z.ltb_spec 0 (TTL msg)), (decide (0 < TTL msg)); try lia; split; by simplify_map_eq.
Qed.

(** How an answer is read.  An accepted message carries no error code, asks
    for no delay and is neither retried nor charged to the token; any other
    answer carries the code of its first detail that has one, or else the API
    status; it is retried exactly on the three transient codes, on 429 and on
    server errors; a token is dropped exactly on the two codes that condemn it;
    and the delay asked for is never negative. *)
Theorem newSendResponse_classes (env : reply_env) (status : Z) (retry_after body : string)
    (headers : gmap string string) :
  let r := newSendResponse env status retry_after body headers in
  let code :=
    match re_error env body with
    | None => ""
    | Some a => default (ea_Status a) (List.find (fun d => negb (String.eqb d "")) (ea_Details a))
    end in
  (Accepted r = true -> sr_ErrorCode r = "" /\ RetryAfter r = 0 /\ Retryable r = false /\ InvalidToken r = false)
  /\ (Accepted r = false ->
        sr_ErrorCode r = code
        /\ (Retryable r = true <-> code ∈ [ErrorQuotaExceeded; ErrorUnavailable; ErrorInternal]
                                  \/ status = 429 \/ 500 <= status)
        /\ (InvalidToken r = true <-> code ∈ [ErrorUnregistered; ErrorSenderIDMismatch])
        /\ 0 <= RetryAfter r).
Proof.
  cbv zeta. unfold newSendResponse, Accepted. destruct (Z.eqb_spec status 200) as [->|Hst]; cbn [StatusCode].
  { split; [done|]. by rewrite Z.eqb_refl. }
  split; [intros Hs%Z.eqb_eq; done|]. intros _. cbn [sr_ErrorCode RetryAfter].
  assert (Hcode : parseErrorCode (re_error env) body
    = match re_error env body with
      | None => ""
      | Some a => default (ea_Status a) (List.find (fun d => negb (String.eqb d "")) (ea_Details a))
      end).
  { unfold parseErrorCode. by destruct (re_error env body) as [a|]. }
  rewrite <- Hcode. set (c := parseErrorCode _ _). split; [done|]. split; [|split].
  - unfold Retryable. cbn [sr_ErrorCode StatusCode]. rewrite <- existsb_string_elem.
    destruct (existsb _ _); [naive_solver|].
    destruct (Z.eqb_spec status 429), (Z.leb_spec 500 status); simpl; intuition (done || lia).
  - unfold InvalidToken. cbn [sr_ErrorCode]. rewrite <- existsb_string_elem. simpl. by rewrite orb_false_r.
  - unfold parseRetryAfter. destruct (String.eqb retry_after ""); [done|].
    destruct (Atoi retry_after); [lia|]. destruct (re_ParseTime env retry_after); lia.
Qed.

(** Which project is used.  Its name is the configured one, trimmed, or the
    service account's when that is blank, is never empty, and is the service
    account's whenever the account names one; every other configuration is
    refused with the error that says why. *)
Theorem resolveProjectID_decides (configured account : string) :
  match resolveProjectID configured account with
  | Ok p => p <> "" /\ (account <> "" -> p = account)
            /\ (TrimSpace configured <> "" -> p = TrimSpace configured)
            /\ (TrimSpace configured = "" -> p = account)
  | Fail e =>
      errors_Is e ErrMissingProject = true /\ TrimSpace configured = "" /\ account = ""
      \/ errors_Is e ErrProjectMismatch = true /\ TrimSpace configured <> ""
         /\ account <> "" /\ TrimSpace configured <> account
  end.
Proof.
  unfold resolveProjectID.
  destruct (string_eqb_spec (TrimSpace configured) "") as [Hc|Hc].
  - destruct (string_eqb_spec account "") as [Ha|Ha]; [by left|]. cbn [negb andb].
    by rewrite String.eqb_refl.
  - destruct (string_eqb_spec (TrimSpace configured) ""); [done|].
    destruct (string_eqb_spec account "") as [Ha|Ha]; cbn [negb andb]; [done|].
    destruct (string_eqb_spec (TrimSpace configured) account) as [He|He]; cbn [negb]; [done|by right].
Qed.
