(* ===== verification/GoExpand.v ===== *)
(** * Environment expansion: [os.Expand] and [os.ExpandEnv]

    The replacement of [$name] and [${name}] the standard library performs on a
    text, and what it makes of a text written as a template. *)
From S2P Require Import Prelude GoText.
From Stdlib Require Import Ascii.
Local Open Scope string_scope.

Definition isShellSpecialVar (c : ascii) : bool :=
  existsb (Ascii.eqb c)
    ["*"; "#"; "$"; "@"; "!"; "?"; "-"; "0"; "1"; "2"; "3"; "4"; "5"; "6"; "7"; "8"; "9"]%char.

Definition isAlphaNum (c : ascii) : bool :=
  let b := byte_val c in
  Ascii.eqb c "_" || ((48 <=? b) && (b <=? 57))%Z || ((97 <=? b) && (b <=? 122))%Z
  || ((65 <=? b) && (b <=? 90))%Z.

(** The position of the first byte [c]. *)
Fixpoint index_byte (c : ascii) (s : string) : option nat :=
  match s with
  | "" => None
  | String d s' => if Ascii.eqb d c then Some O else S <$> index_byte c s'
  end.

Fixpoint take_while (p : ascii -> bool) (s : string) : string :=
  match s with
  | "" => ""
  | String c s' => if p c then String c (take_while p s') else ""
  end.

(** [getShellName]: the name that starts [s], and how many bytes it takes. *)
Definition getShellName (s : string) : string * nat :=
  match s with
  | "" => ("", O)
  | String c s' =>
      if Ascii.eqb c "{" then
        match s' with
        | String v (String b _) =>
            if isShellSpecialVar v && Ascii.eqb b "}" then (String v "", 3%nat)
            else
              match index_byte "}" s' with
              | Some O => ("", 2%nat)
              | Some i => (str_take i s', (i + 2)%nat)
              | None => ("", 1%nat)
              end
        | _ =>
            match index_byte "}" s' with
            | Some O => ("", 2%nat)
            | Some i => (str_take i s', (i + 2)%nat)
            | None => ("", 1%nat)
            end
        end
      else if isShellSpecialVar c then (String c "", 1%nat)
      else let name := take_while isAlphaNum s in (name, String.length name)
  end.

(** [os.Expand]: the loop consumes at least one byte a turn, so a turn per byte
    is enough. A dollar at the end stays. *)
Fixpoint Expand_go (fuel : nat) (mapping : string -> string) (s : string) : string :=
  match fuel with
  | O => s
  | S fuel' =>
      match s with
      | "" => ""
      | String c s' =>
          if Ascii.eqb c "$" && negb (String.eqb s' "") then
            let '(name, w) := getShellName s' in
            let value := if String.eqb name "" then (if Nat.ltb 0 w then "" else "$")
                         else mapping name in
            value +:+ Expand_go fuel' mapping (str_drop w s')
          else String c (Expand_go fuel' mapping s')
      end
  end.

Definition ExpandEnv (Getenv : string -> string) (s : string) : string :=
  Expand_go (String.length s) Getenv s.

(** ** Templates *)

Inductive piece : Type :=
| Lit (text : string)
| Var (name : string).

(** A literal holds no dollar; a name is not empty and holds no closing brace. *)
Definition piece_ok (p : piece) : bool :=
  match p with
  | Lit text => match index_byte "$" text with None => true | Some _ => false end
  | Var name => negb (String.eqb name "") && match index_byte "}" name with None => true | Some _ => false end
  end.

Definition render_piece (p : piece) : string :=
  match p with Lit text => text | Var name => "${" +:+ name +:+ "}" end.
Definition render (ps : list piece) : string := str_concat (map render_piece ps).
Definition instantiate (Getenv : string -> string) (ps : list piece) : string :=
  str_concat (map (fun p => match p with Lit text => text | Var name => Getenv name end) ps).

(** ** Lemmas *)

Example expand_example :
  ExpandEnv (fun n => "<" +:+ n +:+ ">") "a${DSN}b$HOME/c$$ ${} $" = "a<DSN>b<HOME>/c<$>  $".
Proof. reflexivity. Qed.

Lemma index_byte_app c s t :
  index_byte c s = None -> index_byte c (s +:+ String c t) = Some (String.length s).
Proof.
  induction s as [|d s IH]; simpl; [by rewrite Ascii.eqb_refl|].
  destruct (Ascii.eqb d c); [done|]. destruct (index_byte c s); [done|]. intros _.
  by rewrite IH.
Qed.

(** A braced name is read whole, the special one-byte names too. *)
Lemma getShellName_braced name t :
  piece_ok (Var name) = true ->
  getShellName ("{" +:+ name +:+ "}" +:+ t) = (name, (String.length name + 2)%nat).
Proof.
  intros Hok. simpl in Hok. apply andb_true_iff in Hok as [Hne Hb].
  destruct (index_byte "}" name) eqn:Hi; [done|]. clear Hb.
  destruct name as [|v name]; [done|]. clear Hne.
  pose proof (index_byte_app "}" (String v name) t Hi) as Hx.
  pose proof (str_take_app (String v name) (String "}" t)) as Ht.
  assert (Hgen : match index_byte "}" (String v name +:+ String "}" t) with
                 | Some O => ("", 2%nat)
                 | Some i => (str_take i (String v name +:+ String "}" t), (i + 2)%nat)
                 | None => ("", 1%nat)
                 end = (String v name, (String.length (String v name) + 2)%nat)).
  { rewrite Hx. change (String.length (String v name)) with (S (String.length name)) in *. by rewrite Ht. }
  destruct name as [|b name].
  - change (getShellName ("{" +:+ String v "" +:+ "}" +:+ t))
      with (if isShellSpecialVar v && Ascii.eqb "}" "}" then (String v "", 3%nat)
            else match index_byte "}" (String v "" +:+ String "}" t) with
                 | Some O => ("", 2%nat)
                 | Some i => (str_take i (String v "" +:+ String "}" t), (i + 2)%nat)
                 | None => ("", 1%nat) end).
    destruct (isShellSpecialVar v && Ascii.eqb "}" "}"); [done|exact Hgen].
  - assert (Hbb : Ascii.eqb b "}" = false).
    { simpl in Hi. destruct (Ascii.eqb v "}"); [done|]. by destruct (Ascii.eqb b "}"). }
    change (getShellName ("{" +:+ String v (String b name) +:+ "}" +:+ t))
      with (if isShellSpecialVar v && Ascii.eqb b "}" then (String v "", 3%nat)
            else match index_byte "}" (String v (String b name) +:+ String "}" t) with
                 | Some O => ("", 2%nat)
                 | Some i => (str_take i (String v (String b name) +:+ String "}" t), (i + 2)%nat)
                 | None => ("", 1%nat) end).
    rewrite Hbb, andb_false_r. exact Hgen.
Qed.

Lemma Expand_go_lit fuel mapping text t :
  piece_ok (Lit text) = true -> (String.length text <= fuel)%nat ->
  Expand_go fuel mapping (text +:+ t)
  = text +:+ Expand_go (fuel - String.length text) mapping t.
Proof.
  revert fuel. induction text as [|c text IH]; intros fuel Hok Hf.
  { simpl. by rewrite Nat.sub_0_r. }
  destruct fuel as [|fuel]; [simpl in Hf; lia|].
  simpl in Hok. destruct (Ascii.eqb c "$") eqn:Hc; [done|].
  rewrite !string_app_cons. cbn [Expand_go]. rewrite Hc. cbn [andb]. rewrite IH; [done| |simpl in Hf; lia].
  simpl. by destruct (index_byte "$" text).
Qed.

Lemma Expand_go_var fuel mapping name t :
  piece_ok (Var name) = true ->
  Expand_go (S fuel) mapping ("${" +:+ name +:+ "}" +:+ t) = mapping name +:+ Expand_go fuel mapping t.
Proof.
  intros Hok. change ("${" +:+ name +:+ "}" +:+ t) with (String "$" ("{" +:+ name +:+ "}" +:+ t)).
  cbn [Expand_go]. change (Ascii.eqb "$" "$" && negb (String.eqb ("{" +:+ name +:+ "}" +:+ t) "")) with true.
  cbv iota. rewrite getShellName_braced by done. simpl in Hok. apply andb_true_iff in Hok as [Hne _].
  destruct (String.eqb name ""); [done|]. f_equal.
  replace (String.length name + 2)%nat with (String.length ("{" +:+ name +:+ "}"))
    by (rewrite !string_length_app; simpl; lia).
  replace ("{" +:+ name +:+ "}" +:+ t) with (("{" +:+ name +:+ "}") +:+ t) by by rewrite <- !string_app_assoc.
  by rewrite str_drop_app.
Qed.

(** Expanding a rendered template puts the value of each variable in its place
    and leaves everything else as it is, the values included. *)
Lemma ExpandEnv_render Getenv ps :
  forallb piece_ok ps = true -> ExpandEnv Getenv (render ps) = instantiate Getenv ps.
Proof.
  unfold ExpandEnv. assert (Hgo : forall fuel, (String.length (render ps) <= fuel)%nat ->
    forallb piece_ok ps = true -> Expand_go fuel Getenv (render ps) = instantiate Getenv ps); [|by apply Hgo].
  induction ps as [|[text|name] ps IH]; intros fuel Hf Hok.
  - by destruct fuel.
  - cbn [forallb] in Hok. apply andb_true_iff in Hok as [Hp Hok].
    change (render (Lit text :: ps)) with (text +:+ render ps) in *.
    rewrite string_length_app in Hf. rewrite Expand_go_lit by (done || lia).
    change (instantiate Getenv (Lit text :: ps)) with (text +:+ instantiate Getenv ps).
    f_equal. apply IH; [lia|done].
  - cbn [forallb] in Hok. apply andb_true_iff in Hok as [Hp Hok].
    change (render (Var name :: ps)) with (("${" +:+ name +:+ "}") +:+ render ps) in *.
    rewrite !string_length_app in Hf. simpl in Hf. destruct fuel as [|fuel]; [lia|].
    replace (("${" +:+ name +:+ "}") +:+ render ps) with ("${" +:+ name +:+ "}" +:+ render ps)
      by by rewrite <- !string_app_assoc.
    rewrite Expand_go_var by done.
    change (instantiate Getenv (Var name :: ps)) with (Getenv name +:+ instantiate Getenv ps).
    f_equal. apply IH; [lia|done].
Qed.
