(* ===== verification/ConfigLoader.v ===== *)
(** * config/viper.go: the configuration loader

    Loading (file, environment expansion, decoding), validation, reloading on
    demand and on file events, the debounce timer, and the subscribers'
    channels. Viper's parsers, the file system and fsnotify are the environment
    of a load ([viper_env]).

    The loader's methods run concurrently: [exec] is one atomic step (what the
    code does under one lock, or between two), a goroutine in [Reload] is where
    it stands ([rphase]), and [run] is any interleaving. [None] is a panic: a
    send on, or a close of, a channel that is closed. *)
From S2P Require Import Prelude GoNum GoText GoExpand.
From stdpp Require Import fin_maps.
Local Open Scope Z_scope.
Local Open Scope string_scope.

Definition ErrConfigFileReadFailed := errors_New "config.ErrConfigFileReadFailed".
Definition ErrConfigUnmarshalFailed := errors_New "config.ErrConfigUnmarshalFailed".
Definition ErrConfigValidationFailed := errors_New "config.ErrConfigValidationFailed".
Definition ErrConfigReloadFailed := errors_New "config.ErrConfigReloadFailed".
Definition ErrValidationReloadFailed :=
  Error "config.ErrValidationReloadFailed" [ErrConfigReloadFailed; ErrConfigValidationFailed].
Definition ErrConfigWatchUnavailable := errors_New "config.ErrConfigWatchUnavailable".

(** [errors.Join] of two errors. *)
Definition errors_Join (e e' : error) : error := Error "errors.Join" [e; e'].

(** The callbacks are known by whether they are set: what they do is the
    caller's. *)
Record LoaderOptions := mkOptions {
  ConfigName : string;
  ConfigType : string;
  ConfigPaths : list string;
  WatchConfig : bool;
  ReloadDebounce : Z;
  OnConfigChange : bool;
  OnConfigChangeError : bool;
}.

Definition DefaultLoaderOptions : LoaderOptions :=
  mkOptions "config" "yaml" ["."; "./config"; "/etc/app"; "$HOME/.app"] false (1 * Second)%Z false false.

Section Loader.
(** [T] is the configuration type, [V] what a viper instance holds once read. *)
Context {T V : Type}.

(** What one load meets: the outcome of [ReadInConfig] (and whether its error
    is a [ConfigFileNotFoundError]), the file viper resolved, the file system,
    the environment, the parser of a text, the file-bound instance, and the
    decoder into [T]. *)
Record viper_env := mkViperEnv {
  ve_ReadInConfig : option error;
  ve_NotFound : error -> bool;
  ve_ConfigFileUsed : string;
  ve_ReadFile : string -> result string;
  ve_Getenv : string -> string;
  ve_ReadConfig : string -> string -> result V;
  ve_bound : V;
  ve_Unmarshal : V -> result T;
}.

Definition loadConfig (opts : LoaderOptions) (env : viper_env) : result T :=
  let decode (source : V) :=
    match ve_Unmarshal env source with
    | Fail e => Fail (errors_Join ErrConfigUnmarshalFailed e)
    | Ok config => Ok config
    end in
  let resolved :=
    let configFile := ve_ConfigFileUsed env in
    if negb (String.eqb configFile "") then
      match ve_ReadFile env configFile with
      | Fail e => Fail (errors_Join ErrConfigFileReadFailed e)
      | Ok content =>
          match ve_ReadConfig env (ConfigType opts) (ExpandEnv (ve_Getenv env) content) with
          | Fail e => Fail (errors_Join ErrConfigFileReadFailed e)
          | Ok expanded => decode expanded
          end
      end
    else decode (ve_bound env) in
  match ve_ReadInConfig env with
  | Some e => if ve_NotFound env e then resolved else Fail (errors_Join ErrConfigFileReadFailed e)
  | None => resolved
  end.

Record ConfigChangeEvent := mkEvent {
  OldConfig : option T;
  NewConfig : option T;
  ev_Error : option error;
  ev_Timestamp : Z;
}.

(** A channel of capacity 10: what is waiting in it, and whether it is closed. *)
Record chan := mkChan { ch_buf : list ConfigChangeEvent; ch_closed : bool }.
Definition chan_cap : nat := 10.

(** Where a goroutine stands in [Reload]. *)
Inductive rphase : Type :=
| RStart                                   (** about to read the current one *)
| RLoad (old : option T)                   (** about to load and validate *)
| RFail (notified returned : error)        (** about to tell the subscribers *)
| RStore (old : option T) (new : T)        (** about to replace the current one *)
| RNotify (old : option T) (new : T)
| RDone (r : option error).

Record Loader := mkLoader {
  options : LoaderOptions;
  current : option T;
  subscribers : list nat;
  validator : option (T -> option error);
  debouncer : option nat;
  stopped : bool;
  cancelled : bool;             (** the context of the loader is *)
  watching : bool;
  (** the channels made, the timers that have not fired and when they will,
      the goroutines in [Reload], the callbacks started *)
  chans : gmap nat chan;
  timers : gmap nat Z;
  reloads : list rphase;
  callbacks : list (T + error);
}.

(** A nil [opts] stands for the defaults. The name, type and paths also go to
    viper, which resolves the file of a load from them. *)
Definition NewViper (opts : option LoaderOptions) : Loader :=
  mkLoader (default DefaultLoaderOptions opts) None [] None None false false false ∅ ∅ [] [].

Definition GetCurrent (s : Loader) : option T := current s.

Definition set_current (c : option T) (s : Loader) : Loader :=
  mkLoader (options s) c (subscribers s) (validator s) (debouncer s) (stopped s) (cancelled s)
    (watching s)
    (chans s) (timers s) (reloads s) (callbacks s).
Definition set_watching (b : bool) (s : Loader) : Loader :=
  mkLoader (options s) (current s) (subscribers s) (validator s) (debouncer s) (stopped s) (cancelled s) b
    (chans s) (timers s) (reloads s) (callbacks s).
Definition set_validator (v : option (T -> option error)) (s : Loader) : Loader :=
  mkLoader (options s) (current s) (subscribers s) v (debouncer s) (stopped s) (cancelled s)
    (watching s)
    (chans s) (timers s) (reloads s) (callbacks s).
Definition set_subs (subs : list nat) (cs : gmap nat chan) (s : Loader) : Loader :=
  mkLoader (options s) (current s) subs (validator s) (debouncer s) (stopped s) (cancelled s)
    (watching s)
    cs (timers s) (reloads s) (callbacks s).
Definition set_timers (d : option nat) (st : bool) (ts : gmap nat Z) (s : Loader) : Loader :=
  mkLoader (options s) (current s) (subscribers s) (validator s) d st (cancelled s) (watching s)
    (chans s) ts (reloads s) (callbacks s).
Definition set_cancelled (s : Loader) : Loader :=
  mkLoader (options s) (current s) (subscribers s) (validator s) (debouncer s) (stopped s) true
    (watching s) (chans s) (timers s) (reloads s) (callbacks s).
Definition set_reloads (rs : list rphase) (s : Loader) : Loader :=
  mkLoader (options s) (current s) (subscribers s) (validator s) (debouncer s) (stopped s) (cancelled s)
    (watching s)
    (chans s) (timers s) rs (callbacks s).
Definition add_callback (cb : option (T + error)) (s : Loader) : Loader :=
  mkLoader (options s) (current s) (subscribers s) (validator s) (debouncer s) (stopped s) (cancelled s)
    (watching s)
    (chans s) (timers s) (reloads s) (callbacks s ++ option_list cb).

(** ** Loading *)

Definition startWatching (s : Loader) (env : viper_env) : Loader * option error :=
  if String.eqb (ve_ConfigFileUsed env) "" then (s, Some ErrConfigWatchUnavailable)
  else (set_watching true s, None).

Definition Load (s : Loader) (env : viper_env) : Loader * result T :=
  match loadConfig (options s) env with
  | Fail e => (s, Fail e)
  | Ok config =>
      let s := set_current (Some config) s in
      if WatchConfig (options s) then
        match startWatching s env with
        | (s, Some e) => (s, Fail e)
        | (s, None) => (s, Ok config)
        end
      else (s, Ok config)
  end.

Definition LoadWithValidation (s : Loader) (v : option (T -> option error)) (env : viper_env)
  : Loader * result T :=
  match Load (set_validator v s) env with
  | (s, Fail e) => (s, Fail e)
  | (s, Ok config) =>
      match v ≫= (fun v => v config) with
      | Some e => (s, Fail (errors_Join ErrConfigValidationFailed e))
      | None => (s, Ok config)
      end
  end.

(** ** Channels *)

(** [select { case ch <- event: default: }]; a send on a closed channel panics. *)
Definition send_nb (cs : gmap nat chan) (ch : nat) (ev : ConfigChangeEvent) : option (gmap nat chan) :=
  match cs !! ch with
  | Some c =>
      if ch_closed c then None
      else if Nat.ltb (length (ch_buf c)) chan_cap
           then Some (<[ch := mkChan (ch_buf c ++ [ev]) false]> cs) else Some cs
  | None => None
  end.
Fixpoint send_all (subs : list nat) (ev : ConfigChangeEvent) (cs : gmap nat chan)
  : option (gmap nat chan) :=
  match subs with
  | [] => Some cs
  | ch :: subs' => cs ← send_nb cs ch ev; send_all subs' ev cs
  end.

Definition close_chan (cs : gmap nat chan) (ch : nat) : option (gmap nat chan) :=
  match cs !! ch with
  | Some c => if ch_closed c then None else Some (<[ch := mkChan (ch_buf c) true]> cs)
  | None => None
  end.
Fixpoint close_all (subs : list nat) (cs : gmap nat chan) : option (gmap nat chan) :=
  match subs with
  | [] => Some cs
  | ch :: subs' => cs ← close_chan cs ch; close_all subs' cs
  end.

Definition Subscribe (s : Loader) : Loader * nat :=
  let ch := fresh (dom (chans s)) in
  (set_subs (subscribers s ++ [ch]) (<[ch := mkChan [] false]> (chans s)) s, ch).

Fixpoint remove_first (ch : nat) (subs : list nat) : list nat :=
  match subs with
  | [] => []
  | c :: subs' => if Nat.eqb c ch then subs' else c :: remove_first ch subs'
  end.
Definition Unsubscribe (s : Loader) (ch : nat) : option Loader :=
  if existsb (Nat.eqb ch) (subscribers s) then
    cs ← close_chan (chans s) ch;
    Some (set_subs (remove_first ch (subscribers s)) cs s)
  else Some s.

(** [notifyChange] and [notifyError]: the callback is started first, on a
    goroutine of its own; [now] is the event's timestamp. *)
Definition notifyChange (s : Loader) (old : option T) (new : T) (now : Z) : option Loader :=
  let s := add_callback (if OnConfigChange (options s) then Some (inl new) else None) s in
  cs ← send_all (subscribers s) (mkEvent old (Some new) None now) (chans s);
  Some (set_subs (subscribers s) cs s).
Definition notifyError (s : Loader) (e : error) (now : Z) : option Loader :=
  let s := add_callback (if OnConfigChangeError (options s) then Some (inr e) else None) s in
  cs ← send_all (subscribers s) (mkEvent None None (Some e) now) (chans s);
  Some (set_subs (subscribers s) cs s).

(** ** Reloading *)

(** One atomic part of [Reload]; [env] is what a load at this moment meets. *)
Definition reload_step (s : Loader) (p : rphase) (env : viper_env) (now : Z) : option (Loader * rphase) :=
  match p with
  | RStart => Some (s, RLoad (GetCurrent s))
  | RLoad old =>
      match loadConfig (options s) env with
      | Fail e => Some (s, RFail e (errors_Join ErrConfigReloadFailed e))
      | Ok new =>
          match validator s ≫= (fun v => v new) with
          | Some e =>
              let validationErr := errors_Join ErrValidationReloadFailed e in
              Some (s, RFail validationErr validationErr)
          | None => Some (s, RStore old new)
          end
      end
  | RFail notified returned => s ← notifyError s notified now; Some (s, RDone (Some returned))
  | RStore old new => Some (set_current (Some new) s, RNotify old new)
  | RNotify old new => s ← notifyChange s old new now; Some (s, RDone None)
  | RDone r => Some (s, RDone r)
  end.

(** [Reload] with nothing in between. *)
Fixpoint reload_go (fuel : nat) (s : Loader) (p : rphase) (env : viper_env) (now : Z)
  : option (Loader * rphase) :=
  match fuel with
  | O => Some (s, p)
  | S fuel' => '(s, p) ← reload_step s p env now; reload_go fuel' s p env now
  end.
Definition Reload (s : Loader) (env : viper_env) (now : Z) : option (Loader * rphase) :=
  reload_go 4 s RStart env now.

(** ** The debounce timer and [Stop] *)

(** Setting a timer, and stopping one that may have fired already. *)
Definition stop_timer (d : option nat) (ts : gmap nat Z) : gmap nat Z :=
  match d with Some t => delete t ts | None => ts end.

Definition debouncedReload (s : Loader) (now : Z) : Loader :=
  if stopped s then s
  else
    let ts := stop_timer (debouncer s) (timers s) in
    let t := fresh (dom ts) in
    set_timers (Some t) false (<[t := (now + ReloadDebounce (options s))%Z]> ts) s.

(** [Stop] cancels the context, which nothing here waits for, and takes the two
    locks one after the other. *)
Definition Stop_timer (s : Loader) : Loader :=
  let s := set_cancelled s in
  set_timers None true (stop_timer (debouncer s) (timers s)) s.
Definition Stop_subscribers (s : Loader) : option Loader :=
  cs ← close_all (subscribers s) (chans s);
  Some (set_subs [] cs s).
Definition Stop (s : Loader) : option Loader := Stop_subscribers (Stop_timer s).

(** A receive that does not block. *)
Definition Receive (s : Loader) (ch : nat) : Loader :=
  match chans s !! ch with
  | Some (mkChan (_ :: buf) b) => set_subs (subscribers s) (<[ch := mkChan buf b]> (chans s)) s
  | _ => s
  end.

(** ** Interleavings *)

Inductive op : Type :=
| OpLoad (env : viper_env)
| OpSubscribe
| OpUnsubscribe (ch : nat)
| OpReceive (ch : nat)
| OpReload                                   (** a goroutine calls [Reload] *)
| OpAdvance (g : nat) (env : viper_env) (now : Z)  (** goroutine [g] moves on *)
| OpFileEvent (now : Z)                      (** fsnotify reports an event *)
| OpFire (t : nat) (now : Z)                 (** timer [t] comes due *)
| OpStopTimer
| OpStopSubscribers.

Definition exec (s : Loader) (o : op) : option Loader :=
  match o with
  | OpLoad env => Some (Load s env).1
  | OpSubscribe => Some (Subscribe s).1
  | OpUnsubscribe ch => Unsubscribe s ch
  | OpReceive ch => Some (Receive s ch)
  | OpReload => Some (set_reloads (reloads s ++ [RStart]) s)
  | OpAdvance g env now =>
      match reloads s !! g with
      | Some p => '(s', p') ← reload_step s p env now; Some (set_reloads (<[g := p']> (reloads s')) s')
      | None => Some s
      end
  | OpFileEvent now => Some (if watching s then debouncedReload s now else s)
  | OpFire t now =>
      match timers s !! t with
      | Some due =>
          Some (if (due <=? now)%Z
                then set_reloads (reloads s ++ [RStart])
                       (set_timers (debouncer s) (stopped s) (delete t (timers s)) s)
                else s)
      | None => Some s
      end
  | OpStopTimer => Some (Stop_timer s)
  | OpStopSubscribers => Stop_subscribers s
  end.

Fixpoint run (ops : list op) (s : Loader) : option Loader :=
  match ops with
  | [] => Some s
  | o :: ops' => s ← exec s o; run ops' s
  end.

(** The last file event a watching loader saw before it was stopped. *)
Fixpoint last_event (ops : list op) (s : Loader) : option Z :=
  match ops with
  | [] => None
  | o :: ops' =>
      match exec s o with
      | None => None
      | Some s' =>
          match last_event ops' s', o with
          | Some e, _ => Some e
          | None, OpFileEvent now => if watching s && negb (stopped s) then Some now else None
          | None, _ => None
          end
      end
  end.

(** ** Lemmas: channels *)

(** What a non-blocking send leaves in a channel that is open. *)
Definition pushed (ev : ConfigChangeEvent) (c : chan) : chan :=
  if Nat.ltb (length (ch_buf c)) chan_cap then mkChan (ch_buf c ++ [ev]) (ch_closed c) else c.
Definition closed (c : chan) : chan := mkChan (ch_buf c) true.

Definition open_in (cs : gmap nat chan) (ch : nat) : Prop :=
  exists c, cs !! ch = Some c /\ ch_closed c = false.

Lemma open_in_insert cs ch ch' c : ch <> ch' -> open_in cs ch' -> open_in (<[ch := c]> cs) ch'.
Proof. intros Hne (c' & Hc & Ho). exists c'. by rewrite lookup_insert_ne. Qed.

(** A walk over open, distinct channels that updates each of them. *)
Lemma walk_lookup (f : chan -> chan) ch subs (cs cs' : gmap nat chan) c :
  ch ∉ subs -> cs !! ch = Some c ->
  (forall k, cs' !! k = if decide (k ∈ subs) then f <$> <[ch := f c]> cs !! k else <[ch := f c]> cs !! k) ->
  forall k, cs' !! k = if decide (k ∈ ch :: subs) then f <$> cs !! k else cs !! k.
Proof.
  intros Hn Hc H k. rewrite H. destruct (decide (k = ch)) as [->|Hne].
  - rewrite decide_False by done. rewrite decide_True by set_solver.
    by rewrite lookup_insert_eq, Hc.
  - rewrite lookup_insert_ne by done.
    destruct (decide (k ∈ subs)); [by rewrite decide_True by set_solver|by rewrite decide_False by set_solver].
Qed.

Lemma send_all_lookup subs ev cs :
  NoDup subs -> (forall ch, ch ∈ subs -> open_in cs ch) ->
  exists cs', send_all subs ev cs = Some cs'
    /\ forall k, cs' !! k = if decide (k ∈ subs) then pushed ev <$> cs !! k else cs !! k.
Proof.
  revert cs. induction subs as [|ch subs IH]; intros cs Hnd Ho; [by exists cs|].
  apply NoDup_cons in Hnd as [Hn Hnd]. destruct (Ho ch ltac:(set_solver)) as (c & Hc & Hop).
  assert (Hsend : exists cs1, send_nb cs ch ev = Some cs1 /\ forall k, cs1 !! k = <[ch := pushed ev c]> cs !! k).
  { unfold send_nb, pushed. rewrite Hc, Hop. destruct (Nat.ltb _ _); [by eexists|].
    exists cs. split; [done|]. intros k. by rewrite insert_id. }
  destruct Hsend as (cs1 & Hs & Heq). apply map_eq in Heq as ->.
  destruct (IH (<[ch := pushed ev c]> cs) Hnd) as (cs' & Hc' & Hl).
  { intros k Hk. apply open_in_insert; [set_solver|apply Ho; set_solver]. }
  exists cs'. split; [simpl; by rewrite Hs|]. by eapply walk_lookup.
Qed.

Lemma close_all_lookup subs cs :
  NoDup subs -> (forall ch, ch ∈ subs -> open_in cs ch) ->
  exists cs', close_all subs cs = Some cs'
    /\ forall k, cs' !! k = if decide (k ∈ subs) then closed <$> cs !! k else cs !! k.
Proof.
  revert cs. induction subs as [|ch subs IH]; intros cs Hnd Ho; [by exists cs|].
  apply NoDup_cons in Hnd as [Hn Hnd]. destruct (Ho ch ltac:(set_solver)) as (c & Hc & Hop).
  destruct (IH (<[ch := closed c]> cs) Hnd) as (cs' & Hc' & Hl).
  { intros k Hk. apply open_in_insert; [set_solver|apply Ho; set_solver]. }
  exists cs'. split; [|by eapply walk_lookup].
  simpl. unfold close_chan. rewrite Hc, Hop. exact Hc'.
Qed.

Lemma remove_first_spec ch subs :
  NoDup subs -> NoDup (remove_first ch subs) /\ forall k, k ∈ remove_first ch subs <-> k ∈ subs /\ k <> ch.
Proof.
  induction subs as [|c subs IH]; intros Hnd; simpl; [set_solver|].
  apply NoDup_cons in Hnd as [Hn Hnd]. destruct (IH Hnd) as [Hr Hi].
  destruct (Nat.eqb_spec c ch) as [->|Hne].
  - split; [done|]. set_solver.
  - split; [apply NoDup_cons; split; [rewrite Hi; tauto|done]|]. set_solver.
Qed.

(** Subscribed is open, anything else is closed, and nothing overflows. *)
Definition chan_inv (s : Loader) : Prop :=
  NoDup (subscribers s)
  /\ (forall ch, ch ∈ subscribers s -> open_in (chans s) ch)
  /\ (forall ch c, chans s !! ch = Some c ->
        (length (ch_buf c) <= chan_cap)%nat /\ (ch ∉ subscribers s -> ch_closed c = true)).

Lemma pushed_cap ev c : (length (ch_buf c) <= chan_cap)%nat -> (length (ch_buf (pushed ev c)) <= chan_cap)%nat.
Proof.
  intros H. unfold pushed. destruct (Nat.ltb_spec (length (ch_buf c)) chan_cap); [|done].
  simpl. rewrite length_app. simpl. lia.
Qed.
Lemma pushed_closed ev c : ch_closed (pushed ev c) = ch_closed c.
Proof. unfold pushed. by destruct (Nat.ltb _ _). Qed.

Lemma send_all_inv s ev :
  chan_inv s ->
  exists cs, send_all (subscribers s) ev (chans s) = Some cs /\ chan_inv (set_subs (subscribers s) cs s)
    /\ forall k, cs !! k = if decide (k ∈ subscribers s) then pushed ev <$> chans s !! k else chans s !! k.
Proof.
  intros (Hnd & Ho & Hc). destruct (send_all_lookup _ ev _ Hnd Ho) as (cs & Hs & Hl).
  exists cs. split; [done|]. split; [|done]. split; [done|]. cbn. split.
  - intros ch Hin. destruct (Ho ch Hin) as (c & Hch & Hop). exists (pushed ev c).
    by rewrite Hl, decide_True, Hch, pushed_closed by done.
  - intros ch c. rewrite Hl. destruct (decide (ch ∈ subscribers s)) as [Hin|Hin].
    + destruct (chans s !! ch) as [c'|] eqn:E; [|done]. intros [= <-].
      destruct (Hc ch c' E) as [Hlen _]. split; [by apply pushed_cap|done].
    + apply Hc.
Qed.

Lemma notify_inv s ev cb :
  chan_inv s ->
  exists cs, send_all (subscribers (add_callback cb s)) ev (chans (add_callback cb s)) = Some cs
    /\ chan_inv (set_subs (subscribers s) cs (add_callback cb s)).
Proof.
  intros Hi. destruct (send_all_inv s ev Hi) as (cs & Hs & Hi' & _). by exists cs.
Qed.

Lemma Subscribe_inv s : chan_inv s -> chan_inv (Subscribe s).1.
Proof.
  intros (Hnd & Ho & Hc). unfold Subscribe.
  assert (Hf : chans s !! fresh (dom (chans s)) = None) by (apply not_elem_of_dom, is_fresh).
  set (ch := fresh (dom (chans s))) in *.
  assert (Hn : ch ∉ subscribers s).
  { intros Hin. destruct (Ho ch Hin) as (c & Hch & _). congruence. }
  split; [|split]; cbn.
  - apply NoDup_app. split; [done|]. split; [set_solver|apply NoDup_singleton].
  - intros k Hk. destruct (decide (ch = k)) as [<-|Hne].
    + exists (mkChan [] false). by rewrite lookup_insert_eq.
    + apply open_in_insert; [done|]. apply Ho. set_solver.
  - intros k c Hk. destruct (decide (ch = k)) as [<-|Hne].
    + rewrite lookup_insert_eq in Hk. injection Hk as <-. split; [simpl; unfold chan_cap; lia|set_solver].
    + rewrite lookup_insert_ne in Hk by done. destruct (Hc k c Hk). split; [done|set_solver].
Qed.

Lemma Unsubscribe_inv s ch : chan_inv s -> exists s', Unsubscribe s ch = Some s' /\ chan_inv s'.
Proof.
  intros (Hnd & Ho & Hc). unfold Unsubscribe. destruct (existsb _ _) eqn:E; [|by exists s].
  assert (Hin : ch ∈ subscribers s).
  { apply existsb_exists in E as (k & Hk & ->%Nat.eqb_eq). by apply list_elem_of_In. }
  destruct (Ho ch Hin) as (c & Hch & Hop). unfold close_chan. rewrite Hch, Hop.
  eexists. split; [reflexivity|]. destruct (remove_first_spec ch _ Hnd) as [Hr Hi].
  split; [done|]. cbn. split.
  - intros k Hk. apply Hi in Hk as [Hk Hne]. apply open_in_insert; auto.
  - intros k c' Hk. destruct (decide (ch = k)) as [<-|Hne].
    + rewrite lookup_insert_eq in Hk. injection Hk as <-. by destruct (Hc ch c Hch).
    + rewrite lookup_insert_ne in Hk by done. destruct (Hc k c' Hk) as [? Hcl]. split; [done|].
      intros Hn. apply Hcl. intros Hs. apply Hn, Hi. auto.
Qed.

Lemma Receive_inv s ch : chan_inv s -> chan_inv (Receive s ch).
Proof.
  intros Hi. unfold Receive. destruct (chans s !! ch) as [[[|ev buf] b]|] eqn:E; [done| |done].
  destruct Hi as (Hnd & Ho & Hc).
  split; [done|]. cbn. split.
  - intros k Hk. destruct (Ho k Hk) as (c & Hck & Hop). destruct (decide (ch = k)) as [<-|Hne].
    + exists (mkChan buf b). rewrite lookup_insert_eq. split; [done|]. rewrite E in Hck. by injection Hck as <-.
    + exists c. by rewrite lookup_insert_ne.
  - intros k c Hk. destruct (decide (ch = k)) as [<-|Hne].
    + rewrite lookup_insert_eq in Hk. injection Hk as <-. destruct (Hc ch _ E) as [Hl Hcl].
      simpl in *. split; [lia|done].
    + rewrite lookup_insert_ne in Hk by done. by apply Hc.
Qed.

Lemma Stop_subscribers_inv s :
  chan_inv s -> exists s', Stop_subscribers s = Some s' /\ chan_inv s' /\ subscribers s' = [].
Proof.
  intros (Hnd & Ho & Hc). unfold Stop_subscribers.
  destruct (close_all_lookup _ _ Hnd Ho) as (cs & Hs & Hl). rewrite Hs.
  eexists. split; [reflexivity|]. split; [|done]. split; [apply NoDup_nil_2|]. cbn.
  split; [set_solver|]. intros k c. rewrite Hl. destruct (decide (k ∈ subscribers s)) as [Hin|Hin].
  - destruct (chans s !! k) as [c'|] eqn:E; [|done]. intros [= <-]. by destruct (Hc k c' E).
  - intros Hk. destruct (Hc k c Hk) as [? Hcl]. auto.
Qed.

(** The steps of [Reload] touch the channels only by notifying. *)
Lemma reload_step_inv s p env now :
  chan_inv s -> exists s' p', reload_step s p env now = Some (s', p') /\ chan_inv s'
    /\ timers s' = timers s /\ stopped s' = stopped s /\ debouncer s' = debouncer s
    /\ watching s' = watching s /\ options s' = options s /\ validator s' = validator s.
Proof.
  intros Hi.
  assert (Hsame : forall p' : rphase, exists s1 p1, Some (s, p') = Some (s1, p1) /\ chan_inv s1
    /\ timers s1 = timers s /\ stopped s1 = stopped s /\ debouncer s1 = debouncer s
    /\ watching s1 = watching s /\ options s1 = options s /\ validator s1 = validator s).
  { intros p'. by exists s, p'. }
  destruct p as [|old|e r|old new|old new|r]; cbn [reload_step]; try apply Hsame.
  - destruct (loadConfig _ _) as [c|e]; [|apply Hsame].
    destruct (validator s ≫= _); apply Hsame.
  - unfold notifyError.
    destruct (notify_inv s (mkEvent None None (Some e) now)
                (if OnConfigChangeError (options s) then Some (inr e) else None) Hi) as (cs & Hs & Hi').
    rewrite Hs. do 2 eexists. by split_and!.
  - do 2 eexists. by split_and!.
  - unfold notifyChange.
    destruct (notify_inv s (mkEvent old (Some new) None now)
                (if OnConfigChange (options s) then Some (inl new) else None) Hi) as (cs & Hs & Hi').
    rewrite Hs. do 2 eexists. by split_and!.
Qed.

Lemma Load_channels s env :
  subscribers (Load s env).1 = subscribers s /\ chans (Load s env).1 = chans s
  /\ timers (Load s env).1 = timers s /\ debouncer (Load s env).1 = debouncer s
  /\ stopped (Load s env).1 = stopped s /\ options (Load s env).1 = options s
  /\ reloads (Load s env).1 = reloads s.
Proof.
  unfold Load, startWatching. destruct (loadConfig _ _); [|done]. simpl.
  destruct (WatchConfig _); [|done]. by destruct (String.eqb _ _).
Qed.

Lemma exec_inv s o : chan_inv s -> exists s', exec s o = Some s' /\ chan_inv s'.
Proof.
  intros Hi. destruct o; simpl.
  - eexists. split; [reflexivity|]. destruct (Load_channels s env) as (Hs & Hc & _).
    unfold chan_inv. by rewrite Hs, Hc.
  - eexists. split; [reflexivity|]. by apply Subscribe_inv.
  - by apply Unsubscribe_inv.
  - eexists. split; [reflexivity|]. by apply Receive_inv.
  - by eexists.
  - destruct (reloads s !! g) as [p|]; [|by exists s].
    destruct (reload_step_inv s p env now Hi) as (s' & p' & -> & Hi' & _). simpl. by eexists.
  - eexists. split; [reflexivity|]. destruct (watching s); [|done].
    unfold debouncedReload. by destruct (stopped s).
  - destruct (timers s !! t); [|by exists s]. eexists. split; [reflexivity|]. by destruct (_ <=? _)%Z.
  - by eexists.
  - destruct (Stop_subscribers_inv s Hi) as (s' & -> & ? & _). by eexists.
Qed.

Lemma run_inv ops s : chan_inv s -> exists s', run ops s = Some s' /\ chan_inv s'.
Proof.
  revert s. induction ops as [|o ops IH]; intros s Hi; [by exists s|]. simpl.
  destruct (exec_inv s o Hi) as (s1 & -> & Hi1). simpl. by apply IH.
Qed.

Lemma NewViper_inv opts : chan_inv (NewViper opts).
Proof. split; [apply NoDup_nil_2|]. split; [intros ch Hin; by apply not_elem_of_nil in Hin|]. intros ch c. cbn. by rewrite lookup_empty. Qed.

(** ** Lemmas: the timer *)

(** A timer that has not fired is the debouncer, set by the last event seen;
    a stopped loader has none. *)
Definition timer_inv (last : option Z) (s : Loader) : Prop :=
  (stopped s = true -> timers s = ∅)
  /\ (forall t due, timers s !! t = Some due ->
        debouncer s = Some t /\ exists e, last = Some e /\ due = (e + ReloadDebounce (options s))%Z).

Definition event_seen (s : Loader) (o : op) (last : option Z) : option Z :=
  match o with
  | OpFileEvent now => if watching s && negb (stopped s) then Some now else last
  | _ => last
  end.

Lemma timer_inv_same last s s' :
  timers s' = timers s -> debouncer s' = debouncer s -> stopped s' = stopped s -> options s' = options s ->
  timer_inv last s -> timer_inv last s'.
Proof. unfold timer_inv. intros -> -> -> ->. done. Qed.

Lemma stop_timer_only last s : timer_inv last s -> stop_timer (debouncer s) (timers s) = ∅.
Proof.
  intros [_ Ht]. apply map_empty. intros t. unfold stop_timer. destruct (debouncer s) as [d|] eqn:E.
  - destruct (decide (d = t)) as [<-|Hne]; [by rewrite lookup_delete_eq|]. rewrite lookup_delete_ne by done.
    destruct (timers s !! t) as [due|] eqn:E2; [|done]. destruct (Ht t due E2). congruence.
  - destruct (timers s !! t) as [due|] eqn:E2; [|done]. by destruct (Ht t due E2).
Qed.

(** Goals about a step that leaves the timer alone. *)
Local Ltac stays := split; [done|split; [done|simpl; intros; split; [done|lia]]].

Lemma exec_timer_inv last s o s' :
  chan_inv s -> timer_inv last s -> exec s o = Some s' ->
  timer_inv (event_seen s o last) s' /\ options s' = options s
  /\ (stopped s = true ->
        stopped s' = true
        /\ length (reloads s') = (length (reloads s) + match o with OpReload => 1 | _ => 0 end)%nat).
Proof.
  intros Hi Ht. destruct o as [env| |ch|ch| |g env now|now|t now| |]; simpl.
  - intros [= <-]. destruct (Load_channels s env) as (_ & _ & H1 & H2 & H3 & H4 & H5).
    split; [by eapply timer_inv_same|]. split; [done|]. rewrite H3, H5. intros; split; [done|lia].
  - intros [= <-]. stays.
  - destruct (Unsubscribe_inv s ch Hi) as (s1 & Hs & _). rewrite Hs. intros [= <-]. revert Hs.
    unfold Unsubscribe. destruct (existsb _ _).
    + destruct (close_chan _ _); [|done]. intros [= <-]. stays.
    + intros [= <-]. stays.
  - intros [= <-]. unfold Receive.
    destruct (chans s !! ch) as [[[|ev buf] b]|]; (stays).
  - intros [= <-]. split; [done|]. split; [done|]. simpl. rewrite length_app. simpl. intros; split; [done|lia].
  - destruct (reloads s !! g) as [p|] eqn:Eg; [|intros [= <-]; stays].
    destruct (reload_step_inv s p env now Hi) as (s1 & p1 & Hs & _ & H1 & H2 & H3 & _ & H5 & _).
    rewrite Hs. simpl. intros [= <-]. split; [by eapply timer_inv_same|]. split; [done|].
    simpl. rewrite length_insert. intros Hst. split; [congruence|].
    replace (reloads s1) with (reloads s); [lia|].
    revert Hs. destruct p; cbn [reload_step]; try (intros [= <- <-]; done).
    + destruct (loadConfig _ _); [|by intros [= <- <-]]. by destruct (validator s ≫= _); intros [= <- <-].
    + unfold notifyError. by destruct (send_all _ _ _); [intros [= <- <-]|].
    + unfold notifyChange. by destruct (send_all _ _ _); [intros [= <- <-]|].
  - intros [= <-]. destruct (watching s); simpl; [|stays].
    pose proof (stop_timer_only last s Ht) as Hst. unfold debouncedReload.
    destruct (stopped s) eqn:Es; simpl; [stays|].
    split; [|done]. split; [done|]. simpl. intros t due. rewrite Hst.
    intros [[<- <-]|[_ Hk]]%lookup_insert_Some; [|by rewrite lookup_empty in Hk]. split; [done|]. by exists now.
  - destruct (timers s !! t) as [due|] eqn:Et; intros [= <-]; [|stays].
    destruct (due <=? now)%Z; [|stays]. simpl. split; [|split; [done|]].
    + split; simpl.
      * intros Hst. destruct Ht as [Ht _]. rewrite (Ht Hst) in Et. by rewrite lookup_empty in Et.
      * intros t' due' Hk. apply lookup_delete_Some in Hk as [_ Hk]. by apply Ht.
    + intros Hst. destruct Ht as [Ht _]. rewrite (Ht Hst) in Et. by rewrite lookup_empty in Et.
  - intros [= <-]. pose proof (stop_timer_only last s Ht) as Hst. unfold Stop_timer. cbn [set_cancelled debouncer timers]. rewrite Hst.
    split; [|split; [done|simpl; intros; split; [done|lia]]]. split; [done|]. simpl. intros t due Hk. by rewrite lookup_empty in Hk.
  - unfold Stop_subscribers. destruct (close_all _ _); [|done]. intros [= <-].
    stays.
Qed.

Lemma run_timer_inv ops s last s' :
  chan_inv s -> timer_inv last s -> run ops s = Some s' ->
  chan_inv s' /\ options s' = options s
  /\ timer_inv (match last_event ops s with Some e => Some e | None => last end) s'
  /\ (stopped s = true ->
        length (reloads s')
        = (length (reloads s)
           + length (filter (fun o => match o with OpReload => true | _ => false end = true) ops))%nat).
Proof.
  revert s last. induction ops as [|o ops IH]; intros s last Hi Ht.
  { simpl. intros [= <-]. split_and!; [done..|]. lia. }
  simpl. destruct (exec_inv s o Hi) as (s1 & Hs & Hi1). rewrite Hs. simpl. intros Hr.
  destruct (exec_timer_inv last s o s1 Hi Ht Hs) as (Ht1 & Ho & Hst).
  destruct (IH s1 _ Hi1 Ht1 Hr) as (Hi' & Ho' & Ht' & Hc). split; [done|]. split; [congruence|]. split.
  - destruct (last_event ops s1) as [e|]; [done|]. destruct o; try done. simpl in *.
    by destruct (watching s && negb (stopped s)).
  - intros H. destruct (Hst H) as [H1 H2]. rewrite Hc, H2 by done. rewrite filter_cons.
    destruct o; simpl; lia.
Qed.

Lemma NewViper_timer_inv opts : timer_inv None (NewViper opts).
Proof. split; [done|]. intros t due. cbn. by rewrite lookup_empty. Qed.

(** ** Lemmas: [Reload] *)

(** Loading and validating, as [Reload] does it. *)
Definition load_validated (s : Loader) (env : viper_env) : result T :=
  match loadConfig (options s) env with
  | Fail e => Fail e
  | Ok new => match validator s ≫= (fun v => v new) with
              | Some e => Fail (errors_Join ErrValidationReloadFailed e)
              | None => Ok new
              end
  end.

(** Every channel after an event has been offered to the subscribers. *)
Definition told (s s' : Loader) (ev : ConfigChangeEvent) : Prop :=
  forall ch, chans s' !! ch
    = if decide (ch ∈ subscribers s) then pushed ev <$> chans s !! ch else chans s !! ch.

Lemma ErrValidationReloadFailed_Is e :
  errors_Is (errors_Join ErrValidationReloadFailed e) ErrConfigReloadFailed = true.
Proof. reflexivity. Qed.

(** ** Lemmas: the validator *)

(** Nothing the validator rejects is current, on its way there, or announced. *)
Definition valid_inv (v : T -> option error) (s : Loader) : Prop :=
  validator s = Some v
  /\ (exists c, current s = Some c /\ v c = None)
  /\ (forall p, p ∈ reloads s -> match p with RStore _ new | RNotify _ new => v new = None | _ => True end)
  /\ (forall ch c ev new, chans s !! ch = Some c -> ev ∈ ch_buf c -> NewConfig ev = Some new -> v new = None).

Lemma told_valid (v : T -> option error) s s' ev :
  told s s' ev ->
  (forall new, NewConfig ev = Some new -> v new = None) ->
  (forall ch c ev new, chans s !! ch = Some c -> ev ∈ ch_buf c -> NewConfig ev = Some new -> v new = None) ->
  forall ch c ev new, chans s' !! ch = Some c -> ev ∈ ch_buf c -> NewConfig ev = Some new -> v new = None.
Proof.
  intros Ht Hev Hb ch c ev' new Hc Hin. rewrite Ht in Hc.
  destruct (decide (ch ∈ subscribers s)); [|by eapply Hb].
  destruct (chans s !! ch) as [c0|] eqn:E; [|done]. injection Hc as <-.
  unfold pushed in Hin. destruct (Nat.ltb _ _); [|by eapply Hb].
  apply elem_of_app in Hin as [Hin|Hin]; [by eapply Hb|].
  apply list_elem_of_singleton in Hin as ->. apply Hev.
Qed.

Lemma notifyChange_told s old new now :
  chan_inv s -> exists s', notifyChange s old new now = Some s' /\ told s s' (mkEvent old (Some new) None now)
    /\ validator s' = validator s /\ current s' = current s /\ reloads s' = reloads s.
Proof.
  intros Hi. unfold notifyChange.
  destruct (send_all_inv s (mkEvent old (Some new) None now) Hi) as (cs & Hs & _ & Hl).
  cbn [add_callback subscribers chans]. rewrite Hs. eexists. by split_and!.
Qed.
Lemma notifyError_told s e now :
  chan_inv s -> exists s', notifyError s e now = Some s' /\ told s s' (mkEvent None None (Some e) now)
    /\ validator s' = validator s /\ current s' = current s /\ reloads s' = reloads s.
Proof.
  intros Hi. unfold notifyError.
  destruct (send_all_inv s (mkEvent None None (Some e) now) Hi) as (cs & Hs & _ & Hl).
  cbn [add_callback subscribers chans]. rewrite Hs. eexists. by split_and!.
Qed.

Lemma reload_step_valid v s p env now s' p' :
  chan_inv s -> valid_inv v s -> p ∈ reloads s -> reload_step s p env now = Some (s', p') ->
  valid_inv v s' /\ reloads s' = reloads s
  /\ match p' with RStore _ new | RNotify _ new => v new = None | _ => True end.
Proof.
  intros Hi Hv Hp. pose proof Hv as (Hval & Hcur & Hre & Hch). specialize (Hre p Hp) as Hpv.
  destruct p as [|old|e r|old new|old new|r]; cbn [reload_step].
  - by intros [= <- <-].
  - destruct (loadConfig _ _) as [new|e]; [|by intros [= <- <-]]. rewrite Hval. cbn.
    destruct (v new) eqn:E; by intros [= <- <-].
  - destruct (notifyError_told s e now Hi) as (s1 & -> & Ht & H1 & H2 & H3). intros [= <- <-].
    split; [|done]. split; [congruence|]. rewrite H2, H3. split; [done|]. split; [done|].
    by eapply told_valid.
  - intros [= <- <-]. split; [|done]. split; [done|]. split; [by exists new|]. done.
  - destruct (notifyChange_told s old new now Hi) as (s1 & -> & Ht & H1 & H2 & H3). intros [= <- <-].
    split; [|done]. split; [congruence|]. rewrite H2, H3. split; [done|]. split; [done|].
    eapply told_valid; [done| |done]. by intros new' [= <-].
  - by intros [= <- <-].
Qed.

(** Steps that only rearrange the channels keep what is in them. *)
Lemma valid_inv_chans v s subs cs :
  (forall ch c, cs !! ch = Some c -> ch_buf c = [] \/ exists c0, chans s !! ch = Some c0 /\ incl (ch_buf c) (ch_buf c0)) ->
  valid_inv v s -> valid_inv v (set_subs subs cs s).
Proof.
  intros Hsub (Hval & Hcur & Hre & Hch). split_and!; try done. cbn. intros ch c ev new Hc Hin.
  destruct (Hsub ch c Hc) as [He|(c0 & Hc0 & Hi)]; [rewrite He in Hin; by apply not_elem_of_nil in Hin|].
  apply (Hch ch c0 ev new Hc0). apply list_elem_of_In, Hi. by apply list_elem_of_In.
Qed.

Lemma valid_inv_more v s ps :
  (forall p, p ∈ ps -> p ∈ reloads s \/ match p with RStore _ new | RNotify _ new => v new = None | _ => True end) ->
  valid_inv v s -> valid_inv v (set_reloads ps s).
Proof.
  intros Hps (Hval & Hcur & Hre & Hch). split_and!; try done. cbn. intros p Hp.
  destruct (Hps p Hp) as [H|H]; [by apply Hre|done].
Qed.

Definition is_load (o : op) : bool := match o with OpLoad _ => true | _ => false end.

Lemma exec_valid v s o s' :
  chan_inv s -> valid_inv v s -> is_load o = false -> exec s o = Some s' -> valid_inv v s'.
Proof.
  intros Hi Hv Hnl. assert (Hincl : forall ch c, chans s !! ch = Some c -> ch_buf c = []
    \/ exists c0, chans s !! ch = Some c0 /\ incl (ch_buf c) (ch_buf c0)).
  { intros ch c Hc. right. exists c. split; [done|apply incl_refl]. }
  destruct o as [env| |ch|ch| |g env now|now|t now| |]; try done; simpl.
  - intros [= <-]. apply valid_inv_chans; [|done]. intros k c.
    intros [[<- <-]|[_ Hk]]%lookup_insert_Some; [by left|by apply Hincl].
  - unfold Unsubscribe. destruct (existsb _ _); [|by intros [= <-]].
    unfold close_chan. destruct (chans s !! ch) as [c|] eqn:E; [|done]. destruct (ch_closed c); [done|].
    intros [= <-]. apply valid_inv_chans; [|done]. intros k c'.
    intros [[<- <-]|[_ Hk]]%lookup_insert_Some; [|by apply Hincl].
    right. exists c. split; [done|apply incl_refl].
  - intros [= <-]. unfold Receive. destruct (chans s !! ch) as [[[|ev buf] b]|] eqn:E; [done| |done].
    apply valid_inv_chans; [|done]. intros k c'.
    intros [[<- <-]|[_ Hk]]%lookup_insert_Some; [|by apply Hincl].
    right. exists (mkChan (ev :: buf) b). split; [done|]. apply incl_tl, incl_refl.
  - intros [= <-]. apply valid_inv_more; [|done]. intros p Hp.
    apply elem_of_app in Hp as [Hp|Hp%list_elem_of_singleton]; [by left|right]. by subst.
  - destruct (reloads s !! g) as [p|] eqn:Eg; [|by intros [= <-]].
    destruct (reload_step s p env now) as [[s1 p1]|] eqn:Es; [|done]. simpl. intros [= <-].
    destruct (reload_step_valid v s p env now s1 p1 Hi Hv) as (Hv1 & Hr & Hp1); [|done|].
    { by eapply list_elem_of_lookup_2. }
    apply valid_inv_more; [|done]. intros q Hq.
    apply list_elem_of_lookup_1 in Hq as [i Hq].
    apply list_lookup_insert_Some in Hq as [(_ & <- & _)|[_ Hq]]; [by right|left]. by eapply list_elem_of_lookup_2.
  - intros [= <-]. destruct (watching s); [|done]. unfold debouncedReload. by destruct (stopped s).
  - destruct (timers s !! t); intros [= <-]; [|done]. destruct (_ <=? _)%Z; [|done].
    apply (valid_inv_more v (set_timers (debouncer s) (stopped s) (delete t (timers s)) s)); [|done].
    intros p Hp. apply elem_of_app in Hp as [Hp|Hp%list_elem_of_singleton]; [by left|right]. by subst.
  - by intros [= <-].
  - destruct Hi as (Hnd & Ho & _). destruct (close_all_lookup _ _ Hnd Ho) as (cs & Hs & Hl).
    unfold Stop_subscribers. rewrite Hs. intros [= <-]. apply valid_inv_chans; [|done]. intros k c.
    rewrite Hl. destruct (decide _); [|apply Hincl]. destruct (chans s !! k) as [c0|]; [|done].
    intros [= <-]. right. exists c0. split; [done|apply incl_refl].
Qed.

Lemma run_valid v ops s s' :
  chan_inv s -> valid_inv v s -> forallb (fun o => negb (is_load o)) ops = true ->
  run ops s = Some s' -> valid_inv v s'.
Proof.
  revert s. induction ops as [|o ops IH]; intros s Hi Hv Hn Hr; [by injection Hr as <-|].
  simpl in Hn. apply andb_true_iff in Hn as [Hno Hn]. apply negb_true_iff in Hno.
  simpl in Hr. destruct (exec_inv s o Hi) as (s1 & Hs & Hi1). rewrite Hs in Hr. simpl in Hr.
  apply (IH s1); [done| |done|done]. by apply (exec_valid v s o s1).
Qed.
End Loader.
Arguments chan T : clear implicits.
Arguments rphase T : clear implicits.
Arguments viper_env T V : clear implicits.
Arguments Loader T : clear implicits.
Arguments ConfigChangeEvent T : clear implicits.
Arguments op T V : clear implicits.

(** ** Theorems *)

(** [C30] The subscribers' channels are never misused.  However loads, reloads,
    subscriptions, receives, file events, timers and the two halves of [Stop]
    interleave, no send reaches a closed channel and no channel is closed twice;
    a channel is open exactly while it is subscribed, so a receiver that was
    removed or stopped always sees the end; and no slow receiver holds the
    loader up, its channel keeping at most ten events. *)
Theorem channels_never_misused {T V} (opts : option LoaderOptions) (ops : list (op T V)) :
  exists s, run ops (NewViper opts) = Some s
    /\ NoDup (subscribers s)
    /\ (forall ch, ch ∈ subscribers s -> is_Some (chans s !! ch))
    /\ (forall ch c, chans s !! ch = Some c ->
          (length (ch_buf c) <= chan_cap)%nat /\ (ch_closed c = false <-> ch ∈ subscribers s)).
Proof.
  destruct (run_inv ops (NewViper opts) (NewViper_inv opts)) as (s & Hr & Hnd & Ho & Hc).
  exists s. split; [done|]. split; [done|]. split.
  { intros ch Hin. destruct (Ho ch Hin) as (c & -> & _). by eexists. }
  intros ch c Hk. destruct (Hc ch c Hk) as [Hl Hcl]. split; [done|]. split.
  - intros Hop. destruct (decide (ch ∈ subscribers s)) as [|Hn]; [done|]. specialize (Hcl Hn). congruence.
  - intros Hin. destruct (Ho ch Hin) as (c' & Hk' & Hop). congruence.
Qed.

(** [C31] A burst of file events becomes one reload, and none after [Stop].  In
    every interleaving the timer starts a reload only when the debounce time has
    passed since the last file event the loader saw, and leaves no other timer
    set; and once the loader is stopped, goroutines enter [Reload] only by
    calling it. *)
Theorem reloads_are_debounced {T V} (opts : option LoaderOptions) (ops : list (op T V)) (s : Loader T) :
  run ops (NewViper opts) = Some s ->
  (forall t now s', exec s (OpFire t now : op T V) = Some s' -> reloads s' <> reloads s ->
     timers s' = ∅ /\ stopped s' = false
     /\ exists e, last_event ops (NewViper opts) = Some e 
         /\ (e + ReloadDebounce (default DefaultLoaderOptions opts) <= now)%Z)
  /\ (forall (ops' : list (op T V)) s', stopped s = true -> run ops' s = Some s' ->
        length (reloads s')
        = (length (reloads s)
           + length (filter (fun o => match o with OpReload => true | _ => false end = true) ops'))%nat).
Proof.
  intros Hr.
  destruct (run_timer_inv ops _ None s (NewViper_inv opts) (NewViper_timer_inv opts) Hr) as (Hi & Ho & Ht & _).
  split; [|intros ops' s' Hst Hr'; by destruct (run_timer_inv ops' s _ s' Hi Ht Hr') as (_ & _ & _ & Hc); auto].
  intros t now s'. simpl. destruct (timers s !! t) as [due|] eqn:Et; [|by intros [= <-]].
  destruct Ht as [Hst Ht]. destruct (Ht t due Et) as (Hd & e & He & ->).
  change (options (NewViper (T:=T) opts)) with (default DefaultLoaderOptions opts) in Ho. rewrite Ho in *.
  destruct (Z.leb_spec (e + ReloadDebounce (default DefaultLoaderOptions opts)) now) as [Hdue|]; intros [= <-]; [|done].
  intros _. cbn in *. split; [|split].
  - apply map_empty. intros t'. destruct (delete t (timers s) !! t') as [due'|] eqn:E'; [|done].
    apply lookup_delete_Some in E' as [Hne E']. destruct (Ht t' due' E'). congruence.
  - destruct (stopped s) eqn:E; [|done]. by rewrite Hst in Et.
  - exists e. split; [|done]. by destruct (last_event ops _).
Qed.

(** What one [Reload] does.  Run by itself, from any state the loader can
    be in, it returns nil exactly when the file loads and passes the validator;
    then that configuration is current, and every subscriber with room is told
    the old and the new one.  Otherwise the current configuration is untouched,
    the error is [ErrConfigReloadFailed] wrapping what went wrong, and the
    subscribers are told of that. *)
Theorem Reload_decides {T V} (opts : option LoaderOptions) (ops : list (op T V)) (s : Loader T)
    (env : viper_env T V) (now : Z) :
  run ops (NewViper opts) = Some s ->
  exists s' r, Reload s env now = Some (s', RDone r) /\
  match load_validated s env with
  | Ok new => r = None /\ current s' = Some new /\ told s s' (mkEvent (current s) (Some new) None now)
  | Fail e => current s' = current s /\ told s s' (mkEvent None None (Some e) now)
              /\ exists returned, r = Some returned /\ errors_Is returned ErrConfigReloadFailed = true
                                 /\ errors_Is returned e = true
  end.
Proof.
  intros Hr. destruct (run_inv ops (NewViper opts) (NewViper_inv opts)) as (s0 & Hr0 & Hi).
  assert (s0 = s) as -> by congruence.
  unfold Reload, load_validated. cbn [reload_go reload_step mbind option_bind].
  destruct (loadConfig (options s) env) as [new|e].
  - destruct (validator s ≫= (fun v => v new)) as [e|] eqn:Ev; cbn [reload_go reload_step mbind option_bind].
    + set (ve := errors_Join ErrValidationReloadFailed e).
      destruct (notifyError_told s ve now Hi) as (s' & -> & Ht & _ & Hc & _).
      exists s', (Some ve). split; [done|]. split; [done|]. split; [done|]. exists ve.
      split; [done|]. split; [done|apply errors_Is_refl].
    + destruct (notifyChange_told (set_current (Some new) s) (GetCurrent s) new now Hi)
        as (s' & -> & Ht & _ & Hc & _).
      exists s', None. done.
  - cbn [reload_go reload_step mbind option_bind].
    destruct (notifyError_told s e now Hi) as (s' & -> & Ht & _ & Hc & _).
    exists s', (Some (errors_Join ErrConfigReloadFailed e)). split; [done|]. split; [done|]. split; [done|].
    eexists. split; [done|]. split; [done|]. simpl. rewrite errors_Is_refl. by rewrite !orb_true_r.
Qed.

(** Environment expansion is textual.  A configuration file written as a
    template is parsed and decoded as that template with every variable's value
    in its place, wherever in the document it stands, the values themselves not
    being expanded again. *)
Theorem loadConfig_template {T V} (opts : LoaderOptions) (env : viper_env T V) (ps : list piece) :
  forallb piece_ok ps = true ->
  (forall e, ve_ReadInConfig env = Some e -> ve_NotFound env e = true) ->
  ve_ConfigFileUsed env <> "" ->
  ve_ReadFile env (ve_ConfigFileUsed env) = Ok (render ps) ->
  loadConfig opts env
  = match ve_ReadConfig env (ConfigType opts) (instantiate (ve_Getenv env) ps) with
    | Fail e => Fail (errors_Join ErrConfigFileReadFailed e)
    | Ok v => match ve_Unmarshal env v with
              | Fail e => Fail (errors_Join ErrConfigUnmarshalFailed e)
              | Ok c => Ok c
              end
    end.
Proof.
  intros Hps Hin Hf Hread. unfold loadConfig.
  destruct (string_eqb_spec (ve_ConfigFileUsed env) ""); [done|]. cbn [negb].
  rewrite Hread, ExpandEnv_render by done.
  destruct (ve_ReadInConfig env) as [e|]; [|done]. by rewrite (Hin e).
Qed.

(** [C32] The validator guards every reload.  After a successful
    [LoadWithValidation], and as long as nobody calls [Load] again, whatever
    else interleaves and whatever the file comes to hold, the current
    configuration is one the validator accepts, and no event in any
    subscriber's channel announces another. *)
Theorem validator_guards_reload {T V} (opts : option LoaderOptions) (v : T -> option error)
    (env : viper_env T V) (s0 s : Loader T) (c : T) (ops : list (op T V)) :
  LoadWithValidation (NewViper opts) (Some v) env = (s0, Ok c) ->
  forallb (fun o => negb (is_load o)) ops = true ->
  run ops s0 = Some s ->
  (exists c', current s = Some c' /\ v c' = None)
  /\ forall ch q ev new, chans s !! ch = Some q -> ev ∈ ch_buf q -> NewConfig ev = Some new -> v new = None.
Proof.
  intros Hl Hn Hr.
  assert (H0 : s0 = (Load (set_validator (Some v) (NewViper opts)) env).1
               /\ current s0 = Some c /\ v c = None /\ validator s0 = Some v).
  { revert Hl. unfold LoadWithValidation, Load, startWatching.
    destruct (loadConfig _ env) as [c0|e]; [|done]. simpl. destruct (WatchConfig (default DefaultLoaderOptions opts)).
    - destruct (String.eqb _ _); [done|]. destruct (v c0) eqn:Ev; [done|]. by intros [= <- <-].
    - destruct (v c0) eqn:Ev; [done|]. by intros [= <- <-]. }
  destruct H0 as (-> & Hc & Hvc & Hv).
  destruct (Load_channels (set_validator (Some v) (NewViper opts)) env) as (H1 & H2 & _ & _ & _ & _ & H7).
  destruct (run_valid v ops (Load (set_validator (Some v) (NewViper opts)) env).1 s)
    as (_ & Hcur & _ & Hch); [| |done|done|by split].
  - pose proof (NewViper_inv (T := T) opts) as Hi. unfold chan_inv in *. by rewrite H1, H2.
  - split; [done|]. split; [by exists c|]. rewrite H7, H2. cbn. split.
    + intros p Hp. by apply not_elem_of_nil in Hp.
    + intros ch q ev new Hq. by rewrite lookup_empty in Hq.
Qed.

(** A loader of texts, for evaluation: a file that reads as [text]. *)
Definition demo_options : LoaderOptions := mkOptions "app" "yaml" ["."] true Second true true.
Definition demo_file (text : string) : viper_env string string :=
  mkViperEnv None (fun _ => false) "app.yaml" (fun _ => Ok text) (fun n => "<" +:+ n +:+ ">")
    (fun _ t => Ok t) "" (fun t => Ok t).
Definition not_bad (c : string) : option error :=
  if String.eqb c "bad" then Some (errors_New "bad") else None.

Definition demo_burst : list (op string string) :=
  [OpLoad (demo_file "one"); OpSubscribe; OpFileEvent 0; OpFileEvent (5 * (Second / 10))%Z].

Lemma reloads_are_debounced_witness :
  exists s : Loader string, run demo_burst (NewViper (Some demo_options)) = Some s
    /\ map_to_list (timers s) = [(0%nat, (15 * (Second / 10))%Z)]
    /\ forall t now s', exec s (OpFire t now : op string string) = Some s' -> reloads s' <> reloads s ->
         timers s' = ∅.
Proof.
  eexists. split; [vm_compute; reflexivity|]. split; [vm_compute; reflexivity|].
  intros t now s' Hs Hne.
  refine (proj1 (proj1 (reloads_are_debounced (Some demo_options) demo_burst _ _) t now s' Hs Hne)).
  vm_compute. reflexivity.
Defined.

Lemma Reload_decides_witness :
  exists (s s' : Loader string) r, run demo_burst (NewViper (Some demo_options)) = Some s
    /\ Reload s (demo_file "two ${X}") 7 = Some (s', RDone r) /\ r = None /\ current s' = Some "two <X>".
Proof.
  destruct (run demo_burst (NewViper (Some demo_options))) as [s|] eqn:E; [|vm_compute in E; done].
  destruct (Reload_decides (Some demo_options) demo_burst s (demo_file "two ${X}") 7 E) as (s' & r & Hr & H).
  exists s, s', r. split; [done|]. split; [done|]. vm_compute in E. injection E as <-.
  assert (Hl : load_validated (V := string)
    (mkLoader demo_options (Some "one") [0%nat] None (Some 0%nat) false false true
       {[0%nat := mkChan [] false]} {[0%nat := (15 * (Second / 10))%Z]} [] []) (demo_file "two ${X}") = Ok "two <X>")
    by (vm_compute; reflexivity).
  vm_compute in Hl. vm_compute in H. tauto.
Defined.

Lemma loadConfig_template_witness :
  loadConfig demo_options (demo_file (render [Lit "dsn: "; Var "HOST"; Lit ":5432"])) = Ok "dsn: <HOST>:5432".
Proof.
  rewrite (loadConfig_template demo_options (demo_file (render [Lit "dsn: "; Var "HOST"; Lit ":5432"]))
             [Lit "dsn: "; Var "HOST"; Lit ":5432"]); try done.
Defined.

Lemma validator_guards_reload_witness :
  exists s0 s : Loader string,
    LoadWithValidation (NewViper (Some demo_options)) (Some not_bad) (demo_file "one") = (s0, Ok "one")
    /\ run [OpReload; OpAdvance 0 (demo_file "") 0; OpAdvance 0 (demo_file "bad") 0] s0 = Some s
    /\ current s = Some "one" /\ exists c', current s = Some c' /\ not_bad c' = None.
Proof.
  eexists _, _. split; [vm_compute; reflexivity|]. split; [vm_compute; reflexivity|].
  split; [vm_compute; reflexivity|].
  refine (proj1 (validator_guards_reload (Some demo_options) not_bad (demo_file "one") _ _ "one"
    [OpReload; OpAdvance 0 (demo_file "") 0; OpAdvance 0 (demo_file "bad") 0] _ _ _));
    vm_compute; reflexivity.
Defined.
