(* ===== verification/Progress.v ===== *)
(** * cli/progress.go: a pool of terminal lines

    [Acquire] hands out display slots and so bounds the number of workers;
    [Release] takes them back; a background loop redraws the lines. A worker is
    where it stands in [Acquire] and [Release] ([wphase]), a call of [Stop] is
    where it stands in it ([sphase]); [exec] is one atomic step and [run] any
    interleaving of workers that use the index they were given and return it
    once, as the comments ask. [None] is a panic. The spinner is go-spin's: its state and
    what [Next] makes of it are parameters. *)
From S2P Require Import Prelude GoText.
From stdpp Require Import fin_maps.
Local Open Scope string_scope.

Inductive lineStatus : Type := statusIdle | statusRunning | statusDone | statusFailed.
#[export] Instance lineStatus_dec : EqDecision lineStatus.
Proof. solve_decision. Defined.

Definition ESC : string := String (Ascii.ascii_of_nat 27) "".
Definition NL : string := String (Ascii.ascii_of_nat 10) "".
Definition ansiCursorUp (n : nat) : string := ESC +:+ "[" +:+ Itoa (Z.of_nat n) +:+ "A".
Definition ansiClearLine : string := String (Ascii.ascii_of_nat 13) "" +:+ ESC +:+ "[K".

Section Progress.
Context {Sp : Type} (box1 : Sp) (spin_Next : Sp -> string * Sp).

Record slot := mkSlot { spinner : Sp; desc : string; msg : string; status : lineStatus }.

(** Where a worker stands: it received an index and has not initialised the
    slot; it is working; it marked the slot idle and has not sent it back. *)
Inductive wphase : Type :=
| WGot (idx : nat) (d : string)
| WHolds (idx : nat) (d : string)
| WReleasing (idx : nat).
Definition widx (p : wphase) : nat :=
  match p with WGot i _ => i | WHolds i _ => i | WReleasing i => i end.

(** Where a call of [Stop] stands: it found [stopCh] open and is about to close
    it; it waits for the loop. *)
Inductive sphase : Type := SClose | SWait | SReturned.

Inductive loop_state : Type := LNotStarted | LRunning | LExited.

Record Progress := mkProgress {
  slots : list slot;
  freeCh : list nat;
  once : bool;
  stopCh : bool;              (** closed *)
  loop : loop_state;          (** [doneCh] is closed exactly in [LExited] *)
  started : bool;
  out : list string;
  workers : gmap nat wphase;
  stoppers : gmap nat sphase;
}.

Definition New (numSlots : Z) : Progress :=
  let numSlots := if (numSlots <=? 0)%Z then 1%Z else numSlots in
  let n := Z.to_nat numSlots in
  mkProgress (replicate n (mkSlot box1 "" "" statusIdle)) (seq 0 n) false false LNotStarted false [] ∅ ∅.

Definition set_slots (l : list slot) (p : Progress) : Progress :=
  mkProgress l (freeCh p) (once p) (stopCh p) (loop p) (started p) (out p) (workers p) (stoppers p).
Definition set_pool (f : list nat) (w : gmap nat wphase) (p : Progress) : Progress :=
  mkProgress (slots p) f (once p) (stopCh p) (loop p) (started p) (out p) w (stoppers p).
Definition set_life (o s : bool) (l : loop_state) (p : Progress) : Progress :=
  mkProgress (slots p) (freeCh p) o s l (started p) (out p) (workers p) (stoppers p).
Definition set_stoppers (ss : gmap nat sphase) (p : Progress) : Progress :=
  mkProgress (slots p) (freeCh p) (once p) (stopCh p) (loop p) (started p) (out p) (workers p) ss.
Definition print (text : string) (p : Progress) : Progress :=
  mkProgress (slots p) (freeCh p) (once p) (stopCh p) (loop p) (started p) (out p ++ [text]) (workers p) (stoppers p).

(** A write through [p.slots[idx]]; an index out of range panics. *)
Definition with_slot (p : Progress) (idx : nat) (f : slot -> slot) : option Progress :=
  match slots p !! idx with
  | Some s => Some (set_slots (<[idx := f s]> (slots p)) p)
  | None => None
  end.

Definition init_slot (d : string) (s : slot) : slot := mkSlot (spinner s) d "Starting..." statusRunning.
Definition Update (p : Progress) (idx : nat) (m : string) : option Progress :=
  with_slot p idx (fun s => mkSlot (spinner s) (desc s) m (status s)).
Definition Done (p : Progress) (idx : nat) (m : string) : option Progress :=
  with_slot p idx (fun s => mkSlot (spinner s) (desc s) m statusDone).
Definition Fail (p : Progress) (idx : nat) (m : string) : option Progress :=
  with_slot p idx (fun s => mkSlot (spinner s) (desc s) m statusFailed).
Definition idle_slot (s : slot) : slot := mkSlot (spinner s) (desc s) (msg s) statusIdle.

(** One line of the display, and the slot after it: drawing a running line
    advances its spinner. *)
Definition render_line (s : slot) : string * slot :=
  match status s with
  | statusIdle => (ansiClearLine +:+ "    -" +:+ NL, s)
  | statusDone => (ansiClearLine +:+ "[✓] " +:+ desc s +:+ " - " +:+ msg s +:+ NL, s)
  | statusFailed => (ansiClearLine +:+ "[✗] " +:+ desc s +:+ " - " +:+ msg s +:+ NL, s)
  | statusRunning =>
      let '(frame, sp) := spin_Next (spinner s) in
      (ansiClearLine +:+ "[" +:+ frame +:+ "] " +:+ desc s +:+ " - " +:+ msg s +:+ NL,
       mkSlot sp (desc s) (msg s) (status s))
  end.

Definition render_text (p : Progress) : string :=
  (if started p then ansiCursorUp (length (slots p)) else "")
  +:+ str_concat (map (fun s => (render_line s).1) (slots p)).

Definition render (p : Progress) : Progress :=
  if Nat.eqb (length (slots p)) 0 then p
  else mkProgress (map (fun s => (render_line s).2) (slots p)) (freeCh p) (once p) (stopCh p) (loop p)
         true (out p ++ [render_text p]) (workers p) (stoppers p).

Inductive op : Type :=
| OpTake (w : nat) (d : string)     (** [Acquire]: the receive from [freeCh] *)
| OpInit (w : nat)                  (** [Acquire]: the rest *)
| OpUpdate (w : nat) (m : string)
| OpDone (w : nat) (m : string)
| OpFail (w : nat) (m : string)
| OpRelease (w : nat)               (** [Release]: marking the slot *)
| OpGiveBack (w : nat)              (** [Release]: the send to [freeCh] *)
| OpStart
| OpStop (c : nat)                  (** [Stop] up to its look at [stopCh] *)
| OpStopClose (c : nat)             (** its [close(p.stopCh)] *)
| OpStopFinish (c : nat)            (** once [doneCh] is closed *)
| OpTick                            (** the loop redraws *)
| OpLoopExit.                       (** the loop sees [stopCh] *)

(** A step that would block leaves the state as it is. *)
Definition exec (p : Progress) (o : op) : option Progress :=
  match o with
  | OpTake w d =>
      match freeCh p, workers p !! w with
      | idx :: rest, None => Some (set_pool rest (<[w := WGot idx d]> (workers p)) p)
      | _, _ => Some p
      end
  | OpInit w =>
      match workers p !! w with
      | Some (WGot idx d) =>
          p ← with_slot p idx (init_slot d);
          Some (set_pool (freeCh p) (<[w := WHolds idx d]> (workers p)) p)
      | _ => Some p
      end
  | OpUpdate w m => match workers p !! w with Some (WHolds idx _) => Update p idx m | _ => Some p end
  | OpDone w m => match workers p !! w with Some (WHolds idx _) => Done p idx m | _ => Some p end
  | OpFail w m => match workers p !! w with Some (WHolds idx _) => Fail p idx m | _ => Some p end
  | OpRelease w =>
      match workers p !! w with
      | Some (WHolds idx _) =>
          p ← with_slot p idx idle_slot;
          Some (set_pool (freeCh p) (<[w := WReleasing idx]> (workers p)) p)
      | _ => Some p
      end
  | OpGiveBack w =>
      match workers p !! w with
      | Some (WReleasing idx) =>
          if Nat.ltb (length (freeCh p)) (length (slots p))
          then Some (set_pool (freeCh p ++ [idx]) (delete w (workers p)) p)
          else Some p
      | _ => Some p
      end
  | OpStart =>
      if once p then Some p else Some (set_life true (stopCh p) LRunning (print NL p))
  | OpStop c =>
      match stoppers p !! c with
      | None =>
          Some (set_stoppers (<[c := if stopCh p then SWait else SClose]> (stoppers p))
                  (set_life true (stopCh p) (loop p) p))
      | Some _ => Some p
      end
  | OpStopClose c =>
      match stoppers p !! c with
      | Some SClose =>
          if stopCh p then None
          else Some (set_stoppers (<[c := SWait]> (stoppers p)) (set_life (once p) true (loop p) p))
      | _ => Some p
      end
  | OpStopFinish c =>
      match stoppers p !! c, loop p with
      | Some SWait, LExited =>
          Some (print NL (render (set_stoppers (<[c := SReturned]> (stoppers p)) p)))
      | _, _ => Some p
      end
  | OpTick => match loop p with LRunning => Some (render p) | _ => Some p end
  | OpLoopExit =>
      match loop p with
      | LRunning => if stopCh p then Some (set_life (once p) (stopCh p) LExited p) else Some p
      | _ => Some p
      end
  end.

Fixpoint run (ops : list op) (p : Progress) : option Progress :=
  match ops with
  | [] => Some p
  | o :: ops' => p ← exec p o; run ops' p
  end.

(** ** Lemmas: the pool *)

Definition held (ws : gmap nat wphase) : list nat := (fun x => widx x.2) <$> map_to_list ws.

Lemma held_insert ws w ph :
  ws !! w = None -> held (<[w := ph]> ws) ≡ₚ widx ph :: held ws.
Proof. intros H. unfold held. by rewrite map_to_list_insert. Qed.

Lemma held_delete ws w ph : ws !! w = Some ph -> held ws ≡ₚ widx ph :: held (delete w ws).
Proof.
  intros H. rewrite <- (insert_delete_id ws w ph H) at 1. apply held_insert. by rewrite lookup_delete_eq.
Qed.

(** A worker that moves on keeps its index. *)
Lemma held_move ws w ph ph' :
  ws !! w = Some ph -> widx ph' = widx ph -> held (<[w := ph']> ws) ≡ₚ held ws.
Proof.
  intros H Hw. rewrite (held_delete ws w ph H).
  rewrite <- (insert_delete_eq ws w ph'), held_insert by (by rewrite lookup_delete_eq). by rewrite Hw.
Qed.

Lemma held_in ws w ph : ws !! w = Some ph -> widx ph ∈ held ws.
Proof.
  intros H. apply list_elem_of_fmap. exists (w, ph). split; [done|]. by apply elem_of_map_to_list.
Qed.

Lemma held_inj ws w w' ph ph' :
  NoDup (held ws) -> ws !! w = Some ph -> ws !! w' = Some ph' -> widx ph = widx ph' -> w = w'.
Proof.
  intros Hnd H H' Hw. destruct (decide (w = w')) as [|Hne]; [done|]. exfalso.
  rewrite (held_delete ws w ph H) in Hnd. apply NoDup_cons in Hnd as [Hn _]. apply Hn.
  rewrite Hw. eapply held_in. rewrite lookup_delete_ne by done. exact H'.
Qed.

(** Held and free indexes together are the indexes of the slots; a worker's
    slot shows its own description. *)
Definition pool_inv (p : Progress) : Prop :=
  held (workers p) ++ freeCh p ≡ₚ seq 0 (length (slots p))
  /\ (forall w i d, workers p !! w = Some (WHolds i d) ->
        exists s, slots p !! i = Some s /\ desc s = d /\ status s <> statusIdle).

Lemma pool_NoDup p : pool_inv p -> NoDup (held (workers p)).
Proof. intros [H _]. apply (NoDup_app (held (workers p)) (freeCh p)). rewrite H. apply NoDup_seq. Qed.

Lemma held_slot p w ph :
  pool_inv p -> workers p !! w = Some ph -> exists s, slots p !! (widx ph) = Some s.
Proof.
  intros [H _] Hw. apply lookup_lt_is_Some_2. apply held_in in Hw.
  assert (Hs : widx ph ∈ seq 0 (length (slots p))) by (rewrite <- H; apply elem_of_app; by left).
  apply elem_of_seq in Hs. lia.
Qed.

Lemma pool_inv_same p p' :
  slots p' = slots p -> freeCh p' = freeCh p -> workers p' = workers p -> pool_inv p -> pool_inv p'.
Proof. unfold pool_inv. by intros -> -> ->. Qed.

(** A worker that rewrites its own slot and perhaps moves on. *)
Lemma own_slot_inv p w ph ph' f :
  pool_inv p -> workers p !! w = Some ph -> widx ph' = widx ph ->
  (forall i d, ph' = WHolds i d ->
     forall s, slots p !! i = Some s -> desc (f s) = d /\ status (f s) <> statusIdle) ->
  exists p', with_slot p (widx ph) f = Some p'
    /\ pool_inv (set_pool (freeCh p) (<[w := ph']> (workers p)) p').
Proof.
  intros Hi Hw Heq Hf. destruct (held_slot p w ph Hi Hw) as [s Hs].
  unfold with_slot. rewrite Hs. eexists. split; [done|]. pose proof (pool_NoDup p Hi) as Hnd.
  destruct Hi as [Hp Hd]. split; cbn.
  - rewrite length_insert. by rewrite (held_move _ _ ph).
  - intros w' i d [[<- ->]|[Hne Hw']]%lookup_insert_Some.
    + simpl in Heq. subst i. exists (f s). rewrite list_lookup_insert_eq by (by eapply lookup_lt_Some).
      split; [done|]. by eapply Hf.
    + destruct (Hd w' i d Hw') as (s' & Hs' & H). exists s'. split; [|done].
      rewrite list_lookup_insert_ne; [done|]. intros Hi'. apply Hne.
      by eapply (held_inj (workers p) w w' ph (WHolds i d)).
Qed.

(** The same for a worker that stays where it is. *)
Lemma own_slot_stay p w i d f :
  pool_inv p -> workers p !! w = Some (WHolds i d) ->
  (forall s, desc (f s) = desc s) ->
  (forall s, status s <> statusIdle -> status (f s) <> statusIdle) ->
  exists p', with_slot p i f = Some p' /\ pool_inv p'.
Proof.
  intros Hi Hw Hdesc Hst.
  destruct (own_slot_inv p w (WHolds i d) (WHolds i d) f Hi Hw eq_refl) as (p' & Hp' & Hi').
  - intros i' d' [= <- <-] s Hs. destruct Hi as [_ Hd]. destruct (Hd w i d Hw) as (s0 & Hs0 & H1 & H2).
    assert (s0 = s) as -> by congruence. rewrite Hdesc. auto.
  - exists p'. split; [done|]. eapply pool_inv_same; [..|exact Hi']; try done.
    + revert Hp'. unfold with_slot. cbn. destruct (slots p !! i); [|done]. by intros [= <-].
    + revert Hp'. unfold with_slot. cbn. destruct (slots p !! i); [|done]. intros [= <-]. cbn.
      by rewrite insert_id.
Qed.

Lemma render_line_keeps s :
  desc (render_line s).2 = desc s /\ msg (render_line s).2 = msg s /\ status (render_line s).2 = status s.
Proof. unfold render_line. destruct (status s) eqn:E; try done. by destruct (spin_Next _). Qed.

Lemma render_inv p : pool_inv p -> pool_inv (render p).
Proof.
  intros [Hp Hd]. unfold render. destruct (Nat.eqb _ _); [done|]. split; cbn.
  - by rewrite length_map.
  - intros w i d Hw. destruct (Hd w i d Hw) as (s & Hs & H1 & H2). exists (render_line s).2.
    rewrite list_lookup_fmap, Hs. destruct (render_line_keeps s) as (-> & _ & ->). done.
Qed.

Lemma free_room p w idx :
  pool_inv p -> workers p !! w = Some (WReleasing idx) -> (length (freeCh p) < length (slots p))%nat.
Proof.
  intros [Hp _] Hw. apply Permutation_length in Hp. rewrite length_app, length_seq in Hp.
  rewrite (Permutation_length (held_delete _ _ _ Hw)) in Hp. simpl in Hp. lia.
Qed.

Lemma with_slot_pool p i f p' :
  with_slot p i f = Some p' ->
  freeCh p' = freeCh p /\ workers p' = workers p /\ length (slots p') = length (slots p).
Proof.
  unfold with_slot. destruct (slots p !! i); [|done]. intros [= <-]. cbn. by rewrite length_insert.
Qed.

Lemma exec_pool p o :
  pool_inv p ->
  match exec p o with
  | Some p' => pool_inv p' /\ length (slots p') = length (slots p)
  | None => exists c, o = OpStopClose c /\ stoppers p !! c = Some SClose /\ stopCh p = true
  end.
Proof.
  intros Hi.
  destruct o as [w d|w|w m|w m|w m|w|w| |c|c|c| |]; simpl.
  - destruct (freeCh p) as [|idx rest] eqn:Ef; [done|]. destruct (workers p !! w) as [ph|] eqn:Ew; [done|].
    split; [|done]. destruct Hi as [Hp Hd]. split; cbn.
    + rewrite held_insert by done. rewrite <- Hp, Ef. simpl. apply Permutation_middle.
    + intros w' i d' [[_ ?]|[_ Hw']]%lookup_insert_Some; [done|by eapply Hd].
  - destruct (workers p !! w) as [[idx d|idx d|idx]|] eqn:Ew; try done.
    destruct (own_slot_inv p w (WGot idx d) (WHolds idx d) (init_slot d) Hi Ew eq_refl) as (p' & Hp' & Hi').
    { by intros i d' [= <- <-]. }
    simpl in Hp'. rewrite Hp'. simpl. destruct (with_slot_pool _ _ _ _ Hp') as (-> & -> & ?). by split.
  - destruct (workers p !! w) as [[idx d|idx d|idx]|] eqn:Ew; try done. unfold Update.
    destruct (own_slot_stay p w idx d (fun s => mkSlot (spinner s) (desc s) m (status s)) Hi Ew)
      as (p' & Hp' & Hi'); [done..|]. rewrite Hp'. by destruct (with_slot_pool _ _ _ _ Hp') as (_ & _ & ?).
  - destruct (workers p !! w) as [[idx d|idx d|idx]|] eqn:Ew; try done. unfold Done.
    destruct (own_slot_stay p w idx d (fun s => mkSlot (spinner s) (desc s) m statusDone) Hi Ew)
      as (p' & Hp' & Hi'); [done..|]. rewrite Hp'. by destruct (with_slot_pool _ _ _ _ Hp') as (_ & _ & ?).
  - destruct (workers p !! w) as [[idx d|idx d|idx]|] eqn:Ew; try done. unfold Fail.
    destruct (own_slot_stay p w idx d (fun s => mkSlot (spinner s) (desc s) m statusFailed) Hi Ew)
      as (p' & Hp' & Hi'); [done..|]. rewrite Hp'. by destruct (with_slot_pool _ _ _ _ Hp') as (_ & _ & ?).
  - destruct (workers p !! w) as [[idx d|idx d|idx]|] eqn:Ew; try done.
    destruct (own_slot_inv p w (WHolds idx d) (WReleasing idx) idle_slot Hi Ew eq_refl) as (p' & Hp' & Hi'); [done|].
    simpl in Hp'. rewrite Hp'. simpl.
    destruct (with_slot_pool _ _ _ _ Hp') as (-> & -> & ?). by split.
  - destruct (workers p !! w) as [[idx d|idx d|idx]|] eqn:Ew; try done.
    destruct (Nat.ltb _ _); [|done]. split; [|done]. destruct Hi as [Hp Hd]. split; cbn.
    + rewrite <- Hp, (held_delete _ _ _ Ew). simpl. rewrite app_assoc. apply Permutation_app_comm.
    + intros w' i d [_ Hw']%lookup_delete_Some. by eapply Hd.
  - destruct (once p); done.
  - destruct (stoppers p !! c); done.
  - destruct (stoppers p !! c) as [[]|] eqn:Ec; try done. destruct (stopCh p); [|done]. by exists c.
  - destruct (stoppers p !! c) as [[]|]; try done. destruct (loop p); try done.
    split; [|unfold render; cbn; destruct (Nat.eqb _ _); [done|]; cbn; by rewrite length_map].
    eapply pool_inv_same; [..|apply (render_inv (set_stoppers (<[c:=SReturned]> (stoppers p)) p))]; done.
  - destruct (loop p); try done. split; [by apply render_inv|].
    unfold render. destruct (Nat.eqb _ _); [done|]. cbn. by rewrite length_map.
  - destruct (loop p); try done. by destruct (stopCh p).
Qed.

Lemma run_pool ops p p' :
  pool_inv p -> run ops p = Some p' -> pool_inv p' /\ length (slots p') = length (slots p).
Proof.
  revert p. induction ops as [|o ops IH]; intros p Hi Hr; [by injection Hr as <-|].
  simpl in Hr. pose proof (exec_pool p o Hi) as He. destruct (exec p o) as [p1|]; [|done]. simpl in Hr.
  destruct He as [Hi1 Hl1]. destruct (IH p1 Hi1 Hr) as [Hi' Hl']. split; [done|congruence].
Qed.

Lemma New_pool n : pool_inv (New n).
Proof.
  split; cbn; [by rewrite length_replicate|]. intros w i d H. by rewrite lookup_empty in H.
Qed.

(** ** Lemmas: starting and stopping *)
























(** ** Lemmas: drawing *)

Fixpoint newlines (s : string) : nat :=
  match s with
  | "" => 0%nat
  | String c s' => ((if Ascii.eqb c (Ascii.ascii_of_nat 10) then 1 else 0) + newlines s')%nat
  end.
Lemma newlines_app s t : newlines (s +:+ t) = (newlines s + newlines t)%nat.
Proof. induction s as [|c s IH]; [done|]. rewrite string_app_cons. simpl. rewrite IH. lia. Qed.

(** A slot whose texts stay on their line. *)
Definition one_line (s : slot) : Prop :=
  newlines (desc s) = 0%nat /\ newlines (msg s) = 0%nat /\ newlines (spin_Next (spinner s)).1 = 0%nat.

Lemma render_line_newlines s : one_line s -> newlines (render_line s).1 = 1%nat.
Proof.
  intros (Hd & Hm & Hs). unfold render_line. destruct (status s).
  - done.
  - destruct (spin_Next (spinner s)) as [frame sp]. cbn [fst] in *. rewrite !newlines_app, Hd, Hm, Hs. done.
  - cbn [fst]. rewrite !newlines_app, Hd, Hm. done.
  - cbn [fst]. rewrite !newlines_app, Hd, Hm. done.
Qed.

Lemma render_lines_newlines l :
  Forall one_line l -> newlines (str_concat (map (fun s => (render_line s).1) l)) = length l.
Proof.
  induction 1 as [|s l Hs _ IH]; [done|]. cbn [map str_concat length].
  by rewrite newlines_app, IH, render_line_newlines.
Qed.
End Progress.
Arguments Progress Sp : clear implicits.

(** ** Theorems *)

(** [C38] The pool is a semaphore.  In every interleaving of workers taking,
    updating and returning slots, of redrawing, starting and stopping: no two
    workers have the same slot, there are never more workers than slots, a
    worker is let in whenever there are fewer, a worker that returns its slot is
    never held up, and the slot of a working worker shows that worker's
    description and is not idle. *)
Theorem slots_are_exclusive {Sp} (box1 : Sp) (spin_Next : Sp -> string * Sp) (n : Z) (ops : list op)
    (p : Progress Sp) :
  run spin_Next ops (New box1 n) = Some p ->
  length (slots p) = Z.to_nat (Z.max 1 n)
  /\ (forall w w' ph ph', workers p !! w = Some ph -> workers p !! w' = Some ph' ->
        widx ph = widx ph' -> w = w')
  /\ (size (workers p) <= length (slots p))%nat
  /\ ((size (workers p) < length (slots p))%nat -> forall w d, workers p !! w = None ->
        exists p' idx, exec spin_Next p (OpTake w d) = Some p' /\ workers p' !! w = Some (WGot idx d))
  /\ (forall w idx, workers p !! w = Some (WReleasing idx) ->
        exists p', exec spin_Next p (OpGiveBack w) = Some p' /\ workers p' !! w = None)
  /\ (forall w idx d, workers p !! w = Some (WHolds idx d) ->
        exists s, slots p !! idx = Some s /\ desc s = d /\ status s <> statusIdle).
Proof.
  intros Hr. destruct (run_pool spin_Next ops _ p (New_pool box1 n) Hr) as [Hi Hl].
  assert (Hsize : (size (workers p) + length (freeCh p) = length (slots p))%nat).
  { destruct Hi as [Hp _]. apply Permutation_length in Hp.
    rewrite length_app, length_seq in Hp. unfold held in Hp.
    by rewrite length_fmap, length_map_to_list in Hp. }
  split_and!.
  - rewrite Hl. cbn. rewrite length_replicate. f_equal. destruct (Z.leb_spec n 0); lia.
  - intros w w' ph ph'. apply held_inj. by apply pool_NoDup.
  - lia.
  - intros Hlt w d Hw. simpl. destruct (freeCh p) as [|idx rest]; [simpl in Hsize; lia|]. rewrite Hw.
    eexists _, idx. split; [done|]. cbn. by rewrite lookup_insert_eq.
  - intros w idx Hw. simpl. rewrite Hw.
    destruct (Nat.ltb_spec (length (freeCh p)) (length (slots p))) as [_|H].
    + eexists. split; [done|]. cbn. by rewrite lookup_delete_eq.
    + pose proof (free_room p w idx Hi Hw). lia.
  - apply Hi.
Qed.


(** The display is redrawn in place.  As long as no description, message
    or spinner frame holds a newline, what a redraw writes ends exactly as many
    lines as there are slots, and from the second time on it first moves the
    cursor up by that number. *)
Theorem render_in_place {Sp} (spin_Next : Sp -> string * Sp) (p : Progress Sp) :
  Forall (one_line spin_Next) (slots p) -> slots p <> [] ->
  exists lines, newlines lines = length (slots p)
    /\ out (render spin_Next p)
       = (out p ++ [(if started p then ansiCursorUp (length (slots p)) else "") +:+ lines])%list
    /\ started (render spin_Next p) = true.
Proof.
  intros Hl Hne. exists (str_concat (map (fun s => (render_line spin_Next s).1) (slots p))).
  split; [by apply render_lines_newlines|]. unfold render.
  destruct (slots p) eqn:E; [done|]. rewrite <- E. split; [|by rewrite E].
  cbn [length Nat.eqb]. rewrite E at 1. done.
Qed.

(** Two calls of [Stop] that both found [stopCh] open: the second close panics. *)
Lemma concurrent_Stop_panics :
  run (fun sp : unit => ("", sp)) [OpStart; OpStop 1; OpStop 2; OpStopClose 1; OpStopClose 2] (New tt 2) = None.
Proof. reflexivity. Qed.

Definition demo_run : list op :=
  [OpStart; OpTake 1 "a"; OpTake 2 "b"; OpTake 3 "c"; OpInit 1; OpDone 1 "ok"; OpTick; OpRelease 1;
   OpStop 9; OpStopClose 9].
Definition demo_spin (k : nat) : string * nat := ("*", S k).

Lemma slots_are_exclusive_witness :
  exists p, run demo_spin demo_run (New 0%nat 2) = Some p
    /\ workers p !! 3%nat = None
    /\ forall w idx, workers p !! w = Some (WReleasing idx) ->
          exists p', exec demo_spin p (OpGiveBack w) = Some p' /\ workers p' !! w = None.
Proof.
  eexists. split; [vm_compute; reflexivity|]. split; [vm_compute; reflexivity|].
  refine (proj1 (proj2 (proj2 (proj2 (proj2 (slots_are_exclusive 0%nat demo_spin 2 demo_run _ _)))))).
  vm_compute. reflexivity.
Defined.


Lemma render_in_place_witness :
  exists lines, newlines lines = 2%nat
    /\ out (render demo_spin (New 0%nat 2)) = ["" +:+ lines].
Proof.
  destruct (render_in_place demo_spin (New 0%nat 2)) as (lines & Hn & Ho & _).
  - repeat constructor.
  - done.
  - by exists lines.
Defined.
