(* ===== verification/Healthcheck.v ===== *)
(** * healthcheck/check.go: probing databases

    The registry of connections and the concurrent probes of one [Report]. A
    probe's answer (the ping's error and the pool's statistics) is given at the
    step that makes it, so that databases may fail and recover at any moment.
    The runtime figures are those the Go runtime gives. *)
From stdpp Require Import fin_maps.
From S2P Require Import Prelude GoNum GoText GoFmt.
Local Open Scope Z_scope.

Definition statusHealthy : string := "healthy".
Definition statusUnhealthy : string := "unhealthy".
Definition defaultPingTimeout : Z := 5 * Second.

(** [sql.DBStats], as far as it is read. *)
Record DBStats := mkStats {
  st_OpenConnections : Z; st_InUse : Z; st_Idle : Z; st_WaitCount : Z; st_WaitDuration : Z
}.

Record DBReport := mkReport {
  Status : string; Driver : string; rep_Error : string;
  OpenConnections : Z; InUse : Z; Idle : Z; WaitCount : Z; WaitDuration : Z;
}.

(** *** The runtime's figures *)

(** [runtime.MemStats], as far as it is read, and the other figures. *)
Record runtime_figures := mkFigures {
  GOOS : string; GOARCH : string; NumCPU_ : Z; NumGoroutine_ : Z;
  Alloc : Z; TotalAlloc : Z; Sys : Z; NumGC : Z; LastGC : Z;
}.
Record RuntimeReport := mkRuntimeReport {
  OS : string; Arch : string; NumCPU : Z; NumGoroutine : Z; Uptime : string;
  MemAllocated : Z; MemTotalAlloc : Z; MemSys : Z; MemNumGC : Z; MemLastGC : string;
}.

(** [runtimeReport] of a check made at [startedAt]; [Format] is the RFC 3339 text
    of nanoseconds since the epoch. *)
Definition runtimeReport (Format : Z -> string) (startedAt now : Z) (rt : runtime_figures) : RuntimeReport :=
  mkRuntimeReport (GOOS rt) (GOARCH rt) (NumCPU_ rt) (NumGoroutine_ rt)
    (duration_String (duration_Round (time_Sub now startedAt) Second))
    (Alloc rt) (TotalAlloc rt) (Sys rt) (NumGC rt)
    (if 0 <? LastGC rt then Format (wrap64 (LastGC rt)) else "never").

Record HealthReport := mkHealthReport { Runtime : RuntimeReport; Databases : gmap string DBReport }.

Section Check.
(** [D] is a [Pinger]: a handle of the caller. *)
Context {D : Type}.

Record DBEntry := mkEntry { e_Name : string; e_Driver : string; e_DB : D }.
Record dbConn := mkConn { driver : string; db : D }.

Record HealthCheck := mkCheck { databases : gmap string dbConn; pingTimeout : Z }.

Definition New (entries : list DBEntry) : HealthCheck :=
  mkCheck (fold_left (fun m e => <[e_Name e := mkConn (e_Driver e) (e_DB e)]> m) entries ∅)
    defaultPingTimeout.

Definition SetPingTimeout (s : HealthCheck) (d : Z) : HealthCheck :=
  mkCheck (databases s) (if d <=? 0 then defaultPingTimeout else d).
Definition AddDB (s : HealthCheck) (name driver : string) (db : D) : HealthCheck :=
  mkCheck (<[name := mkConn driver db]> (databases s)) (pingTimeout s).
Definition RemoveDB (s : HealthCheck) (name : string) : HealthCheck :=
  mkCheck (delete name (databases s)) (pingTimeout s).

(** What a connection answers: the error of its ping, if any, and the
    statistics read after a ping that succeeded. *)
Record answer := mkAnswer { ping : option string; stats : DBStats }.

Definition probeDB (conn : dbConn) (a : answer) : DBReport :=
  match ping a with
  | Some err => mkReport statusUnhealthy (driver conn) err 0 0 0 0 0
  | None =>
      mkReport statusHealthy (driver conn) "" (st_OpenConnections (stats a)) (st_InUse (stats a))
        (st_Idle (stats a)) (st_WaitCount (stats a)) (st_WaitDuration (stats a))
  end.

(** [CheckDB]; [ask] is the connection's answer to a ping under a timeout. *)
Definition CheckDB (s : HealthCheck) (ask : D -> Z -> answer) (name : string) : result DBReport :=
  match databases s !! name with
  | None => Fail (errors_New "database not registered")
  | Some conn => Ok (probeDB conn (ask (db conn) (pingTimeout s)))
  end.

(** [probeAllDBs] in flight: the goroutines that have not probed yet, the ones
    that have and wait for the lock, and the results stored. *)
Record probing := mkProbing {
  snapshot : gmap string dbConn;
  timeout : Z;
  to_probe : gmap string dbConn;
  to_store : gmap string DBReport;
  results : gmap string DBReport;
}.

(** The snapshot is taken under the lock, then a goroutine starts per entry. *)
Definition probeAllDBs (s : HealthCheck) : probing :=
  mkProbing (databases s) (pingTimeout s) (databases s) ∅ ∅.

(** [Report]: the figures, and the probes when they have all finished. *)
Definition Report (runtime : RuntimeReport) (p : probing) : HealthReport :=
  mkHealthReport runtime (results p).

(** [wg.Wait] returns. *)
Definition finished (p : probing) : bool :=
  bool_decide (to_probe p = ∅) && bool_decide (to_store p = ∅).

Inductive event : Type :=
| Probe (n : string) (a : answer)
| Store (n : string)
| Register (f : HealthCheck -> HealthCheck).   (** someone changes the registry *)

Definition step (st : HealthCheck * probing) (ev : event) : HealthCheck * probing :=
  let '(s, p) := st in
  match ev with
  | Probe n a =>
      match to_probe p !! n with
      | Some c => (s, mkProbing (snapshot p) (timeout p) (delete n (to_probe p))
                        (<[n := probeDB c a]> (to_store p)) (results p))
      | None => st
      end
  | Store n =>
      match to_store p !! n with
      | Some r => (s, mkProbing (snapshot p) (timeout p) (to_probe p) (delete n (to_store p))
                        (<[n := r]> (results p)))
      | None => st
      end
  | Register f => (f s, p)
  end.
Definition run (evs : list event) (st : HealthCheck * probing) : HealthCheck * probing :=
  fold_left step evs st.

(** The first answer a database gave in a run. *)
Fixpoint answered (evs : list event) (n : string) : option answer :=
  match evs with
  | [] => None
  | Probe n' a :: evs' => if decide (n' = n) then Some a else answered evs' n
  | _ :: evs' => answered evs' n
  end.

(** ** Lemmas *)

(** Every connection of the snapshot is in one place, and its report is made
    from the first answer it gave. *)
Definition probing_inv (evs : list event) (p : probing) : Prop :=
  forall n,
    match snapshot p !! n with
    | None => to_probe p !! n = None /\ to_store p !! n = None /\ results p !! n = None
    | Some c =>
        match answered evs n with
        | None => to_probe p !! n = Some c /\ to_store p !! n = None /\ results p !! n = None
        | Some a =>
            to_probe p !! n = None
            /\ (to_store p !! n = Some (probeDB c a) /\ results p !! n = None
                \/ to_store p !! n = None /\ results p !! n = Some (probeDB c a))
        end
    end.

Lemma answered_snoc evs ev n :
  answered (evs ++ [ev]) n
  = match answered evs n with
    | Some a => Some a
    | None => match ev with Probe n' a => if decide (n' = n) then Some a else None | _ => None end
    end.
Proof.
  induction evs as [|e evs IH]; simpl; [by destruct ev; simpl; try destruct (decide _)|].
  destruct e; try done. by destruct (decide (n0 = n)).
Qed.

Lemma step_inv evs s p ev :
  probing_inv evs p ->
  probing_inv (evs ++ [ev]) (step (s, p) ev).2 /\ snapshot (step (s, p) ev).2 = snapshot p.
Proof.
  intros Hi. destruct ev as [k a|k|f]; simpl.
  - destruct (to_probe p !! k) as [c|] eqn:Ek; cbn; (split; [|done]); intros n; specialize (Hi n);
      rewrite answered_snoc; cbn.
    + destruct (decide (k = n)) as [<-|Hne].
      * destruct (snapshot p !! k) as [c'|] eqn:Es; [|destruct Hi as (Hi & _); congruence].
        destruct (answered evs k) as [a'|]; [destruct Hi as (Hi & _); congruence|].
        destruct Hi as (H1 & H2 & H3). rewrite lookup_delete_eq, lookup_insert_eq.
        split; [done|]. left. split; [congruence|done].
      * rewrite lookup_delete_ne, lookup_insert_ne by done.
        destruct (snapshot p !! n); [|done]. by destruct (answered evs n).
    + destruct (snapshot p !! n) as [c'|] eqn:Es; [|done]. destruct (answered evs n) as [a'|]; [done|].
      destruct (decide (k = n)) as [<-|]; [|done]. destruct Hi as (Hi & _). congruence.
  - destruct (to_store p !! k) as [r|] eqn:Ek; cbn; (split; [|done]); intros n; specialize (Hi n);
      rewrite answered_snoc; cbn; [|destruct (snapshot p !! n); [by destruct (answered evs n)|done]].
    destruct (decide (k = n)) as [<-|Hne].
    + destruct (snapshot p !! k) as [c'|] eqn:Es; [|destruct Hi as (_ & Hi & _); congruence].
      destruct (answered evs k) as [a'|]; [|destruct Hi as (_ & Hi & _); congruence].
      destruct Hi as (H1 & [[H2 H3]|[H2 H3]]); [|congruence]. cbn. rewrite lookup_delete_eq, lookup_insert_eq.
      split; [done|]. right. split; [done|congruence].
    + cbn. rewrite lookup_delete_ne, lookup_insert_ne by done.
      destruct (snapshot p !! n); [|done]. by destruct (answered evs n).
  - split; [|done]. intros n. specialize (Hi n). rewrite answered_snoc.
    destruct (snapshot p !! n); [|done]. by destruct (answered evs n).
Qed.

Lemma probing_run s evs :
  probing_inv evs (run evs (s, probeAllDBs s)).2
  /\ snapshot (run evs (s, probeAllDBs s)).2 = databases s.
Proof.
  induction evs as [|ev evs [IH Hs]] using rev_ind.
  { split; [|done]. intros n. cbn. rewrite lookup_empty. by destruct (databases s !! n). }
  unfold run in *. rewrite fold_left_app. cbn [fold_left].
  destruct (fold_left step evs (s, probeAllDBs s)) as [s' p].
  destruct (step_inv evs s' p ev IH) as [H1 H2]. split; [done|]. by rewrite H2.
Qed.
End Check.
Arguments HealthCheck D : clear implicits.
Arguments event D : clear implicits.

(** ** Theorems *)

(** [C40] A report covers the registry and mixes nothing up.  Whatever order the
    probes finish in and however the registry is changed meanwhile, when the
    report is complete it has exactly the databases that were registered when it
    was begun, each with the report made from that connection's own answer, so
    one database's outage shows in no other; and an incomplete report can always
    be completed, by one step per probe and one per result. *)
Theorem Report_complete {D} (s : HealthCheck D) (evs : list (event D)) :
  let p := (run evs (s, probeAllDBs s)).2 in
  (finished p = true ->
     forall n, results p !! n
       = (c ← databases s !! n; a ← answered evs n; Some (probeDB c a))
       /\ (is_Some (results p !! n) <-> is_Some (databases s !! n)))
  /\ (finished p = false ->
        (exists n c, to_probe p !! n = Some c /\ forall (s' : HealthCheck D) a,
           (size (to_probe (step (s', p) (Probe n a)).2) < size (to_probe p))%nat)
        \/ to_probe p = ∅
           /\ exists n r, to_store p !! n = Some r /\ forall s' : HealthCheck D,
             (size (to_store (step (s', p) (Store n)).2) < size (to_store p))%nat).
Proof.
  cbv zeta. destruct (probing_run s evs) as [Hi Hs].
  destruct (run evs (s, probeAllDBs s)) as [s' p]. cbn [snd] in *. unfold finished. split.
  - intros [H1%bool_decide_eq_true H2%bool_decide_eq_true]%andb_true_iff n.
    specialize (Hi n). rewrite Hs, H1, H2, !lookup_empty in Hi.
    destruct (databases s !! n) as [c|] eqn:Ed; cbn.
    + destruct (answered evs n) as [a|]; [|by destruct Hi as (Hi & _)].
      destruct Hi as (_ & [[Hi _]|[_ ->]]); [done|]. cbn. split; [done|]. split; by eexists.
    + destruct Hi as (_ & _ & ->). split; [done|]. split; by intros [? ?].
  - intros Hf. destruct (decide (to_probe p = ∅)) as [He|He].
    + right. split; [done|]. rewrite (bool_decide_eq_true_2 _ He) in Hf. cbn in Hf.
      apply bool_decide_eq_false in Hf. apply map_choose in Hf as (n & r & Hn). exists n, r.
      split; [done|]. intros s0. simpl. rewrite Hn. cbn.
      rewrite map_size_delete_Some by by eexists.
      assert (size (to_store p) <> 0%nat) by (apply map_size_non_empty_iff; intros E; by rewrite E in Hn). lia.
    + left. apply map_choose in He as (n & c & Hn). exists n, c. split; [done|]. intros s0 a. simpl.
      rewrite Hn. cbn. rewrite map_size_delete_Some by by eexists.
      assert (size (to_probe p) <> 0%nat) by (apply map_size_non_empty_iff; intros E; by rewrite E in Hn). lia.
Qed.

(** The witness: two databases, one down, the registry changed half-way. *)
Definition two : HealthCheck unit := New [mkEntry "a" "postgres" tt; mkEntry "b" "mysql" tt].
Definition down : answer := mkAnswer (Some "refused") (mkStats 0 0 0 0 0).
Definition up : answer := mkAnswer None (mkStats 3 1 2 0 0).
Definition two_run : list (event unit) :=
  [Probe "b" up; Register (fun s => RemoveDB s "b"); Probe "a" down; Store "a"; Store "b"].

Lemma Report_complete_witness :
  let p := (run two_run (two, probeAllDBs two)).2 in
  finished p = true /\ results p !! "b" = Some (mkReport "healthy" "mysql" "" 3 1 2 0 0)
  /\ results p !! "a" = Some (mkReport "unhealthy" "postgres" "refused" 0 0 0 0 0).
Proof.
  assert (Hf : finished (run two_run (two, probeAllDBs two)).2 = true) by (vm_compute; reflexivity).
  split; [exact Hf|]. split.
  - rewrite (proj1 (proj1 (Report_complete two two_run) Hf "b")). vm_compute. reflexivity.
  - rewrite (proj1 (proj1 (Report_complete two two_run) Hf "a")). vm_compute. reflexivity.
Defined.
