(* ===== verification/Database.v ===== *)
(** * Packages database/gorm, database/sql and database/migrate

    Opening a connection with retries and configuring its pool (gorm.go),
    opening, querying and closing a typed connector (sql.go), and applying
    migrations and seed files (migrator.go). What the drivers answer is the
    environment; the calls made on them are logged in order, a connection being
    known by the number of the call that opened it. *)
From S2P Require Import Prelude GoNum GoText.
Local Open Scope Z_scope.
Local Open Scope string_scope.

Definition ErrInvalidDatabaseConfig := errors_New "gorm.ErrInvalidDatabaseConfig".
Definition ErrDatabaseDSNRequired := errors_New "gorm.ErrDatabaseDSNRequired".
Definition ErrDatabaseDialectorRequired := errors_New "gorm.ErrDatabaseDialectorRequired".
Definition ErrUnsupportedDialector := errors_New "gorm.ErrUnsupportedDialector".
Definition ErrDatabaseConnectionFailed := errors_New "gorm.ErrDatabaseConnectionFailed".
Definition ErrDatabasePoolAccessFailed := errors_New "gorm.ErrDatabasePoolAccessFailed".

Definition Join2 (e e' : error) : error := Error "errors.Join" [e; e'].

(** ** database/gorm *)
Module Gorm.

(** [Override] is the [GormConfig] field: a configuration of gorm's own. *)
Record GormConfig (G : Type) := mkGormConfig {
  DSN : string;
  Dialector : string;
  LogLevel : string;
  MaxOpenConns : Z;
  MaxIdleConns : Z;
  SkipDefaultTx : bool;
  PrepareStmt : bool;
  DryRun : bool;
  ConnMaxLifetime : Z;
  ConnMaxIdleTime : Z;
  SlowThreshold : Z;
  RetryAttempts : Z;
  RetryDelay : Z;
  Override : option G;
}.
Arguments DSN {G}. Arguments Dialector {G}. Arguments LogLevel {G}. Arguments MaxOpenConns {G}.
Arguments MaxIdleConns {G}. Arguments SkipDefaultTx {G}. Arguments PrepareStmt {G}. Arguments DryRun {G}.
Arguments ConnMaxLifetime {G}. Arguments ConnMaxIdleTime {G}. Arguments SlowThreshold {G}.
Arguments RetryAttempts {G}. Arguments RetryDelay {G}. Arguments Override {G}.

Definition DefaultGormConfig {G} : GormConfig G :=
  mkGormConfig G "" "" "info" 50 50 true true false Hour (30 * Minute)%Z (200 * Millisecond)%Z
    3 Second None.

Inductive log_level : Type := Silent | LError | Warn | Info.

Definition ParseLoggerLevel (s : string) : log_level :=
  if String.eqb s "silent" then Silent
  else if String.eqb s "info" then Info
  else if String.eqb s "error" || String.eqb s "err" then LError
  else if String.eqb s "warning" || String.eqb s "warn" then Warn
  else Info.

(** The four drivers behind the six accepted names. *)
Inductive driver : Type := Postgres | MySQL | SQLite | SQLServer.

Definition getDriverDialectorFunc (dialector : string) : result driver :=
  if String.eqb dialector "postgres" then Ok Postgres
  else if String.eqb dialector "mysql" || String.eqb dialector "mariadb" then Ok MySQL
  else if String.eqb dialector "sqlite" then Ok SQLite
  else if String.eqb dialector "sqlserver" || String.eqb dialector "mssql" then Ok SQLServer
  else Fail (Join2 ErrUnsupportedDialector (errors_New ("dialector " +:+ dialector))).

Definition validateGormConfig {G} (cfg : GormConfig G) : option error :=
  if String.eqb (DSN cfg) "" then Some ErrDatabaseDSNRequired
  else if String.eqb (Dialector cfg) "" then Some ErrDatabaseDialectorRequired
  else match getDriverDialectorFunc (Dialector cfg) with Fail e => Some e | Ok _ => None end.

(** What [buildGormConfig] hands to gorm: the logger's threshold and level, the
    three switches, and the batch size. *)
Record built_config := mkBuilt {
  b_SlowThreshold : Z; b_LogLevel : log_level; b_SkipDefaultTransaction : bool;
  b_PrepareStmt : bool; b_DryRun : bool; b_CreateBatchSize : Z;
}.
Definition buildGormConfig {G} (cfg : GormConfig G) : built_config :=
  mkBuilt (SlowThreshold cfg) (ParseLoggerLevel (LogLevel cfg)) (SkipDefaultTx cfg)
    (PrepareStmt cfg) (DryRun cfg) 1000.

(** The configuration gorm gets: the caller's own, or the one built. *)
Definition gorm_config {G} (cfg : GormConfig G) : G + built_config :=
  match Override cfg with Some g => inl g | None => inr (buildGormConfig cfg) end.

Inductive pool_call : Type :=
| SetMaxOpenConns (n : Z) | SetMaxIdleConns (n : Z)
| SetConnMaxLifetime (d : Z) | SetConnMaxIdleTime (d : Z).

Definition configureConnectionPool {G} (cfg : GormConfig G) : list pool_call :=
  (if (0 <? MaxOpenConns cfg)%Z then [SetMaxOpenConns (MaxOpenConns cfg)] else [])
  ++ (if (0 <? MaxIdleConns cfg)%Z then [SetMaxIdleConns (MaxIdleConns cfg)] else [])
  ++ (if (0 <? ConnMaxLifetime cfg)%Z then [SetConnMaxLifetime (ConnMaxLifetime cfg)] else [])
  ++ (if (0 <? ConnMaxIdleTime cfg)%Z then [SetConnMaxIdleTime (ConnMaxIdleTime cfg)] else []).

Section New.
Context {G : Type}.

Inductive call : Type :=
| Open (d : driver) (dsn : string) (g : G + built_config)
| Sleep (d : Z)
| Pool (c : pool_call).

(** What the database does: the outcome of the [i]-th [gorm.Open], counted from
    0, and of [conn.DB()] on the connection it opened. *)
Context (open_outcome : Z -> option error) (DB_outcome : Z -> option error).

(** The retry loop from attempt [i] on: the attempt whose connection [conn] is
    left, the error, the calls. [fuel] counts the turns left. *)
Fixpoint open_loop (fuel : nat) (i : Z) (cfg : GormConfig G) (open : call)
    (conn : option Z) (err : option error) : option Z * option error * list call :=
  match fuel with
  | O => (conn, err, [])
  | S fuel' =>
      if (i <=? RetryAttempts cfg)%Z then
        match open_outcome i with
        | None => (Some i, None, [open])
        | Some e =>
            let pause := if (i <? RetryAttempts cfg)%Z then [Sleep (RetryDelay cfg)] else [] in
            let '(c, err, calls) := open_loop fuel' (i + 1)%Z cfg open None (Some e) in
            (c, err, open :: pause ++ calls)
        end
      else (conn, err, [])
  end.

(** [New]: [None] in the first place is a panic, the call of a method on the nil
    connection. *)
Definition New (cfg : option (GormConfig G)) : option (result Z) * list call :=
  match cfg with
  | None => (Some (Fail ErrInvalidDatabaseConfig), [])
  | Some cfg =>
      match validateGormConfig cfg with
      | Some e => (Some (Fail e), [])
      | None =>
          match getDriverDialectorFunc (Dialector cfg) with
          | Fail e => (Some (Fail e), [])
          | Ok d =>
              let '(conn, err, calls) :=
                open_loop (Z.to_nat (RetryAttempts cfg + 1)) 0 cfg (Open d (DSN cfg) (gorm_config cfg)) None None in
              match err with
              | Some e => (Some (Fail (Join2 ErrDatabaseConnectionFailed e)), calls)
              | None =>
                  match conn with
                  | None => (None, calls)
                  | Some c =>
                      match DB_outcome c with
                      | Some e => (Some (Fail (Join2 ErrDatabasePoolAccessFailed e)), calls)
                      | None => (Some (Ok c), (calls ++ map Pool (configureConnectionPool cfg))%list)
                      end
                  end
              end
          end
      end
  end.

(** [UpdateConnectionPool] on connection [c]. *)
Definition UpdateConnectionPool (c : Z) (cfg : GormConfig G) : option error * list call :=
  match DB_outcome c with
  | Some e => (Some (Join2 ErrDatabasePoolAccessFailed e), [])
  | None => (None, map Pool (configureConnectionPool cfg))
  end.

(** [k] failed attempts, each followed by a pause. *)
Definition failed_attempts (cfg : GormConfig G) (open : call) (k : nat) : list call :=
  concat (repeat [open; Sleep (RetryDelay cfg)] k).

(** ** Lemmas *)

Lemma open_loop_succeeds cfg open k conn err : forall (m : nat) i,
  (0 <= i)%Z -> (i + Z.of_nat k <= RetryAttempts cfg)%Z -> (k < m)%nat ->
  (forall j, (i <= j < i + Z.of_nat k)%Z -> is_Some (open_outcome j)) ->
  open_outcome (i + Z.of_nat k) = None ->
  open_loop m i cfg open conn err = (Some (i + Z.of_nat k)%Z, None, (failed_attempts cfg open k ++ [open])%list).
Proof.
  revert conn err. induction k as [|k IH]; intros conn err m i Hi Hle Hm Hf Hok;
    (destruct m as [|m]; [lia|]); cbn [open_loop].
  - rewrite Z.add_0_r in *. by rewrite (proj2 (Z.leb_le _ _)), Hok by lia.
  - rewrite (proj2 (Z.leb_le _ _)) by lia. destruct (Hf i ltac:(lia)) as [e ->].
    rewrite (proj2 (Z.ltb_lt _ _)) by lia.
    rewrite (IH None (Some e) m (i + 1)%Z); try lia.
    + by replace (i + 1 + Z.of_nat k)%Z with (i + Z.of_nat (S k))%Z by lia.
    + intros j Hj. apply Hf. lia.
    + by replace (i + 1 + Z.of_nat k)%Z with (i + Z.of_nat (S k))%Z by lia.
Qed.

Lemma open_loop_fails cfg open conn err e : forall (k m : nat) i,
  (i + Z.of_nat k = RetryAttempts cfg)%Z -> (k < m)%nat ->
  (forall j, (i <= j < RetryAttempts cfg)%Z -> is_Some (open_outcome j)) ->
  open_outcome (RetryAttempts cfg) = Some e ->
  open_loop m i cfg open conn err = (None, Some e, (failed_attempts cfg open k ++ [open])%list).
Proof.
  intros k. revert conn err. induction k as [|k IH]; intros conn err m i Hi Hm Hf Hl;
    (destruct m as [|m]; [lia|]); cbn [open_loop].
  - assert (i = RetryAttempts cfg) as -> by lia. rewrite Z.leb_refl, Hl, Z.ltb_irrefl.
    destruct m as [|m]; [done|]. cbn [open_loop]. by rewrite (proj2 (Z.leb_gt _ _)) by lia.
  - rewrite (proj2 (Z.leb_le _ _)) by lia. destruct (Hf i ltac:(lia)) as [e' ->].
    rewrite (proj2 (Z.ltb_lt _ _)) by lia.
    rewrite (IH None (Some e') m (i + 1)%Z); try lia; [done| |done]. intros j Hj. apply Hf. lia.
Qed.

Lemma getDriver_validated cfg :
  validateGormConfig cfg = None -> exists d, getDriverDialectorFunc (@Dialector G cfg) = Ok d.
Proof.
  unfold validateGormConfig. destruct (String.eqb _ _); [done|]. destruct (String.eqb _ _); [done|].
  destruct (getDriverDialectorFunc _); [by eexists|done].
Qed.
End New.
Arguments call G : clear implicits.

(** ** Theorem *)

(** Opening with retries.  With a valid configuration and a retry count that is
    not negative, the database is tried until the first success and at most once
    more than that count, with the configured pause after every failure but the
    last; a success yields that connection with the pool configured, and nothing
    else does. *)
Theorem New_schedule {G} (open_outcome DB_outcome : Z -> option error) (cfg : GormConfig G) :
  validateGormConfig cfg = None -> (0 <= RetryAttempts cfg)%Z ->
  exists d, getDriverDialectorFunc (Dialector cfg) = Ok d /\
  let open : call G := Open d (DSN cfg) (gorm_config cfg) in
    (forall k : nat, (Z.of_nat k <= RetryAttempts cfg)%Z ->
       (forall j, (0 <= j < Z.of_nat k)%Z -> is_Some (open_outcome j)) ->
       open_outcome (Z.of_nat k) = None ->
       New open_outcome DB_outcome (Some cfg)
       = match DB_outcome (Z.of_nat k) with
         | Some e => (Some (Fail (Join2 ErrDatabasePoolAccessFailed e)), (failed_attempts cfg open k ++ [open])%list)
         | None => (Some (Ok (Z.of_nat k)),
                    (failed_attempts cfg open k ++ [open] ++ map Pool (configureConnectionPool cfg))%list)
         end)
    /\ (forall e, (forall j, (0 <= j < RetryAttempts cfg)%Z -> is_Some (open_outcome j)) ->
         open_outcome (RetryAttempts cfg) = Some e ->
         New open_outcome DB_outcome (Some cfg)
         = (Some (Fail (Join2 ErrDatabaseConnectionFailed e)),
            (failed_attempts cfg open (Z.to_nat (RetryAttempts cfg)) ++ [open])%list)).
Proof.
  intros Hv Hn. destruct (getDriver_validated cfg Hv) as [d Hd].
  exists d. split; [done|]. cbv zeta. unfold New. rewrite Hv, Hd. split.
  - intros k Hk Hf Hok. rewrite (open_loop_succeeds open_outcome cfg _ k None None); [|lia..|done|done].
    rewrite Z.add_0_l. destruct (DB_outcome (Z.of_nat k)); [done|]. by rewrite <- app_assoc.
  - intros e Hf Hl.
    by rewrite (open_loop_fails open_outcome cfg _ None None e (Z.to_nat (RetryAttempts cfg))) by (done || lia).
Qed.

(** A database that comes up at the third attempt. *)
Definition demo_config : GormConfig unit :=
  mkGormConfig unit "dsn" "mariadb" "warn" 5 0 false false false 0 0 0 3 Second None.
Definition up_at_third (i : Z) : option error := if (i <? 2)%Z then Some (errors_New "refused") else None.

Lemma New_schedule_witness :
  let open := Open MySQL "dsn" (inr (mkBuilt 0 Warn false false false 1000)) in
  New up_at_third (fun _ => None) (Some demo_config)
    = (Some (Ok 2%Z), [open; Sleep Second; open; Sleep Second; open; Pool (SetMaxOpenConns 5)]).
Proof.
  destruct (New_schedule up_at_third (fun _ => None) demo_config) as (d & [= <-] & Hs & _); [done|simpl; lia|].
  apply (Hs 2%nat); [simpl; lia| |done].
  intros j Hj. unfold up_at_third. rewrite (proj2 (Z.ltb_lt _ _)) by lia. by eexists.
Defined.

(** With a negative retry count nothing is opened and the nil connection is used. *)
Lemma New_negative_retries_panics :
  New up_at_third (fun _ => None)
    (Some (mkGormConfig unit "dsn" "mysql" "" 0 0 false false false 0 0 0 (-1) 0 None)) = (None, []).
Proof. reflexivity. Qed.
End Gorm.

(** ** database/sql *)
Module Sql.

(** [Opened n] is the pool the call returned; [RowsClosed] is the deferred
    [rows.Close()]. *)
Inductive call : Type :=
| Opened (driver dsn : string) | Pinged | Closed | Queried (query : string) | RowsClosed.

Record SQLConfig := mkSQLConfig { Driver : string; DSN : string }.

(** [NewSQL]: the connector is the pool and the scan function, here the fact
    that one was given; [open] and [ping] are the driver's answers. *)
Definition NewSQL (cfg : SQLConfig) (scan : bool) (open ping : option error) : result unit * list call :=
  if String.eqb (Driver cfg) "" then (Fail (errors_New "database driver must not be empty"), [])
  else if String.eqb (DSN cfg) "" then (Fail (errors_New "database DSN must not be empty"), [])
  else if negb scan then (Fail (errors_New "scan function must not be nil"), [])
  else
    let opened := Opened (Driver cfg) (DSN cfg) in
    match open with
    | Some e => (Fail (Error "opening database connection" [e]), [opened])
    | None =>
        match ping with
        | Some e => (Fail (Error "pinging database" [e]), [opened; Pinged; Closed])
        | None => (Ok tt, [opened; Pinged])
        end
    end.

Section Query.
(** The rows a query yields: what the scan function makes of each, and the error
    the iteration ended with. *)
Context {T : Type}.

(** The loop; [results] starts as the nil slice. *)
Fixpoint scan_rows (rows : list (result T)) (results : list T) : result (list T) :=
  match rows with
  | [] => Ok results
  | r :: rows' =>
      match r with
      | Fail e => Fail (Error "scanning row" [e])
      | Ok item => scan_rows rows' (results ++ [item])%list
      end
  end.

Definition Query (query : string) (answer : result (list (result T) * option error))
  : result (list T) * list call :=
  match answer with
  | Fail e => (Fail (Error "executing query" [e]), [Queried query])
  | Ok (rows, rows_Err) =>
      let r := match scan_rows rows [] with
               | Fail e => Fail e
               | Ok results => match rows_Err with
                               | Some e => Fail (Error "iterating rows" [e])
                               | None => Ok results
                               end
               end in
      (r, [Queried query; RowsClosed])
  end.

Lemma scan_rows_spec rows results :
  match scan_rows rows results with
  | Ok l => exists items, rows = map Ok items /\ l = (results ++ items)%list
  | Fail e => exists e', Fail e' ∈ rows /\ e = Error "scanning row" [e']
  end.
Proof.
  revert results. induction rows as [|[item|e] rows IH]; intros results; simpl.
  - exists []. by rewrite app_nil_r.
  - specialize (IH (results ++ [item])%list). destruct (scan_rows rows _) as [l|e].
    + destruct IH as (items & -> & ->). exists (item :: items). by rewrite <- app_assoc.
    + destruct IH as (e' & Hin & ->). exists e'. split; [by right|done].
  - exists e. split; [by left|done].
Qed.
End Query.

(** A query is all or nothing: rows are answered exactly when every row was
    scanned and the iteration did not fail, all of them and in order; and the
    cursor of a query that was accepted is always closed. *)
Theorem Query_all_or_nothing {T} (query : string) (answer : result (list (result T) * option error)) (l : list T) :
  ((Query query answer).1 = Ok l <-> answer = Ok (map Ok l, None))
  /\ (is_Ok answer = true -> (Query query answer).2 = [Queried query; RowsClosed]).
Proof.
  unfold Query. destruct answer as [[rows err]|e]; [|by split].
  split; [|done]. cbn [fst]. pose proof (scan_rows_spec rows []) as H.
  destruct (scan_rows rows []) as [l'|e].
  - destruct H as (items & -> & ->). destruct err as [e|]; [by split|]. simpl. split; [by intros [= ->]|].
    intros [= Hm]. f_equal. revert l Hm. clear. induction items as [|x items IH]; intros [|y l] Hm; try done.
    simpl in Hm. injection Hm as -> Hm. f_equal. by apply IH.
  - destruct H as (e' & Hin & _). split; [done|]. intros [= -> ->].
    apply list_elem_of_In, in_map_iff in Hin as (x & Hx & _). done.
Qed.

Lemma Query_all_or_nothing_witness :
  (Query "select" (Ok ([Ok 1%Z; Ok 2%Z], None))).1 = Ok [1%Z; 2%Z]
  /\ (Query "select" (Ok ([Ok 1%Z; Ok 2%Z], None))).2 = [Queried "select"; RowsClosed].
Proof.
  destruct (Query_all_or_nothing "select" (Ok ([Ok 1%Z; Ok 2%Z], None)) [1%Z; 2%Z]) as [H1 H2].
  split; [by apply H1|by apply H2].
Defined.
End Sql.

(** ** database/migrate *)
Module Migrate.

Definition ErrInvalidConfig := errors_New "migrate.ErrInvalidConfig".
Definition ErrDatabaseConnectionFailed := errors_New "migrate.ErrDatabaseConnectionFailed".
Definition ErrDatabasePingFailed := errors_New "migrate.ErrDatabasePingFailed".
Definition ErrAbsolutePathFailed := errors_New "migrate.ErrAbsolutePathFailed".
Definition ErrMigrateInstanceFailed := errors_New "migrate.ErrMigrateInstanceFailed".
Definition ErrGetVersionFailed := errors_New "migrate.ErrGetVersionFailed".
Definition ErrDatabaseDirtyState := errors_New "migrate.ErrDatabaseDirtyState".
Definition ErrMigrationFailed := errors_New "migrate.ErrMigrationFailed".
Definition ErrReadPopulationDirectory := errors_New "migrate.ErrReadPopulationDirectory".
Definition ErrReadPopulateFile := errors_New "migrate.ErrReadPopulateFile".
Definition ErrPopulateExecutionFailed := errors_New "migrate.ErrPopulateExecutionFailed".
Definition ErrDSNRequired := errors_New "migrate.ErrDSNRequired".
Definition ErrDialectorRequired := errors_New "migrate.ErrDialectorRequired".
Definition ErrMigrationsPathRequired := errors_New "migrate.ErrMigrationsPathRequired".
Definition ErrInvalidMigrationsPath := errors_New "migrate.ErrInvalidMigrationsPath".
Definition ErrUnsupportedDialect := errors_New "migrate.ErrUnsupportedDialect".
(** Sentinels of golang-migrate. *)
Definition ErrNilVersion := errors_New "golang-migrate.ErrNilVersion".
Definition ErrNoChange := errors_New "golang-migrate.ErrNoChange".

Record MigrateConfig := mkMigrateConfig {
  DSN : string; Dialector : string; MigrationsPath : string; PopulationPath : string
}.

Definition supported (dialector : string) : bool :=
  existsb (String.eqb dialector) ["postgres"; "mysql"; "sqlite3"].

(** [missing]: [os.Stat] says that the path does not exist. *)
Definition validateMigrateConfig (missing : string -> bool) (config : MigrateConfig) : option error :=
  if String.eqb (DSN config) "" then Some ErrDSNRequired
  else if String.eqb (Dialector config) "" then Some ErrDialectorRequired
  else if negb (supported (Dialector config)) then Some (Error "unsupported dialect" [ErrUnsupportedDialect])
  else if String.eqb (MigrationsPath config) "" then Some ErrMigrationsPathRequired
  else if missing (MigrationsPath config) then Some (Error "invalid path" [ErrInvalidMigrationsPath])
  else None.

Inductive call : Type :=
| Opened | Pinged | Closed                  (** the pool *)
| Version | Up                              (** golang-migrate *)
| Executed (statement : string).

(** What the driver, the path and golang-migrate answer while [New] runs. *)
Record new_env := mkNewEnv {
  ne_Open : option error; ne_Ping : option error; ne_WithInstance : option error;
  ne_Abs : option error; ne_NewWithDatabaseInstance : option error;
}.

Definition createDatabaseDriver (env : new_env) (config : MigrateConfig) : option error :=
  if supported (Dialector config) then ne_WithInstance env
  else Some (Error "unsupported dialect" [ErrUnsupportedDialect]).

Definition initMigrate (env : new_env) (config : MigrateConfig) : option error :=
  match createDatabaseDriver env config with
  | Some e => Some e
  | None =>
      match ne_Abs env with
      | Some e => Some (Error "absolute path" [ErrAbsolutePathFailed; e])
      | None =>
          match ne_NewWithDatabaseInstance env with
          | Some e => Some (Error "migrate instance" [ErrMigrateInstanceFailed; e])
          | None => None
          end
      end
  end.

Definition New (missing : string -> bool) (env : new_env) (config : MigrateConfig)
  : option error * list call :=
  match validateMigrateConfig missing config with
  | Some e => (Some (Error "new migrator" [ErrInvalidConfig; e]), [])
  | None =>
      match ne_Open env with
      | Some e => (Some (Error "new migrator" [ErrDatabaseConnectionFailed; e]), [Opened])
      | None =>
          match ne_Ping env with
          | Some e => (Some (Error "new migrator" [ErrDatabasePingFailed; e]), [Opened; Pinged; Closed])
          | None =>
              match initMigrate env config with
              | Some e => (Some e, [Opened; Pinged; Closed])
              | None => (None, [Opened; Pinged])
              end
          end
      end
  end.

(** [Migrate] after the version is known. *)
Definition migrate_up (dirty : bool) (up ctx_after : option error) : option error * list call :=
  if dirty then (Some (Error "version" [ErrDatabaseDirtyState]), [Version])
  else
    match up with
    | Some e => (if errors_Is e ErrNoChange then None
                 else Some (Error "migrate" [ErrMigrationFailed; e]), [Version; Up])
    | None =>
        match ctx_after with
        | Some e => (Some (Error "context cancelled after migration completed" [e]), [Version; Up])
        | None => (None, [Version; Up])
        end
    end.

(** [Migrate]: the context before and after, what [Version] (whether the state
    is dirty, and its error) and [Up] answer. *)
Definition Migrate (ctx_before : option error) (version : bool * option error)
    (up ctx_after : option error) : option error * list call :=
  match ctx_before with
  | Some e => (Some (Error "migration cancelled before start" [e]), [])
  | None =>
      match version.2 with
      | Some e => if negb (errors_Is e ErrNilVersion)
                  then (Some (Error "get version" [ErrGetVersionFailed; e]), [Version])
                  else migrate_up version.1 up ctx_after
      | None => migrate_up version.1 up ctx_after
      end
  end.

(** [filepath.Ext]: from the last dot of the last element; [found] is what has
    been found so far. *)
Fixpoint Ext (s found : string) : string :=
  match s with
  | "" => found
  | String c s' =>
      if Ascii.eqb c "/" then Ext s' ""
      else if Ascii.eqb c "." then Ext s' s
      else Ext s' found
  end.

Definition is_seed (f : string * bool) : bool := negb f.2 && String.eqb (Ext f.1 "") ".sql".

Section Populate.
(** The context at the [i]-th check, the files of the directory, the database. *)
Context (ctx_Err : nat -> option error) (ReadFile : string -> result string) (Exec : string -> option error).

(** The loop over the directory's entries (name, is a directory), sorted by
    name as [os.ReadDir] answers them. *)
Fixpoint populate_loop (i : nat) (files : list (string * bool)) : option error * list call :=
  match files with
  | [] => (None, [])
  | f :: files' =>
      if is_seed f then
        match ctx_Err i with
        | Some e => (Some (Error "populate cancelled" [e]), [])
        | None =>
            match ReadFile f.1 with
            | Fail e => (Some (Error "populate" [ErrReadPopulateFile; e]), [])
            | Ok content =>
                match Exec content with
                | Some e => (Some (Error "populate" [ErrPopulateExecutionFailed; e]), [Executed content])
                | None =>
                    let '(err, calls) := populate_loop (S i) files' in (err, Executed content :: calls)
                end
            end
        end
      else populate_loop i files'
  end.

Definition Populate (config : MigrateConfig) (ReadDir : string -> result (list (string * bool)))
  : option error * list call :=
  if String.eqb (PopulationPath config) "" then (None, [])
  else
    match ReadDir (PopulationPath config) with
    | Fail e => (Some (Error "populate" [ErrReadPopulationDirectory; e]), [])
    | Ok files => populate_loop 0 files
    end.

(** What stops the loop at the [i]-th seed file: the error and whether its
    statements had been sent. *)
Definition obstacle (i : nat) (name : string) : option (error * list call) :=
  match ctx_Err i, ReadFile name with
  | Some e, _ => Some (Error "populate cancelled" [e], [])
  | None, Fail e => Some (Error "populate" [ErrReadPopulateFile; e], [])
  | None, Ok content =>
      match Exec content with
      | Some e => Some (Error "populate" [ErrPopulateExecutionFailed; e], [Executed content])
      | None => None
      end
  end.

Definition contents (names : list string) : list call :=
  map (fun n => match ReadFile n with Ok c => Executed c | Fail _ => Executed "" end) names.

Lemma populate_loop_spec files : forall i,
  let names := (filter (fun f => is_seed f = true) files).*1 in
  exists k, (k <= length names)%nat
    /\ (forall j name, (j < k)%nat -> names !! j = Some name -> obstacle (i + j) name = None)
    /\ match names !! k with
       | None => populate_loop i files = (None, contents names)
       | Some name => exists e sent, obstacle (i + k) name = Some (e, sent)
           /\ populate_loop i files = (Some e, (contents (take k names) ++ sent)%list)
       end.
Proof.
  induction files as [|f files IH]; intros i; cbv zeta.
  { exists 0%nat. split; [done|]. split; [intros; lia|]. done. }
  rewrite filter_cons. cbn [populate_loop]. destruct (is_seed f) eqn:Ef;
    [rewrite decide_True by done|rewrite decide_False by done; apply IH].
  cbn [fmap list_fmap]. set (names := (filter _ files).*1). specialize (IH (S i)). cbv zeta in IH. fold names in IH.
  destruct (obstacle i f.1) as [[e sent]|] eqn:Eo.
  - exists 0%nat. split; [lia|]. split; [intros; lia|]. cbn. exists e, sent. rewrite Nat.add_0_r.
    split; [done|]. revert Eo. unfold obstacle.
    destruct (ctx_Err i); [by intros [= <- <-]|]. destruct (ReadFile f.1) as [c|]; [|by intros [= <- <-]].
    destruct (Exec c); [by intros [= <- <-]|done].
  - destruct IH as (k & Hk & Hbefore & Hat). exists (S k). split; [simpl; lia|]. split.
    + intros [|j] name Hj Hn; simpl in Hn; [injection Hn as <-; by rewrite Nat.add_0_r|].
      rewrite Nat.add_succ_r. apply (Hbefore j name); [lia|done].
    + cbn [lookup list_lookup]. revert Eo. unfold obstacle at 1.
      destruct (ctx_Err i); [done|]. destruct (ReadFile f.1) as [c|] eqn:Er; [|done].
      destruct (Exec c); [done|]. intros _. destruct (names !! k) as [name|].
      * destruct Hat as (e & sent & Ho & ->). exists e, sent. rewrite Nat.add_succ_r. split; [done|].
        unfold contents. cbn. by rewrite Er.
      * rewrite Hat. unfold contents. cbn. by rewrite Er.
Qed.
End Populate.

(** ** Theorems *)

(** No handle is leaked: a pool that was opened successfully is closed exactly
    when [New] fails. *)
Theorem New_closes (missing : string -> bool) (env : new_env) (config : MigrateConfig) :
  let '(err, calls) := New missing env config in
  (ne_Open env = None -> Opened ∈ calls -> (Closed ∈ calls <-> is_Some err))
  /\ (ne_Open env <> None -> ~ Closed ∈ calls /\ is_Some err).
Proof.
  unfold New. destruct (validateMigrateConfig _ _); [split; [by intros _ ?%not_elem_of_nil|split; [apply not_elem_of_nil|by eexists]]|].
  destruct (ne_Open env) as [e|].
  { split; [done|]. intros _. split; [by intros [?|?%not_elem_of_nil]%elem_of_cons|by eexists]. }
  assert (Hopen : forall err (calls : list call), (Closed ∈ calls <-> is_Some (err : option error)) ->
    ((@None error) = None -> Opened ∈ calls -> (Closed ∈ calls <-> is_Some err))
    /\ ((@None error) <> None -> ~ Closed ∈ calls /\ is_Some err)) by (intros; by split).
  destruct (ne_Ping env); [apply Hopen; split; [by eexists|intros _; set_solver]|].
  destruct (initMigrate _ _); [apply Hopen; split; [by eexists|intros _; set_solver]|].
  apply Hopen. split; [|by intros [? ?]]. intros H.
  repeat (apply elem_of_cons in H as [H|H]; [done|]). by apply not_elem_of_nil in H.
Qed.

(** Seeding stops at the first obstacle: of the .sql files of the directory, in
    order, those before it have been executed and none after it, and the answer
    is nil exactly when there was no obstacle. *)
Theorem Populate_prefix (ctx_Err : nat -> option error) (ReadFile : string -> result string)
    (Exec : string -> option error) (config : MigrateConfig)
    (ReadDir : string -> result (list (string * bool))) (files : list (string * bool)) :
  PopulationPath config <> "" -> ReadDir (PopulationPath config) = Ok files ->
  let names := (filter (fun f => is_seed f = true) files).*1 in
  exists k, (k <= length names)%nat
    /\ (forall j name, (j < k)%nat -> names !! j = Some name -> obstacle ctx_Err ReadFile Exec j name = None)
    /\ match names !! k with
       | None => Populate ctx_Err ReadFile Exec config ReadDir = (None, contents ReadFile names)
       | Some name => exists e sent, obstacle ctx_Err ReadFile Exec k name = Some (e, sent)
           /\ Populate ctx_Err ReadFile Exec config ReadDir
              = (Some e, (contents ReadFile (take k names) ++ sent)%list)
       end.
Proof.
  intros Hp Hd. cbv zeta. unfold Populate. destruct (string_eqb_spec (PopulationPath config) ""); [done|].
  rewrite Hd. apply (populate_loop_spec ctx_Err ReadFile Exec files 0).
Qed.

Lemma Populate_prefix_witness :
  exists k, (k <= 2)%nat /\
  Populate (fun _ => None) (fun n => Ok ("-- " +:+ n)) (fun _ => None)
    (mkMigrateConfig "dsn" "mysql" "m" "seed")
    (fun _ => Ok [("a.sql", false); ("b.txt", false); ("c.sql", true); ("d.sql", false)])
  = (None, [Executed "-- a.sql"; Executed "-- d.sql"]).
Proof.
  destruct (Populate_prefix (fun _ => None) (fun n => Ok ("-- " +:+ n)) (fun _ => None)
    (mkMigrateConfig "dsn" "mysql" "m" "seed")
    (fun _ => Ok [("a.sql", false); ("b.txt", false); ("c.sql", true); ("d.sql", false)])
    _ ltac:(done) eq_refl) as (k & Hk & _ & Hat).
  exists k. vm_compute in Hk. split; [exact Hk|]. vm_compute. reflexivity.
Defined.
End Migrate.
