(* ===== verification/HttpServer.v ===== *)
(** * httpserver/gin.go and httpserver/download_file.go

    The server's configuration and what is built from it, and the headers of a
    file download with the cleaning of its name. gin, net/http, net and the
    system's table of media types are arguments; [strings.Map] and
    [mime.FormatMediaType] of the standard library are modelled as used. *)
From S2P Require Import Prelude GoNum GoText GoFmt.
From Stdlib Require Import Ascii.
Local Open Scope string_scope.

Definition chr (n : nat) : ascii := ascii_of_nat n.

(** ** download_file.go *)

(** [strings.Map] with the function of [sanitizeFilename]: the three characters
    go, a byte that is no character becomes the replacement character. *)
Definition dropped (r : Z) : bool := (r =? 13)%Z || (r =? 10)%Z || (r =? 0)%Z.
Definition replacement : string := String (chr 239) (String (chr 191) (String (chr 189) "")).
Definition map_unit (u : Z * string) : string :=
  if dropped u.1 then "" else if valid_unit u then u.2 else replacement.

Definition sanitizeFilename (filename : string) : string :=
  let filename := replace_byte "\" "/" filename in
  let filename := path_Base filename in
  let filename := str_concat (map map_unit (runes filename)) in
  if String.eqb filename "." || String.eqb filename "/" then "" else filename.

(** [mime.FormatMediaType] for a type without a slash and one parameter, both
    tokens in lower case. *)
Definition isTSpecial (c : ascii) : bool :=
  existsb (Ascii.eqb c)
    ["("; ")"; "<"; ">"; "@"; ","; ";"; ":"; "\"; chr 34; "/"; "["; "]"; "?"; "="]%char.
Definition isTokenChar (c : ascii) : bool :=
  (32 <? byte_val c)%Z && (byte_val c <? 127)%Z && negb (isTSpecial c).
Definition isToken (s : string) : bool := negb (String.eqb s "") && str_all isTokenChar s.

(** [needsEncoding]; a character above the range has a byte above it. *)
Definition plain_byte (c : ascii) : bool :=
  Ascii.eqb c (chr 9) || ((32 <=? byte_val c)%Z && (byte_val c <=? 126)%Z).
Definition needsEncoding (s : string) : bool := negb (str_all plain_byte s).

Definition hex_digit (n : Z) : ascii :=
  chr (Z.to_nat (if (n <? 10)%Z then 48 + n else 55 + n)%Z).
Definition attribute_char (c : ascii) : bool :=
  negb ((byte_val c <=? 32)%Z || (127 <=? byte_val c)%Z
        || existsb (Ascii.eqb c) ["*"; "'"; "%"]%char || isTSpecial c).
Fixpoint pct_encode (s : string) : string :=
  match s with
  | "" => ""
  | String c s' =>
      if attribute_char c then String c (pct_encode s')
      else String "%" (String (hex_digit (Z.shiftr (byte_val c) 4))
             (String (hex_digit (Z.land (byte_val c) 15)) (pct_encode s')))
  end.
Fixpoint quote (s : string) : string :=
  match s with
  | "" => ""
  | String c s' =>
      if Ascii.eqb c (chr 34) || Ascii.eqb c "\" then String "\" (String c (quote s'))
      else String c (quote s')
  end.
Definition QUOTE : string := String (chr 34) "".

Definition FormatMediaType (t attribute value : string) : string :=
  t +:+ "; " +:+ attribute +:+
  (if needsEncoding value then "*=utf-8''" +:+ pct_encode value
   else if isToken value then "=" +:+ value
   else "=" +:+ QUOTE +:+ quote value +:+ QUOTE).

Definition contentDisposition (filename : string) : string :=
  if String.eqb filename "" then "attachment" else FormatMediaType "attachment" "filename" filename.

Section Download.
(** [filepath.Ext], the media type of an extension, and the sniffing of
    [http.DetectContentType]. *)
Context (Ext TypeByExtension DetectContentType : string -> string).

Definition detectContentType (filename content : string) : string :=
  let by_content := if Nat.ltb 0 (String.length content) then DetectContentType content
                    else "application/octet-stream" in
  if negb (String.eqb (Ext filename) "") then
    if negb (String.eqb (TypeByExtension (Ext filename)) "") then TypeByExtension (Ext filename)
    else by_content
  else by_content.

(** What a download does to the response writer, in order; the error is the
    one of the last write. *)
Inductive writer_call : Type :=
| Header_Set (name value : string) | WriteHeader (status : Z) | Write (content : string).

Definition DownloadFile (filename contentType content : string) (write_err : option error)
  : list writer_call * option error :=
  let filename := sanitizeFilename filename in
  let contentType := if String.eqb contentType "" then detectContentType filename content
                     else contentType in
  ([Header_Set "Content-Type" contentType;
    Header_Set "Content-Length" (Itoa (Z.of_nat (String.length content)));
    Header_Set "Content-Disposition" (contentDisposition filename);
    Header_Set "Cache-Control" "no-store, no-cache, must-revalidate";
    Header_Set "Pragma" "no-cache";
    Header_Set "Expires" "0";
    Header_Set "X-Content-Type-Options" "nosniff";
    WriteHeader 200; Write content], write_err).
End Download.

Example base_examples :
  map path_Base ["a/b.txt"; "a/b//"; ""; "///"; "b.txt"; "../.."] = ["b.txt"; "b"; "."; "/"; "b.txt"; ".."].
Proof. reflexivity. Qed.
Example sanitize_examples :
  map sanitizeFilename ["..\..\evil.exe"; "/etc/passwd"; ".."; "/"; "a"]
  = ["evil.exe"; "passwd"; ".."; ""; "a"].
Proof. reflexivity. Qed.
Example disposition_examples :
  map contentDisposition ["report.pdf"; "my report.pdf"; ""; "€.txt"]
  = ["attachment; filename=report.pdf";
     "attachment; filename=" +:+ QUOTE +:+ "my report.pdf" +:+ QUOTE;
     "attachment"; "attachment; filename*=utf-8''%E2%82%AC.txt"].
Proof. reflexivity. Qed.

(** ** Reading the parameter back *)

Definition hex_val (c : ascii) : Z :=
  let b := byte_val c in if (b <? 65)%Z then (b - 48)%Z else (b - 55)%Z.
Fixpoint pct_decode (s : string) : string :=
  match s with
  | String "%" (String h (String l s')) =>
      String (chr (Z.to_nat (hex_val h * 16 + hex_val l))) (pct_decode s')
  | String c s' => String c (pct_decode s')
  | "" => ""
  end.
(** What a quoted string says up to its closing quote, and what follows it. *)
Fixpoint unquote (s : string) : string * string :=
  match s with
  | "" => ("", "")
  | String c s' =>
      if Ascii.eqb c (chr 34) then ("", s')
      else if Ascii.eqb c "\" then
        match s' with
        | String d s'' => let '(v, rest) := unquote s'' in (String d v, rest)
        | "" => ("", "")
        end
      else let '(v, rest) := unquote s' in (String c v, rest)
  end.

(** The filename a recipient of a Content-Disposition reads. *)
Definition filename_of (header : string) : option string :=
  match Cut header "; filename" with
  | Some ("attachment", String "=" (String c v)) =>
      if Ascii.eqb c (chr 34) then
        match unquote v with (f, "") => Some f | _ => None end
      else if isToken (String c v) then Some (String c v) else None
  | Some ("attachment", String "*" (String "=" v)) =>
      match Cut v "utf-8''" with Some ("", e) => Some (pct_decode e) | _ => None end
  | _ => None
  end.

(** ** Lemmas: encodings *)

Lemma pct_decode_char c s : attribute_char c = true -> pct_decode (String c s) = String c (pct_decode s).
Proof. by destruct c as [[] [] [] [] [] [] [] []]. Qed.

Lemma pct_decode_escape c s :
  pct_decode (String "%" (String (hex_digit (Z.shiftr (byte_val c) 4))
    (String (hex_digit (Z.land (byte_val c) 15)) s))) = String c (pct_decode s).
Proof.
  cbn [pct_decode]. f_equal. destruct c as [[] [] [] [] [] [] [] []]; vm_compute; reflexivity.
Qed.

Lemma pct_roundtrip s : pct_decode (pct_encode s) = s.
Proof.
  induction s as [|c s IH]; [done|]. cbn [pct_encode]. destruct (attribute_char c) eqn:E.
  - by rewrite pct_decode_char, IH.
  - by rewrite pct_decode_escape, IH.
Qed.

Lemma unquote_quote s rest : unquote (quote s +:+ String (chr 34) rest) = (s, rest).
Proof.
  induction s as [|c s IH]; [done|]. cbn [quote]. destruct (Ascii.eqb c (chr 34) || Ascii.eqb c "\") eqn:E;
    rewrite !string_app_cons; cbn [unquote].
  - change (Ascii.eqb "\" (chr 34)) with false. change (Ascii.eqb "\" "\") with true. cbv iota. by rewrite IH.
  - apply orb_false_iff in E as [-> ->]. by rewrite IH.
Qed.

Lemma token_plain c : isTokenChar c = true -> plain_byte c = true /\ Ascii.eqb c (chr 34) = false.
Proof. destruct c as [[] [] [] [] [] [] [] []]; vm_compute; by intros. Qed.
Lemma attribute_plain c : attribute_char c = true -> plain_byte c = true.
Proof. destruct c as [[] [] [] [] [] [] [] []]; vm_compute; by intros. Qed.
Lemma hex_plain c :
  plain_byte (hex_digit (Z.shiftr (byte_val c) 4)) = true
  /\ plain_byte (hex_digit (Z.land (byte_val c) 15)) = true.
Proof. destruct c as [[] [] [] [] [] [] [] []]; vm_compute; by split. Qed.

Lemma pct_encode_plain s : str_all plain_byte (pct_encode s) = true.
Proof.
  induction s as [|c s IH]; [done|]. cbn [pct_encode]. destruct (attribute_char c) eqn:E.
  - cbn [str_all]. by rewrite attribute_plain, IH.
  - destruct (hex_plain c) as [H1 H2]. cbn [str_all]. by rewrite H1, H2, IH.
Qed.
Lemma quote_plain s : str_all plain_byte s = true -> str_all plain_byte (quote s) = true.
Proof.
  induction s as [|c s IH]; [done|]. cbn [str_all quote]. intros [Hc Hs]%andb_true_iff.
  destruct (_ || _); cbn [str_all]; by rewrite Hc, IH.
Qed.

(** Whatever the name, the header is one line of plain bytes. *)
Lemma contentDisposition_plain f : str_all plain_byte (contentDisposition f) = true.
Proof.
  unfold contentDisposition, FormatMediaType. destruct (String.eqb f ""); [done|].
  rewrite !str_all_app. change (str_all plain_byte "attachment") with true.
  change (str_all plain_byte "; ") with true. change (str_all plain_byte "filename") with true. cbn [andb].
  unfold needsEncoding. destruct (str_all plain_byte f) eqn:Ef; cbn [negb].
  - destruct (isToken f); rewrite !str_all_app.
    + by rewrite Ef.
    + by rewrite quote_plain.
  - rewrite str_all_app. by rewrite pct_encode_plain.
Qed.

(** A recipient reads back the name that was given. *)
Lemma filename_of_disposition f : f <> "" -> filename_of (contentDisposition f) = Some f.
Proof.
  intros Hne. unfold contentDisposition, FormatMediaType. destruct (string_eqb_spec f ""); [done|].
  assert (Hcut : forall v, Cut ("attachment" +:+ "; " +:+ "filename" +:+ v) "; filename" = Some ("attachment", v)).
  { intros v. by destruct v. }
  unfold filename_of. rewrite Hcut. unfold needsEncoding.
  destruct (str_all plain_byte f) eqn:Ef; cbn [negb].
  - destruct (isToken f) eqn:Et.
    + destruct f as [|c f]; [done|]. change ("=" +:+ String c f) with (String "=" (String c f)). cbv iota beta.
      assert (Hc : Ascii.eqb c (chr 34) = false).
      { unfold isToken in Et. cbn in Et. apply andb_true_iff in Et as [Et _]. by apply token_plain. }
      by rewrite Hc, Et.
    + change ("=" +:+ QUOTE +:+ quote f +:+ QUOTE) with (String "=" (String (chr 34) (quote f +:+ String (chr 34) ""))).
      cbv iota beta. change (Ascii.eqb (chr 34) (chr 34)) with true. cbv iota. by rewrite unquote_quote.
  - change ("*=utf-8''" +:+ pct_encode f) with (String "*" (String "=" ("utf-8''" +:+ pct_encode f))).
    cbv iota beta.
    assert (Hu : Cut ("utf-8''" +:+ pct_encode f) "utf-8''" = Some ("", pct_encode f)) by (by destruct (pct_encode f)).
    rewrite Hu. by rewrite pct_roundtrip.
Qed.

(** ** Lemmas: the cleaned name *)

Definition not_slash (c : ascii) : bool := negb (Ascii.eqb c "/").
Definition not_backslash (c : ascii) : bool := negb (Ascii.eqb c "\").

Lemma replace_no_backslash s : str_all not_backslash (replace_byte "\" "/" s) = true.
Proof.
  induction s as [|c s IH]; [done|]. cbn [replace_byte str_all]. rewrite IH, andb_true_r.
  unfold not_backslash. by destruct (Ascii.eqb c "\") eqn:E; [|rewrite E].
Qed.

Lemma trim_right_all p s : str_all p s = true -> str_all p (trim_right_slash s) = true.
Proof.
  induction s as [|c s IH]; [done|]. cbn [str_all trim_right_slash]. intros [Hc Hs]%andb_true_iff.
  specialize (IH Hs). destruct (trim_right_slash s); [destruct (Ascii.eqb c "/"); [done|]|];
    cbn [str_all] in *; by rewrite Hc.
Qed.
Lemma last_element_all p s : forall cur,
  str_all p s = true -> str_all p cur = true -> str_all p (last_element s cur) = true.
Proof.
  induction s as [|c s IH]; intros cur; [done|]. cbn [str_all last_element]. intros [Hc Hs]%andb_true_iff Hcur.
  destruct (Ascii.eqb c "/"); by apply IH.
Qed.
Lemma last_element_no_slash s : forall cur,
  str_all not_slash (last_element s cur) = true \/ str_all not_slash s = true /\ last_element s cur = cur.
Proof.
  induction s as [|c s IH]; intros cur; [by right|]. cbn [str_all last_element].
  unfold not_slash at 2. destruct (Ascii.eqb c "/"); cbn [negb andb]; [|apply IH].
  left. destruct (IH s) as [H|[Hs ->]]; done.
Qed.

Lemma path_Base_clean p :
  str_all not_backslash p = true ->
  str_all not_backslash (path_Base p) = true
  /\ (path_Base p = "/" \/ str_all not_slash (path_Base p) = true).
Proof.
  intros Hp. unfold path_Base. destruct (String.eqb p ""); [split; [done|by right]|].
  set (t := trim_right_slash p). destruct (String.eqb (last_element t t) "") eqn:E; [split; [done|by left]|].
  split; [apply last_element_all; by apply trim_right_all|]. right.
  destruct (last_element_no_slash t t) as [H|[H ->]]; done.
Qed.

(** The bytes of a character: the character itself when it is ASCII, bytes above
    ASCII otherwise. *)
Definition byte_of_rune (r : Z) (c : ascii) : bool := (128 <=? byte_val c)%Z || (byte_val c =? r)%Z.

Lemma cont_high lo hi c : (128 <= lo)%Z -> cont_in lo hi c = true -> (128 <=? byte_val c)%Z = true.
Proof. unfold cont_in. intros H. bool_to_prop. intros [H1%Z.leb_le _]%andb_true_iff. apply Z.leb_le. lia. Qed.
Lemma lead_lo b n lo hi : utf8_lead b = Some (n, lo, hi) -> (128 <= lo)%Z.
Proof. unfold utf8_lead. repeat case_match; intros [= <- <- <-]; lia. Qed.

Lemma decode_rune_bytes s : str_all (byte_of_rune (decode_rune s).1) (str_take (decode_rune s).2 s) = true.
Proof.
  destruct s as [|c0 t]; [done|]. unfold decode_rune. destruct (Z.ltb_spec (byte_val c0) 128) as [|Hc].
  { cbn. unfold byte_of_rune. by rewrite Z.eqb_refl, orb_true_r. }
  assert (Hl : forall r, str_all (byte_of_rune r) (String c0 "") = true).
  { intros r. cbn. unfold byte_of_rune. by rewrite (proj2 (Z.leb_le _ _) Hc). }
  destruct (utf8_lead (byte_val c0)) as [[[n lo] hi]|] eqn:El; [|by destruct t].
  apply lead_lo in El.
  destruct n as [|[|[|[|n]]]]; [by destruct t| | | |by destruct t].
  - destruct t as [|c1 t]; [apply Hl|]. destruct (cont_in lo hi c1) eqn:E1; [|apply Hl].
    cbn in *. unfold byte_of_rune in *. by rewrite (cont_high _ _ _ El E1), (proj2 (Z.leb_le _ _) Hc).
  - destruct t as [|c1 [|c2 t]]; [apply Hl..|]. destruct (_ && _) eqn:E; [|apply Hl].
    apply andb_true_iff in E as [E1 E2]. cbn. unfold byte_of_rune.
    by rewrite (cont_high _ _ _ El E1), (cont_high 128 191 c2), (proj2 (Z.leb_le _ _) Hc).
  - destruct t as [|c1 [|c2 [|c3 t]]]; [apply Hl..|]. destruct (_ && _ && _) eqn:E; [|apply Hl].
    apply andb_true_iff in E as [[E1 E2]%andb_true_iff E3]. cbn. unfold byte_of_rune.
    by rewrite (cont_high _ _ _ El E1), (cont_high 128 191 c2), (cont_high 128 191 c3), (proj2 (Z.leb_le _ _) Hc).
Qed.

(** What a cleaned name may hold. *)
Definition safe_byte (c : ascii) : bool :=
  not_slash c && not_backslash c
  && negb (Ascii.eqb c (chr 13)) && negb (Ascii.eqb c (chr 10)) && negb (Ascii.eqb c (chr 0)).

Lemma kept_byte r c :
  dropped r = false -> byte_of_rune r c = true ->
  (not_slash c && not_backslash c) = true -> safe_byte c = true.
Proof.
  intros Hr Hb Hs. unfold safe_byte. rewrite Hs. cbn [andb].
  assert (Hne : forall n, (n < 128)%Z -> (r =? n)%Z = false -> Ascii.eqb c (chr (Z.to_nat n)) = true ->
    byte_val (chr (Z.to_nat n)) = n -> False).
  { intros n Hn Hrn He%Ascii.eqb_eq Hv. subst c. unfold byte_of_rune in Hb. rewrite Hv in Hb.
    rewrite Z.eqb_sym, Hrn, orb_false_r in Hb. apply Z.leb_le in Hb. lia. }
  unfold dropped in Hr. apply orb_false_iff in Hr as [[H13 H10]%orb_false_iff H0].
  destruct (Ascii.eqb c (chr 13)) eqn:E1; [exfalso; by apply (Hne 13%Z)|].
  destruct (Ascii.eqb c (chr 10)) eqn:E2; [exfalso; by apply (Hne 10%Z)|].
  destruct (Ascii.eqb c (chr 0)) eqn:E3; [exfalso; by apply (Hne 0%Z)|]. done.
Qed.

Lemma str_all_take (p : ascii -> bool) s : forall n, str_all p s = true ->
  str_all p (str_take n s) = true /\ str_all p (str_drop n s) = true.
Proof.
  induction s as [|c s IH]; intros [|n] H; try done. cbn [str_all str_take str_drop] in *.
  apply andb_true_iff in H as [Hc Hs]. destruct (IH n Hs) as [H1 H2]. by rewrite Hc.
Qed.
Lemma str_all_both (p q : ascii -> bool) s :
  str_all p s = true -> str_all q s = true -> str_all (fun c => p c && q c) s = true.
Proof.
  induction s as [|c s IH]; [done|]. cbn. intros [-> Hp]%andb_true_iff [-> Hq]%andb_true_iff. by apply IH.
Qed.

Lemma map_units_safe s :
  str_all (fun c => not_slash c && not_backslash c) s = true ->
  str_all safe_byte (str_concat (map map_unit (runes s))) = true.
Proof.
  induction s as [|s Hs IH] using runes_ind; [done|]. intros Hall.
  rewrite runes_cons by done. cbn [map str_concat]. rewrite str_all_app.
  destruct (str_all_take _ s (decode_rune s).2 Hall) as [Ht Hd]. rewrite (IH Hd), andb_true_r.
  unfold map_unit. cbn [fst snd]. destruct (dropped (decode_rune s).1) eqn:Edr; [done|].
  destruct (valid_unit _); [|done].
  pose proof (str_all_both _ _ _ (decode_rune_bytes s) Ht) as Hb.
  eapply str_all_mono; [|exact Hb]. intros c [H1 H2]%andb_true_iff. by eapply kept_byte.
Qed.

(** ** Theorem *)

(** [C33] The name of a download.  Whatever name the caller passes, what is sent holds
    no path separator, no line break and no NUL, and is not the current or the
    root directory; the Content-Disposition header is a single line of printable
    bytes; and a recipient that parses it reads exactly the cleaned name, so no
    character of the name can end the parameter or start another. *)
Theorem download_name_safe (filename : string) :
  let name := sanitizeFilename filename in
  str_all safe_byte name = true /\ name <> "."
  /\ str_all plain_byte (contentDisposition name) = true
  /\ (if String.eqb name "" then contentDisposition name = "attachment"
      else filename_of (contentDisposition name) = Some name).
Proof.
  cbv zeta. split; [|split].
  - unfold sanitizeFilename.
    destruct (path_Base_clean _ (replace_no_backslash filename)) as [Hb [->|Hs]]; [done|].
    destruct (_ || _); [done|]. by apply map_units_safe, str_all_both.
  - unfold sanitizeFilename. set (s := str_concat _). destruct (string_eqb_spec s "."); [done|].
    by destruct (String.eqb s "/").
  - split; [apply contentDisposition_plain|]. destruct (string_eqb_spec (sanitizeFilename filename) "") as [->|Hne];
      [done|by apply filename_of_disposition].
Qed.

(** ** gin.go *)
Module Gin.

Definition ErrInvalidListenAddress := errors_New "httpserver.ErrInvalidListenAddress".
Definition ErrServerNotInitialized := errors_New "httpserver.ErrServerNotInitialized".
Definition ErrInvalidSSLConfig := errors_New "httpserver.ErrInvalidSSLConfig".
Definition ErrHostResolutionFailed := errors_New "httpserver.ErrHostResolutionFailed".

(** [Port] and [MinTLSVersion] are uint16. *)
Record GinConfig := mkGinConfig {
  Host : string; Port : Z; DebugMode : bool;
  ReadTimeout : Z; WriteTimeout : Z; IdleTimeout : Z;
  UseSSL : bool; SSLCert : string; SSLKey : string; MinTLSVersion : Z;
  EnableHTTP2 : bool;
  NoRouteTo : string; NoRouteJSON : bool;
  UseRecovery : bool; TrustedProxies : list string;
  MaxPayloadSize : Z;
}.

Definition VersionTLS12 : Z := 771.
Definition VersionTLS13 : Z := 772.

Definition DefaultGinConfig : GinConfig :=
  mkGinConfig "" 8080 false (15 * Second)%Z (15 * Second)%Z (60 * Second)%Z false "" "" VersionTLS12 true
    "" true true [] (10 * 1024 * 1024)%Z.

Definition buildAddress (host : string) (port : Z) : string :=
  if String.eqb host "" then ":" +:+ Itoa port else host +:+ ":" +:+ Itoa port.

(** [resolve]: the verdict of [net.ResolveTCPAddr]. *)
Definition validateConfig (resolve : string -> option error) (c : GinConfig) : option error :=
  if (Port c =? 0)%Z then Some ErrInvalidListenAddress
  else
    let unresolved :=
      if negb (String.eqb (Host c) "") && negb (String.eqb (Host c) ":")
      then resolve (buildAddress (Host c) (Port c)) else None in
    match unresolved with
    | Some _ => Some (Error "address" [ErrHostResolutionFailed])
    | None =>
        if UseSSL c && (String.eqb (SSLCert c) "" || String.eqb (SSLKey c) "")
        then Some (Error "ssl" [ErrInvalidSSLConfig]) else None
    end.

(** [tls.Config]: what is set in it; curves and suites by their IANA numbers. *)
Record tls_config := mkTLS {
  MinVersion : Z; CurvePreferences : list Z; PreferServerCipherSuites : bool; CipherSuites : list Z
}.
Definition createTLSConfig (c : GinConfig) : tls_config :=
  mkTLS (if (MinTLSVersion c =? 0)%Z then VersionTLS13 else MinTLSVersion c) [23%Z; 29%Z] true
    [49196%Z; 49200%Z; 52393%Z; 52392%Z; 49195%Z; 49199%Z].

Record http_server := mkServer {
  Addr : string; sv_ReadTimeout : Z; sv_WriteTimeout : Z; sv_IdleTimeout : Z;
  TLSConfig : option tls_config; http2 : bool
}.

Inductive middleware_kind : Type := Recovery | PayloadLimit (maxSize : Z) | Custom (id : nat).

(** The router: the proxies it trusts (all when never told), its middleware in
    order, and whether the handler for unknown routes is set. *)
Record router := mkRouter {
  trusted : option (list string); handlers : list middleware_kind; no_route : bool
}.

Record Engine := mkEngine {
  config : GinConfig; rt : router; server : option http_server; tlsConfig : option tls_config; addr : string
}.

Definition createRouter (c : GinConfig) : router :=
  mkRouter (match TrustedProxies c with [] => None | ps => Some ps end) [] false.

Definition createHTTPServer (c : GinConfig) (address : string) (tls : option tls_config) : http_server :=
  mkServer address (ReadTimeout c) (WriteTimeout c) (IdleTimeout c) tls (EnableHTTP2 c && UseSSL c).

Definition Use (r : router) (ms : list middleware_kind) : router :=
  mkRouter (trusted r) (handlers r ++ ms)%list (no_route r).

Definition setupDefaultMiddleware (c : GinConfig) (r : router) : router :=
  let r := if UseRecovery c then Use r [Recovery] else r in
  if (0 <? MaxPayloadSize c)%Z then Use r [PayloadLimit (MaxPayloadSize c)] else r.

Definition setupNoRouteHandler (r : router) : router := mkRouter (trusted r) (handlers r) true.

(** What the handler for unknown routes answers to a request for [path]. *)
Inductive no_route_answer : Type :=
| Redirect (status : Z) (location : string)
| NotFoundJSON (path : string).
Definition noRouteHandler (c : GinConfig) (path : string) : no_route_answer :=
  if negb (String.eqb (NoRouteTo c) "") && negb (NoRouteJSON c)
  then Redirect 307 (NoRouteTo c) else NotFoundJSON path.

Definition NewGin (resolve : string -> option error) (c : option GinConfig) : result Engine :=
  let c := default DefaultGinConfig c in
  match validateConfig resolve c with
  | Some e => Fail e
  | None =>
      let r := createRouter c in
      let address := buildAddress (Host c) (Port c) in
      let tls := if UseSSL c then Some (createTLSConfig c) else None in
      let sv := createHTTPServer c address tls in
      let r := setupDefaultMiddleware c r in
      let r := setupNoRouteHandler r in
      Ok (mkEngine c r (Some sv) tls address)
  end.

(** How [Listen] serves: the error, or the call made on the server. *)
Inductive serve : Type := ListenAndServe | ListenAndServeTLS (cert key : string).
Definition Listen (e : Engine) : result serve :=
  match server e with
  | None => Fail ErrServerNotInitialized
  | Some _ =>
      if UseSSL (config e) then Ok (ListenAndServeTLS (SSLCert (config e)) (SSLKey (config e)))
      else Ok ListenAndServe
  end.

Definition ListenAndServeTLS_ (e : Engine) (certFile keyFile : string) : result serve :=
  match server e with
  | None => Fail ErrServerNotInitialized
  | Some _ => Ok (ListenAndServeTLS certFile keyFile)
  end.

(** [Shutdown]; [shutdown] is what net/http's answers. *)
Definition Shutdown (shutdown : http_server -> option error) (e : Engine) : option error :=
  match server e with
  | None => Some ErrServerNotInitialized
  | Some sv => shutdown sv
  end.

(** [SetupRoutes] and [SetupMiddleware]: what a function of the caller does to the
    router, which an engine [NewGin] made always has. *)
Definition SetupRoutes (e : Engine) (setup : option (router -> router)) : Engine :=
  match setup with
  | Some f => mkEngine (config e) (f (rt e)) (server e) (tlsConfig e) (addr e)
  | None => e
  end.
Definition SetupMiddleware (e : Engine) (setup : option (router -> router)) : Engine :=
  match setup with
  | Some f => mkEngine (config e) (f (rt e)) (server e) (tlsConfig e) (addr e)
  | None => e
  end.

Definition GetPort (e : Engine) : Z := Port (config e).
Definition Router (e : Engine) : router := rt e.
Definition Server (e : Engine) : option http_server := server e.
Definition Engine_Addr (e : Engine) : string := addr e.
Definition IsSSLEnabled (e : Engine) : bool := UseSSL (config e).

(** [setGinMode]: gin's mode of the process. *)
Inductive gin_mode := DebugMode_ | ReleaseMode.
Definition setGinMode (debugMode : bool) : gin_mode := if debugMode then DebugMode_ else ReleaseMode.

(** [createPayloadLimitMiddleware]: the handlers after it read the body through
    [http.MaxBytesReader], here up to its end; [body] is what the client sends. *)
Definition MaxBytesError := errors_New "http.MaxBytesError".
Definition createPayloadLimitMiddleware {A : Type} (maxSize : Z) (next : string * option error -> A)
    (body : string) : A :=
  let limit := Z.to_nat maxSize in
  next (if Nat.leb (String.length body) limit then (body, None)
        else (str_take limit body, Some MaxBytesError)).

(** The handlers read at most the limit, always a prefix of what was sent, and
    without an error exactly when it is all of it. *)
Lemma payload_limit_reads (maxSize : Z) (body : string) :
  let '(got, err) := createPayloadLimitMiddleware maxSize id body in
  (String.length got <= Z.to_nat maxSize)%nat /\ HasPrefix body got = true /\ (err = None <-> got = body).
Proof.
  unfold createPayloadLimitMiddleware, id. destruct (Nat.leb_spec (String.length body) (Z.to_nat maxSize)).
  - split_and!; [done| |done]. rewrite <- (string_app_nil_r body) at 1. apply HasPrefix_app.
  - split_and!.
    + rewrite length_str_take. lia.
    + rewrite <- (str_take_drop (Z.to_nat maxSize) body) at 1. apply HasPrefix_app.
    + split; [done|]. intros Heq. assert (Hl := f_equal String.length Heq). rewrite length_str_take in Hl. lia.
Qed.

(** A server that was built listens with TLS exactly when asked to, then with a
    certificate, a key and a minimum version of its own; it recovers from panics
    before anything else runs when asked to, limits payloads exactly when the
    limit is positive, and answers every unknown route. *)
Theorem NewGin_sound (resolve : string -> option error) (c : option GinConfig) (e : Engine) :
  NewGin resolve c = Ok e ->
  let g := default DefaultGinConfig c in
  config e = g /\ addr e = buildAddress (Host g) (Port g) /\ Port g <> 0%Z
  /\ no_route (rt e) = true
  /\ handlers (rt e) = ((if UseRecovery g then [Recovery] else [])
                        ++ (if (0 <? MaxPayloadSize g)%Z then [PayloadLimit (MaxPayloadSize g)] else []))%list
  /\ match Listen e with
     | Fail _ => False
     | Ok ListenAndServe => UseSSL g = false /\ tlsConfig e = None
     | Ok (ListenAndServeTLS cert key) =>
         UseSSL g = true /\ cert <> "" /\ key <> ""
         /\ exists t, tlsConfig e = Some t
            /\ MinVersion t = (if (MinTLSVersion g =? 0)%Z then VersionTLS13 else MinTLSVersion g)
     end.
Proof.
  unfold NewGin. set (g := default DefaultGinConfig c). unfold validateConfig.
  destruct (Z.eqb_spec (Port g) 0) as [|Hp]; [done|].
  destruct (if negb _ && negb _ then resolve _ else None); [done|].
  destruct (UseSSL g && _) eqn:Es; [done|]. intros [= <-]. cbv zeta. cbn.
  split; [done|]. split; [done|]. split; [done|].
  unfold setupDefaultMiddleware, createRouter, Use. split; [done|]. split.
  { by destruct (UseRecovery g), (0 <? MaxPayloadSize g)%Z. }
  unfold Listen. cbn. destruct (UseSSL g) eqn:Eu; [|done]. cbn in Es.
  apply orb_false_iff in Es as [Hc%String.eqb_neq Hk%String.eqb_neq].
  split; [done|]. split; [done|]. split; [done|]. by eexists.
Qed.

Lemma NewGin_sound_witness :
  exists e, NewGin (fun _ => None) None = Ok e /\ handlers (rt e) = [Recovery; PayloadLimit 10485760].
Proof.
  destruct (NewGin (fun _ => None) None) as [e|] eqn:E; [|vm_compute in E; done].
  exists e. split; [done|]. destruct (NewGin_sound _ _ e E) as (_ & _ & _ & _ & H & _). exact H.
Defined.
End Gin.
