(* ===== verification/SessionSafety.v ===== *)
(** * oidcauth: what holds of the sessions over any history

    On top of [Sessions]: the invariant of the stored sessions under every
    operation of the manager and under racing requests, and what a store that
    fails to commit a refresh leaves behind. *)
From S2P Require Import Prelude GoNum GoText OidcTypes Sessions.
From stdpp Require Import fin_maps relations.
Local Open Scope Z_scope.

(** ** Histories of the session manager *)

(** One call of the manager, with the instants it reads, the identifier it
    draws and the issuer it finds. *)
Inductive manager_call : Type :=
| CallCreate (uuid : string) (token : Token) (claims : Claims) (now wall wall' : Z)
| CallResolve (ts : string -> result Token) (id : string) (now wall wall' : Z)
| CallPeek (id : string)
| CallDelete (id : string)
| CallCleanup (now : Z).

Section Histories.
Context {S : Type} `{SessionStoreOk S}.
Variable m : SessionManager.
Variable uuid_Parse : string -> bool.

Definition call_step (s : S) (c : manager_call) : S :=
  match c with
  | CallCreate uuid token claims now wall wall' => (Create m s uuid token claims now wall wall').1
  | CallResolve ts id now wall wall' => (Resolve m ts uuid_Parse s id now wall wall').1.1
  | CallPeek id => (Peek s id).1
  | CallDelete id => (Sessions.Delete s id).1
  | CallCleanup now => (CleanupExpired s now).1
  end.
Definition call_run (s : S) (cs : list manager_call) : S := fold_left call_step cs s.

(** A session is stored under its own identifier, and the ceiling it carries is
    the one its tokens, its creation and the configuration make. *)
Definition well_formed (x : Session) (id : string) : Prop :=
  ID x = id /\ ExpiresAt x = computeExpiresAt m x.
Definition store_well_formed (s : S) : Prop := map_Forall (fun id x => well_formed x id) (sessions s).

Lemma well_formed_seen x id t : well_formed x id -> well_formed (set_LastSeenAt t x) id.
Proof. done. Qed.

Lemma well_formed_renewed x id token now wall wall' :
  well_formed x id -> well_formed (renewed m x token now wall wall') id.
Proof. intros [Hid _]. by split. Qed.

Lemma well_formed_created uuid token claims now wall wall' :
  let x := mkSession uuid (tokenSetFrom token no_tokens wall wall') claims zero_time now now zero_time in
  well_formed (set_ExpiresAt (computeExpiresAt m x) x) uuid.
Proof. by split. Qed.

Lemma store_touched s s' id t :
  store_well_formed s -> sessions s' = alter (set_LastSeenAt t) id (sessions s) -> store_well_formed s'.
Proof.
  intros Hs Heq k x. rewrite Heq. intros Hk.
  apply lookup_alter_Some in Hk as [(<- & y & Hy & ->)|[_ Hk]]; [apply well_formed_seen|]; by apply Hs.
Qed.

Lemma store_smaller s s' : store_well_formed s -> sessions s' ⊆ sessions s -> store_well_formed s'.
Proof. intros Hs Hsub k x Hk. apply Hs. by eapply lookup_weaken. Qed.

(** What runs under the lock keeps the invariant. *)
Lemma store_locked s id ts now wall wall' w :
  store_well_formed s -> store_well_formed (st_WithLock s id (refresh_callback m ts now wall wall') w).1.1.
Proof.
  intros Hs. pose proof (st_WithLock_ok _ s id (refresh_callback m ts now wall wall') w) as Hlaw.
  destruct (st_WithLock s id _ w) as [[s1 w1] err]. cbn in *.
  assert (Hsame : sessions s1 = sessions s -> store_well_formed s1) by (unfold store_well_formed; by intros ->).
  destruct (sessions s !! id) as [x|] eqn:Hx; [|apply Hsame; by destruct Hlaw as (_ & ? & _)].
  destruct Hlaw as [_ Hlaw]. destruct ((refresh_callback m ts now wall wall' x w).2) as [[x'|]|e] eqn:Eo;
    destruct Hlaw as [_ Heq]; [|by apply Hsame..].
  assert (Hx' : exists token, x' = renewed m x token now wall wall').
  { revert Eo. unfold refresh_callback. destruct w as [r0 p0].
    destruct (Before _ _); [done|]. destruct (isExpired _ _ _); [done|]. destruct (String.eqb _ _); [done|].
    destruct (Flow_Refresh _ _) as [token|]; [|done]. cbn. intros [= <-]. by exists token. }
  destruct Hx' as [token ->]. intros k y. rewrite Heq.
  intros [[<- <-]|[_ Hk]]%lookup_insert_Some; [apply well_formed_renewed|]; by apply Hs.
Qed.

Lemma store_deleted s id : store_well_formed s -> store_well_formed (st_Delete s id).1.
Proof. intros Hs. destruct (st_Delete_ok s id) as [Heq _]. eapply store_smaller; [done|]. rewrite Heq. apply delete_subseteq. Qed.
Lemma store_read s id : store_well_formed s -> store_well_formed (st_Get s id).1.
Proof. intros Hs. destruct (st_Get_ok s id) as [Heq _]. unfold store_well_formed. by rewrite Heq. Qed.

Lemma store_refreshed s ts id now wall wall' :
  store_well_formed s -> store_well_formed (refresh m ts s id now wall wall').1.1.
Proof.
  intros Hs. unfold refresh. pose proof (store_locked s id ts now wall wall' (None, []) Hs) as H1.
  destruct (st_WithLock s id _ _) as [[s1 [res pres]] [e|]]; [|done].
  cbn in *. destruct (errors_Is e _); [by apply store_deleted|done].
Qed.

Lemma store_resolved s ts id now wall wall' :
  store_well_formed s -> store_well_formed (Resolve m ts uuid_Parse s id now wall wall').1.1.
Proof.
  intros Hs. unfold Resolve. destruct (uuid_Parse id); [|done]. cbn [negb].
  pose proof (store_read s id Hs) as H1. destruct (st_Get s id) as [s1 [x|e]]; [|done]. cbn in H1.
  destruct (isExpired m x now); [by apply store_deleted|].
  destruct (Before now _); [|by apply store_refreshed].
  destruct (verifier m) as [v|]; [destruct (v _)|];
    first [by apply store_deleted | (eapply store_touched; [done|apply st_Touch_ok])].
Qed.

Lemma call_step_well_formed s c : store_well_formed s -> store_well_formed (call_step s c).
Proof.
  intros Hs. destruct c as [uuid token claims now wall wall'|ts id now wall wall'|id|id|now]; cbn [call_step].
  - unfold Create. set (x := set_ExpiresAt _ _). destruct (st_Create_ok s x) as [Heq He].
    destruct (st_Create s x) as [s1 o]. cbn in Heq, He. subst o. intros k y. cbn. rewrite Heq.
    intros [[<- <-]|[_ Hk]]%lookup_insert_Some; [apply well_formed_created|by apply Hs].
  - by apply store_resolved.
  - by apply store_read.
  - by apply store_deleted.
  - destruct (st_DeleteExpired_ok s now) as [Heq _]. eapply store_smaller; [done|].
    unfold CleanupExpired. rewrite Heq. apply map_filter_subseteq.
Qed.

(** Racing requests keep it too. *)
Lemma race_step_well_formed id horizon g g' :
  request_step m id horizon g g' -> store_well_formed (store g) -> store_well_formed (store g').
Proof.
  intros Hst Hs. destruct Hst as [|g tid now p ts wl wl' s' pres p' _ _ Hstep]; [done|]. cbn.
  revert Hstep. destruct p as [|x| |e|r]; cbn [resolve_step].
  - pose proof (store_read (store g) id Hs) as H1. destruct (st_Get (store g) id) as [s1 r]. by intros [= <- _ _].
  - intros [= <- _ _]. eapply store_touched; [done|apply st_Touch_ok].
  - pose proof (store_locked (store g) id ts now wl wl' (None, []) Hs) as H1.
    destruct (st_WithLock (store g) id _ _) as [[s1 [res pr]] err]. by intros [= <- _ _].
  - intros [= <- _ _]. by apply store_deleted.
  - by intros [= <- _ _].
Qed.
End Histories.

(** ** Theorems *)

(** [C10] The stored sessions stay well formed.  Whatever calls of the manager
    are made, in whatever order, with whatever clocks and issuers, every session
    in a store that keeps its contract is filed under its own identifier and
    carries exactly the ceiling its tokens, its creation time and the
    configuration make; and requests racing each other keep this true. *)
Theorem sessions_stay_well_formed {S} `{SessionStoreOk S} (m : SessionManager) (uuid_Parse : string -> bool)
    (s : S) (cs : list manager_call) (id : string) (horizon : Z) (g : requests) :
  store_well_formed m s ->
  store_well_formed m (call_run m uuid_Parse s cs)
  /\ (requests_reach m id horizon (call_run m uuid_Parse s cs) g -> store_well_formed m (store g)).
Proof.
  intros Hs. assert (Hrun : store_well_formed m (call_run m uuid_Parse s cs)).
  { unfold call_run. revert s Hs. induction cs as [|c cs IH]; intros s Hs; [done|].
    apply IH. by apply call_step_well_formed. }
  split; [done|]. induction 1 as [|g g' _ IH Hst]; [done|]. by eapply race_step_well_formed.
Qed.

(** A login, two requests, one of which refreshes, and a clean-up. *)
Definition demo_history : list manager_call :=
  [CallCreate "sid" demo_token some_claims noon noon noon;
   CallResolve demo_issuer "sid" (noon + Second) noon noon;
   CallResolve demo_issuer "sid" (noon + 10 * Minute) noon noon;
   CallCleanup (noon + 20 * Minute)].

Lemma sessions_stay_well_formed_witness :
  exists x, call_run demo_manager (fun _ => true) (∅ : gmap string Session) demo_history !! "sid" = Some x
    /\ ID x = "sid" /\ ExpiresAt x = computeExpiresAt demo_manager x
    /\ RefreshToken (Tokens x) = "rt2".
Proof.
  assert (H0 : store_well_formed demo_manager (∅ : gmap string Session)) by (intros k y Hk; discriminate Hk).
  pose proof (proj1 (sessions_stay_well_formed demo_manager (fun _ => true) ∅ demo_history "sid" 0
                       (mkRequests ∅ ∅ [] []) H0)) as H.
  destruct (call_run demo_manager (fun _ => true) ∅ demo_history !! "sid") as [x|] eqn:Ex;
    [|vm_compute in Ex; done].
  exists x. destruct (H "sid" x Ex) as [H1 H2]. split; [done|]. split; [done|]. split; [done|].
  vm_compute in Ex. injection Ex as <-. reflexivity.
Defined.

(** ** A store that loses a commit

    [WithLock] runs the callback, then fails to store what it answered: the
    refresh token has been exchanged at the issuer and the session keeps it. *)

Record flaky := mkFlaky { fl_sessions : gmap string Session; fl_commits : bool }.

#[export] Instance flaky_store : SessionStore flaky := {|
  st_Create s x := (mkFlaky (<[ID x := x]> (fl_sessions s)) (fl_commits s), None);
  st_Get s id := (s, match fl_sessions s !! id with Some x => Ok x | None => Fail ErrSessionNotFound end);
  st_Touch s id t := (mkFlaky (alter (set_LastSeenAt t) id (fl_sessions s)) (fl_commits s), None);
  st_WithLock W s id fn w :=
    match fl_sessions s !! id with
    | None => (s, w, Some ErrSessionNotFound)
    | Some x =>
        match (fn x w).2 with
        | Fail e => (s, (fn x w).1, Some e)
        | Ok None => (s, (fn x w).1, None)
        | Ok (Some x') =>
            if fl_commits s then (mkFlaky (<[id := x']> (fl_sessions s)) true, (fn x w).1, None)
            else (s, (fn x w).1, Some (errors_New "commit failed"))
        end
    end;
  st_Delete s id := (mkFlaky (delete id (fl_sessions s)) (fl_commits s), None);
  st_DeleteExpired s now := (s, Ok 0);
|}.

(** The request is told that there is no session, the session is still there,
    and the next request presents the refresh token that was exchanged. *)
Lemma lost_commit_keeps_spent_token :
  let s := mkFlaky {["sid" := demo_session (noon + Minute)]} false in
  let '(s1, presented1, r1) := Resolve demo_manager demo_issuer (fun _ => true) s "sid" (noon + 2 * Minute) noon noon in
  let '(s2, presented2, r2) := Resolve demo_manager demo_issuer (fun _ => true) s1 "sid" (noon + 3 * Minute) noon noon in
  fails_with r1 ErrSessionNotFound = true /\ fl_sessions s1 = fl_sessions s
  /\ presented1 = ["rt1"] /\ is_Ok (demo_issuer "rt1") = true /\ presented2 = ["rt1"].
Proof. vm_compute. repeat split. Qed.
