(* ===== verification/Spreadsheet.v ===== *)
(** * Package spreadsheet: CSV and XLSX files

    spreadsheet/excelize.go: the checks and the worker of [Write], the CSV
    encoding of the standard library's writer as used (comma, LF), and the calls
    made on an excelize file. Excelize is seen through those calls: a file is
    the list of the calls that were made on it, and each may fail. What the calls
    leave in a workbook is stated for every workbook that keeps the laws excelize
    documents ([WorkbookOk]). *)
From stdpp Require Import fin_maps.
From Stdlib Require Import Ascii.
From S2P Require Import Prelude GoNum GoText GoFmt.
Local Open Scope string_scope.

(** ** A monad for code that may fail and leaves a log

    [io E A]: a computation that asks the environment about its [n]-th question,
    appends to the log of calls of type [E], and answers or fails. *)
Definition io (E A : Type) : Type := nat * list E -> result A * (nat * list E).
Definition io_ret {E A} (a : A) : io E A := fun st => (Ok a, st).
Definition io_bind {E A B} (x : io E A) (f : A -> io E B) : io E B := fun st =>
  match x st with
  | (Ok a, st) => f a st
  | (Fail e, st) => (Fail e, st)
  end.
Definition io_fail {E A} (e : error) : io E A := fun st => (Fail e, st).
(** The log gets the call; the verdict on a call is the environment's. *)
Definition io_call {E} (verdict : E -> option error) (wrap : error -> error) (c : E) : io E unit :=
  fun st => match verdict c with
            | Some e => (Fail (wrap e), (st.1, st.2 ++ [c])%list)
            | None => (Ok tt, (st.1, st.2 ++ [c])%list)
            end.
(** [ctx.Err()], asked for the [n]-th time. *)
Definition io_ctx {E} (ctx_Err : nat -> option error) : io E unit :=
  fun st => match ctx_Err st.1 with
            | Some e => (Fail e, (S st.1, st.2))
            | None => (Ok tt, (S st.1, st.2))
            end.
Definition io_of {E A} (r : result A) : io E A := fun st => (r, st).

Declare Scope io_scope.
Delimit Scope io_scope with io.
Notation "x <- m ;; k" := (io_bind m (fun x => k))
  (at level 100, m at next level, right associativity) : io_scope.
Notation "m ;; k" := (io_bind m (fun _ => k)) (at level 100, right associativity) : io_scope.

Fixpoint io_iter {E A} (i : nat) (f : nat -> A -> io E unit) (l : list A) : io E unit :=
  match l with
  | [] => io_ret tt
  | a :: l' => io_bind (f i a) (fun _ => io_iter (S i) f l')
  end.

(** ** Formats, sheets, options *)

Definition FormatXLSX : string := "xlsx".
Definition FormatCSV : string := "csv".
Definition valid (format : string) : bool := String.eqb format FormatXLSX || String.eqb format FormatCSV.

Section Writer.
(** [V] is what a cell may hold, [Sprint] its printed form; [St] a style. *)
Context {V St : Type} (Sprint : V -> string).

Definition Row : Type := list V.
Record Sheet := mkSheet { Name : string; Headers : list string; Rows : list Row }.
Record Options := mkOptions { DefaultSheetName : string; HeaderStyle : option St }.

(** [bold_yellow] is the default style. *)
Definition applyDefaults (bold_yellow : St) (o : Options) : Options :=
  mkOptions (if String.eqb (DefaultSheetName o) "" then "Sheet1" else DefaultSheetName o)
    (match HeaderStyle o with Some st => Some st | None => Some bold_yellow end).

(** [New]; a [Writer] is its options. *)
Definition New (bold_yellow : St) (opts : Options) : Options := applyDefaults bold_yellow opts.

Definition resolveSheetName (name fallback : string) : string :=
  if negb (String.eqb (TrimSpace name) "") then TrimSpace name else fallback.

(** ** CSV *)

Definition CR : ascii := ascii_of_nat 13.

(** [csv.Writer.fieldNeedsQuotes]. *)
Fixpoint has_special (s : string) : bool :=
  match s with
  | "" => false
  | String c s' => Ascii.eqb c LF || Ascii.eqb c CR || Ascii.eqb c DQ || Ascii.eqb c "," || has_special s'
  end.
Definition fieldNeedsQuotes (field : string) : bool :=
  if String.eqb field "" then false
  else if String.eqb field "\." then true
  else has_special field || IsSpace (decode_rune field).1.

Fixpoint double_quotes (s : string) : string :=
  match s with
  | "" => ""
  | String c s' => if Ascii.eqb c DQ then String DQ (String DQ (double_quotes s'))
                   else String c (double_quotes s')
  end.
Definition csv_field (field : string) : string :=
  if fieldNeedsQuotes field then String DQ (double_quotes field +:+ String DQ "") else field.
Definition csv_record (record : list string) : string :=
  Join (map csv_field record) "," +:+ String LF "".

(** [writeCSV]: writing to a buffer does not fail; the context is asked once per
    row. The log holds the records written. *)
Definition writeCSV (ctx_Err : nat -> option error) (s : Sheet) : result string :=
  match io_iter 0 (fun _ row =>
          io_bind (io_ctx ctx_Err) (fun _ =>
            io_call (fun _ => None) id (csv_record (map Sprint row)))) (Rows s)
          (0%nat, [csv_record (Headers s)]) with
  | (Fail e, _) => Fail e
  | (Ok _, (_, records)) => Ok (str_concat records)
  end.

(** ** XLSX *)

Inductive call : Type :=
| SetSheetName (old new : string)
| NewSheet (name : string)
| SetCellValue (sheet cell : string) (value : string + V)
| NewStyle (st : option St)
| SetCellStyle (sheet first last : string)
| WriteToBuffer.

(** Excelize: the name of a cell from its column and row, and the verdict on
    each call. *)
Record excelize := mkExcelize {
  CoordinatesToCellName : Z -> Z -> result string;
  verdict : call -> option error;
  default_tab : string;
}.

Context (x : excelize) (ctx_Err : nat -> option error).
Local Open Scope io_scope.

Definition ask : io call unit := io_ctx ctx_Err.
Definition wrapped (what : string) (e : error) : error := Error what [e].
Definition cell_name (what : string) (col row : Z) : io call string :=
  io_of (match CoordinatesToCellName x col row with Ok c => Ok c | Fail e => Fail (wrapped what e) end).
Definition do (what : string) (c : call) : io call unit := io_call (verdict x) (wrapped what) c.

(** The empty string of a cell whose name could not be made: the error is
    dropped in the last two lines of [writeXLSXHeaders]. *)
Definition cell_name_or_empty (col row : Z) : string :=
  match CoordinatesToCellName x col row with Ok c => c | Fail _ => "" end.

Definition writeXLSXHeaders (style : option St) (sheet : string) (headers : list string) : io call unit :=
  io_iter 0 (fun col h =>
    ask ;;
    cell <- cell_name "header cell name" (Z.of_nat col + 1) 1 ;;
    do "set header value" (SetCellValue sheet cell (inl h))) headers ;;
  do "create header style" (NewStyle style) ;;
  do "apply header style"
     (SetCellStyle sheet (cell_name_or_empty 1 1) (cell_name_or_empty (Z.of_nat (length headers)) 1)).

Definition writeXLSXRows (sheet : string) (rows : list Row) : io call unit :=
  io_iter 0 (fun ri row =>
    io_iter 0 (fun ci val =>
      ask ;;
      cell <- cell_name "row cell name" (Z.of_nat ci + 1) (Z.of_nat ri + 2) ;;
      do "set row value" (SetCellValue sheet cell (inr val))) row) rows.

(** The tab of the [i]-th sheet: the first takes over the default one (a failed
    renaming is ignored), the others are made. *)
Definition make_tab (i : nat) (name : string) : io call unit :=
  match i with
  | O => if negb (String.eqb (default_tab x) name)
         then io_call (fun _ => None) id (SetSheetName (default_tab x) name) else io_ret tt
  | S _ => do "create sheet" (NewSheet name)
  end.

Definition write_sheet (opts : Options) (i : nat) (s : Sheet) : io call unit :=
  ask ;;
  make_tab i (resolveSheetName (Name s) (DefaultSheetName opts)) ;;
  writeXLSXHeaders (HeaderStyle opts) (resolveSheetName (Name s) (DefaultSheetName opts)) (Headers s) ;;
  writeXLSXRows (resolveSheetName (Name s) (DefaultSheetName opts)) (Rows s).

Definition writeXLSX (opts : Options) (sheets : list Sheet) : io call unit :=
  io_iter 0 (write_sheet opts) sheets ;; do "encode xlsx" WriteToBuffer.

(** ** Write *)

Fixpoint first_without_headers (i : nat) (sheets : list Sheet) : option nat :=
  match sheets with
  | [] => None
  | s :: sheets' => match Headers s with [] => Some i | _ => first_without_headers (S i) sheets' end
  end.

(** What the worker makes of the sheets [s0 :: more], CSV text or the calls of a
    workbook. *)
Definition worker (opts : Options) (format : string) (s0 : Sheet) (more : list Sheet)
  : result (string + list call) :=
  if String.eqb format FormatXLSX then
    match writeXLSX opts (s0 :: more) (0%nat, []) with
    | (Ok _, (_, calls)) => Ok (inr calls)
    | (Fail e, _) => Fail e
    end
  else
    match writeCSV ctx_Err s0 with Ok t => Ok (inl t) | Fail e => Fail e end.

(** [Write]; [ctx_done] is the context's error when [select] takes its branch. *)
Definition Write (opts : Options) (format : string) (sheets : list Sheet) (ctx_done : option error)
  : result (string + list call) :=
  match sheets with
  | [] => Fail (errors_New "spreadsheet: at least one sheet is required")
  | s0 :: more =>
      if negb (valid format) then Fail (errors_New "spreadsheet: unsupported format")
      else
        match first_without_headers 0 sheets with
        | Some _ => Fail (errors_New "spreadsheet: sheet has no headers")
        | None =>
            match ctx_done with
            | Some e => Fail e
            | None => worker opts format s0 more
            end
        end
  end.
End Writer.
Arguments Sheet V : clear implicits.
Arguments Options St : clear implicits.
Arguments call V St : clear implicits.
Arguments excelize V St : clear implicits.

(** ** Reading CSV back: the grammar of RFC 4180

    A field is plain, or quoted with its quotes doubled; a record ends with LF. *)
Inductive mode := AtStart | Plain | Quoted | QuoteSeen.

Section Reader.
Local Open Scope list_scope.

(** [f] is the field so far, [r] the record so far, [rs] the records so far. *)
Fixpoint csv_read (m : mode) (f : string) (r : list string) (rs : list (list string)) (s : string)
  : option (list (list string)) :=
  match s with
  | "" => match m, r with AtStart, [] => Some rs | _, _ => None end
  | String c s' =>
      match m with
      | Quoted => if Ascii.eqb c DQ then csv_read QuoteSeen f r rs s'
                  else csv_read Quoted (f +:+ String c "") r rs s'
      | _ =>
          if Ascii.eqb c "," then csv_read AtStart "" (r ++ [f]) rs s'
          else if Ascii.eqb c LF then csv_read AtStart "" [] (rs ++ [r ++ [f]]) s'
          else if Ascii.eqb c DQ then
            match m with
            | AtStart => csv_read Quoted f r rs s'
            | QuoteSeen => csv_read Quoted (f +:+ String c "") r rs s'
            | _ => None
            end
          else match m with
               | QuoteSeen => None
               | _ => csv_read Plain (f +:+ String c "") r rs s'
               end
      end
  end.
Definition csv_records (s : string) : option (list (list string)) := csv_read AtStart "" [] [] s.

(** A record of no fields is written as one empty field is. *)
Definition as_read (record : list string) : list string :=
  match record with [] => [""] | _ => record end.

Example csv_ex : csv_record ["a"; ""; "x,y"] = "a,," +:+ String DQ ("x,y" +:+ String DQ (String LF "")).
Proof. reflexivity. Qed.

(** The field is over: [d] is a comma or the end of the record. *)
Definition ends (d : ascii) : bool := Ascii.eqb d "," || Ascii.eqb d LF.

Lemma csv_read_end m f r rs d s : m <> Quoted -> ends d = true ->
  csv_read m f r rs (String d s) =
  if Ascii.eqb d "," then csv_read AtStart "" (r ++ [f]) rs s
  else csv_read AtStart "" [] (rs ++ [r ++ [f]]) s.
Proof.
  intros Hm Hd. unfold ends in Hd.
  destruct m; try done; cbn [csv_read]; destruct (Ascii.eqb d ","); simpl in Hd; by rewrite ?Hd.
Qed.

Lemma csv_read_plain m f r rs t s : m = AtStart \/ m = Plain -> has_special t = false ->
  exists m', (m' = AtStart \/ m' = Plain) /\
    csv_read m f r rs (t +:+ s) = csv_read m' (f +:+ t) r rs s.
Proof.
  revert m f. induction t as [|c t IH]; intros m f Hm Ht.
  - exists m. split; [done|]. by rewrite string_app_nil_r.
  - simpl in Ht. bool_to_prop.
    destruct (IH Plain (f +:+ String c "")) as (m' & Hm' & HIH); [by right|done|].
    exists m'. split; [done|]. rewrite string_app_cons. cbn [csv_read].
    rewrite <- string_app_assoc in HIH. change (String c "" +:+ t) with (String c t) in HIH.
    destruct Hm as [-> | ->]; repeat match goal with H : Ascii.eqb c _ = false |- _ => rewrite H; clear H end;
      exact HIH.
Qed.

Lemma csv_read_quoted f r rs t s :
  csv_read Quoted f r rs (double_quotes t +:+ s) = csv_read Quoted (f +:+ t) r rs s.
Proof.
  revert f. induction t as [|c t IH]; intros f; [by rewrite string_app_nil_r|].
  assert (Happ : (f +:+ String c "") +:+ t = f +:+ String c t) by (by rewrite <- string_app_assoc).
  simpl double_quotes. destruct (Ascii.eqb c DQ) eqn:Ec.
  - rewrite !string_app_cons. apply Ascii.eqb_eq in Ec. subst c.
    change (csv_read Quoted (f +:+ String DQ "") r rs (double_quotes t +:+ s)
            = csv_read Quoted (f +:+ String DQ t) r rs s).
    by rewrite IH, Happ.
  - rewrite string_app_cons. cbn [csv_read]. rewrite Ec. by rewrite IH, Happ.
Qed.

(** A field and its end are read back, quoted or not. *)
Lemma csv_read_field field r rs d s : ends d = true ->
  csv_read AtStart "" r rs (csv_field field +:+ String d s) =
  if Ascii.eqb d "," then csv_read AtStart "" (r ++ [field]) rs s
  else csv_read AtStart "" [] (rs ++ [r ++ [field]]) s.
Proof.
  intros Hd. unfold csv_field. destruct (fieldNeedsQuotes field) eqn:Eq.
  - rewrite string_app_cons, <- string_app_assoc.
    change (String DQ "" +:+ String d s) with (String DQ (String d s)).
    change (csv_read AtStart "" r rs (String DQ (double_quotes field +:+ String DQ (String d s))))
      with (csv_read Quoted "" r rs (double_quotes field +:+ String DQ (String d s))).
    rewrite csv_read_quoted, string_app_nil_l.
    change (csv_read Quoted field r rs (String DQ (String d s)))
      with (csv_read QuoteSeen field r rs (String d s)).
    by apply csv_read_end.
  - assert (has_special field = false) as Hs.
    { revert Eq. unfold fieldNeedsQuotes. destruct (string_eqb_spec field "") as [->|]; [done|].
      destruct (String.eqb field "\."); [done|]. intros H. bool_to_prop. done. }
    destruct (csv_read_plain AtStart "" r rs field (String d s)) as (m' & Hm' & ->);
      [by left|done|]. rewrite string_app_nil_l. apply csv_read_end; [|done]. by destruct Hm' as [-> | ->].
Qed.

Lemma csv_read_fields h t r rs s :
  csv_read AtStart "" r rs (Join (map csv_field (h :: t)) "," +:+ String LF s)
  = csv_read AtStart "" [] (rs ++ [r ++ h :: t]) s.
Proof.
  revert h r. induction t as [|h' t IH]; intros h r.
  - change (Join (map csv_field [h]) ",") with (csv_field h). by rewrite csv_read_field.
  - change (Join (map csv_field (h :: h' :: t)) ",")
      with (csv_field h +:+ String "," (Join (map csv_field (h' :: t)) ",")).
    rewrite <- string_app_assoc, string_app_cons, csv_read_field by done.
    change (Ascii.eqb "," ",") with true. cbn iota. by rewrite IH, <- app_assoc.
Qed.

Lemma csv_read_record record rs s :
  csv_read AtStart "" [] rs (csv_record record +:+ s)
  = csv_read AtStart "" [] (rs ++ [as_read record]) s.
Proof.
  unfold csv_record. rewrite <- string_app_assoc.
  change (String LF "" +:+ s) with (String LF s).
  destruct record as [|h t]; [done|]. apply csv_read_fields.
Qed.

(** What is written is read back. *)
Lemma csv_read_all records rs :
  csv_read AtStart "" [] rs (str_concat (map csv_record records))
  = Some (rs ++ map as_read records).
Proof.
  revert rs. induction records as [|record records IH]; intros rs.
  - by rewrite app_nil_r.
  - change (str_concat (map csv_record (record :: records)))
      with (csv_record record +:+ str_concat (map csv_record records)).
    by rewrite csv_read_record, IH, <- app_assoc.
Qed.
End Reader.

Section WriterFacts.
Context {V St : Type} (Sprint : V -> string).
Local Open Scope list_scope.

Lemma first_without_headers_None (i : nat) (sheets : list (Sheet V)) :
  first_without_headers i sheets = None <-> forall s, s ∈ sheets -> Headers s <> [].
Proof.
  revert i. induction sheets as [|s sheets IH]; intros i; simpl; [set_solver|].
  destruct (Headers s) as [|h hs] eqn:E.
  - split; [done|]. intros H. by destruct (H s ltac:(set_solver)).
  - rewrite IH. split; [|set_solver]. intros H s' [-> | Hs']%elem_of_cons; [by rewrite E|by apply H].
Qed.

Lemma writeCSV_live (ctx_Err : nat -> option error) (s : Sheet V) :
  (forall n, ctx_Err n = None) ->
  writeCSV Sprint ctx_Err s
  = Ok (str_concat (map csv_record (Headers s :: map (map Sprint) (Rows s)))).
Proof.
  intros Hctx. unfold writeCSV.
  assert (forall rows i n log, exists n',
    io_iter i (fun _ row => io_bind (io_ctx ctx_Err) (fun _ =>
        io_call (fun _ => None) id (csv_record (map Sprint row)))) rows (n, log)
    = (Ok tt, (n', log ++ map csv_record (map (map Sprint) rows)))) as H.
  { induction rows as [|row rows IH]; intros i n log; [exists n; by rewrite app_nil_r|].
    destruct (IH (S i) (S n) (log ++ [csv_record (map Sprint row)])) as [n' Hn'].
    exists n'. cbn [io_iter]. unfold io_bind at 1 2, io_ctx, io_call. cbn [fst snd].
    rewrite Hctx. cbn [fst snd]. etransitivity; [exact Hn'|]. by rewrite <- app_assoc. }
  destruct (H (Rows s) 0%nat 0%nat [csv_record (Headers s)]) as [n' ->]. done.
Qed.

(** [C34] The text of a CSV file gives its table back.  With a live context, the writer
    answers a text from which the grammar of RFC 4180 reads exactly the header
    row and the printed rows, whatever characters their fields have: commas,
    quotes and line breaks included (a row of no cells reads as one empty
    cell). *)
Theorem Write_csv_roundtrip (x : excelize V St) (ctx_Err : nat -> option error) (opts : Options St)
    (s : Sheet V) (more : list (Sheet V)) :
  (forall n, ctx_Err n = None) ->
  (forall s', s' ∈ s :: more -> Headers s' <> []) ->
  exists text,
    Write Sprint x ctx_Err opts FormatCSV (s :: more) None = Ok (inl text) /\
    csv_records text = Some (Headers s :: map (fun row => as_read (map Sprint row)) (Rows s)).
Proof.
  intros Hctx Hh. eexists. split.
  - unfold Write. change (negb (valid FormatCSV)) with false. cbn iota.
    rewrite (proj2 (first_without_headers_None 0 (s :: more)) Hh). unfold worker.
    change (String.eqb FormatCSV FormatXLSX) with false. cbn iota.
    by rewrite writeCSV_live.
  - unfold csv_records. rewrite csv_read_all. simpl. rewrite map_map.
    destruct (Headers s) eqn:E; [by destruct (Hh s ltac:(set_solver))|done].
Qed.
End WriterFacts.

(** ** The calls of a workbook *)

(** The limits of a sheet, those of excelize. *)
Definition MaxColumns : Z := 16384.
Definition TotalRows : Z := 1048576.
Definition on_sheet (c r : Z) : Prop := (1 <= c <= MaxColumns /\ 1 <= r <= TotalRows)%Z.

#[export] Instance on_sheet_dec (c r : Z) : Decision (on_sheet c r).
Proof. unfold on_sheet. apply _. Defined.

(** [CoordinatesToCellName] names the cells of a sheet, each by a name of its own. *)
Record names_ok {V St} (x : excelize V St) : Prop := {
  cell_named c r : on_sheet c r -> exists n, CoordinatesToCellName x c r = Ok n;
  cell_inj c r c' r' : on_sheet c r -> on_sheet c' r' ->
    CoordinatesToCellName x c r = CoordinatesToCellName x c' r' -> c = c' /\ r = r';
}.

Section Workbook.
Context {V St : Type} (x : excelize V St) (ctx_Err : nat -> option error).
Local Open Scope list_scope.

Definition cell (c r : Z) : string := cell_name_or_empty x c r.
Definition fits (s : Sheet V) : Prop :=
  (Z.of_nat (length (Headers s)) <= MaxColumns)%Z /\ (Z.of_nat (length (Rows s)) + 1 <= TotalRows)%Z /\
  forall row, row ∈ Rows s -> (Z.of_nat (length row) <= MaxColumns)%Z.

(** What is expected of the writer, call by call. *)
Fixpoint each {A} (i : nat) (f : nat -> A -> list (call V St)) (l : list A) : list (call V St) :=
  match l with [] => [] | a :: l' => f i a ++ each (S i) f l' end.
Definition header_cells (name : string) (headers : list string) : list (call V St) :=
  each 0 (fun col h => [SetCellValue name (cell (Z.of_nat col + 1) 1) (inl h)]) headers.
Definition row_cells (name : string) (ri : nat) (row : Row) : list (call V St) :=
  each 0 (fun ci v => [SetCellValue name (cell (Z.of_nat ci + 1) (Z.of_nat ri + 2)) (inr v)]) row.
Definition tab_calls (i : nat) (name : string) : list (call V St) :=
  match i with
  | O => if negb (String.eqb (default_tab x) name) then [SetSheetName (default_tab x) name] else []
  | S _ => [NewSheet name]
  end.
Definition tab_name (opts : Options St) (s : Sheet V) : string :=
  resolveSheetName (Name s) (DefaultSheetName opts).
Definition fill_calls (opts : Options St) (s : Sheet V) : list (call V St) :=
  (header_cells (tab_name opts s) (Headers s) ++
   [NewStyle (HeaderStyle opts);
    SetCellStyle (tab_name opts s) (cell 1 1) (cell (Z.of_nat (length (Headers s))) 1)]) ++
  each 0 (row_cells (tab_name opts s)) (Rows s).
Definition sheet_calls (opts : Options St) (i : nat) (s : Sheet V) : list (call V St) :=
  tab_calls i (tab_name opts s) ++ fill_calls opts s.
Definition book_calls (opts : Options St) (sheets : list (Sheet V)) : list (call V St) :=
  each 0 (sheet_calls opts) sheets ++ [WriteToBuffer].

(** Nothing is refused and the context is live. *)
Definition healthy : Prop := (forall n, ctx_Err n = None) /\ (forall c, verdict x c = None).

(** [m] makes the calls [calls] in order: all of them when it succeeds, those up
    to the failure when it fails, and it does not fail in a healthy environment. *)
Definition makes {A} (m : io (call V St) A) (calls : list (call V St)) : Prop :=
  forall n log, exists n' done,
    (m (n, log)).2 = (n', log ++ done) /\
    match (m (n, log)).1 with
    | Ok _ => done = calls
    | Fail _ => ~ healthy /\ exists rest, calls = done ++ rest
    end.

Lemma makes_ret {A} (a : A) : makes (io_ret a) [].
Proof. intros n log. exists n, []. simpl. by rewrite app_nil_r. Qed.

Lemma makes_ask : makes (ask ctx_Err) [].
Proof.
  intros n log. exists (S n), []. unfold ask, io_ctx. simpl. rewrite app_nil_r.
  destruct (ctx_Err n) eqn:E; simpl; [|done]. split; [done|]. split; [|by exists []].
  intros [H _]. congruence.
Qed.

Lemma makes_do (what : string) (c : call V St) : makes (do x what c) [c].
Proof.
  intros n log. exists n, [c]. unfold do, io_call. simpl.
  destruct (verdict x c) eqn:E; simpl; [|done]. split; [done|]. split; [|by exists []].
  intros [_ H]. congruence.
Qed.

Lemma makes_quiet (c : call V St) : makes (io_call (fun _ => None) id c) [c].
Proof. intros n log. by exists n, [c]. Qed.

Lemma makes_bind {A B} (m : io _ A) (f : A -> io _ B) calls calls' :
  makes m calls -> (forall a, makes (f a) calls') -> makes (io_bind m f) (calls ++ calls').
Proof.
  intros Hm Hf n log. destruct (Hm n log) as (n1 & d1 & Hst & Hr).
  unfold io_bind. destruct (m (n, log)) as [[a|e] st]; simpl in *; subst st.
  - subst d1. destruct (Hf a n1 (log ++ calls)) as (n2 & d2 & Hst2 & Hr2).
    exists n2, (calls ++ d2). rewrite Hst2, app_assoc. split; [done|].
    destruct ((f a (n1, log ++ calls)).1); [by subst|].
    destruct Hr2 as [? [rest ->]]. split; [done|]. exists rest. by rewrite app_assoc.
  - exists n1, d1. split; [done|]. destruct Hr as [? [rest ->]]. split; [done|].
    exists (rest ++ calls'). by rewrite app_assoc.
Qed.

Lemma makes_iter {A} (f : nat -> A -> io _ unit) (g : nat -> A -> list (call V St)) (l : list A) :
  forall i, (forall j a, l !! j = Some a -> makes (f (i + j)%nat a) (g (i + j)%nat a)) ->
  makes (io_iter i f l) (each i g l).
Proof.
  induction l as [|a l IH]; intros i H; [apply makes_ret|]. simpl. apply makes_bind.
  - specialize (H 0%nat a eq_refl). by rewrite Nat.add_0_r in H.
  - intros _. apply IH. intros j b Hj. specialize (H (S j) b Hj). by rewrite Nat.add_succ_r in H.
Qed.

Context (Hnames : names_ok x).

Lemma makes_cell {B} (what : string) (c r : Z) (f : string -> io _ B) (calls : list (call V St)) :
  on_sheet c r -> makes (f (cell c r)) calls -> makes (io_bind (cell_name x what c r) f) calls.
Proof.
  intros Hon Hf n log. destruct (cell_named x Hnames c r Hon) as [name E].
  unfold cell, cell_name_or_empty in Hf. rewrite E in Hf.
  unfold io_bind, cell_name, io_of. rewrite E. apply Hf.
Qed.

(** One cell: the context is asked, the cell named, the value set. *)
Lemma makes_value (w w' : string) (c r : Z) (name : string) (v : string + V) :
  on_sheet c r ->
  makes (io_bind (ask ctx_Err) (fun _ => io_bind (cell_name x w c r) (fun n => do x w' (SetCellValue name n v))))
    [SetCellValue (St := St) name (cell c r) v].
Proof.
  intros Hon. rewrite <- (app_nil_l [_]).
  apply makes_bind; [apply makes_ask|]. intros _. apply makes_cell; [done|]. apply makes_do.
Qed.

Lemma makes_headers (style : option St) (name : string) (headers : list string) :
  (Z.of_nat (length headers) <= MaxColumns)%Z ->
  makes (writeXLSXHeaders x ctx_Err style name headers)
    (header_cells name headers ++
     [NewStyle style; SetCellStyle name (cell 1 1) (cell (Z.of_nat (length headers)) 1)]).
Proof.
  intros Hlen. unfold writeXLSXHeaders. apply makes_bind.
  - apply makes_iter. intros j h Hj. apply lookup_lt_Some in Hj. apply makes_value.
    unfold on_sheet, TotalRows. lia.
  - intros _. change [?a; ?b] with ([a] ++ [b]). apply makes_bind; [apply makes_do|].
    intros _. apply makes_do.
Qed.

Lemma makes_rows (name : string) (rows : list Row) :
  (Z.of_nat (length rows) + 1 <= TotalRows)%Z ->
  (forall row, row ∈ rows -> (Z.of_nat (length row) <= MaxColumns)%Z) ->
  makes (writeXLSXRows x ctx_Err name rows) (each 0 (row_cells name) rows).
Proof.
  intros Hlen Hrow. unfold writeXLSXRows. apply makes_iter. intros i row Hi.
  assert (Hin : row ∈ rows) by (by eapply list_elem_of_lookup_2).
  apply lookup_lt_Some in Hi. apply makes_iter. intros j v Hj. apply lookup_lt_Some in Hj.
  specialize (Hrow row Hin). apply makes_value. unfold on_sheet. unfold Row in *. lia.
Qed.

Lemma makes_sheet (opts : Options St) (i : nat) (s : Sheet V) :
  fits s -> makes (write_sheet x ctx_Err opts i s) (sheet_calls opts i s).
Proof.
  intros (Hh & Hr & Hc). unfold write_sheet, sheet_calls, fill_calls.
  rewrite <- (app_nil_l (tab_calls _ _ ++ _)). apply makes_bind; [apply makes_ask|]. intros _.
  apply makes_bind.
  - destruct i as [|i]; simpl; [|apply makes_do].
    destruct (negb _); [apply makes_quiet|apply makes_ret].
  - intros _. apply makes_bind; [by apply makes_headers|]. intros _. by apply makes_rows.
Qed.

Lemma makes_book (opts : Options St) (sheets : list (Sheet V)) :
  (forall s, s ∈ sheets -> fits s) -> makes (writeXLSX x ctx_Err opts sheets) (book_calls opts sheets).
Proof.
  intros Hfit. unfold writeXLSX. apply makes_bind; [|intros _; apply makes_do].
  apply makes_iter. intros j s Hj. apply makes_sheet, Hfit. by eapply list_elem_of_lookup_2.
Qed.

(** ** The grid the calls make *)

(** What a list of calls sets under a sheet name and a cell name, the names taken as
    texts: a step of the proofs below. What the calls do to a workbook, where
    different names may be one tab's, is [wb_run]. *)
Fixpoint assigned (calls : list (call V St)) (name c : string) : option (string + V) :=
  match calls with
  | [] => None
  | k :: calls' =>
      match assigned calls' name c with
      | Some v => Some v
      | None => match k with
                | SetCellValue n' c' v => if String.eqb n' name && String.eqb c' c then Some v else None
                | _ => None
                end
      end
  end.

(** The table of a sheet: the headers on row 1, the rows below. *)
Definition table (s : Sheet V) (c r : Z) : option (string + V) :=
  if (r =? 1)%Z then inl <$> Headers s !! Z.to_nat (c - 1)
  else inr <$> (Rows s !! Z.to_nat (r - 2) ≫= fun row => row !! Z.to_nat (c - 1)).

Lemma assigned_app (a b : list (call V St)) (name c : string) :
  assigned (a ++ b) name c =
  match assigned b name c with Some v => Some v | None => assigned a name c end.
Proof.
  induction a as [|k a IH]; simpl; [by destruct (assigned b name c)|].
  rewrite IH. by destruct (assigned b name c).
Qed.

(** In a loop only the turn [j] writes to this cell. *)
Lemma assigned_each {A} (f : nat -> A -> list (call V St)) (l : list A) (name c : string) (j : nat) :
  forall i, (forall k a, l !! k = Some a -> (i + k)%nat <> j -> assigned (f (i + k)%nat a) name c = None) ->
  assigned (each i f l) name c =
  if bool_decide (i <= j)%nat then l !! (j - i)%nat ≫= fun a => assigned (f j a) name c else None.
Proof.
  induction l as [|a l IH]; intros i H; simpl; [by case_bool_decide|].
  rewrite assigned_app, (IH (S i)).
  2:{ intros k b Hk Hj. specialize (H (S k) b Hk). rewrite Nat.add_succ_r in H. by apply H. }
  pose proof (H 0%nat a eq_refl) as H0. rewrite Nat.add_0_r in H0.
  destruct (decide (i = j)) as [->|Hij].
  - rewrite bool_decide_false by lia. rewrite bool_decide_true by lia. by rewrite Nat.sub_diag.
  - rewrite H0 by done. destruct (decide (i <= j)%nat) as [Hle|Hle].
    + rewrite !bool_decide_true by lia. replace (j - i)%nat with (S (j - S i)) by lia. simpl.
      by destruct (l !! (j - S i)%nat ≫= _).
    + by rewrite !bool_decide_false by lia.
Qed.

Lemma assigned_value (name name' : string) (c r c' r' : Z) (v : string + V) :
  on_sheet c r -> on_sheet c' r' ->
  assigned [SetCellValue (St := St) name (cell c r) v] name' (cell c' r') =
  if bool_decide (name = name' /\ c = c' /\ r = r') then Some v else None.
Proof.
  intros Hon Hon'. simpl. rewrite !bool_decide_string_eqb.
  assert (Hcell : cell c r = cell c' r' <-> c = c' /\ r = r').
  { split; [|by intros [-> ->]]. intros H. apply (cell_inj x Hnames); [done..|].
    unfold cell, cell_name_or_empty in H.
    destruct (cell_named x Hnames c r Hon) as [a Ea], (cell_named x Hnames c' r' Hon') as [b Eb].
    rewrite Ea, Eb in *. by subst. }
  rewrite <- bool_decide_and. by rewrite (bool_decide_ext _ _ (and_iff_compat_l _ Hcell)).
Qed.

(** Two descriptions of a place are equivalent. *)
Local Ltac same_place := split; intros; destruct_and?; split_and?; done || lia.

Lemma assigned_headers (name name' : string) (headers : list string) (c r : Z) :
  (Z.of_nat (length headers) <= MaxColumns)%Z -> on_sheet c r ->
  assigned (header_cells name headers) name' (cell c r) =
  if bool_decide (name = name' /\ r = 1%Z) then inl <$> headers !! Z.to_nat (c - 1) else None.
Proof.
  intros Hlen Hon. unfold header_cells.
  assert (Hin : forall k h, headers !! k = Some h -> on_sheet (Z.of_nat k + 1) 1).
  { intros k h Hk%lookup_lt_Some. unfold on_sheet, TotalRows. lia. }
  rewrite (assigned_each _ _ _ _ (Z.to_nat (c - 1))).
  - rewrite bool_decide_true, Nat.sub_0_r by lia.
    destruct (headers !! _) as [h|] eqn:E; cbn [mbind option_bind]; [|by case_bool_decide].
    rewrite assigned_value by eauto. unfold on_sheet in Hon.
    rewrite (bool_decide_ext _ (name = name' /\ r = 1%Z)); [done|]. same_place.
  - intros k h Hk Hne. rewrite assigned_value by eauto.
    unfold on_sheet in Hon. rewrite bool_decide_false; [done|]. intros (_ & ? & _). lia.
Qed.

Lemma assigned_row (name name' : string) (ri : nat) (row : list V) (c r : Z) :
  (Z.of_nat (length row) <= MaxColumns)%Z -> (Z.of_nat ri + 2 <= TotalRows)%Z -> on_sheet c r ->
  assigned (row_cells name ri row) name' (cell c r) =
  if bool_decide (name = name' /\ r = (Z.of_nat ri + 2)%Z)
  then inr <$> row !! Z.to_nat (c - 1) else None.
Proof.
  intros Hlen Hri Hon. unfold row_cells.
  assert (Hin : forall k v, row !! k = Some v -> on_sheet (Z.of_nat k + 1) (Z.of_nat ri + 2)).
  { intros k v Hk%lookup_lt_Some. unfold on_sheet, Row in *. lia. }
  rewrite (assigned_each _ _ _ _ (Z.to_nat (c - 1))).
  - rewrite bool_decide_true, Nat.sub_0_r by lia.
    destruct (row !! _) as [v|] eqn:E; cbn [mbind option_bind]; [|by case_bool_decide].
    rewrite assigned_value by eauto. unfold on_sheet in Hon.
    rewrite (bool_decide_ext _ (name = name' /\ r = (Z.of_nat ri + 2)%Z)); [done|]. same_place.
  - intros k v Hk Hne. rewrite assigned_value by eauto.
    unfold on_sheet in Hon. rewrite bool_decide_false; [done|]. intros (_ & ? & _). lia.
Qed.

Lemma assigned_rows (s : Sheet V) (name name' : string) (c r : Z) :
  fits s -> on_sheet c r ->
  assigned (each 0 (row_cells name) (Rows s)) name' (cell c r) =
  if bool_decide (name = name' /\ (2 <= r)%Z) then table s c r else None.
Proof.
  intros (_ & Hlen & Hrow) Hon.
  assert (Hr : forall k row, Rows s !! k = Some row ->
    (Z.of_nat (length row) <= MaxColumns)%Z /\ (Z.of_nat k + 2 <= TotalRows)%Z).
  { intros k row Hk. split; [apply Hrow; by eapply list_elem_of_lookup_2|].
    apply lookup_lt_Some in Hk. unfold Row in *. lia. }
  destruct (decide (2 <= r)%Z) as [Hge|Hlt].
  - rewrite (assigned_each _ _ _ _ (Z.to_nat (r - 2))).
    + rewrite bool_decide_true, Nat.sub_0_r by lia. unfold table.
      rewrite (proj2 (Z.eqb_neq r 1)) by lia.
      destruct (Rows s !! Z.to_nat (r - 2)) as [row|] eqn:E; cbn [mbind option_bind]; [|by case_bool_decide].
      destruct (Hr _ _ E). rewrite assigned_row by done.
      rewrite (bool_decide_ext _ (name = name' /\ (2 <= r)%Z)); [done|]. same_place.
    + intros k row Hk Hne. destruct (Hr _ _ Hk). rewrite assigned_row by done.
      rewrite bool_decide_false; [done|]. intros [_ ?]. lia.
  - rewrite (bool_decide_false (_ /\ _)) by (intros [_ ?]; lia).
    rewrite (assigned_each _ _ _ _ (length (Rows s))).
    + rewrite bool_decide_true, Nat.sub_0_r by lia. by rewrite lookup_ge_None_2.
    + intros k row Hk _. destruct (Hr _ _ Hk). rewrite assigned_row by done.
      rewrite bool_decide_false; [done|]. intros [_ ?]. lia.
Qed.

Lemma assigned_fill (opts : Options St) (s : Sheet V) (c r : Z) :
  fits s -> on_sheet c r -> assigned (fill_calls opts s) (tab_name opts s) (cell c r) = table s c r.
Proof.
  intros Hfit Hon. unfold fill_calls. rewrite !assigned_app.
  rewrite assigned_rows, assigned_headers by (done || apply Hfit). cbn [assigned].
  unfold on_sheet in Hon. destruct (decide (r = 1%Z)) as [->|Hr].
  - rewrite bool_decide_false by (intros [_ ?]; lia). rewrite bool_decide_true by done. unfold table. simpl.
    by destruct (Headers s !! _).
  - rewrite bool_decide_true by (split; [done|lia]).
    rewrite bool_decide_false by (by intros [_ ?]). by destruct (table s c r).
Qed.

(** A call that fills the tab [name]. *)
Definition fills (name : string) (k : call V St) : Prop :=
  match k with
  | SetCellValue n c' _ => n = name /\ exists c r, on_sheet c r /\ c' = cell c r
  | NewStyle _ | SetCellStyle _ _ _ => True
  | _ => False
  end.

Lemma Forall_each {A} (P : call V St -> Prop) (f : nat -> A -> list (call V St)) (l : list A) : forall i,
  (forall k a, l !! k = Some a -> Forall P (f (i + k)%nat a)) -> Forall P (each i f l).
Proof.
  induction l as [|a l IH]; intros i H; [constructor|]. cbn [each]. apply Forall_app. split.
  - specialize (H 0%nat a eq_refl). by rewrite Nat.add_0_r in H.
  - apply IH. intros k b Hk. specialize (H (S k) b Hk). by rewrite Nat.add_succ_r in H.
Qed.

Lemma fill_calls_fill (opts : Options St) (s : Sheet V) :
  fits s -> Forall (fills (tab_name opts s)) (fill_calls opts s).
Proof.
  intros (Hh & Hr & Hc). unfold fill_calls. rewrite !Forall_app. split_and!.
  - apply Forall_each. intros k h Hk%lookup_lt_Some. constructor; [|constructor]. split; [done|].
    eexists _, _. split; [|done]. unfold on_sheet, TotalRows. lia.
  - by repeat constructor.
  - apply Forall_each. intros i row Hi. assert (Hin : row ∈ Rows s) by by eapply list_elem_of_lookup_2.
    apply lookup_lt_Some in Hi. apply Forall_each. intros j v Hj%lookup_lt_Some. specialize (Hc row Hin).
    constructor; [|constructor]. split; [done|]. eexists _, _. split; [|done].
    unfold on_sheet, Row in *. lia.
Qed.

(** ** Workbooks

    What excelize documents of a file in memory, as the operations of a workbook
    and their laws. Which names are one tab's is a relation of its own: excelize
    does not tell names apart by case. *)
Record workbook (B : Type) := mkWorkbook {
  wb_new : B;
  wb_apply : B -> call V St -> B;
  wb_tab : B -> string -> bool;
  wb_value : B -> string -> string -> option (string + V);
}.
Arguments wb_new {B}. Arguments wb_apply {B}. Arguments wb_tab {B}. Arguments wb_value {B}.

Record WorkbookOk {B} (w : workbook B) (same_tab : string -> string -> bool) : Prop := {
  tab_refl n : same_tab n n = true;
  tab_sym n m : same_tab n m = same_tab m n;
  new_tab n : wb_tab w (wb_new w) n = same_tab (default_tab x) n;
  new_value n c : wb_value w (wb_new w) n c = None;
  (* a value goes into a cell of a tab that is there *)
  set_tab b s c v n : wb_tab w (wb_apply w b (SetCellValue s c v)) n = wb_tab w b n;
  set_value b s v n c r c' r' :
    wb_tab w b s = true -> on_sheet c r -> on_sheet c' r' ->
    wb_value w (wb_apply w b (SetCellValue s (cell c r) v)) n (cell c' r')
    = if same_tab s n && bool_decide (c = c' /\ r = r') then Some v else wb_value w b n (cell c' r');
  (* a new tab, or the one that has the name already *)
  sheet_tab b s n : wb_tab w (wb_apply w b (NewSheet s)) n = wb_tab w b n || same_tab s n;
  sheet_value b s n c : wb_value w (wb_apply w b (NewSheet s)) n c = wb_value w b n c;
  (* a tab takes another name with what it holds *)
  rename_tab b old new n :
    wb_tab w b old = true -> (wb_tab w b new = true -> same_tab old new = true) ->
    wb_tab w (wb_apply w b (SetSheetName old new)) n
    = same_tab new n || (wb_tab w b n && negb (same_tab old n));
  rename_value b old new n c :
    wb_tab w b old = true -> (wb_tab w b new = true -> same_tab old new = true) ->
    wb_value w (wb_apply w b (SetSheetName old new)) n c
    = if same_tab new n then wb_value w b old c
      else if same_tab old n then None else wb_value w b n c;
  (* styles and the encoding leave tabs and values as they are *)
  other_tab b k n :
    match k with NewStyle _ | SetCellStyle _ _ _ | WriteToBuffer => True | _ => False end ->
    wb_tab w (wb_apply w b k) n = wb_tab w b n;
  other_value b k n c :
    match k with NewStyle _ | SetCellStyle _ _ _ | WriteToBuffer => True | _ => False end ->
    wb_value w (wb_apply w b k) n c = wb_value w b n c;
}.

(** No two names of a list are one tab's. *)
Fixpoint apart (same_tab : string -> string -> bool) (names : list string) : Prop :=
  match names with
  | [] => True
  | n :: names' => Forall (fun m => same_tab n m = false) names' /\ apart same_tab names'
  end.

Section Filling.
Context {B : Type} (w : workbook B) (same_tab : string -> string -> bool) (Hw : WorkbookOk w same_tab).
Definition wb_run (b : B) (calls : list (call V St)) : B := fold_left (wb_apply w) calls b.

Lemma same_cell (c r c' r' : Z) : on_sheet c r -> on_sheet c' r' ->
  String.eqb (cell c r) (cell c' r') = bool_decide (c = c' /\ r = r').
Proof.
  intros Hon Hon'. rewrite bool_decide_string_eqb. apply bool_decide_ext. split; [|by intros [-> ->]].
  intros H. apply (cell_inj x Hnames); [done..|]. unfold cell, cell_name_or_empty in H.
  destruct (cell_named x Hnames c r Hon) as [a Ea], (cell_named x Hnames c' r' Hon') as [d Ed].
  rewrite Ea, Ed in *. by subst.
Qed.

(** Calls that fill a tab that is there. *)
Lemma run_fill (name : string) (cs : list (call V St)) : forall b,
  Forall (fills name) cs -> wb_tab w b name = true ->
  (forall n, wb_tab w (wb_run b cs) n = wb_tab w b n)
  /\ forall n c r, on_sheet c r ->
       wb_value w (wb_run b cs) n (cell c r)
       = match (if same_tab name n then assigned cs name (cell c r) else None) with
         | Some v => Some v
         | None => wb_value w b n (cell c r)
         end.
Proof.
  induction cs as [|k cs IH]; intros b Hf Hb; [split; [done|]; intros; by destruct (same_tab name n)|].
  apply Forall_cons in Hf as [Hk Hf]. cbn [wb_run fold_left].
  assert (Htab : forall n, wb_tab w (wb_apply w b k) n = wb_tab w b n).
  { intros n. destruct k; try done; [apply (set_tab _ _ Hw)|by apply (other_tab _ _ Hw)..]. }
  destruct (IH (wb_apply w b k) Hf) as [Ht Hv]; [by rewrite Htab|]. split.
  { intros n. rewrite <- (Htab n). apply Ht. }
  intros n c r Hon. etransitivity; [by apply Hv|]. cbn [assigned].
  destruct (same_tab name n) eqn:En; [destruct (assigned cs name (cell c r)); [done|]|].
  - destruct k as [|?|s c' v|?|? ? ?|]; try done; [|by rewrite (other_value _ _ Hw)..].
    destruct Hk as (-> & c0 & r0 & Hon0 & ->). rewrite (set_value _ _ Hw) by done.
    rewrite En, String.eqb_refl, same_cell by done. by destruct (bool_decide _).
  - destruct k as [|?|s c' v|?|? ? ?|]; try done; [|by rewrite (other_value _ _ Hw)..].
    destruct Hk as (-> & c0 & r0 & Hon0 & ->). rewrite (set_value _ _ Hw) by done. by rewrite En.
Qed.

(** One sheet after the first, whose tab is made. *)
Lemma run_sheet (opts : Options St) (i : nat) (s : Sheet V) (b : B) :
  fits s ->
  let b' := wb_run b (sheet_calls opts (S i) s) in
  (forall n, wb_tab w b n = true -> wb_tab w b' n = true) /\ wb_tab w b' (tab_name opts s) = true
  /\ forall n c r, on_sheet c r ->
       wb_value w b' n (cell c r)
       = match (if same_tab (tab_name opts s) n then table s c r else None) with
         | Some v => Some v
         | None => wb_value w b n (cell c r)
         end.
Proof.
  intros Hfit. unfold sheet_calls, wb_run. rewrite fold_left_app. cbn [tab_calls fold_left].
  set (b1 := wb_apply w b _).
  assert (H1 : forall n, wb_tab w b1 n = wb_tab w b n || same_tab (tab_name opts s) n)
    by (intros; apply (sheet_tab _ _ Hw)).
  assert (Hb1 : wb_tab w b1 (tab_name opts s) = true) by (rewrite H1, (tab_refl _ _ Hw); apply orb_true_r).
  destruct (run_fill (tab_name opts s) (fill_calls opts s) b1 (fill_calls_fill opts s Hfit) Hb1) as [Ht Hv].
  unfold wb_run in Ht, Hv. split_and!.
  - intros n Hn. by rewrite Ht, H1, Hn.
  - by rewrite Ht.
  - intros n c r Hon. rewrite Hv by done. rewrite assigned_fill by done.
    unfold b1. by rewrite (sheet_value _ _ Hw).
Qed.

(** The sheets after the first. *)
Lemma run_sheets (opts : Options St) (sheets : list (Sheet V)) : forall i b,
  (forall s, s ∈ sheets -> fits s) -> apart same_tab (map (tab_name opts) sheets) ->
  let b' := wb_run b (each (S i) (sheet_calls opts) sheets) in
  (forall n, wb_tab w b n = true -> wb_tab w b' n = true)
  /\ (forall n c r, on_sheet c r -> Forall (fun m => same_tab n m = false) (map (tab_name opts) sheets) ->
       wb_value w b' n (cell c r) = wb_value w b n (cell c r))
  /\ forall s, s ∈ sheets -> wb_tab w b' (tab_name opts s) = true
       /\ forall c r, on_sheet c r -> wb_value w b (tab_name opts s) (cell c r) = None ->
            wb_value w b' (tab_name opts s) (cell c r) = table s c r.
Proof.
  induction sheets as [|s sheets IH]; intros i b Hfit Hap; [split_and!; [done|done|]; by intros s []%elem_of_nil|].
  destruct Hap as [Hs Hap]. cbn [each]. unfold wb_run. rewrite fold_left_app.
  destruct (run_sheet opts i s b) as (Ht1 & Hs1 & Hv1); [by apply Hfit; left|]. unfold wb_run in *.
  set (b1 := fold_left _ (sheet_calls opts (S i) s) b) in *.
  destruct (IH (S i) b1) as (Ht & Hv & Hall); [intros s' Hin; apply Hfit; by right|exact Hap|].
  split_and!.
  - intros n Hn. by apply Ht, Ht1.
  - intros n c r Hon [Hn Hrest]%Forall_cons. rewrite Hv by done. rewrite Hv1 by done.
    by rewrite (tab_sym _ _ Hw), Hn.
  - intros s' [->|Hin]%elem_of_cons.
    + split; [by apply Ht|]. intros c r Hon Hnone. rewrite Hv by done. rewrite Hv1 by done.
      rewrite (tab_refl _ _ Hw), Hnone. by destruct (table s c r).
    + destruct (Hall s' Hin) as [Htab Hval]. split; [done|]. intros c r Hon Hnone. apply Hval; [done|].
      rewrite Hv1 by done. assert (Hne : same_tab (tab_name opts s) (tab_name opts s') = false).
      { rewrite Forall_forall in Hs. apply Hs, list_elem_of_fmap. by exists s'. }
      by rewrite Hne.
Qed.

(** With names of their own, the sheets of a workbook hold their tables. *)
Lemma run_book (opts : Options St) (s0 : Sheet V) (more : list (Sheet V)) (s : Sheet V) (c r : Z) :
  (forall s', s' ∈ s0 :: more -> fits s') -> apart same_tab (map (tab_name opts) (s0 :: more)) ->
  s ∈ s0 :: more -> on_sheet c r ->
  let b := wb_run (wb_new w) (book_calls opts (s0 :: more)) in
  wb_tab w b (tab_name opts s) = true /\ wb_value w b (tab_name opts s) (cell c r) = table s c r.
Proof.
  intros Hfit [Hs0 Hap] Hin Hon. unfold book_calls, wb_run. rewrite !fold_left_app. cbn [each fold_left].
  rewrite (other_tab _ _ Hw), (other_value _ _ Hw) by done. rewrite !fold_left_app. unfold sheet_calls at 2 4.
  rewrite !fold_left_app. set (b0 := fold_left _ (tab_calls 0 _) _).
  assert (Hb0 : wb_tab w b0 (tab_name opts s0) = true /\ forall n c, wb_value w b0 n c = None).
  { unfold b0, tab_calls. destruct (string_eqb_spec (default_tab x) (tab_name opts s0)) as [Heq|Hne]; cbn [negb fold_left].
    - rewrite (new_tab _ _ Hw), Heq. split; [apply (tab_refl _ _ Hw)|apply (new_value _ _ Hw)].
    - assert (Hdef : wb_tab w (wb_new w) (default_tab x) = true) by (rewrite (new_tab _ _ Hw); apply (tab_refl _ _ Hw)).
      assert (Hnew : wb_tab w (wb_new w) (tab_name opts s0) = true -> same_tab (default_tab x) (tab_name opts s0) = true)
        by (by rewrite (new_tab _ _ Hw)).
      split; [by rewrite (rename_tab _ _ Hw), (tab_refl _ _ Hw)|].
      intros n c0. rewrite (rename_value _ _ Hw) by done. rewrite !(new_value _ _ Hw).
      by repeat destruct (same_tab _ _). }
  destruct Hb0 as [Ht0 Hn0]. clearbody b0.
  destruct (run_fill (tab_name opts s0) (fill_calls opts s0) b0) as [Ht1 Hv1];
    [apply fill_calls_fill, Hfit; by left|done|]. unfold wb_run in *.
  set (b1 := fold_left _ (fill_calls opts s0) b0) in *.
  destruct (run_sheets opts more 0 b1) as (Ht & Hv & Hall); [intros s' H'; apply Hfit; by right|exact Hap|].
  unfold wb_run in *. apply elem_of_cons in Hin as [->|Hin].
  - split; [apply Ht; by rewrite Ht1|]. rewrite Hv by done. rewrite Hv1 by done.
    rewrite (tab_refl _ _ Hw), assigned_fill, Hn0; [by destruct (table s0 c r)|apply Hfit; by left|done].
  - destruct (Hall s Hin) as [Htab Hval]. split; [done|]. apply Hval; [done|]. rewrite Hv1 by done.
    assert (Hne : same_tab (tab_name opts s0) (tab_name opts s) = false).
    { rewrite Forall_forall in Hs0. apply Hs0, list_elem_of_fmap. by exists s. }
    by rewrite Hne, Hn0.
Qed.
End Filling.
End Workbook.

Section WriteXLSX.
Context {V St : Type} (Sprint : V -> string) (x : excelize V St) (ctx_Err : nat -> option error).
Local Open Scope list_scope.

(** [C35] A workbook holds the tables of its sheets, each on its own tab.  When excelize
    refuses nothing, the context is live, the sheets fit excelize's limits and no
    two of their resolved names are one tab's for excelize, [Write] answers the
    workbook made by exactly the calls [book_calls]; and in any workbook that keeps
    the laws excelize documents, the tab of each sheet is there after them, and
    every cell of it holds what the sheet's table has there: the headers on row 1,
    row [i] of the data on row [i+2], and nothing anywhere else. *)
Theorem Write_xlsx_grid {B : Type} (w : workbook (V := V) (St := St) B) (same_tab : string -> string -> bool)
    (opts : Options St) (s0 : Sheet V) (more : list (Sheet V)) :
  names_ok x -> healthy x ctx_Err -> WorkbookOk x w same_tab ->
  (forall s, s ∈ s0 :: more -> Headers s <> [] /\ fits s) ->
  apart same_tab (map (tab_name opts) (s0 :: more)) ->
  exists calls,
    Write Sprint x ctx_Err opts FormatXLSX (s0 :: more) None = Ok (inr calls) /\
    calls = book_calls x opts (s0 :: more) /\
    forall s c r, s ∈ s0 :: more -> on_sheet c r ->
      wb_tab _ w (wb_run w (wb_new _ w) calls) (tab_name opts s) = true
      /\ wb_value _ w (wb_run w (wb_new _ w) calls) (tab_name opts s) (cell x c r) = table s c r.
Proof.
  intros Hn Hh Hw Hs Hap. exists (book_calls x opts (s0 :: more)). split_and!; [|done|].
  - unfold Write. change (negb (valid FormatXLSX)) with false. cbn iota.
    rewrite (proj2 (first_without_headers_None 0 (s0 :: more)) (fun s H => proj1 (Hs s H))).
    unfold worker. change (String.eqb FormatXLSX FormatXLSX) with true. cbn iota.
    destruct (makes_book x ctx_Err Hn opts (s0 :: more) (fun s H => proj2 (Hs s H)) 0%nat [])
      as (n' & d & Hst & Hr).
    destruct (writeXLSX x ctx_Err opts (s0 :: more) (0%nat, [])) as [[[]|e] st]; simpl in *; [by subst|].
    by destruct Hr.
  - intros s c r Hin Hon. eapply run_book; [done|exact Hw| |done..]. intros s' H. by apply Hs.
Qed.

(** A failed call ends the work.  Whatever excelize refuses and whenever the
    context ends, the calls [writeXLSX] makes are a prefix of [book_calls]: all of
    them when it succeeds, and when it fails none after the failure, in an
    environment that did refuse something. *)
Theorem writeXLSX_prefix (opts : Options St) (sheets : list (Sheet V)) :
  names_ok x -> (forall s, s ∈ sheets -> fits s) ->
  match writeXLSX x ctx_Err opts sheets (0%nat, []) with
  | (Ok _, (_, calls)) => calls = book_calls x opts sheets
  | (Fail _, (_, calls)) => ~ healthy x ctx_Err /\ exists rest, book_calls x opts sheets = calls ++ rest
  end.
Proof.
  intros Hn Hfit. destruct (makes_book x ctx_Err Hn opts sheets Hfit 0%nat []) as (n' & d & Hst & Hr).
  destruct (writeXLSX x ctx_Err opts sheets (0%nat, [])) as [[a|e] st]; simpl in *; subst st; done.
Qed.
End WriteXLSX.

(** An excelize of [string] cells that refuses nothing, the cells named by number. *)
Definition numbered : excelize string unit := mkExcelize
  (fun c r => if bool_decide (on_sheet c r) then Ok (pretty (Z.pos (encode (c, r)))) else Fail (errors_New "excelize: invalid"))
  (fun _ => None) "Sheet1".

Lemma numbered_names_ok : names_ok numbered.
Proof.
  split; unfold numbered; simpl.
  - intros c r H. rewrite bool_decide_true by done. by eexists.
  - intros c r c' r' H H'. rewrite !bool_decide_true by done. intros E.
    injection E as E. apply (inj pretty) in E. injection E as E. apply (inj encode) in E. by simplify_eq.
Qed.

(** A workbook for evaluation: its tabs, and its cells, by names of which case is
    ignored. *)
Definition book : Type := (string -> bool) * (string -> string -> option (string + string)).
Definition plain_book : workbook (V := string) (St := unit) book := mkWorkbook book
  (EqualFold "Sheet1", fun _ _ => None)
  (fun b k =>
     match k with
     | SetCellValue s c v =>
         (b.1, fun n c' => if b.1 s && EqualFold s n && String.eqb c c' then Some v else b.2 n c')
     | NewSheet s => ((fun n => b.1 n || EqualFold s n), b.2)
     | SetSheetName old new =>
         ((fun n => EqualFold new n || (b.1 n && negb (EqualFold old n))),
          fun n c => if EqualFold new n then b.2 old c else if EqualFold old n then None else b.2 n c)
     | _ => b
     end)
  (fun b n => b.1 n) (fun b n c => b.2 n c).

Lemma plain_book_ok : WorkbookOk numbered plain_book EqualFold.
Proof.
  split; try done.
  - intros n. by apply bool_decide_eq_true.
  - intros n m. unfold EqualFold. by apply bool_decide_ext.
  - intros b s v n c r c' r' Hs Hon Hon'. cbn in Hs |- *. rewrite Hs.
    by rewrite (same_cell numbered numbered_names_ok).
  - intros b k n Hk. by destruct k.
  - intros b k n c Hk. by destruct k.
Qed.

(** A small table with a comma, a quote and a line break in its cells. *)
Definition sample : Sheet string :=
  mkSheet " data " ["name"; "note"] [["Ann"; "a, b"]; [String DQ (String LF "x"); ""]; []].

Lemma Write_csv_roundtrip_witness :
  exists text,
    Write id numbered (fun _ => None) (mkOptions "Sheet1" (Some tt)) FormatCSV [sample] None = Ok (inl text) /\
    csv_records text = Some [["name"; "note"]; ["Ann"; "a, b"]; [String DQ (String LF "x"); ""]; [""]].
Proof.
  apply (Write_csv_roundtrip id numbered (fun _ => None) (mkOptions "Sheet1" (Some tt)) sample []).
  - done.
  - intros s' ->%list_elem_of_singleton. done.
Defined.

Lemma Write_xlsx_grid_witness :
  exists calls,
    Write id numbered (fun _ => None) (mkOptions "Sheet1" (Some tt)) FormatXLSX
      [sample; mkSheet "" ["h"] []] None = Ok (inr calls) /\
    let b := wb_run plain_book (wb_new _ plain_book) calls in
    b.1 "data" = true /\ b.2 "data" (cell numbered 2 2) = Some (inr "a, b") /\
    b.2 "Sheet1" (cell numbered 1 1) = Some (inl "h") /\
    b.2 "Sheet1" (cell numbered 1 2) = None.
Proof.
  assert (Hd : tab_name (mkOptions "Sheet1" (Some tt)) sample = "data") by (by vm_compute).
  assert (Hs : tab_name (mkOptions "Sheet1" (Some tt)) (mkSheet (V := string) "" ["h"] []) = "Sheet1")
    by (by vm_compute).
  assert (on_sheet 2 2 /\ on_sheet 1 1 /\ on_sheet 1 2) as (On22 & On11 & On12) by done.
  destruct (Write_xlsx_grid id numbered (fun _ => None) plain_book EqualFold (mkOptions "Sheet1" (Some tt)) sample
    [mkSheet "" ["h"] []]) as (calls & HW & _ & Hgrid).
  - apply numbered_names_ok.
  - done.
  - apply plain_book_ok.
  - intros s H. repeat (apply elem_of_cons in H as [->|H]); [..|by apply elem_of_nil in H].
    + split; [done|]. split_and!; [done..|]. intros row Hrow. simpl in Hrow.
      repeat (apply elem_of_cons in Hrow as [->|Hrow]); [done..|by apply elem_of_nil in Hrow].
    + split; [done|]. split_and!; [done..|]. intros row Hrow. by apply elem_of_nil in Hrow.
  - change (apart EqualFold ["data"; "Sheet1"]). by repeat constructor.
  - destruct (Hgrid sample 2%Z 2%Z ltac:(left) On22) as [Ht H1].
    destruct (Hgrid (mkSheet "" ["h"] []) 1%Z 1%Z ltac:(right; left) On11) as [_ H2].
    destruct (Hgrid (mkSheet "" ["h"] []) 1%Z 2%Z ltac:(right; left) On12) as [_ H3].
    rewrite Hd in Ht, H1. rewrite Hs in H2, H3. clear Hd Hs Hgrid. cbn [wb_tab wb_value plain_book] in *.
    exists calls. split; [exact HW|]. cbv zeta. rewrite Ht, H1, H2, H3. clear. by vm_compute.
Defined.

Lemma writeXLSX_prefix_witness :
  match writeXLSX numbered (fun n => if Nat.ltb n 2 then None else Some (errors_New "context canceled"))
    (mkOptions "Sheet1" (Some tt)) [sample] (0%nat, []) with
  | (Ok _, (_, calls)) => calls = book_calls numbered (mkOptions "Sheet1" (Some tt)) [sample]
  | (Fail _, (_, calls)) =>
      ~ healthy numbered (fun n => if Nat.ltb n 2 then None else Some (errors_New "context canceled")) /\
      exists rest, book_calls numbered (mkOptions "Sheet1" (Some tt)) [sample] = (calls ++ rest)%list
  end.
Proof.
  apply (writeXLSX_prefix numbered).
  - apply numbered_names_ok.
  - intros s ->%list_elem_of_singleton. split_and!; [done..|]. intros row Hrow. simpl in Hrow.
    repeat (apply elem_of_cons in Hrow as [->|Hrow]); [done..|by apply elem_of_nil in Hrow].
Defined.

(** Two sheets whose trimmed names agree, or differ only in case, go to one tab:
    the second header row is written over the first, and the rows of the first
    stay under it. *)
Lemma same_name_merges :
  Forall (fun second =>
    match Write id numbered (fun _ => None) (mkOptions "Sheet1" (Some tt)) FormatXLSX
      [mkSheet "data" ["first"] [["1"]]; mkSheet second ["second"] []] None with
    | Ok (inr calls) =>
        let b := wb_run plain_book (wb_new _ plain_book) calls in
        b.2 "data" (cell numbered 1 1) = Some (inl "second") /\
        b.2 "data" (cell numbered 1 2) = Some (inr "1")
    | _ => False
    end) [" data "; "Data"].
Proof. repeat constructor; vm_compute; reflexivity. Qed.
