(* ===== verification/Temporal.v ===== *)
(** * Package temporal: dialling and activity options

    temporal/client.go and options.go. The options share retry policies by
    pointer, so the policies live in a heap: [WithMaximumAttempts] writes through
    the pointer that the options hold at that moment. *)
From S2P Require Import Prelude GoNum GoText.
Local Open Scope string_scope.
Local Open Scope Z_scope.

(** ** Dialling *)

Definition ErrEmptyHost := errors_New "temporal.ErrEmptyHost".
Definition ErrEmptyNamespace := errors_New "temporal.ErrEmptyNamespace".

(** [net.JoinHostPort]: a host with a colon is an IPv6 literal, and bracketed. *)
Definition JoinHostPort (host port : string) : string :=
  if Contains host ":" then "[" +:+ host +:+ "]:" +:+ port else host +:+ ":" +:+ port.

Record ClientOptions := mkClientOptions { HostPort : string; Namespace : string }.

(** [NewClient]; [Dial] is the SDK's. *)
Definition NewClient {client : Type} (Dial : ClientOptions -> result client)
    (namespace host : string) (port : Z) : result client :=
  if String.eqb host "" then Fail ErrEmptyHost
  else if String.eqb namespace "" then Fail ErrEmptyNamespace
  else Dial (mkClientOptions (JoinHostPort host (Itoa port)) namespace).

(** ** Activity options *)

Definition defaultMaxAttempts : Z := 3.
Definition defaultInitialInterval : Z := 5 * Second.
Definition defaultMaximumInterval : Z := 60 * Second.
Definition defaultBackoffCoefficient : float64 := float_of_int 2.
Definition defaultStartToClose : Z := 3600 * Second.

Record RetryPolicy := mkRetryPolicy {
  InitialInterval : Z; BackoffCoefficient : float64; MaximumInterval : Z; MaximumAttempts : Z;
}.

(** A retry policy is shared by its address; [None] is the nil pointer. *)
Notation loc := nat.
Notation heap := (gmap loc RetryPolicy).

Record ActivityOptions := mkActivityOptions {
  TaskQueue : string;
  StartToCloseTimeout : Z;
  ScheduleToCloseTimeout : Z;
  Policy : option loc;
}.

(** An option changes the options, and may write to the heap; no result is a panic. *)
Definition ActivityOption : Type := heap * ActivityOptions -> option (heap * ActivityOptions).

Definition WithTaskQueue (taskQueue : string) : ActivityOption := fun '(h, o) =>
  Some (h, mkActivityOptions taskQueue (StartToCloseTimeout o) (ScheduleToCloseTimeout o) (Policy o)).
Definition WithStartToCloseTimeout (d : Z) : ActivityOption := fun '(h, o) =>
  Some (h, mkActivityOptions (TaskQueue o) d (ScheduleToCloseTimeout o) (Policy o)).
Definition WithScheduleToCloseTimeout (d : Z) : ActivityOption := fun '(h, o) =>
  Some (h, mkActivityOptions (TaskQueue o) (StartToCloseTimeout o) d (Policy o)).
Definition with_attempts (n : Z) (p : RetryPolicy) : RetryPolicy :=
  mkRetryPolicy (InitialInterval p) (BackoffCoefficient p) (MaximumInterval p) n.
(** [o.RetryPolicy.MaximumAttempts = n]: a panic on nil. *)
Definition WithMaximumAttempts (n : Z) : ActivityOption := fun '(h, o) =>
  match Policy o with
  | None => None
  | Some l => match h !! l with
              | None => None
              | Some p => Some (<[l := with_attempts n p]> h, o)
              end
  end.
Definition WithRetryPolicy (p : option loc) : ActivityOption := fun '(h, o) =>
  Some (h, mkActivityOptions (TaskQueue o) (StartToCloseTimeout o) (ScheduleToCloseTimeout o) p).

Definition default_policy : RetryPolicy :=
  mkRetryPolicy defaultInitialInterval defaultBackoffCoefficient defaultMaximumInterval defaultMaxAttempts.

Fixpoint apply_options (opts : list ActivityOption) (st : heap * ActivityOptions)
  : option (heap * ActivityOptions) :=
  match opts with
  | [] => Some st
  | opt :: opts' => match opt st with Some st' => apply_options opts' st' | None => None end
  end.

(** [DefaultActivityOpts]: the policy is allocated at every call. *)
Definition DefaultActivityOpts (h : heap) (opts : list ActivityOption) : option (heap * ActivityOptions) :=
  apply_options opts
    (<[fresh (dom h) := default_policy]> h,
     mkActivityOptions "" defaultStartToClose 0 (Some (fresh (dom h)))).

(** ** The options as data *)

Inductive setting :=
| SetQueue (q : string)
| SetStartToClose (d : Z)
| SetScheduleToClose (d : Z)
| SetAttempts (n : Z)
| SetPolicy (p : option loc).
Definition to_option (s : setting) : ActivityOption :=
  match s with
  | SetQueue q => WithTaskQueue q
  | SetStartToClose d => WithStartToCloseTimeout d
  | SetScheduleToClose d => WithScheduleToCloseTimeout d
  | SetAttempts n => WithMaximumAttempts n
  | SetPolicy p => WithRetryPolicy p
  end.

(** The last setting of a kind, or the default. *)
Definition last_of {A} (f : setting -> option A) (d : A) (ss : list setting) : A :=
  foldl (fun acc s => default acc (f s)) d ss.
Definition queue_of (s : setting) := match s with SetQueue q => Some q | _ => None end.
Definition start_of (s : setting) := match s with SetStartToClose d => Some d | _ => None end.
Definition schedule_of (s : setting) := match s with SetScheduleToClose d => Some d | _ => None end.
Definition policy_of (s : setting) := match s with SetPolicy p => Some p | _ => None end.
(** The attempts set since the policy was last replaced. *)
Definition attempts_since (acc : option Z) (s : setting) : option Z :=
  match s with SetAttempts n => Some n | SetPolicy _ => None | _ => acc end.
Definition attempts (ss : list setting) : option Z := foldl attempts_since None ss.

(** ** Theorems *)

(** No setting follows a nil policy that writes through it. *)
Fixpoint writable (nil_now : bool) (ss : list setting) : bool :=
  match ss with
  | [] => true
  | SetAttempts _ :: ss' => negb nil_now && writable nil_now ss'
  | SetPolicy p :: ss' => writable (bool_decide (p = None)) ss'
  | _ :: ss' => writable nil_now ss'
  end.

(** Every policy a setting names is in the heap. *)
Definition known (h : heap) (ss : list setting) : Prop :=
  forall l, SetPolicy (Some l) ∈ ss -> is_Some (h !! l).

Lemma apply_ind (P : list setting -> heap * ActivityOptions -> heap * ActivityOptions -> Prop) :
  (forall st, P [] st st) ->
  (forall s ss st st1 st2, to_option s st = Some st1 -> P ss st1 st2 -> P (s :: ss) st st2) ->
  forall ss st st', apply_options (map to_option ss) st = Some st' -> P ss st st'.
Proof.
  intros Hnil Hcons. induction ss as [|s ss IH]; intros st st'; simpl.
  - by intros [= ->].
  - destruct (to_option s st) as [st1|] eqn:E; [|done]. intros H. eauto.
Qed.

(** One setting. *)
Lemma step_fields (s : setting) (st st' : heap * ActivityOptions) : to_option s st = Some st' ->
  TaskQueue st'.2 = default (TaskQueue st.2) (queue_of s) /\
  StartToCloseTimeout st'.2 = default (StartToCloseTimeout st.2) (start_of s) /\
  ScheduleToCloseTimeout st'.2 = default (ScheduleToCloseTimeout st.2) (schedule_of s) /\
  Policy st'.2 = default (Policy st.2) (policy_of s).
Proof. destruct st as [h o], s; simpl; intros H; repeat case_match; by simplify_eq. Qed.

(** Only the policy held at that moment is written, and no policy appears or
    disappears. *)
Lemma step_frame (s : setting) (st st' : heap * ActivityOptions) (l : loc) : to_option s st = Some st' ->
  Policy st.2 <> Some l -> st'.1 !! l = st.1 !! l.
Proof.
  destruct st as [h o], s; simpl; intros H Hne; repeat case_match; simplify_eq/=; [done..| |done].
  rewrite lookup_insert_ne; [done|congruence].
Qed.

(** [acc] is what the current policy's attempts are known to be. *)
Definition attempts_are (acc : option Z) (st : heap * ActivityOptions) : Prop :=
  forall n l, acc = Some n -> Policy st.2 = Some l -> MaximumAttempts <$> st.1 !! l = Some n.

Lemma step_attempts (s : setting) (st st' : heap * ActivityOptions) (acc : option Z) :
  to_option s st = Some st' -> attempts_are acc st -> attempts_are (attempts_since acc s) st'.
Proof.
  destruct st as [h o], s as [?|?|?|n|?]; simpl; intros H Hacc; repeat case_match; simplify_eq/=; try done.
  intros n' l' [= <-] Hl. simpl in *. simplify_eq. by rewrite lookup_insert_eq.
Qed.

Lemma run_fields (ss : list setting) (st st' : heap * ActivityOptions) :
  apply_options (map to_option ss) st = Some st' ->
  TaskQueue st'.2 = last_of queue_of (TaskQueue st.2) ss /\
  StartToCloseTimeout st'.2 = last_of start_of (StartToCloseTimeout st.2) ss /\
  ScheduleToCloseTimeout st'.2 = last_of schedule_of (ScheduleToCloseTimeout st.2) ss /\
  Policy st'.2 = last_of policy_of (Policy st.2) ss.
Proof.
  revert ss st st'. apply apply_ind; [done|]. intros s ss st st1 st2 (E1 & E2 & E3 & E4)%step_fields.
  unfold last_of. cbn [foldl]. by rewrite E1, E2, E3, E4.
Qed.

Lemma run_frame (ss : list setting) (st st' : heap * ActivityOptions) :
  apply_options (map to_option ss) st = Some st' ->
  forall l, Policy st.2 <> Some l -> SetPolicy (Some l) ∉ ss -> st'.1 !! l = st.1 !! l.
Proof.
  revert ss st st'. apply (apply_ind (fun ss st st' => forall l, Policy st.2 <> Some l ->
    SetPolicy (Some l) ∉ ss -> st'.1 !! l = st.1 !! l)); [done|].
  intros s ss st st1 st2 H IH l Hne Hin. apply not_elem_of_cons in Hin as [Hs Hin].
  rewrite IH; [by eapply step_frame| |done].
  apply step_fields in H as (_ & _ & _ & ->). destruct s; simpl; congruence.
Qed.

Lemma run_attempts (ss : list setting) (st st' : heap * ActivityOptions) :
  apply_options (map to_option ss) st = Some st' ->
  forall acc, attempts_are acc st -> attempts_are (foldl attempts_since acc ss) st'.
Proof.
  revert ss st st'. apply (apply_ind (fun ss st st' => forall acc, attempts_are acc st ->
    attempts_are (foldl attempts_since acc ss) st')); [done|].
  intros s ss st st1 st2 H IH acc Hacc. simpl. eauto using step_attempts.
Qed.

(** The run panics exactly at a write through nil. *)
Lemma run_panics (ss : list setting) : forall st : heap * ActivityOptions,
  (forall l, Policy st.2 = Some l -> is_Some (st.1 !! l)) -> known st.1 ss ->
  is_Some (apply_options (map to_option ss) st) <-> writable (bool_decide (Policy st.2 = None)) ss = true.
Proof.
  induction ss as [|s ss IH]; intros [h o] Hpol Hk; [by split; [|eexists]|].
  assert (Hk' : known h ss) by (intros l Hl; apply Hk; by right).
  destruct s as [q|d|d|n|p]; simpl in *; [exact (IH (_, mkActivityOptions _ _ _ _) Hpol Hk')..| |].
  - destruct (Policy o) as [l|] eqn:El; simpl; [|by split; [intros []|]].
    destruct (Hpol l eq_refl) as [rp Erp]. rewrite Erp. rewrite (IH (_, o)); simpl; [by rewrite El|..].
    + intros l' Hl'. rewrite El in Hl'. simplify_eq. by rewrite lookup_insert_eq.
    + intros l' Hl'. destruct (decide (l = l')) as [->|]; [by rewrite lookup_insert_eq|].
      rewrite lookup_insert_ne by done. by apply Hk'.
  - rewrite (IH (h, _)); simpl; [done| |done]. intros l ->. apply Hk. by left.
Qed.

(** Every call makes options of its own.  For any settings that name policies of
    the heap, the call panics exactly when one of them sets the attempts of a nil
    policy; otherwise each field is the last setting's, or the default; the
    attempts of the policy are those set since it was last replaced; and no
    policy of the caller is written, unless a setting hands it over. *)
Theorem DefaultActivityOpts_spec (h : heap) (ss : list setting) :
  known h ss ->
  match DefaultActivityOpts h (map to_option ss) with
  | None => writable false ss = false
  | Some (h', o) =>
      writable false ss = true /\
      TaskQueue o = last_of queue_of "" ss /\
      StartToCloseTimeout o = last_of start_of defaultStartToClose ss /\
      ScheduleToCloseTimeout o = last_of schedule_of 0 ss /\
      Policy o = last_of policy_of (Some (fresh (dom h))) ss /\
      (forall n l, attempts ss = Some n -> Policy o = Some l -> MaximumAttempts <$> h' !! l = Some n) /\
      (forall l p, h !! l = Some p -> SetPolicy (Some l) ∉ ss -> h' !! l = Some p)
  end.
Proof.
  intros Hk. unfold DefaultActivityOpts.
  set (f := fresh (dom h)). set (st := (<[f:=default_policy]> h, mkActivityOptions "" defaultStartToClose 0 (Some f))).
  assert (Hf : h !! f = None) by (apply not_elem_of_dom, is_fresh).
  assert (Hp : is_Some (apply_options (map to_option ss) st) <-> writable false ss = true).
  { apply (run_panics ss st).
    - intros l [= <-]. simpl. by rewrite lookup_insert_eq.
    - intros l Hl. destruct (Hk l Hl) as [p Hp]. simpl.
      rewrite lookup_insert_ne by congruence. eauto. }
  destruct (apply_options (map to_option ss) st) as [[h' o]|] eqn:E.
  - destruct (run_fields _ _ _ E) as (H1 & H2 & H3 & H4). split_and!; try done; [by apply Hp| |].
    + intros n l. by apply (run_attempts _ _ _ E None).
    + intros l p Hl Hin. change h' with (h', o).1. rewrite (run_frame _ _ _ E l); [|simpl; congruence|done].
      simpl. by rewrite lookup_insert_ne by congruence.
  - destruct (writable false ss); [|done]. destruct (proj2 Hp eq_refl). done.
Qed.

Lemma DefaultActivityOpts_spec_witness :
  match DefaultActivityOpts {[ 7%nat := default_policy ]}
          (map to_option [SetAttempts 9; SetPolicy (Some 7%nat); SetQueue "audit"; SetAttempts 5]) with
  | None => False
  | Some (h', o) => TaskQueue o = "audit" /\ Policy o = Some 7%nat /\ MaximumAttempts <$> h' !! 7%nat = Some 5
  end.
Proof.
  assert (Hk : known {[ 7%nat := default_policy ]}
      [SetAttempts 9; SetPolicy (Some 7%nat); SetQueue "audit"; SetAttempts 5]).
  { intros l Hl. assert (l = 7%nat) as -> by set_solver. by eexists. }
  assert (H := DefaultActivityOpts_spec {[ 7%nat := default_policy ]}
    [SetAttempts 9; SetPolicy (Some 7%nat); SetQueue "audit"; SetAttempts 5] Hk).
  destruct (DefaultActivityOpts _ _) as [[h' o]|]; [|discriminate H].
  destruct H as (_ & H1 & _ & _ & H4 & H5 & _). split; [exact H1|]. split; [exact H4|].
  exact (H5 5 7%nat eq_refl H4).
Defined.

(** A policy handed to two calls is one policy: the attempts that the second call
    asks for are then those of the first. *)
Lemma shared_policy_is_written (h : heap) (l : loc) (p : RetryPolicy) : h !! l = Some p ->
  exists h1 o1 h2 o2,
    DefaultActivityOpts h [WithRetryPolicy (Some l)] = Some (h1, o1) /\
    DefaultActivityOpts h1 [WithRetryPolicy (Some l); WithMaximumAttempts 1] = Some (h2, o2) /\
    Policy o1 = Some l /\ h1 !! l = Some p /\ h2 !! l = Some (with_attempts 1 p).
Proof.
  intros Hl. assert (Hfresh : forall h : heap, h !! l = Some p -> fresh (dom h) <> l).
  { intros h0 H0 E. assert (H := is_fresh (dom h0)). rewrite E in H. apply not_elem_of_dom in H. congruence. }
  set (h1 := <[fresh (dom h):=default_policy]> h).
  assert (H1 : h1 !! l = Some p) by (unfold h1; rewrite lookup_insert_ne; auto).
  set (h2 := <[l:=with_attempts 1 p]> (<[fresh (dom h1):=default_policy]> h1)).
  exists h1, (mkActivityOptions "" defaultStartToClose 0 (Some l)), h2,
    (mkActivityOptions "" defaultStartToClose 0 (Some l)).
  split_and!; [done| |done|done|by unfold h2; rewrite lookup_insert_eq].
  unfold DefaultActivityOpts. simpl. rewrite lookup_insert_ne by auto. by rewrite H1.
Qed.

(** [NewClient] dials nothing without a host and a namespace, and otherwise
    exactly the server asked for. *)
Lemma NewClient_spec {client : Type} (Dial : ClientOptions -> result client) (namespace host : string) (port : Z) :
  NewClient Dial namespace host port =
  match host, namespace with
  | "", _ => Fail ErrEmptyHost
  | _, "" => Fail ErrEmptyNamespace
  | _, _ => Dial (mkClientOptions (JoinHostPort host (Itoa port)) namespace)
  end.
Proof. unfold NewClient. by destruct host, namespace. Qed.
