(* ===== verification/Telemetry.v ===== *)
(** * Package telemetry: set-up and shutdown

    telemetry/telemetry.go, trace.go, metrics.go, collector.go. OpenTelemetry and
    Prometheus are seen through the calls made on them: the model gives the calls
    of [New] in their order, and those of the shutdown function it returns. *)
From S2P Require Import Prelude GoNum GoText.
Local Open Scope string_scope.

(** ** Calls *)

Inductive event :=
| OtlpNew (endpoint : option string)
| ResourceNew (service : string)
| NewTracerProvider
| PrometheusNew
| NewMeterProvider
| SetTracerProvider
| SetMeterProvider
| SetTextMapPropagator
| RegisterMetrics (i : nat)
| Start (i : nat)
| ListenAndServe (addr : string)
| ServerShutdown
| MeterShutdown
| TracerShutdown.

#[export] Instance event_eq_dec : EqDecision event.
Proof. solve_decision. Defined.

(** What the libraries answer. *)
Record sdk := mkSdk {
  otlp_err : option error;
  resource_err : option error;
  prometheus_err : option error;
}.

(** A collector, or the nil interface; what its [RegisterMetrics] answers. *)
Record Collector := mkCollector { register_err : option error }.
Record Config := mkConfig {
  ServiceName : string;
  OTLPEndpoint : string;
  MetricsPort : Z;
  Collectors : list (option Collector);
}.

Section Setup.
Context (env : sdk).

(** trace.go: the exporter, the resource, the provider. *)
Definition newTracerProvider (cfg : Config) : list event * result unit :=
  let dial := OtlpNew (if String.eqb (OTLPEndpoint cfg) "" then None else Some (OTLPEndpoint cfg)) in
  match otlp_err env with
  | Some e => ([dial], Fail (Error "otlp trace exporter" [e]))
  | None =>
      match resource_err env with
      | Some e => ([dial; ResourceNew (ServiceName cfg)], Fail (Error "otel resource" [e]))
      | None => ([dial; ResourceNew (ServiceName cfg); NewTracerProvider], Ok tt)
      end
  end.

(** metrics.go. *)
Definition newMeterProvider : list event * result unit :=
  match prometheus_err env with
  | Some e => ([PrometheusNew], Fail e)
  | None => ([PrometheusNew; NewMeterProvider], Ok tt)
  end.

(** The loop over the collectors: a nil one and one that fails are skipped. *)
Fixpoint start_collectors (i : nat) (cs : list (option Collector)) : list event :=
  match cs with
  | [] => []
  | None :: cs' => start_collectors (S i) cs'
  | Some c :: cs' =>
      match register_err c with
      | Some _ => RegisterMetrics i :: start_collectors (S i) cs'
      | None => RegisterMetrics i :: Start i :: start_collectors (S i) cs'
      end
  end.

Definition shutdown : list event := [ServerShutdown; MeterShutdown; TracerShutdown].
Definition noop : list event := [].

(** [New]: the calls made, those of the function returned, the error. *)
Definition New (cfg : Config) : list event * list event * option error :=
  match newTracerProvider cfg with
  | (ev, Fail e) => (ev, noop, Some (Error "telemetry: tracer provider" [e]))
  | (ev, Ok _) =>
      match newMeterProvider with
      | (ev', Fail e) => ((ev ++ ev' ++ [TracerShutdown])%list, noop, Some (Error "telemetry: meter provider" [e]))
      | (ev', Ok _) =>
          ((ev ++ ev' ++ [SetTracerProvider; SetMeterProvider; SetTextMapPropagator]
               ++ start_collectors 0 (Collectors cfg)
               ++ [ListenAndServe (":" +:+ Itoa (MetricsPort cfg))])%list, shutdown, None)
      end
  end.

(** ** Theorems *)







Lemma start_collectors_calls (cs : list (option Collector)) (i : nat) (e : event) :
  e ∈ start_collectors i cs -> (exists j, e = RegisterMetrics j) \/ exists j, e = Start j.
Proof.
  revert i. induction cs as [|[c|] cs IH]; intros i; simpl; [set_solver| |apply IH].
  destruct (register_err c); rewrite ?elem_of_cons; intros He; destruct_or?; subst; eauto.
Qed.



(** When the resource cannot be made, the exporter dialled before is left open. *)
Lemma resource_fails_leaves_exporter (cfg : Config) (e : error) :
  otlp_err env = None -> resource_err env = Some e ->
  exists endpoint, (New cfg).1 = ([OtlpNew endpoint; ResourceNew (ServiceName cfg)], noop).
Proof.
  intros H1 H2. unfold New, newTracerProvider. rewrite H1, H2. by eexists.
Qed.
End Setup.
