(* ===== verification/Logger.v ===== *)
(** * Packages logger and logger/zerolog

    The console formatter (formatter.go, helper.go), the levels and the
    constructor (zerolog.go) and the wrapper with its call families (logger.go).
    zerolog is known by what is asked of it: a record of a level, fields and a
    message. The colours of fatih/color, the title casing of x/text, the layout of
    times and the Unicode tables are arguments; the two regular expressions are
    matchers written out. The package logger/zerolog is an earlier copy of
    logger: its Module at the end repeats what differs. *)
From S2P Require Import Prelude GoNum GoText GoFmt.
From Stdlib Require Import Ascii.
Local Open Scope string_scope.

(** ** Data *)

(** The dynamic values a formatter is given; [AOther] is known by its [%v]. *)
Inductive any :=
| AStr (s : string)
| AInt (z : Z)
| AFloat (f : float64)
| ABool (b : bool)
| ANil
| AError (msg : string)
| AOther (printed : string).

Inductive attr := FgHiCyan | Italic | FgHiMagenta | FgWhite | FgHiYellow | FgCyan | FgHiWhite
| FgHiRed | Bold | FgHiBlack | FgHiBlue | FgHiGreen | BgRed | BlinkSlow.

Definition timestampColor := [FgHiCyan; Italic].
Definition callerColor := [FgHiMagenta].
Definition messageColor := [FgWhite].
Definition fieldKeyColor := [FgHiYellow].
Definition fieldValColor := [FgCyan].
Definition errStyle := [FgHiRed; Bold].
Definition boldStyle := [Bold].

Definition maxMessageSize : nat := 65.
Definition maxFileSize : nat := 25.
Definition maxLineSize : nat := 4.

Record Config := mkConfig {
  Level_ : string; DateTimeLayout : string; Colored : bool; JSONFormat : bool; UseEmoji : bool;
}.

(** [logLevels]: the names of zerolog, a text and a colour for each. *)
Definition logLevels (name : string) : option (string * list attr) :=
  if String.eqb name "trace" then Some ("TRAC", [FgHiBlack; Bold])
  else if String.eqb name "debug" then Some ("DEBG", [FgHiBlue; Bold])
  else if String.eqb name "info" then Some ("INFO", [FgHiGreen; Bold])
  else if String.eqb name "warn" then Some ("WARN", [FgHiYellow; Bold])
  else if String.eqb name "error" then Some ("ERRO", [FgHiRed; Bold])
  else if String.eqb name "fatal" then Some ("FATL", [FgHiRed; Bold])
  else if String.eqb name "panic" then Some ("PANC", [FgWhite; BgRed; Bold; BlinkSlow])
  else None.

(** ** The regular expressions *)

(** [^([^\[]+)\[(.+)\]$]: what is before the first bracket, and what is between it
    and a bracket that ends the text. *)
Definition bracket_match (s : string) : option (string * string) :=
  match Cut s "[" with
  | Some (a, rest) =>
      match str_rev rest "" with
      | String "]" r =>
          let b := str_rev r "" in
          if negb (String.eqb a "") && negb (String.eqb b "") && negb (Contains b (String LF ""))
          then Some (a, b) else None
      | _ => None
      end
  | None => None
  end.

(** [(\S+?)=([^\n]+?)(?:, |$)]: the shortest value that a comma and a space, or
    the end, follows; the shortest key before it. *)
Definition re_space (c : ascii) : bool :=
  existsb (Z.eqb (byte_val c)) [9; 10; 12; 13; 32]%Z.
Fixpoint value_match (acc s : string) : option (string * string) :=
  match s with
  | "" => if String.eqb acc "" then None else Some (acc, "")
  | String c s' =>
      if negb (String.eqb acc "") && HasPrefix s ", " then Some (acc, str_drop 2 s)
      else if Ascii.eqb c LF then None else value_match (acc +:+ String c "") s'
  end.
Fixpoint key_match (acc s : string) : option (string * string * string) :=
  match s with
  | "" => None
  | String c s' =>
      match (if negb (String.eqb acc "") && Ascii.eqb c "=" then value_match "" s' else None) with
      | Some (v, rest) => Some (acc, v, rest)
      | None => if re_space c then None else key_match (acc +:+ String c "") s'
      end
  end.
(** [FindAllStringSubmatch]: from left to right; every turn takes a byte. *)
Fixpoint find_go (fuel : nat) (s : string) : list (string * string) :=
  match fuel, s with
  | S fuel', String _ s' =>
      match key_match "" s with
      | Some (k, v, rest) => (k, v) :: find_go fuel' rest
      | None => find_go fuel' s'
      end
  | _, _ => []
  end.
Definition key_values (s : string) : list (string * string) := find_go (String.length s) s.

Example key_values_ex :
  key_values "id=7, note=a=b, c, path=/x y" = [("id", "7"); ("note", "a=b"); ("path", "/x y")].
Proof. vm_compute. reflexivity. Qed.
Example bracket_ex : bracket_match "query [id=7]" = Some ("query ", "id=7").
Proof. vm_compute. reflexivity. Qed.

(** ** formatter.go *)

Section Formatter.
(** [paint] is a colour's [Sprint]; [title] the caser, [lower] [strings.ToLower];
    [reformat] parses an RFC 3339 time and lays it out; [fmt_g] is [%v] of a
    float. *)
Context (paint : list attr -> string -> string) (title lower : string -> string)
  (reformat : string -> string -> option string) (fmt_g : float64 -> string) (IsPrint : Z -> bool).

(** [%v] *)
Definition Sprintv (i : any) : string :=
  match i with
  | AStr s => s
  | AInt z => Itoa z
  | AFloat f => fmt_g f
  | ABool b => if b then "true" else "false"
  | ANil => "<nil>"
  | AError msg => msg
  | AOther p => p
  end.

Definition formatUnknownLevel (config : Config) : string :=
  paint [FgHiWhite] (" " +:+ (if UseEmoji config then "❓ " else "") +:+ "UNKN ").

Definition formatLevel (config : Config) (i : any) : string :=
  match i with
  | AStr levelStr =>
      match logLevels levelStr with
      | Some (text, color) => paint color (" " +:+ text +:+ " ")
      | None => formatUnknownLevel config
      end
  | _ => formatUnknownLevel config
  end.

Definition formatMultilineMessage (msg : string) : string :=
  Join (map (fun line => paint messageColor ("│ " +:+ line)) (Split msg LF)) (String LF "").

Definition formatMessage (i : any) : string :=
  match i with
  | AStr msg =>
      if String.eqb msg "" then paint messageColor "│ (empty message)"
      else if Contains msg (String LF "") then formatMultilineMessage msg
      else
        let msg := if Nat.ltb maxMessageSize (String.length msg) then str_take maxMessageSize msg
                   else pad_right maxMessageSize msg in
        paint messageColor ("│ " +:+ msg)
  | _ => paint messageColor "│ (empty message)"
  end.

Definition formatFileName (name : string) : string :=
  let file := TrimSuffix name ".go" in
  if Nat.ltb maxFileSize (String.length file) then str_take maxFileSize file
  else pad_right maxFileSize file.

Definition formatLineNumber (line : string) : string :=
  if Nat.ltb maxLineSize (String.length line) then str_drop (String.length line - maxLineSize) line
  else pad_zeros maxLineSize line.

Definition formatCaller (i : any) : string :=
  match i with
  | AStr fname =>
      if String.eqb fname "" then ""
      else
        let caller := path_Base fname in
        match Split caller ":" with
        | [p0; p1] => paint callerColor ("┤ " +:+ formatFileName p0 +:+ ":" +:+ formatLineNumber p1 +:+ " ├")
        | _ => paint callerColor ("┤ " +:+ caller +:+ " ├")
        end
  | _ => ""
  end.

Definition formatTimestamp (config : Config) (i : any) : string :=
  match i with
  | AStr strTime =>
      match reformat (DateTimeLayout config) strTime with
      | Some formatted => paint timestampColor ("[ " +:+ formatted +:+ " ]")
      | None => paint timestampColor ("[ " +:+ strTime +:+ " ]")
      end
  | _ => paint timestampColor ("[ " +:+ Sprintv i +:+ " ]")
  end.

Definition formatFieldName (i : any) : string :=
  match i with AStr name => paint fieldKeyColor name | _ => Sprintv i end.

Definition quoted_chars : string := " " +:+ String (ascii_of_nat 9) (String LF (String (ascii_of_nat 13) (String DQ "'"))).
Definition formatFieldValue (i : any) : string :=
  match i with
  | AStr v => if ContainsAny v quoted_chars then "=" +:+ paint fieldValColor (Quote IsPrint v)
              else "=" +:+ paint fieldValColor v
  | AInt z => paint fieldValColor ("=" +:+ Itoa z)
  | AFloat f => paint fieldValColor ("=" +:+ Fixed2 f)
  | ABool b => "=" +:+ (if b then paint [FgHiGreen] "true" else paint [FgHiRed] "false")
  | ANil => "=" +:+ paint [FgHiBlack] "null"
  | _ => paint fieldValColor ("=" +:+ Sprintv i)
  end.

(** ** The error tree (helper.go and formatter.go) *)

Definition extractErrorString (i : any) : string :=
  match i with AError msg => msg | AStr s => s | _ => "" end.

(** One key with its value, which may have several lines. *)
Definition key_value_lines (prefix : string) (last : bool) (k v : string) : string :=
  let key := title (lower (replace_byte "_" " " (TrimSpace k))) in
  str_concat (imap (fun j line =>
      let symbol := match j with O => if last then "└──" else "├──" | S _ => "│   " end in
      String LF "" +:+ prefix +:+ paint errStyle symbol +:+ " " +:+ paint boldStyle key +:+ ": " +:+ paint errStyle line)
    (Split (TrimSpace v) LF)).
Definition writeKeyValueTree (kvStr prefix : string) : string :=
  let matches := key_values kvStr in
  str_concat (imap (fun i kv =>
    key_value_lines prefix (Nat.eqb i (length matches - 1)) kv.1 kv.2) matches).

Definition writeErrorTree (part prefix : string) (isLast : bool) : string :=
  let treeSymbol := if isLast then "└──" else "├──" in
  let nextPrefix := prefix +:+ (if isLast then "    " else "│   ") in
  let part := Trim part DQ in
  let node text := String LF "" +:+ paint errStyle prefix +:+ paint errStyle treeSymbol +:+ " " +:+ paint errStyle text in
  match bracket_match part with
  | Some (m1, m2) => node (TrimSpace m1) +:+ writeKeyValueTree m2 nextPrefix
  | None =>
      match SplitN2 part ": " with
      | [s0; errorDetails] =>
          node (TrimSpace s0) +:+
          match SplitN2 errorDetails ": " with
          | [d0; d1] =>
              String LF "" +:+ nextPrefix +:+ paint errStyle "├──" +:+ " " +:+ paint boldStyle "Cause:" +:+ " "
                +:+ paint errStyle (TrimSpace d0) +:+
              String LF "" +:+ nextPrefix +:+ paint errStyle "└──" +:+ " " +:+ paint boldStyle "Error:" +:+ " "
                +:+ paint errStyle (TrimSpace d1)
          | _ => String LF "" +:+ nextPrefix +:+ paint errStyle "└──" +:+ " " +:+ paint errStyle errorDetails
          end
      | _ => node part
      end
  end.

Definition formatError (i : any) : string :=
  let errStr := extractErrorString i in
  if String.eqb errStr "" then ""
  else
    let parts := SplitS errStr "]: " in
    let n := length parts in
    str_concat (imap (fun idx part =>
      let part := TrimSpace part in
      let part := if Nat.ltb idx (n - 1) then part +:+ "]" else part in
      writeErrorTree part "" (Nat.eqb idx (n - 1))) parts).
End Formatter.

(** With no colours. *)
Definition bare (_ : list attr) (s : string) : string := s.
Example formatError_ex :
  formatError bare id id (AError "load user [id=7, user_name=ann]: connection refused")
  = String LF "├── load user" +:+ String LF "│   ├── id: 7" +:+ String LF "│   └── user name: ann"
    +:+ String LF "└── connection refused".
Proof. vm_compute. reflexivity. Qed.
Example formatCaller_ex : formatCaller bare (AStr "/src/app/main.go:42") = "┤ main                     :0042 ├".
Proof. vm_compute. reflexivity. Qed.

(** ** helper.go: the writers *)

(** zerolog's [ConsoleWriter]; [Formatter] is set when the six functions of
    formatter.go are plugged in, with the configuration they read. *)
Record ConsoleWriter := mkConsoleWriter {
  NoColor : bool; TimeFormat : string; PartsOrder : list string; FieldsExclude : list string;
  Formatter : option Config;
}.
Definition parts_order := ["time"; "level"; "caller"; "message"].
Definition createJSONLogger (config : Config) : ConsoleWriter :=
  mkConsoleWriter (negb (Colored config)) (DateTimeLayout config) parts_order ["caller"] None.
Definition createConsoleLogger (config : Config) : ConsoleWriter :=
  mkConsoleWriter (negb (Colored config)) (DateTimeLayout config) parts_order []
    (if Colored config then Some config else None).

(** ** zerolog.go and logger.go *)

Inductive Level := DebugLevel | InfoLevel | WarnLevel | ErrorLevel | FatalLevel | PanicLevel | NoLevel.

(** What reaches zerolog: a level, the fields of the logger and of the event, a
    message, and the frames to skip for the caller. *)
Record event := mkEvent { ev_level : Level; ev_fields : list (string * any); ev_msg : string; ev_skip : Z }.

(** A [zerolog.Logger]: its writer, its fields, the frames it skips. *)
Record logger := mkLogger { writer : ConsoleWriter; context : list (string * any); skip : Z }.
Definition emit (l : logger) (level : Level) (fields : list (string * any)) (msg : string) : event :=
  mkEvent level (context l ++ fields)%list msg (skip l).
Definition with_fields (l : logger) (fields : list (string * any)) : logger :=
  mkLogger (writer l) (context l ++ fields)%list (skip l).
Definition with_skip (l : logger) (n : Z) : logger := mkLogger (writer l) (context l) n.

(** The wrapper [Zerolog]; a [Logger] holds one. *)
Record Zerolog := mkZerolog { zl : logger; config : option Config }.

Definition ErrInvalidLogLevel := errors_New "logger.ErrInvalidLogLevel".
Definition errors_Join (es : list error) : error := Error "errors.Join" es.

Section Levels.
(** zerolog's levels and their names. *)
Context {L : Type} (ParseLevel : string -> result L) (String_ : L -> string).

(** The state of the process: zerolog's threshold, and whether the stack
    marshaler was set. *)
Record globals := mkGlobals { GlobalLevel : L; stack_marshaler : bool }.

Definition SetLevel (g : globals) (level : string) : globals * option error :=
  match ParseLevel level with
  | Fail err => (g, Some (errors_Join [ErrInvalidLogLevel; err]))
  | Ok parsed => (mkGlobals parsed (stack_marshaler g), None)
  end.

Definition Level_String (g : globals) : string := String_ (GlobalLevel g).

Definition RFC3339 : string := "2006-01-02T15:04:05Z07:00".
Definition default_config : Config := mkConfig "info" RFC3339 true false false.

(** The logger and what is added to it; the fields of [With] start empty. *)
Definition make_logger (config : Config) : Zerolog :=
  let writer := if JSONFormat config then createJSONLogger config else createConsoleLogger config in
  mkZerolog (with_skip (mkLogger writer [] 0) 3) (Some config).

Definition New (g : globals) (config : option Config) : globals * result Zerolog :=
  let config := default default_config config in
  let g := mkGlobals (GlobalLevel g) true in
  match SetLevel g (Level_ config) with
  | (g', Some err) => (g', Fail err)
  | (g', None) => (g', Ok (make_logger config))
  end.
End Levels.
Arguments mkGlobals {L}.
Arguments GlobalLevel {L}.
Arguments stack_marshaler {L}.

Definition getStatusLevel (statusCode : Z) : Level :=
  if (200 <=? statusCode)%Z && (statusCode <? 300)%Z then InfoLevel
  else if (300 <=? statusCode)%Z && (statusCode <? 400)%Z then InfoLevel
  else if (400 <=? statusCode)%Z && (statusCode <? 500)%Z then WarnLevel
  else if (500 <=? statusCode)%Z then ErrorLevel
  else InfoLevel.

Definition Success (z : Zerolog) (msg : string) : event := emit (zl z) InfoLevel [] msg.
Definition Failure (z : Zerolog) (msg : string) : event := emit (zl z) ErrorLevel [] msg.
Definition Benchmark (z : Zerolog) (name : string) (duration : Z) : event :=
  emit (zl z) DebugLevel [("duration", AStr (duration_String duration))] ("Benchmark:" +:+ " " +:+ name).

Definition API (z : Zerolog) (method path remoteAddr : string) (statusCode duration : Z)
    (skipFrameCount : list Z) : event :=
  if String.eqb method "" || String.eqb path "" then
    emit (zl z) ErrorLevel [("method", AStr method); ("path", AStr path)] "invalid parameters for API log"
  else
    let l := match skipFrameCount with
             | n :: _ => if (0 <? n)%Z then with_skip (zl z) n else zl z
             | [] => zl z
             end in
    emit l (getStatusLevel statusCode)
      [("method", AStr method); ("path", AStr path); ("remote_addr", AStr remoteAddr);
       ("status", AInt statusCode); ("duration", AStr (duration_String (duration_Round duration Millisecond)))]
      "API Request".

(** [WithContext]: the map's entries in the order [ctx] in which the loop meets
    them. *)
Definition WithContext (z : Zerolog) (ctx : list (string * any)) : Zerolog :=
  mkZerolog (foldl (fun l kv => with_fields l [kv]) (zl z) ctx) (config z).

(** *** The wrapper [Logger] *)

Section Wrapper.
Context (fmt_g : float64 -> string) (Sprintf : string -> list any -> string).

(** [fmt.Sprint]: a space between two operands that are not strings. *)
Fixpoint Sprint (args : list any) : string :=
  match args with
  | [] => ""
  | [a] => Sprintv fmt_g a
  | a :: ((b :: _) as args') =>
      Sprintv fmt_g a +:+
      (match a, b with AStr _, _ | _, AStr _ => "" | _, _ => " " end) +:+ Sprint args'
  end.

(** zerolog's [Print] and [Printf] are documented to log at debug level. *)
Definition Print_ (z : Zerolog) (args : list any) : event := emit (zl z) DebugLevel [] (Sprint args).
Definition Debug_ (z : Zerolog) (args : list any) : event := emit (zl z) DebugLevel [] (Sprint args).
Definition Info (z : Zerolog) (args : list any) : event := emit (zl z) InfoLevel [] (Sprint args).
Definition Warn (z : Zerolog) (args : list any) : event := emit (zl z) WarnLevel [] (Sprint args).
Definition Error_ (z : Zerolog) (args : list any) : event := emit (zl z) ErrorLevel [] (Sprint args).
Definition Fatal (z : Zerolog) (args : list any) : event := emit (zl z) FatalLevel [] (Sprint args).
Definition Panic (z : Zerolog) (args : list any) : event := emit (zl z) PanicLevel [] (Sprint args).
Definition Printf (z : Zerolog) (format : string) (args : list any) : event :=
  emit (zl z) DebugLevel [] (Sprintf format args).
Definition Debugf (z : Zerolog) (format : string) (args : list any) : event :=
  emit (zl z) DebugLevel [] (Sprintf format args).
Definition Infof (z : Zerolog) (format : string) (args : list any) : event :=
  emit (zl z) InfoLevel [] (Sprintf format args).
Definition Warnf (z : Zerolog) (format : string) (args : list any) : event :=
  emit (zl z) WarnLevel [] (Sprintf format args).
Definition Errorf (z : Zerolog) (format : string) (args : list any) : event :=
  emit (zl z) ErrorLevel [] (Sprintf format args).
Definition Fatalf (z : Zerolog) (format : string) (args : list any) : event :=
  emit (zl z) FatalLevel [] (Sprintf format args).
Definition Panicf (z : Zerolog) (format : string) (args : list any) : event :=
  emit (zl z) PanicLevel [] (Sprintf format args).
End Wrapper.

(** The derived loggers keep no configuration; zerolog adds no field for a nil
    error. *)
Definition WithError (z : Zerolog) (err : option string) : Zerolog :=
  mkZerolog (with_fields (zl z) (match err with Some m => [("error", AError m)] | None => [] end)) None.
Definition WithField (z : Zerolog) (key : string) (value : any) : Zerolog :=
  mkZerolog (with_fields (zl z) [(key, value)]) None.
(** [fields] are the entries of the map in the order zerolog takes them. *)
Definition WithFields (z : Zerolog) (fields : list (string * any)) : Zerolog :=
  mkZerolog (with_fields (zl z) fields) None.

(** ** The error tree shows every detail *)

Definition not_byte (d : ascii) (c : ascii) : bool := negb (Ascii.eqb c d).
Definition key_byte (c : ascii) : bool := negb (re_space c) && negb (Ascii.eqb c "=").
Definition good_key (k : string) : bool := negb (String.eqb k "") && str_all key_byte k.
Definition good_value (v : string) : bool :=
  negb (String.eqb v "") && str_all (not_byte LF) v && negb (Contains v ", ").
Definition good_pair (kv : string * string) : bool := good_key kv.1 && good_value kv.2.
(** The details of an error as its author writes them: [k1=v1, k2=v2]. *)
Definition pair_text (kv : string * string) : string := kv.1 +:+ "=" +:+ kv.2.
Definition details (kvs : list (string * string)) : string := Join (map pair_text kvs) ", ".

(** What may follow a value. *)
Definition after_value (rest : string) : Prop := rest = "" \/ exists r, rest = ", " +:+ r.
Definition rest_of (rest : string) : string := str_drop 2 rest.

Lemma Contains_cons c s sub : Contains (String c s) sub = false ->
  HasPrefix (String c s) sub = false /\ Contains s sub = false.
Proof.
  unfold Contains. intros H%bool_decide_eq_false. cbn [Cut] in H.
  destruct (HasPrefix (String c s) sub); [destruct H; by eexists|]. split; [done|].
  apply bool_decide_eq_false. intros [[b a] E]. apply H. rewrite E. by eexists.
Qed.

Lemma HasPrefix_separator v rest : v <> "" -> HasPrefix v ", " = false -> after_value rest ->
  HasPrefix (v +:+ rest) ", " = false.
Proof.
  intros Hv H Hrest. destruct v as [|c v]; [done|]. rewrite string_app_cons. cbn [HasPrefix] in *.
  destruct (Ascii.eqb "," c); [|done]. destruct v as [|d v].
  - destruct Hrest as [->|[r ->]]; done.
  - rewrite string_app_cons. cbn [HasPrefix andb] in *. by destruct (Ascii.eqb " " d), v.
Qed.

Lemma value_match_end acc rest : acc <> "" -> after_value rest ->
  value_match acc rest = Some (acc, rest_of rest).
Proof.
  intros Hacc Hrest. apply String.eqb_neq in Hacc.
  destruct Hrest as [->|[r ->]]; [cbn; by rewrite Hacc|].
  change (", " +:+ r) with (String "," (String " " r)). cbn [value_match].
  rewrite Hacc. change (HasPrefix (String "," (String " " r)) ", ") with (HasPrefix (", " +:+ r) ", ").
  by rewrite HasPrefix_app.
Qed.

Lemma value_match_ok v : forall acc rest, acc <> "" \/ v <> "" ->
  str_all (not_byte LF) v = true -> Contains v ", " = false -> after_value rest ->
  value_match acc (v +:+ rest) = Some (acc +:+ v, rest_of rest).
Proof.
  induction v as [|c v IH]; intros acc rest Hne Hlf Hc Hrest.
  - rewrite string_app_nil_r. apply value_match_end; [naive_solver|done].
  - apply Contains_cons in Hc as [Hp Hc]. cbn [str_all] in Hlf. bool_to_prop.
    unfold not_byte in *. bool_to_prop.
    assert (Hsep := HasPrefix_separator (String c v) rest ltac:(done) Hp Hrest).
    rewrite string_app_cons in *. cbn [value_match]. rewrite Hsep, andb_false_r.
    match goal with H : Ascii.eqb c LF = false |- _ => rewrite H end.
    rewrite IH; [by rewrite <- string_app_assoc| |done..].
    left. intros []%string_app_eq_nil. done.
Qed.

Lemma key_match_ok k : forall acc v rest, acc <> "" \/ k <> "" -> str_all key_byte k = true ->
  good_value v = true -> after_value rest ->
  key_match acc (k +:+ "=" +:+ v +:+ rest) = Some (acc +:+ k, v, rest_of rest).
Proof.
  induction k as [|c k IH]; intros acc v rest Hne Hk Hv Hrest.
  - rewrite string_app_nil_l, string_app_nil_r.
    change ("=" +:+ v +:+ rest) with (String "=" (v +:+ rest)). cbn [key_match].
    destruct (string_eqb_spec acc ""); [naive_solver|]. cbn [negb andb].
    unfold good_value in Hv. bool_to_prop.
    change (Ascii.eqb "=" "=") with true. cbn iota. by rewrite value_match_ok by auto.
  - cbn [str_all] in Hk. apply andb_true_iff in Hk as [Hc Hk]. unfold key_byte in Hc. bool_to_prop.
    rewrite string_app_cons. cbn [key_match].
    match goal with H : Ascii.eqb c "=" = false |- _ => rewrite H end. rewrite andb_false_r.
    match goal with H : re_space c = false |- _ => rewrite H end.
    rewrite IH; [by rewrite <- string_app_assoc| |done..].
    left. intros []%string_app_eq_nil. done.
Qed.

Lemma find_go_match fuel s k v rest :
  key_match "" s = Some (k, v, rest) -> find_go (S fuel) s = (k, v) :: find_go fuel rest.
Proof. intros H. destruct s; [done|]. cbn [find_go]. by rewrite H. Qed.

Lemma details_cons kv kvs :
  details (kv :: kvs) = pair_text kv +:+ match kvs with [] => "" | _ => ", " +:+ details kvs end.
Proof. destruct kvs; [symmetry; apply string_app_nil_r|done]. Qed.

Lemma find_details kvs : forall fuel, Forall (fun kv => good_pair kv = true) kvs ->
  (String.length (details kvs) <= fuel)%nat -> find_go fuel (details kvs) = kvs.
Proof.
  induction kvs as [|[k v] kvs IH]; intros fuel Hg Hf; [by destruct fuel|].
  apply Forall_cons in Hg as [Hkv Hg]. unfold good_pair, good_key in Hkv. simpl in Hkv. bool_to_prop.
  rewrite details_cons in *. unfold pair_text in *. cbn [fst snd] in *.
  rewrite <- !string_app_assoc in *.
  set (rest := match kvs with [] => "" | _ => _ end) in *.
  assert (Hrest : after_value rest) by (destruct kvs; [by left|right; by eexists]).
  rewrite !string_length_app in Hf. change (String.length "=") with 1%nat in Hf.
  destruct fuel as [|fuel]; [lia|].
  erewrite find_go_match by (apply key_match_ok; [by right|done..]).
  f_equal. assert (rest_of rest = details kvs) as -> by (by destruct kvs).
  apply IH; [done|]. subst rest. destruct kvs; [simpl; lia|].
  rewrite string_length_app in Hf. lia.
Qed.

(** The details that were written are the details that are found. *)
Lemma key_values_details kvs : Forall (fun kv => good_pair kv = true) kvs ->
  key_values (details kvs) = kvs.
Proof. intros H. by apply find_details. Qed.

Lemma details_one_line kvs : Forall (fun kv => good_pair kv = true) kvs ->
  str_all (not_byte LF) (details kvs) = true.
Proof.
  induction 1 as [|[k v] kvs Hkv _ IH]; [done|]. rewrite details_cons. unfold pair_text. simpl.
  unfold good_pair, good_key, good_value in Hkv. simpl in Hkv. bool_to_prop.
  rewrite !str_all_app, !andb_true_iff. split_and!; [|done|done|].
  - assert (Hmono : forall s, str_all key_byte s = true -> str_all (not_byte LF) s = true).
    { induction s as [|c s IHs]; [done|]. simpl. intros [Hc Hs]%andb_true_iff. rewrite IHs, andb_true_r by done.
      unfold not_byte. destruct (Ascii.eqb_spec c LF) as [->|]; [done|done]. }
    by apply Hmono.
  - destruct kvs; [done|]. rewrite str_all_app, IH. done.
Qed.

Lemma bracket_match_ok a b : a <> "" -> str_all (not_byte "[") a = true -> b <> "" ->
  str_all (not_byte LF) b = true -> bracket_match (a +:+ "[" +:+ b +:+ "]") = Some (a, b).
Proof.
  intros Ha Hbr Hb Hlf. unfold bracket_match.
  change ("[" +:+ b +:+ "]") with (String "[" (b +:+ "]")). rewrite Cut_no_sep by done.
  rewrite str_rev_app. cbn [str_rev]. rewrite str_rev_involutive, Contains_byte.
  apply String.eqb_neq in Ha, Hb. rewrite Ha, Hb. change (fun c => negb (Ascii.eqb c LF)) with (not_byte LF).
  by rewrite Hlf.
Qed.

(** An annotated part of an error, a message without brackets and its details, is
    shown as a node with the trimmed message and below it one line for each pair,
    in order, with its key and its trimmed value, the last one under the closing
    branch. *)
Definition part_node (paint : list attr -> string -> string) (title lower : string -> string)
    (prefix : string) (isLast : bool) (m : string) (kvs : list (string * string)) : string :=
  String LF "" +:+ paint errStyle prefix +:+ paint errStyle (if isLast then "└──" else "├──") +:+ " "
    +:+ paint errStyle (TrimSpace m) +:+
  str_concat (imap (fun i kv =>
    String LF "" +:+ (prefix +:+ (if isLast then "    " else "│   "))
      +:+ paint errStyle (if Nat.eqb i (length kvs - 1) then "└──" else "├──") +:+ " "
      +:+ paint boldStyle (title (lower (replace_byte "_" " " (TrimSpace kv.1)))) +:+ ": "
      +:+ paint errStyle (TrimSpace kv.2)) kvs).

Lemma writeErrorTree_details (paint : list attr -> string -> string) (title lower : string -> string)
    (c : ascii) (m prefix : string) (isLast : bool) (kvs : list (string * string)) :
  str_all (not_byte "[") (String c m) = true -> c <> DQ -> kvs <> [] ->
  Forall (fun kv => good_pair kv = true) kvs ->
  writeErrorTree paint title lower (String c m +:+ "[" +:+ details kvs +:+ "]") prefix isLast
  = part_node paint title lower prefix isLast (String c m) kvs.
Proof.
  intros Hm Hc Hne Hg. unfold writeErrorTree, part_node.
  assert (Htrim : Trim (String c m +:+ "[" +:+ details kvs +:+ "]") DQ = String c m +:+ "[" +:+ details kvs +:+ "]").
  { rewrite string_app_cons, !string_app_assoc. change "]" with (String "]" "").
    apply Trim_id; [by apply Ascii.eqb_neq|done]. }
  rewrite Htrim, bracket_match_ok; [|done|done| |by apply details_one_line].
  2:{ destruct kvs as [|[k v] kvs]; [done|]. rewrite details_cons. unfold pair_text. simpl.
      intros [[_ [? _]%string_app_eq_nil]%string_app_eq_nil _]%string_app_eq_nil. done. }
  rewrite <- !string_app_assoc. do 5 f_equal. unfold writeKeyValueTree.
  rewrite key_values_details by done. f_equal. apply imap_ext. intros i [k v] Hi. simpl.
  assert (Hv : good_pair (k, v) = true) by (eapply (proj1 (Forall_lookup _ _) Hg); exact Hi).
  unfold good_pair, good_value in Hv. simpl in Hv. bool_to_prop. unfold key_value_lines.
  rewrite Split_no_sep by (by apply (TrimSpace_all (not_byte LF))). simpl. by rewrite string_app_nil_r.
Qed.

(** *** Chains of annotated errors

    The text of errors wrapped one in the other, as [fmt.Errorf] makes it of
    [m [k=v]: %w]: annotated parts, a closing bracket, a colon and a space after
    each, and at the end a plain text or one more annotated part. *)
Definition part : Type := string * list (string * string).
Definition part_open (p : part) : string := p.1 +:+ "[" +:+ details p.2.
Inductive ending := Plain (text : string) | Annotated (p : part).
Definition ending_text (e : ending) : string :=
  match e with Plain t => t | Annotated p => part_open p +:+ "]" end.
Fixpoint chain_text (ps : list part) (e : ending) : string :=
  match ps with
  | [] => ending_text e
  | p :: ps' => part_open p +:+ "]: " +:+ chain_text ps' e
  end.

(** What the formatter needs of a part: a message without brackets that does not
    start with a quotation mark, at least one pair, keys and values as above and
    without closing brackets, no white space at either end. *)
Definition good_part (p : part) : bool :=
  match p.1 with String c _ => negb (Ascii.eqb c DQ) | "" => false end
  && str_all (not_byte "[") p.1 && str_all (not_byte "]") (part_open p)
  && negb (bool_decide (p.2 = [])) && forallb good_pair p.2
  && String.eqb (TrimSpace (part_open p)) (part_open p).
Definition good_ending (e : ending) : bool :=
  match e with
  | Plain t => negb (String.eqb t "") && negb (Contains t "]: ")
  | Annotated p => good_part p && String.eqb (TrimSpace (part_open p +:+ "]")) (part_open p +:+ "]")
  end.

Lemma Cut_at (b rest sep : string) (c : ascii) :
  str_all (not_byte c) b = true ->
  Cut (b +:+ String c sep +:+ rest) (String c sep) = Some (b, rest).
Proof.
  induction b as [|d b IH]; intros Hb.
  - rewrite string_app_nil_l. change (String c sep +:+ rest) with (String c (sep +:+ rest)). cbn [Cut].
    rewrite <- string_app_cons. rewrite HasPrefix_app. by rewrite str_drop_app.
  - cbn [str_all] in Hb. apply andb_true_iff in Hb as [Hd Hb]. rewrite string_app_cons. cbn [Cut].
    unfold not_byte in Hd. cbn [HasPrefix]. rewrite Ascii.eqb_sym.
    apply negb_true_iff in Hd. rewrite Hd. cbn [andb]. by rewrite IH.
Qed.

Lemma Cut_last (b sep : string) (c d : ascii) :
  str_all (not_byte c) b = true -> Cut (b +:+ String c "") (String c (String d sep)) = None.
Proof.
  induction b as [|x b IH]; intros Hb.
  - rewrite string_app_nil_l. cbn. by rewrite Ascii.eqb_refl.
  - cbn [str_all] in Hb. apply andb_true_iff in Hb as [Hd Hb]. rewrite string_app_cons. cbn [Cut HasPrefix].
    unfold not_byte in Hd. rewrite Ascii.eqb_sym. apply negb_true_iff in Hd. rewrite Hd. cbn [andb].
    by rewrite IH.
Qed.

Lemma good_part_spec (p : part) :
  good_part p = true ->
  (exists c m, p.1 = String c m /\ c <> DQ) /\ str_all (not_byte "[") p.1 = true
  /\ str_all (not_byte "]") (part_open p) = true /\ p.2 <> []
  /\ Forall (fun kv => good_pair kv = true) p.2 /\ TrimSpace (part_open p) = part_open p.
Proof.
  unfold good_part. intros H. repeat (apply andb_true_iff in H as [H ?]). bool_to_prop.
  split_and!; try done.
  - destruct p.1 as [|c m]; [done|]. exists c, m. split; [done|]. apply negb_true_iff in H. by apply Ascii.eqb_neq.
  - by eapply bool_decide_eq_false.
  - apply Forall_forall. intros kv Hkv. eapply (proj1 (forallb_forall _ _)); [done|]. by apply list_elem_of_In.
Qed.

(** The message and the details of a part are shown. *)
Lemma part_shown (paint : list attr -> string -> string) (title lower : string -> string) (last : bool) (p : part) :
  good_part p = true ->
  writeErrorTree paint title lower (part_open p +:+ "]") "" last = part_node paint title lower "" last p.1 p.2.
Proof.
  intros ((c & m & Hm & Hc) & Hbr & _ & Hne & Hg & _)%good_part_spec. unfold part_open.
  rewrite Hm in *. rewrite <- !string_app_assoc. by apply writeErrorTree_details.
Qed.

Lemma split_chain (e : ending) : good_ending e = true -> forall ps fuel,
  forallb good_part ps = true -> (String.length (chain_text ps e) <= fuel)%nat ->
  split_go fuel (chain_text ps e) "]: " = (map part_open ps ++ [ending_text e])%list.
Proof.
  intros He. induction ps as [|p ps IH]; intros fuel Hps Hf.
  - assert (Hn : Cut (ending_text e) "]: " = None).
    { destruct e as [t|p]; cbn [good_ending ending_text] in *; apply andb_true_iff in He as [He1 He2].
      - unfold Contains in He2. apply negb_true_iff, bool_decide_eq_false in He2.
        by apply eq_None_not_Some.
      - apply good_part_spec in He1 as (_ & _ & Hb & _). by apply (Cut_last (part_open p) " " "]" ":"). }
    cbn [chain_text map app]. destruct fuel; cbn [split_go]; by rewrite ?Hn.
  - cbn [forallb] in Hps. apply andb_true_iff in Hps as [Hp Hps].
    apply good_part_spec in Hp as (_ & _ & Hb & _). cbn [chain_text] in *.
    rewrite !string_length_app in Hf. change (String.length "]: ") with 3%nat in Hf.
    destruct fuel as [|fuel]; [lia|]. cbn [split_go].
    change ("]: " +:+ chain_text ps e) with (String "]" ": " +:+ chain_text ps e).
    rewrite (Cut_at (part_open p) (chain_text ps e) ": " "]") by done.
    cbn [map app]. f_equal. apply IH; [done|lia].
Qed.

(** [C36] The details of a chain of annotated errors are shown.  For an error
    written as [m1 [k=v, ...]: m2 [k=v, ...]: ...], ending in a plain text or one
    more annotated part, the console shows a node for each part in order, with
    its trimmed message and below it one line for each of its pairs, in order, and
    the last branch closes with the ending.  This is so for the parts [good_part]
    describes: messages without brackets, keys without spaces or equal signs, values
    on one line without a comma followed by a space, and no closing bracket inside;
    of other texts details are lost ([details_lost]). *)
Theorem formatError_details (paint : list attr -> string -> string) (title lower : string -> string)
    (ps : list part) (e : ending) :
  forallb good_part ps = true -> good_ending e = true ->
  formatError paint title lower (AError (chain_text ps e))
  = str_concat (map (fun p => part_node paint title lower "" false p.1 p.2) ps)
    +:+ match e with
        | Plain t => writeErrorTree paint title lower (TrimSpace t) "" true
        | Annotated p => part_node paint title lower "" true p.1 p.2
        end.
Proof.
  intros Hps He. unfold formatError. cbn [extractErrorString].
  assert (Hne : String.eqb (chain_text ps e) "" = false).
  { apply String.eqb_neq. destruct ps as [|p ps]; cbn [chain_text].
    - destruct e as [t|p]; cbn [good_ending ending_text] in *; apply andb_true_iff in He as [He _].
      + by apply negb_true_iff, String.eqb_neq in He.
      + by intros [_ ?]%string_app_eq_nil.
    - by intros [_ [? _]%string_app_eq_nil]%string_app_eq_nil. }
  rewrite Hne. unfold SplitS. rewrite split_chain by done. rewrite length_app, length_map. cbn [length].
  rewrite Nat.add_1_r, Nat.sub_succ, Nat.sub_0_r. rewrite imap_app, str_concat_app. f_equal.
  - f_equal. change (map part_open ps) with (part_open <$> ps). rewrite imap_fmap, <- imap_const.
    apply imap_ext. intros i p Hi. cbn [compose].
    assert (Hp : good_part p = true).
    { eapply forallb_forall; [exact Hps|]. apply list_elem_of_In. by eapply list_elem_of_lookup_2. }
    apply lookup_lt_Some in Hi. destruct (Nat.ltb_spec i (length ps)); [|lia].
    rewrite (proj2 (Nat.eqb_neq i (length ps))) by lia.
    rewrite (proj2 (proj2 (proj2 (proj2 (proj2 (good_part_spec p Hp)))))). by apply part_shown.
  - cbn [imap str_concat]. rewrite length_map, Nat.add_0_r, Nat.ltb_irrefl, Nat.eqb_refl, string_app_nil_r.
    destruct e as [t|p]; [done|]. cbn [good_ending ending_text] in *.
    apply andb_true_iff in He as [He Ht%String.eqb_eq]. rewrite Ht. by apply part_shown.
Qed.

Lemma formatError_details_witness :
  formatError bare id id (AError "load user [id=7, user_name=ann b]: query [table=users]: connection refused")
  = String LF "├── load user" +:+ String LF "│   ├── id: 7" +:+ String LF "│   └── user name: ann b"
    +:+ String LF "├── query" +:+ String LF "│   └── table: users" +:+ String LF "└── connection refused".
Proof.
  etransitivity; [apply (formatError_details bare id id [("load user ", [("id", "7"); ("user_name", "ann b")]);
                                                          ("query ", [("table", "users")])]
                           (Plain "connection refused"))|]; by vm_compute.
Defined.

(** Details that are not pairs do not reach the console. *)
Lemma key_values_none (s : string) : str_all (not_byte "=") s = true -> key_values s = [].
Proof.
  assert (Hk : forall s acc, str_all (not_byte "=") s = true -> key_match acc s = None).
  { clear s. induction s as [|c s IH]; intros acc H; [done|]. simpl in H. apply andb_true_iff in H as [Hc Hs].
    unfold not_byte in Hc. bool_to_prop. cbn [key_match]. rewrite Hc, andb_false_r.
    by destruct (re_space c); [|apply IH]. }
  unfold key_values. generalize (String.length s) as fuel. intros fuel. revert s.
  induction fuel as [|fuel IH]; intros s H; [done|]. destruct s as [|c s]; [done|].
  cbn [find_go]. rewrite Hk by done. apply IH. simpl in H. by apply andb_true_iff in H as [_ ?].
Qed.

Lemma details_lost :
  formatError bare id id (AError "dial [timeout after 5s]") = String LF "└── dial" /\
  formatError bare id id (AError "dial [reason=refused, try again]") =
    String LF "└── dial" +:+ String LF "    └── reason: refused" /\
  formatError bare id id (AError "fetch items[0] [id=7]") =
    String LF "└── fetch items" +:+ String LF "    └── [id: 7" /\
  formatError bare id id (AError "dial [addr=[::1]: 80, try=2]") =
    String LF "├── dial" +:+ String LF "│   └── addr: [::1" +:+ String LF "└── 80, try=2]".
Proof. by vm_compute. Qed.

(** ** The columns of a line *)

(** Every message takes its column.  A message on one line, of ASCII characters,
    is shown in exactly 65 of them: cut when it is longer, padded with spaces when
    it is shorter. *)
Theorem formatMessage_column (paint : list attr -> string -> string) (msg : string) :
  msg <> "" -> str_all is_ascii msg = true -> str_all (not_byte LF) msg = true ->
  formatMessage paint (AStr msg) = paint messageColor ("│ " +:+ column maxMessageSize msg) /\
  String.length (column maxMessageSize msg) = maxMessageSize.
Proof.
  intros Hne Ha Hlf. split; [|apply length_column]. unfold formatMessage.
  apply String.eqb_neq in Hne. rewrite Hne, Contains_byte.
  change (fun c => negb (Ascii.eqb c LF)) with (not_byte LF). rewrite Hlf. cbn [negb].
  by rewrite cut_or_pad.
Qed.

Lemma formatMessage_column_witness :
  formatMessage bare (AStr "ready") = "│ ready" +:+ Repeat 60 " ".
Proof.
  etransitivity; [apply (formatMessage_column bare "ready")|]; by vm_compute.
Defined.

(** A longer message is cut at a byte, and a character may lose its end. *)
Lemma formatMessage_cuts_characters :
  valid_utf8 (Repeat 33 "é") = true /\ valid_utf8 (formatMessage bare (AStr (Repeat 33 "é"))) = false.
Proof. split; vm_compute; reflexivity. Qed.

(** A message of several lines keeps each of them, behind a bar. *)
Lemma formatMultilineMessage_lines (msg : string) :
  Split (formatMultilineMessage bare msg) LF = map (fun line => "│ " +:+ line) (Split msg LF).
Proof.
  unfold formatMultilineMessage, bare. pose proof (Split_parts msg LF) as Hp.
  pose proof (Split_not_nil msg LF) as Hne. destruct (Split msg LF) as [|h t]; [done|]. clear Hne.
  revert h Hp. induction t as [|h' t IH]; intros h Hp; apply Forall_cons in Hp as [Hh Ht].
  - cbn [map Join]. apply Split_no_sep. by rewrite str_all_app, Hh.
  - cbn [map]. change (Join (?a :: ?b :: ?l) (String LF "")) with (a +:+ String LF (Join (b :: l) (String LF ""))).
    rewrite Split_app_sep by (by rewrite str_all_app, Hh). f_equal. by apply IH.
Qed.

(** ** The constructor and the levels *)

(** A logger is made with a valid level or not at all.  [New] fails exactly when
    zerolog refuses the level, with an error that says so, and the threshold of
    the process is then what it was; otherwise the threshold is the level asked
    for, the default configuration stands in for a nil one, and the console
    formatter is in place exactly for a coloured console. *)
Theorem New_level {L : Type} (ParseLevel : string -> result L) (g : globals) (cfg : option Config) :
  let c := default default_config cfg in
  match New ParseLevel g cfg with
  | (g', Fail e) =>
      (exists err, ParseLevel (Level_ c) = Fail err) /\
      errors_Is e ErrInvalidLogLevel = true /\ GlobalLevel g' = GlobalLevel g
  | (g', Ok z) =>
      ParseLevel (Level_ c) = Ok (GlobalLevel g') /\ config z = Some c /\
      (Formatter (writer (zl z)) = Some c <-> Colored c = true /\ JSONFormat c = false) /\
      NoColor (writer (zl z)) = negb (Colored c) /\ skip (zl z) = 3%Z
  end.
Proof.
  intros c. unfold New, SetLevel. fold c. destruct (ParseLevel (Level_ c)) as [l|e] eqn:E.
  - split_and!; [done|done| |by cbn; destruct (JSONFormat c)|done].
    cbn. destruct (JSONFormat c); cbn; [naive_solver|]. destruct (Colored c); naive_solver.
  - split_and!; [by eexists| |done]. apply errors_Is_wrap2_l, errors_Is_refl.
Qed.

(** [API] logs one record: an error when the method or the path is missing, and
    otherwise the five fields at the level of the status. *)
Lemma API_level (z : Zerolog) (method path remote : string) (status d : Z) (skips : list Z) :
  ev_level (API z method path remote status d skips) =
  (if bool_decide (method = "" \/ path = "") then ErrorLevel
   else if (500 <=? status)%Z then ErrorLevel
   else if (400 <=? status)%Z then WarnLevel else InfoLevel).
Proof.
  unfold API. rewrite !bool_decide_string_eqb. rewrite <- bool_decide_or.
  case_bool_decide; [done|]. simpl. unfold getStatusLevel.
  destruct (Z.leb_spec 200 status), (Z.ltb_spec status 300), (Z.leb_spec 300 status), (Z.ltb_spec status 400),
    (Z.leb_spec 400 status), (Z.ltb_spec status 500), (Z.leb_spec 500 status); simpl; try done; lia.
Qed.

(** A derived logger has the fields of its parent before its own; the parent is
    a value and keeps its own. *)
Lemma WithContext_fields (z : Zerolog) (ctx : list (string * any)) :
  context (zl (WithContext z ctx)) = (context (zl z) ++ ctx)%list.
Proof.
  unfold WithContext. cbn [zl]. generalize (zl z) as l. induction ctx as [|kv ctx IH]; intros l.
  - by rewrite app_nil_r.
  - simpl. rewrite IH. simpl. by rewrite <- app_assoc.
Qed.

(** ** logger/zerolog: the earlier copy

    Its functions are those of logger, word for word, on the same data, and are
    named here as such; only its constructor is written differently: it sets the
    threshold itself, as the copy has no [SetLevel]. *)
Module Legacy.
(** formatter.go *)
Definition formatLevel := Logger.formatLevel.
Definition formatUnknownLevel := Logger.formatUnknownLevel.
Definition formatMessage := Logger.formatMessage.
Definition formatMultilineMessage := Logger.formatMultilineMessage.
Definition formatCaller := Logger.formatCaller.
Definition formatFileName := Logger.formatFileName.
Definition formatLineNumber := Logger.formatLineNumber.
Definition formatTimestamp := Logger.formatTimestamp.
Definition formatFieldName := Logger.formatFieldName.
Definition formatError := Logger.formatError.
Definition writeKeyValueTree := Logger.writeKeyValueTree.
Definition formatFieldValue := Logger.formatFieldValue.
(** helper.go *)
Definition createJSONLogger := Logger.createJSONLogger.
Definition createConsoleLogger := Logger.createConsoleLogger.
Definition extractErrorString := Logger.extractErrorString.
Definition writeErrorTree := Logger.writeErrorTree.
(** zerolog.go *)
Definition logLevels := Logger.logLevels.
Definition getStatusLevel := Logger.getStatusLevel.
Definition Success := Logger.Success.
Definition Failure := Logger.Failure.
Definition Benchmark := Logger.Benchmark.
Definition API := Logger.API.
Definition WithContext := Logger.WithContext.
(** logger.go *)
Definition Print_ := Logger.Print_.
Definition Debug_ := Logger.Debug_.
Definition Info := Logger.Info.
Definition Warn := Logger.Warn.
Definition Error_ := Logger.Error_.
Definition Fatal := Logger.Fatal.
Definition Panic := Logger.Panic.
Definition Printf := Logger.Printf.
Definition Debugf := Logger.Debugf.
Definition Infof := Logger.Infof.
Definition Warnf := Logger.Warnf.
Definition Errorf := Logger.Errorf.
Definition Fatalf := Logger.Fatalf.
Definition Panicf := Logger.Panicf.
Definition WithError := Logger.WithError.
Definition WithField := Logger.WithField.
Definition WithFields := Logger.WithFields.

(** [New] of the copy. *)
Definition New {L : Type} (ParseLevel : string -> result L) (g : globals) (config : option Config)
  : globals * result Zerolog :=
  let config := default default_config config in
  let g := mkGlobals (GlobalLevel g) true in
  match ParseLevel (Level_ config) with
  | Fail err => (g, Fail (errors_Join [ErrInvalidLogLevel; err]))
  | Ok logMode => (mkGlobals logMode (stack_marshaler g), Ok (make_logger config))
  end.

(** The copy makes the same loggers, with the same effect. *)
Theorem New_same {L : Type} (ParseLevel : string -> result L) (g : globals) (cfg : option Config) :
  New ParseLevel g cfg = Logger.New ParseLevel g cfg.
Proof. unfold New, Logger.New, SetLevel. by destruct (ParseLevel _). Qed.
End Legacy.
