(* ===== verification/Terminal.v ===== *)
(** * cli/print.go: banners and headers on the terminal

    What is printed is a text; the system's answers, go-figure's banners and
    goterm's colours are arguments. *)
From S2P Require Import Prelude GoNum GoText GoFmt.
From Stdlib Require Import Ascii.
Local Open Scope string_scope.

Definition separator : string := Repeat 60 "-".
Definition fonts : list string := ["lean"; "larry3d"; "nipples"; "doom"; "graffiti"].

Definition ErrEmptyFontsList := errors_New "cli.ErrEmptyFontsList".
Definition ErrOSReleaseNotFound := errors_New "cli.ErrOSReleaseNotFound".
Definition ErrReadOSReleaseFailed := errors_New "cli.ErrReadOSReleaseFailed".
Definition ErrDistributionNotFound := errors_New "cli.ErrDistributionNotFound".
Definition ErrHostnameFailed := errors_New "cli.ErrHostnameFailed".
Definition ErrKernelVersionFailed := errors_New "cli.ErrKernelVersionFailed".

(** ** Printing *)

(** [string(char)] for the characters of a [range] loop: a byte that starts none
    is read as the replacement character, and printed as it. *)
Definition rune_string (u : Z * string) : string := if valid_unit u then u.2 else "�".

(** [delayedPrint]: the text printed, and the pauses made between characters. *)
Definition delayedPrint (text : string) (delayed : bool) (delay : list Z) : string * list Z :=
  let d := match delay with d :: _ => d | [] => (2 * Millisecond)%Z end in
  (str_concat (map rune_string (runes text)) +:+ String LF "",
   if delayed then map (fun _ => d) (runes text) else []).

Definition printed (text : string) : string := (delayedPrint text false []).1.
Definition printSeparator : string := printed separator.

(** [PrintBanner]; [choice] is what [rand.Intn] answers, [figure] the banner. *)
Definition PrintBanner (fonts : list string) (choice : nat) (figure : string -> string -> string)
    (appName : string) : result string :=
  match fonts !! choice with
  | None => Fail ErrEmptyFontsList
  | Some font => Ok (figure appName font +:+ printSeparator)
  end.

(** ** The system *)

(** The first line that names the distribution decides. *)
Fixpoint find_name (lines : list string) : result string :=
  match lines with
  | [] => Fail ErrDistributionNotFound
  | line :: lines' =>
      if HasPrefix line "NAME=" then
        let name := Trim (str_drop 5 line) DQ in
        if String.eqb name "" then Fail ErrDistributionNotFound else Ok name
      else find_name lines'
  end.
Definition getLinuxDistribution (IsNotExist : error -> bool) (ReadFile : result string) : result string :=
  match ReadFile with
  | Fail err => if IsNotExist err then Fail ErrOSReleaseNotFound
                else Fail (Error "getLinuxDistribution" [ErrReadOSReleaseFailed; err])
  | Ok data => find_name (Split data LF)
  end.

Definition getHostname (Hostname : result string) : result string :=
  match Hostname with
  | Fail err => Fail (Error "getHostname" [ErrHostnameFailed; err])
  | Ok host => Ok host
  end.

Definition getKernelVersion (uname : result string) : result string :=
  match uname with
  | Fail err => Fail (Error "getKernelVersion" [ErrKernelVersionFailed; err])
  | Ok out =>
      let version := TrimSpace out in
      if String.eqb version "" then Fail ErrKernelVersionFailed else Ok version
  end.

Record system := mkSystem {
  GOOS : string; GOARCH : string; NumCPU : Z;
  os_release : result string; IsNotExist : error -> bool;
  hostname : result string; uname : result string;
}.

(** [PrintHeader]: a fact that cannot be had leaves its line out. *)
Definition known_line (what : string) (r : result string) : list string :=
  match r with Ok v => [what +:+ v] | Fail _ => [] end.
Definition header_lines (sys : system) (content : string) : list string :=
  ([content; "S.O.: " +:+ GOOS sys; "Architecture: " +:+ GOARCH sys;
    "Available CPUs: " +:+ Itoa (NumCPU sys)] ++
   known_line "S.O Dist.: " (getLinuxDistribution (IsNotExist sys) (os_release sys)) ++
   known_line "Hostname: " (getHostname (hostname sys)) ++
   known_line "Kernel version: " (getKernelVersion (uname sys)))%list.
Definition PrintHeader (green : string -> string) (sys : system) (content : string) : string :=
  printSeparator +:+ str_concat (map (fun line => printed (green line)) (header_lines sys content)) +:+ printSeparator.
Definition PrintText (cyan : string -> string) (text : string) : string := printed (cyan text).

(** ** Theorems *)

(** Text that is UTF-8 is printed as it is. *)
Lemma printed_valid (text : string) : valid_utf8 text = true -> printed text = text +:+ String LF "".
Proof.
  intros H. unfold printed, delayedPrint. cbn [fst]. f_equal. rewrite <- (raw_runes text) at 2. unfold raw.
  unfold valid_utf8 in H. induction (runes text) as [|u us IH]; [done|]. simpl in H.
  apply andb_true_iff in H as [Hu Hus]. simpl. unfold rune_string at 1. by rewrite Hu, IH.
Qed.

(** The distribution of a file of lines is the value of its first [NAME=] line,
    without its quotes, and is never empty. *)
Theorem getLinuxDistribution_first (notexist : error -> bool) (before : list string) (value : string)
    (rest : string) :
  Forall (fun line => HasPrefix line "NAME=" = false /\ str_all (fun c => negb (Ascii.eqb c LF)) line = true) before ->
  str_all (fun c => negb (Ascii.eqb c LF)) value = true ->
  getLinuxDistribution notexist
    (Ok (str_concat (map (fun line => line +:+ String LF "") before) +:+ "NAME=" +:+ value +:+ String LF rest))
  = if String.eqb (Trim value DQ) "" then Fail ErrDistributionNotFound else Ok (Trim value DQ).
Proof.
  intros Hb Hv. unfold getLinuxDistribution. induction Hb as [|line before [Hp Hlf] _ IH].
  - cbn [map str_concat]. rewrite string_app_nil_l, string_app_assoc.
    rewrite Split_app_sep by (by rewrite str_all_app, Hv). cbn [find_name]. rewrite HasPrefix_app.
    by change 5%nat with (String.length "NAME="); rewrite str_drop_app.
  - cbn [map str_concat]. rewrite <- !string_app_assoc. change (String LF "" +:+ ?t) with (String LF t).
    rewrite Split_app_sep by done. cbn [find_name]. rewrite Hp. exact IH.
Qed.

Lemma getLinuxDistribution_first_witness :
  getLinuxDistribution (fun _ => false)
    (Ok ("ID=debian" +:+ String LF ("NAME=" +:+ String DQ ("Debian" +:+ String DQ (String LF "NAME=x")))))
  = Ok "Debian".
Proof.
  etransitivity; [apply (getLinuxDistribution_first (fun _ => false) ["ID=debian"]
    (String DQ ("Debian" +:+ String DQ "")) "NAME=x")|by vm_compute].
  - by repeat constructor.
  - done.
Defined.

(** A header has its four lines whatever the system answers, and one more for
    each fact the system gives. *)
Lemma header_lines_always (sys : system) (content : string) :
  take 4 (header_lines sys content)
  = [content; "S.O.: " +:+ GOOS sys; "Architecture: " +:+ GOARCH sys; "Available CPUs: " +:+ Itoa (NumCPU sys)]
  /\ (length (header_lines sys content) <= 7)%nat.
Proof.
  split; [done|]. unfold header_lines, known_line. rewrite !length_app.
  repeat case_match; simpl; lia.
Qed.
